(** * ezMidi: a shallow embedding of the codec, the player and the time map

    The C sources embedded here are [ezMidi.h] and [ezMidi.c].  Every C
    integer is a [Z] whose wrap-around is written out ([u8], [u16],
    [u32]); a [char] buffer is a [list Z] of octets; a pointer into a
    buffer is the buffer with its first bytes dropped.  Reading outside a
    buffer, dividing by zero and using an object that was never
    initialised end a run with [Undefined].  The loops whose number of
    turns is not bounded by their data take a [fuel] and end with
    [OutOfFuel] when it is used up.  Allocation ([malloc], [realloc],
    [calloc]) always succeeds. *)

From Stdlib Require Import ZArith List Lia Bool String.
From stdpp Require Import base option list.

Local Open Scope Z_scope.

(** ** Machine integers *)

Definition UINT32_MAX : Z := 4294967295.

Definition u8 (x : Z) : Z := x mod 256.
Definition u16 (x : Z) : Z := x mod 65536.
Definition u32 (x : Z) : Z := x mod 4294967296.

(** The [min] macro of the player. *)
Definition min (a b : Z) : Z := if a <? b then a else b.

(** ** Results of a run *)

Inductive result (A : Type) : Type :=
| Ok (a : A)
| Undefined
| OutOfFuel.

Arguments Ok {A} a.
Arguments Undefined {A}.
Arguments OutOfFuel {A}.

#[global] Instance result_ret : MRet result := fun A a => Ok a.

#[global] Instance result_bind : MBind result := fun A B f m =>
  match m with
  | Ok a => f a
  | Undefined => Undefined
  | OutOfFuel => OutOfFuel
  end.

(** [buffer[i]] for a buffer of known extent. *)
Definition byte_at (buffer : list Z) (i : Z) : result Z :=
  if i <? 0 then Undefined
  else match buffer !! Z.to_nat i with
       | Some b => Ok b
       | None => Undefined
       end.

(** [&buffer[i]]. *)
Definition buffer_from (buffer : list Z) (i : Z) : list Z :=
  drop (Z.to_nat i) buffer.

(** ** Big-endian helpers *)

Definition u32fromarray (arr : list Z) : result Z :=
  a0 ← byte_at arr 0; a1 ← byte_at arr 1;
  a2 ← byte_at arr 2; a3 ← byte_at arr 3;
  Ok (u32 (u32 (u32 (a0 * 256 + a1) * 256 + a2) * 256 + a3)).

Definition u32toarray (value : Z) : list Z :=
  [ Z.land (Z.shiftr value 24) 255; Z.land (Z.shiftr value 16) 255;
    Z.land (Z.shiftr value 8) 255; Z.land value 255 ].

Definition u16fromarray (arr : list Z) : result Z :=
  a0 ← byte_at arr 0; a1 ← byte_at arr 1;
  Ok (u16 (a0 * 256 + a1)).

Definition u16toarray (value : Z) : list Z :=
  [ Z.land (Z.shiftr value 8) 255; Z.land value 255 ].

(** ** Variable-length quantities *)

(** The [do ... while (read >= 128)] loop of [ReadVariableLength].  The
    buffer pointer advances with every byte, so the loop is structural in
    the buffer.  The pair is the returned [int] and the final
    [*outvalue]. *)
Fixpoint ReadVariableLength_loop (buffer : list Z) (bufflen : Z)
    (size_read : Z) (outvalue : Z) : result (Z * Z) :=
  if size_read >=? bufflen then Ok (-1, outvalue)
  else
    match buffer with
    | [] => Undefined
    | read :: buffer =>
        let size_read := size_read + 1 in
        if read <? 128 then Ok (size_read, u32 (outvalue + read))
        else
          let outvalue := u32 (outvalue + (read - 128)) in
          let outvalue := u32 (outvalue * 128) in
          ReadVariableLength_loop buffer bufflen size_read outvalue
    end.

Definition ReadVariableLength (buffer : list Z) (bufflen : Z) : result (Z * Z) :=
  ReadVariableLength_loop buffer bufflen 0 0.

(** [while ((v /= 128) > 0) i++;]: a [uint32_t] is zero after five
    divisions by 128, which bounds the number of turns. *)
Fixpoint WriteVariableLength_count (turns : nat) (v i : Z) : Z :=
  match turns with
  | O => i
  | S turns =>
      let v := v / 128 in
      if v >? 0 then WriteVariableLength_count turns v (i + 1) else i
  end.

(** [while (i--) buffer[i] = ((value /= 128) & 0x7F) | 0x80;] with the
    bytes already stored at [buffer[i ..]] in [stored]. *)
Fixpoint WriteVariableLength_back (i : nat) (value : Z) (stored : list Z) : list Z :=
  match i with
  | O => stored
  | S i =>
      let value := value / 128 in
      WriteVariableLength_back i value (Z.lor (Z.land value 127) 128 :: stored)
  end.

(** The returned [int] and the bytes stored at [buffer[0 .. j)]. *)
Definition WriteVariableLength (bufflen : Z) (value : Z) : Z * list Z :=
  let i := WriteVariableLength_count 5 value 0 in
  let j := i + 1 in
  if j >? bufflen then (-1, [])
  else (j, WriteVariableLength_back (Z.to_nat i) value [Z.land value 127]).

(** ** Events *)

(** [MidiEventType_t]: the type byte. *)
Definition MidiEventType_t := Z.

Definition Midi_Event_Type_Text : Z := 0x01.
Definition Midi_Event_Type_Copyright : Z := 0x02.
Definition Midi_Event_Type_SequenceName : Z := 0x03.
Definition Midi_Event_Type_InstrumentName : Z := 0x04.
Definition Midi_Event_Type_Lyric : Z := 0x05.
Definition Midi_Event_Type_Marker : Z := 0x06.
Definition Midi_Event_Type_CuePoint : Z := 0x07.
Definition Midi_Event_Type_ProgramName : Z := 0x08.
Definition Midi_Event_Type_SequenceNumber : Z := 0x00.
Definition Midi_Event_Type_ChannelPrefix : Z := 0x20.
Definition Midi_Event_Type_MidiPort : Z := 0x21.
Definition Midi_Event_Type_EndOfTrack : Z := 0x2F.
Definition Midi_Event_Type_SetTempo : Z := 0x51.
Definition Midi_Event_Type_SMPTEoffset : Z := 0x54.
Definition Midi_Event_Type_TimeSignature : Z := 0x58.
Definition Midi_Event_Type_KeySignature : Z := 0x59.
Definition Midi_Event_Type_SysEx : Z := 0x7F.
Definition Midi_Event_Type_SysEx2 : Z := 0xF0.
Definition Midi_Event_Type_NoteOn : Z := 0x90.
Definition Midi_Event_Type_NoteOff : Z := 0x80.
Definition Midi_Event_Type_PolyphonicKeyPressure : Z := 0xA0.
Definition Midi_Event_Type_ControlChange : Z := 0xB0.
Definition Midi_Event_Type_ProgramChange : Z := 0xC0.
Definition Midi_Event_Type_ChannelPressure : Z := 0xD0.
Definition Midi_Event_Type_PitchWheelChange : Z := 0xE0.

Definition MidiEventData_Text_Max_Length : Z := 255.

(** What the [void* data] of an event points to: one of the
    [MidiEventData_*_t] structs, or allocated memory nothing was stored
    in ([Data_Uninit]). *)
Inductive MidiEventData : Type :=
| Data_Text (length : Z) (text : list Z)
| Data_SequenceNumber (number : Z)
| Data_ChannelPrefix (channel : Z)
| Data_MidiPort (port : Z)
| Data_SetTempo (tempo : Z)
| Data_SMPTEoffset (hr mn se fr ff : Z)
| Data_TimeSignature (nn dd cc bb : Z)
| Data_KeySignature (sf mi : Z)
| Data_NoteEvent (channel key velocity OnOff : Z)
| Data_PolyphonicKeyPressure (channel key pressure : Z)
| Data_ControlChange (channel control value : Z)
| Data_ProgramChange (channel program : Z)
| Data_ChannelPressure (channel pressure : Z)
| Data_PitchWheelChange (channel wheel : Z)
| Data_Uninit.

(** [read_data]: the returned [int] and what was stored through
    [data_ptr] ([None]: nothing). *)
Definition read_data_t : Type := list Z -> Z -> result (Z * option MidiEventData).

(** [write_data]: the bytes stored at [buffer_ptr]; the returned [int] is
    their number.  Of the event the functions use [event->interface->type]
    and [event->data]. *)
Definition write_data_t : Type := Z -> option MidiEventData -> result (list Z).

Record MidiEventInterface_t : Type := {
  type : Z;
  description : string;
  alloc_size : Z;
  read_data : read_data_t;
  write_data : write_data_t;
}.

Definition declare_len (buffer_ptr : list Z) : result Z := byte_at buffer_ptr 0.
Definition read_integer_at (buffer_ptr : list Z) (i : Z) : result Z := byte_at buffer_ptr i.

(** [assert_len(desired_len)] returns -1 from the reader before anything
    is stored. *)
Definition assert_len (len desired_len : Z)
    (k : result (Z * option MidiEventData)) : result (Z * option MidiEventData) :=
  if negb (len =? desired_len) then Ok (-1, None) else k.

(** The characters [sprintf(text, "%.*s", len, src)] copies: at most
    [len], and none from the first zero byte on. *)
Fixpoint sprintf_precision (len : nat) (src : list Z) : result (list Z) :=
  match len with
  | O => Ok []
  | S len =>
      match src with
      | [] => Undefined
      | c :: src =>
          if c =? 0 then Ok []
          else cs ← sprintf_precision len src; Ok (c :: cs)
      end
  end.

Definition read_data_Text : read_data_t := fun buffer_ptr type =>
  len ← declare_len buffer_ptr;
  if len >? MidiEventData_Text_Max_Length - 1 then Ok (-1, None)
  else
    cs ← sprintf_precision (Z.to_nat len) (buffer_from buffer_ptr 1);
    let text := cs ++ replicate (Z.to_nat MidiEventData_Text_Max_Length - length cs) 0 in
    Ok (1 + len, Some (Data_Text len text)).

Definition write_data_Text : write_data_t := fun itype data =>
  match data with
  | Some (Data_Text len text) =>
      if Z.of_nat (length text) <? len then Undefined
      else if itype =? Midi_Event_Type_SysEx2
      then Ok ([u8 Midi_Event_Type_SysEx2; u8 len] ++ take (Z.to_nat len) text)
      else Ok ([u8 0xFF; u8 itype; u8 len] ++ take (Z.to_nat len) text)
  | _ => Undefined
  end.

Definition read_data_SequenceNumber : read_data_t := fun buffer_ptr type =>
  len ← declare_len buffer_ptr;
  assert_len len 2 (
    b1 ← read_integer_at buffer_ptr 1; b2 ← read_integer_at buffer_ptr 2;
    Ok (3, Some (Data_SequenceNumber (u16 (b1 * 256 + b2))))).

Definition write_data_SequenceNumber : write_data_t := fun itype data =>
  match data with
  | Some (Data_SequenceNumber number) =>
      Ok [u8 0xFF; u8 Midi_Event_Type_SequenceNumber; 2; u8 (number / 256); u8 (number mod 256)]
  | _ => Undefined
  end.

Definition read_data_ChannelPrefix : read_data_t := fun buffer_ptr type =>
  len ← declare_len buffer_ptr;
  assert_len len 1 (
    b1 ← read_integer_at buffer_ptr 1;
    Ok (2, Some (Data_ChannelPrefix b1))).

Definition write_data_ChannelPrefix : write_data_t := fun itype data =>
  match data with
  | Some (Data_ChannelPrefix channel) =>
      Ok [u8 0xFF; u8 Midi_Event_Type_ChannelPrefix; 1; u8 channel]
  | _ => Undefined
  end.

Definition read_data_MidiPort : read_data_t := fun buffer_ptr type =>
  len ← declare_len buffer_ptr;
  assert_len len 1 (
    b1 ← read_integer_at buffer_ptr 1;
    Ok (2, Some (Data_MidiPort b1))).

Definition write_data_MidiPort : write_data_t := fun itype data =>
  match data with
  | Some (Data_MidiPort port) =>
      Ok [u8 0xFF; u8 Midi_Event_Type_MidiPort; 1; u8 port]
  | _ => Undefined
  end.

Definition read_data_SetTempo : read_data_t := fun buffer_ptr type =>
  len ← declare_len buffer_ptr;
  assert_len len 3 (
    b1 ← read_integer_at buffer_ptr 1; b2 ← read_integer_at buffer_ptr 2;
    b3 ← read_integer_at buffer_ptr 3;
    Ok (4, Some (Data_SetTempo (u32 ((b1 * 256 + b2) * 256 + b3))))).

Definition write_data_SetTempo : write_data_t := fun itype data =>
  match data with
  | Some (Data_SetTempo tempo) =>
      Ok [u8 0xFF; u8 Midi_Event_Type_SetTempo; 3;
          Z.land (Z.shiftr tempo 16) 255; Z.land (Z.shiftr tempo 8) 255; Z.land tempo 255]
  | _ => Undefined
  end.

Definition read_data_SMPTEoffset : read_data_t := fun buffer_ptr type =>
  len ← declare_len buffer_ptr;
  assert_len len 5 (
    b1 ← read_integer_at buffer_ptr 1; b2 ← read_integer_at buffer_ptr 2;
    b3 ← read_integer_at buffer_ptr 3; b4 ← read_integer_at buffer_ptr 4;
    b5 ← read_integer_at buffer_ptr 5;
    Ok (6, Some (Data_SMPTEoffset b1 b2 b3 b4 b5))).

(** The body is [/* TODO */ return 0;]: nothing is stored. *)
Definition write_data_SMPTEoffset : write_data_t := fun itype data => Ok [].

Definition read_data_TimeSignature : read_data_t := fun buffer_ptr type =>
  len ← declare_len buffer_ptr;
  assert_len len 4 (
    b1 ← read_integer_at buffer_ptr 1; b2 ← read_integer_at buffer_ptr 2;
    b3 ← read_integer_at buffer_ptr 3; b4 ← read_integer_at buffer_ptr 4;
    Ok (5, Some (Data_TimeSignature b1 b2 b3 b4))).

Definition write_data_TimeSignature : write_data_t := fun itype data =>
  match data with
  | Some (Data_TimeSignature nn dd cc bb) =>
      Ok [u8 0xFF; u8 Midi_Event_Type_TimeSignature; 4; u8 nn; u8 dd; u8 cc; u8 bb]
  | _ => Undefined
  end.

Definition read_data_KeySignature : read_data_t := fun buffer_ptr type =>
  len ← declare_len buffer_ptr;
  assert_len len 2 (
    b1 ← read_integer_at buffer_ptr 1; b2 ← read_integer_at buffer_ptr 2;
    Ok (3, Some (Data_KeySignature b1 b2))).

Definition write_data_KeySignature : write_data_t := fun itype data =>
  match data with
  | Some (Data_KeySignature sf mi) =>
      Ok [u8 0xFF; u8 Midi_Event_Type_KeySignature; 2; u8 sf; u8 mi]
  | _ => Undefined
  end.

Definition read_data_SysEx : read_data_t := fun buffer_ptr type =>
  read_data_Text buffer_ptr type.

Definition write_data_SysEx : write_data_t := fun itype data =>
  write_data_Text itype data.

Definition read_data_EndOfTrack : read_data_t := fun buffer_ptr type =>
  len ← declare_len buffer_ptr;
  assert_len len 0 (Ok (1, None)).

Definition write_data_EndOfTrack : write_data_t := fun itype data =>
  Ok [u8 0xFF; u8 Midi_Event_Type_EndOfTrack; 0].

Definition read_data_Note : read_data_t := fun buffer_ptr type =>
  b0 ← read_integer_at buffer_ptr 0; b1 ← read_integer_at buffer_ptr 1;
  Ok (2, Some (Data_NoteEvent (Z.land type 0x0F) b0 b1 (Z.land type 0xF0))).

Definition write_data_Note : write_data_t := fun itype data =>
  match data with
  | Some (Data_NoteEvent channel key velocity OnOff) =>
      Ok [u8 (Z.lor OnOff channel); u8 key; u8 velocity]
  | _ => Undefined
  end.

Definition read_data_PolyphonicKeyPressure : read_data_t := fun buffer_ptr type =>
  b0 ← read_integer_at buffer_ptr 0; b1 ← read_integer_at buffer_ptr 1;
  Ok (2, Some (Data_PolyphonicKeyPressure (Z.land type 0x0F) b0 b1)).

Definition write_data_PolyphonicKeyPressure : write_data_t := fun itype data =>
  match data with
  | Some (Data_PolyphonicKeyPressure channel key pressure) =>
      Ok [u8 (Z.lor Midi_Event_Type_PolyphonicKeyPressure channel); u8 key; u8 pressure]
  | _ => Undefined
  end.

Definition read_data_ControlChange : read_data_t := fun buffer_ptr type =>
  b0 ← read_integer_at buffer_ptr 0; b1 ← read_integer_at buffer_ptr 1;
  Ok (2, Some (Data_ControlChange (Z.land type 0x0F) b0 b1)).

Definition write_data_ControlChange : write_data_t := fun itype data =>
  match data with
  | Some (Data_ControlChange channel control value) =>
      Ok [u8 (Z.lor Midi_Event_Type_ControlChange channel); u8 control; u8 value]
  | _ => Undefined
  end.

Definition read_data_ProgramChange : read_data_t := fun buffer_ptr type =>
  b0 ← read_integer_at buffer_ptr 0;
  Ok (1, Some (Data_ProgramChange (Z.land type 0x0F) b0)).

Definition write_data_ProgramChange : write_data_t := fun itype data =>
  match data with
  | Some (Data_ProgramChange channel program) =>
      Ok [u8 (Z.lor Midi_Event_Type_ProgramChange channel); u8 program]
  | _ => Undefined
  end.

Definition read_data_ChannelPressure : read_data_t := fun buffer_ptr type =>
  b0 ← read_integer_at buffer_ptr 0;
  Ok (1, Some (Data_ChannelPressure (Z.land type 0x0F) b0)).

Definition write_data_ChannelPressure : write_data_t := fun itype data =>
  match data with
  | Some (Data_ChannelPressure channel pressure) =>
      Ok [u8 (Z.lor Midi_Event_Type_ChannelPressure channel); u8 pressure]
  | _ => Undefined
  end.

Definition read_data_PitchWheelChange : read_data_t := fun buffer_ptr type =>
  b0 ← read_integer_at buffer_ptr 0; b1 ← read_integer_at buffer_ptr 1;
  Ok (2, Some (Data_PitchWheelChange (Z.land type 0x0F) (u16 (b0 + 128 * b1)))).

Definition write_data_PitchWheelChange : write_data_t := fun itype data =>
  match data with
  | Some (Data_PitchWheelChange channel wheel) =>
      Ok [u8 (Z.lor Midi_Event_Type_PitchWheelChange channel); u8 (wheel mod 128); u8 (wheel / 128)]
  | _ => Undefined
  end.

Definition InterfaceTable : list MidiEventInterface_t := [
  Build_MidiEventInterface_t Midi_Event_Type_Text "Text" 256 read_data_Text write_data_Text;
  Build_MidiEventInterface_t Midi_Event_Type_Copyright "Copyright notice" 256 read_data_Text write_data_Text;
  Build_MidiEventInterface_t Midi_Event_Type_SequenceName "Sequence name" 256 read_data_Text write_data_Text;
  Build_MidiEventInterface_t Midi_Event_Type_InstrumentName "Instrument name" 256 read_data_Text write_data_Text;
  Build_MidiEventInterface_t Midi_Event_Type_Lyric "Lyric" 256 read_data_Text write_data_Text;
  Build_MidiEventInterface_t Midi_Event_Type_Marker "Marker" 256 read_data_Text write_data_Text;
  Build_MidiEventInterface_t Midi_Event_Type_CuePoint "Cue Point" 256 read_data_Text write_data_Text;
  Build_MidiEventInterface_t Midi_Event_Type_ProgramName "Program name" 256 read_data_Text write_data_Text;

  Build_MidiEventInterface_t Midi_Event_Type_SequenceNumber "Sequence number" 2 read_data_SequenceNumber write_data_SequenceNumber;
  Build_MidiEventInterface_t Midi_Event_Type_ChannelPrefix "Channel prefix" 1 read_data_ChannelPrefix write_data_ChannelPrefix;
  Build_MidiEventInterface_t Midi_Event_Type_MidiPort "Midi port" 1 read_data_MidiPort write_data_MidiPort;
  Build_MidiEventInterface_t Midi_Event_Type_EndOfTrack "End of Track" 0 read_data_EndOfTrack write_data_EndOfTrack;
  Build_MidiEventInterface_t Midi_Event_Type_SetTempo "Set tempo" 4 read_data_SetTempo write_data_SetTempo;
  Build_MidiEventInterface_t Midi_Event_Type_SMPTEoffset "SMPTE offset" 5 read_data_SMPTEoffset write_data_SMPTEoffset;
  Build_MidiEventInterface_t Midi_Event_Type_TimeSignature "Time signature" 4 read_data_TimeSignature write_data_TimeSignature;
  Build_MidiEventInterface_t Midi_Event_Type_KeySignature "KeySignature" 2 read_data_KeySignature write_data_KeySignature;
  Build_MidiEventInterface_t Midi_Event_Type_SysEx "SysEx" 256 read_data_SysEx write_data_SysEx;
  Build_MidiEventInterface_t Midi_Event_Type_SysEx2 "SysEx2" 256 read_data_SysEx write_data_SysEx;

  Build_MidiEventInterface_t Midi_Event_Type_NoteOn "Note on" 4 read_data_Note write_data_Note;
  Build_MidiEventInterface_t Midi_Event_Type_NoteOff "Note off" 4 read_data_Note write_data_Note;
  Build_MidiEventInterface_t Midi_Event_Type_PolyphonicKeyPressure "Polyphonic key pressure" 3 read_data_PolyphonicKeyPressure write_data_PolyphonicKeyPressure;
  Build_MidiEventInterface_t Midi_Event_Type_ControlChange "Control change" 3 read_data_ControlChange write_data_ControlChange;
  Build_MidiEventInterface_t Midi_Event_Type_ProgramChange "Program change" 2 read_data_ProgramChange write_data_ProgramChange;
  Build_MidiEventInterface_t Midi_Event_Type_ChannelPressure "Channel pressure" 2 read_data_ChannelPressure write_data_ChannelPressure;
  Build_MidiEventInterface_t Midi_Event_Type_PitchWheelChange "Pitch wheel change" 4 read_data_PitchWheelChange write_data_PitchWheelChange
].

(** An event; [interface] is the index of the row of [InterfaceTable]
    the C pointer designates, [data] is [None] for a [NULL] pointer. *)
Record MidiEvent_t : Type := {
  deltaTime : Z;
  interface : nat;
  data : option MidiEventData;
}.

(** [event->interface]. *)
Definition interface_of (event : MidiEvent_t) : result MidiEventInterface_t :=
  match InterfaceTable !! interface event with
  | Some i => Ok i
  | None => Undefined
  end.

(** The search loop of [MidiEvent_Create]: the first row with the type. *)
Fixpoint find_interface (table : list MidiEventInterface_t) (type0 : Z) (i : nat) : option nat :=
  match table with
  | [] => None
  | row :: table =>
      if negb (type row =? type0) then find_interface table type0 (S i)
      else Some i
  end.

(** [None] is the return of -1, which leaves [*event] as it was. *)
Definition MidiEvent_Create (type0 : Z) (deltaTime0 : Z) (allocData : Z) : option MidiEvent_t :=
  match find_interface InterfaceTable type0 0%nat with
  | None => None
  | Some i =>
      Some {| interface := i;
              data := if negb (allocData =? 0) then Some Data_Uninit else None;
              deltaTime := deltaTime0 |}
  end.

Definition MidiEvent_GetType (event : MidiEvent_t) : result MidiEventType_t :=
  i ← interface_of event; Ok (type i).

(** ** Tracks *)

(** A slot of the [Events] array is [None] while nothing was stored in
    it after [realloc]. *)
Record MidiTrack_t : Type := {
  NumEvents : Z;
  Events : list (option MidiEvent_t);
}.

(** [track->Events[i]]. *)
Definition event_at (track : MidiTrack_t) (i : Z) : result MidiEvent_t :=
  if i <? 0 then Undefined
  else match Events track !! Z.to_nat i with
       | Some (Some event) => Ok event
       | _ => Undefined
       end.

(** The variables of [MidiTrack_Read] that live across the turns of its
    loop, and the track it fills. *)
Record TrackReader : Type := {
  read : Z;
  running_status : Z;
  track_read : MidiTrack_t;
}.

(** One turn of the [do ... while] loop of [MidiTrack_Read], up to the
    test of the loop.  The flag is [false] when the turn leaves the loop
    by [return] or [break]. *)
Definition MidiTrack_Read_body (buffer : list Z) (length : Z)
    (r : TrackReader) : result (bool * TrackReader) :=
  let read := read r in
  let running_status := running_status r in
  let track := track_read r in
  (* read event delta-time *)
  '(variablelen, deltaTime) ← ReadVariableLength (buffer_from buffer read) (u32 (length - read));
  if variablelen <=? 0 then Ok (false, r)
  else
    let read := u32 (read + variablelen) in
    (* read the status byte *)
    statusByte ← byte_at buffer read;
    let read := u32 (read + 1) in
    '(meta, statusByte, read, running_status) ←
      (if statusByte =? 0xFF then
         statusByte ← byte_at buffer read;
         Ok (1, statusByte, u32 (read + 1), running_status)
       else if statusByte <? 0x80 then
         Ok (0, running_status, u32 (read - 1), running_status)
       else
         Ok (0, statusByte, read, statusByte));
    (* expand the list so it fits one more event *)
    let track := {| NumEvents := u32 (NumEvents track + 1);
                    Events := Events track ++ [None] |} in
    match MidiEvent_Create (if negb (meta =? 0) then statusByte else Z.land statusByte 0xF0)
                           deltaTime 1 with
    | None =>
        Ok (false, {| read := read; running_status := running_status; track_read := track |})
    | Some new_event =>
        i ← interface_of new_event;
        '(ret, stored) ← read_data i (buffer_from buffer read) statusByte;
        let new_event :=
          match stored with
          | Some d => {| deltaTime := deltaTime; interface := interface new_event;
                         data := Some d |}
          | None => new_event
          end in
        let track := {| NumEvents := NumEvents track;
                        Events := <[Z.to_nat (NumEvents track - 1) := Some new_event]> (Events track) |} in
        Ok (true, {| read := u32 (read + ret); running_status := running_status;
                     track_read := track |})
    end.

(** The [do ... while (read < length)] loop.  The function returns
    nothing: the result is the track it leaves. *)
Fixpoint MidiTrack_Read_loop (fuel : nat) (buffer : list Z) (length : Z)
    (r : TrackReader) : result MidiTrack_t :=
  match fuel with
  | O => OutOfFuel
  | S fuel =>
      '(more, r) ← MidiTrack_Read_body buffer length r;
      if (more : bool) && (read r <? length)
      then MidiTrack_Read_loop fuel buffer length r
      else Ok (track_read r)
  end.

Definition MidiTrack_Read (fuel : nat) (buffer : list Z) (length : Z)
    (track : MidiTrack_t) : result MidiTrack_t :=
  MidiTrack_Read_loop fuel buffer length
    {| read := 0; running_status := 0; track_read := track |}.

(** ** Files *)

(** [Tracks] is [None] for a [NULL] pointer. *)
Record MidiFile_t : Type := {
  Format : Z;
  nTrks : Z;
  PulsesPerQuarterNote : Z;
  Tracks : option (list MidiTrack_t);
}.

Definition MIDI_FORMAT_SINGLE_TRACK : Z := 0.
Definition MIDI_CHUNK_SIZE : Z := 4.
Definition MIDI_CHUNK_LEN_BYTES : Z := 4.
Definition MIDI_CHUNK_HEADER : list Z := [0x4D; 0x54; 0x68; 0x64].
Definition MIDI_CHUNK_TRACK : list Z := [0x4D; 0x54; 0x72; 0x6B].
Definition MIDI_CHUNK_HEADER_LEN : Z := 6.

(** A stream opened for reading: the bytes not yet read and the
    end-of-file indicator. *)
Record FILE : Type := {
  unread : list Z;
  eof_indicator : bool;
}.

Definition feof (fp : FILE) : bool := eof_indicator fp.

(** [fread(ptr, 1, n, fp)]: the items read, whose number is the returned
    count, and the stream afterwards. *)
Definition fread (n : Z) (fp : FILE) : list Z * FILE :=
  if n <=? Z.of_nat (length (unread fp))
  then (take (Z.to_nat n) (unread fp),
        {| unread := drop (Z.to_nat n) (unread fp); eof_indicator := eof_indicator fp |})
  else (unread fp, {| unread := []; eof_indicator := true |}).

(** [memcmp(a, b, 4) == 0]. *)
Definition memcmp_eq (a b : list Z) : bool := bool_decide (a = b).

(** [mf->Tracks[t]]. *)
Definition track_at (tracks : list MidiTrack_t) (t : Z) : result MidiTrack_t :=
  if t <? 0 then Undefined
  else match tracks !! Z.to_nat t with
       | Some track => Ok track
       | None => Undefined
       end.

(** The [while (feof(fp) == 0)] loop of [MidiFile_Open].  [Ok None] is
    the exit through [error:], which returns [NULL].  A short read of the
    chunk length leaves part of [__chunklength] indeterminate: the length
    is [Undefined] where it is then used.  [calloc] of zero tracks
    returns a pointer that is not [NULL].  [track_fuel] is the fuel of
    each call of [MidiTrack_Read]. *)
Fixpoint MidiFile_Open_loop (track_fuel : nat) (fuel : nat) (fp : FILE) (mf : MidiFile_t)
    (trackNumber : Z) : result (option MidiFile_t) :=
  match fuel with
  | O => OutOfFuel
  | S fuel' =>
      if feof fp then Ok (Some mf)
      else
        (* read chunk type *)
        let '(chunktype, fp) := fread MIDI_CHUNK_SIZE fp in
        if negb (Z.of_nat (length chunktype) =? MIDI_CHUNK_SIZE) then
          if feof fp then Ok (Some mf) else Ok None
        else
          (* read chunk length *)
          let '(__chunklength, fp) := fread MIDI_CHUNK_LEN_BYTES fp in
          let chunklength := u32fromarray __chunklength in
          if memcmp_eq chunktype MIDI_CHUNK_HEADER then
            chunklength ← chunklength;
            if negb (chunklength =? MIDI_CHUNK_HEADER_LEN) then Ok None
            else
              let '(header, fp) := fread MIDI_CHUNK_HEADER_LEN fp in
              if negb (Z.of_nat (length header) =? MIDI_CHUNK_HEADER_LEN) then Ok None
              else
                format ← u16fromarray (buffer_from header 0);
                ntrks ← u16fromarray (buffer_from header 2);
                ppq ← u16fromarray (buffer_from header 4);
                if (format =? MIDI_FORMAT_SINGLE_TRACK) && negb (ntrks =? 1) then Ok None
                else
                  let mf := {| Format := format; nTrks := ntrks; PulsesPerQuarterNote := ppq;
                               Tracks := Some (replicate (Z.to_nat ntrks)
                                                 {| NumEvents := 0; Events := [] |}) |} in
                  MidiFile_Open_loop track_fuel fuel' fp mf trackNumber
          else if memcmp_eq chunktype MIDI_CHUNK_TRACK then
            match Tracks mf with
            | None => Ok None
            | Some tracks =>
                if trackNumber >=? nTrks mf then Ok None
                else
                  chunklength ← chunklength;
                  let '(track_buff, fp) := fread chunklength fp in
                  if negb (Z.of_nat (length track_buff) =? chunklength) then Ok None
                  else
                    track ← track_at tracks trackNumber;
                    track ← MidiTrack_Read track_fuel track_buff chunklength track;
                    let mf := {| Format := Format mf; nTrks := nTrks mf;
                                 PulsesPerQuarterNote := PulsesPerQuarterNote mf;
                                 Tracks := Some (<[Z.to_nat trackNumber := track]> tracks) |} in
                    MidiFile_Open_loop track_fuel fuel' fp mf (u8 (trackNumber + 1))
            end
          else Ok None
  end.

(** [MidiFile_Open] on a file that exists, given by its bytes. *)
Definition MidiFile_Open (fuel : nat) (file : list Z) : result (option MidiFile_t) :=
  MidiFile_Open_loop fuel fuel {| unread := file; eof_indicator := false |}
    {| Format := 0; nTrks := 0; PulsesPerQuarterNote := 0; Tracks := None |} 0.

(** The loop over the events of one track in [MidiFile_Save]: the bytes
    in [buffer[0 .. trackLen)].  A store beyond [allocSize] is
    [Undefined].  [WriteVariableLength] with room for 5 bytes returns the
    number of bytes it stored for every [uint32_t]. *)
Fixpoint MidiFile_Save_events (n : nat) (e : Z) (track : MidiTrack_t)
    (allocSize : Z) (buffer : list Z) : result (list Z) :=
  match n with
  | O => Ok buffer
  | S n =>
      let trackLen := Z.of_nat (length buffer) in
      let allocSize := if allocSize - trackLen <? 128 then allocSize + 1024 else allocSize in
      event ← event_at track e;
      let '(j, vlq) := WriteVariableLength 5 (deltaTime event) in
      i ← interface_of event;
      bytes ← write_data i (type i) (data event);
      let buffer := buffer ++ vlq ++ bytes in
      if Z.of_nat (length buffer) >? allocSize then Undefined
      else MidiFile_Save_events n (e + 1) track allocSize buffer
  end.

(** The loop over the tracks in [MidiFile_Save]: the bytes written to
    the stream. *)
Fixpoint MidiFile_Save_tracks (n : nat) (t : Z) (save : MidiFile_t) : result (list Z) :=
  match n with
  | O => Ok []
  | S n =>
      tracks ← (match Tracks save with Some ts => Ok ts | None => Undefined end);
      track ← track_at tracks t;
      buffer ← MidiFile_Save_events (Z.to_nat (NumEvents track)) 0 track 1024 [];
      let trackLen := u32 (Z.of_nat (length buffer)) in
      rest ← MidiFile_Save_tracks n (t + 1) save;
      Ok (MIDI_CHUNK_TRACK ++ u32toarray trackLen ++ buffer ++ rest)
  end.

(** [MidiFile_Save] to a file that can be created: the bytes of the
    file; the function returns 0. *)
Definition MidiFile_Save (save : MidiFile_t) : result (list Z) :=
  let header_data := u16toarray (Format save) ++ u16toarray (nTrks save)
                       ++ u16toarray (PulsesPerQuarterNote save) in
  tracks ← MidiFile_Save_tracks (Z.to_nat (nTrks save)) 0 save;
  Ok (MIDI_CHUNK_HEADER ++ [0x00; 0x00; 0x00; 0x06] ++ header_data ++ tracks).

(** ** Player *)

Definition Player_Callback_PlayEvent : Z := 1.
Definition Player_Callback_IgnoreEvent : Z := 0.
Definition Player_Callback_Abort : Z := -1.

(** [&midi->Tracks[t].Events[e]] as the pair [(t, e)]. *)
Definition MidiEvent_ptr : Type := Z * Z.

(** [*event] for an event of [midi]. *)
Definition deref (midi : MidiFile_t) (event : MidiEvent_ptr) : result MidiEvent_t :=
  tracks ← (match Tracks midi with Some ts => Ok ts | None => Undefined end);
  track ← track_at tracks (fst event);
  event_at track (snd event).

(** What the player asks of the synth and of the clock, in order. *)
Inductive DeviceCall : Type :=
| MidiDevice_PlayNote (key channel velocity state : Z)
| MidiDevice_SetChannelInstrument (channel instrument : Z)
| SLEEPUS (us : Z).

(** [playerCallback]: a callback owns a state of type [St] and returns
    its [int]. *)
Definition playerCallback (St : Type) : Type :=
  St -> MidiEvent_ptr -> Z -> Z -> Z -> result (St * Z).

Definition trivial_callback : playerCallback unit :=
  fun s event track timeTicks timeUs => Ok (s, Player_Callback_PlayEvent).

(** A call of the callback: [cbFunc(event, track, timeTicks, timeUs)]. *)
Definition PlayerCall : Type := MidiEvent_ptr * Z * Z * Z.

(** The local variables of [MidiFile_Play], the state of the callback,
    the calls of the callback made so far and the calls of the device
    made so far. *)
Record PlayState (St : Type) : Type := {
  waitTicks : list Z;
  minimumWaitTicks : Z;
  countFinishedTracks : Z;
  currentEvent : list Z;
  TickDurationUs : Z;
  currentTotalTime_Ticks : Z;
  currentTotalTime_Usecs : Z;
  cb_state : St;
  callbacks : list PlayerCall;
  device : list DeviceCall;
}.

Arguments waitTicks {St} _.
Arguments minimumWaitTicks {St} _.
Arguments countFinishedTracks {St} _.
Arguments currentEvent {St} _.
Arguments TickDurationUs {St} _.
Arguments currentTotalTime_Ticks {St} _.
Arguments currentTotalTime_Usecs {St} _.
Arguments cb_state {St} _.
Arguments callbacks {St} _.
Arguments device {St} _.

(** [a[i]] for the two arrays of the player. *)
Definition array_at (a : list Z) (i : Z) : result Z :=
  match a !! Z.to_nat i with
  | Some x => Ok x
  | None => Undefined
  end.

Section Play.

Context {St : Type}.
Variable midi : MidiFile_t.
Variable start_usec : Z.
Variable cbFunc : playerCallback St.

(** From the callback's return to the label [ignore:]: what the event
    does to the device and to the tick duration. *)
Definition play_event (event : MidiEvent_t) (type0 : Z) (cbResult : Z)
    (st : PlayState St) : result (PlayState St) :=
  if (cbResult =? Player_Callback_IgnoreEvent) && negb (type0 =? Midi_Event_Type_SetTempo)
  then Ok st
  else if ((type0 =? Midi_Event_Type_NoteOn) || (type0 =? Midi_Event_Type_NoteOff))
          && (currentTotalTime_Usecs st >=? start_usec)
  then
    match data event with
    | Some (Data_NoteEvent channel key velocity OnOff) =>
        Ok {| waitTicks := waitTicks st; minimumWaitTicks := minimumWaitTicks st;
              countFinishedTracks := countFinishedTracks st; currentEvent := currentEvent st;
              TickDurationUs := TickDurationUs st;
              currentTotalTime_Ticks := currentTotalTime_Ticks st;
              currentTotalTime_Usecs := currentTotalTime_Usecs st;
              cb_state := cb_state st;
              callbacks := callbacks st;
              device := device st ++
                [MidiDevice_PlayNote key channel velocity
                   (if type0 =? Midi_Event_Type_NoteOn then 1 else 0)] |}
    | _ => Undefined
    end
  else if type0 =? Midi_Event_Type_SetTempo
  then
    match data event with
    | Some (Data_SetTempo tempo) =>
        if PulsesPerQuarterNote midi =? 0 then Undefined
        else
          Ok {| waitTicks := waitTicks st; minimumWaitTicks := minimumWaitTicks st;
                countFinishedTracks := countFinishedTracks st; currentEvent := currentEvent st;
                TickDurationUs := tempo / PulsesPerQuarterNote midi;
                currentTotalTime_Ticks := currentTotalTime_Ticks st;
                currentTotalTime_Usecs := currentTotalTime_Usecs st;
                cb_state := cb_state st;
                callbacks := callbacks st;
                device := device st |}
    | _ => Undefined
    end
  else if type0 =? Midi_Event_Type_ProgramChange
  then
    match data event with
    | Some (Data_ProgramChange channel program) =>
        Ok {| waitTicks := waitTicks st; minimumWaitTicks := minimumWaitTicks st;
              countFinishedTracks := countFinishedTracks st; currentEvent := currentEvent st;
              TickDurationUs := TickDurationUs st;
              currentTotalTime_Ticks := currentTotalTime_Ticks st;
              currentTotalTime_Usecs := currentTotalTime_Usecs st;
              cb_state := cb_state st;
              callbacks := callbacks st;
              device := device st ++ [MidiDevice_SetChannelInstrument channel program] |}
    | _ => Undefined
    end
  else Ok st.

(** The code after the label [ignore:]: the next event of the track. *)
Definition next_event (trackIndex : Z) (st : PlayState St) : result (PlayState St) :=
  tracks ← (match Tracks midi with Some ts => Ok ts | None => Undefined end);
  track ← track_at tracks trackIndex;
  current ← array_at (currentEvent st) trackIndex;
  let current := u16 (current + 1) in
  '(wait, finished) ←
    (if current >=? NumEvents track then Ok (UINT32_MAX, u16 (countFinishedTracks st + 1))
     else event ← event_at track current; Ok (deltaTime event, countFinishedTracks st));
  Ok {| waitTicks := <[Z.to_nat trackIndex := wait]> (waitTicks st);
        minimumWaitTicks := min (minimumWaitTicks st) wait;
        countFinishedTracks := finished;
        currentEvent := <[Z.to_nat trackIndex := current]> (currentEvent st);
        TickDurationUs := TickDurationUs st;
        currentTotalTime_Ticks := currentTotalTime_Ticks st;
        currentTotalTime_Usecs := currentTotalTime_Usecs st;
        cb_state := cb_state st;
        callbacks := callbacks st;
        device := device st |}.

(** One turn of the [for] loop over the tracks.  The flag is [true]
    when the callback asked to abort, which returns from
    [MidiFile_Play]. *)
Definition play_track (trackIndex : Z) (decrementTicks : Z)
    (st : PlayState St) : result (bool * PlayState St) :=
  wait ← array_at (waitTicks st) trackIndex;
  let wait := u32 (wait - decrementTicks) in
  let st := {| waitTicks := <[Z.to_nat trackIndex := wait]> (waitTicks st);
               minimumWaitTicks := minimumWaitTicks st;
               countFinishedTracks := countFinishedTracks st;
               currentEvent := currentEvent st;
               TickDurationUs := TickDurationUs st;
               currentTotalTime_Ticks := currentTotalTime_Ticks st;
               currentTotalTime_Usecs := currentTotalTime_Usecs st;
               cb_state := cb_state st;
               callbacks := callbacks st;
               device := device st |} in
  if negb (wait =? 0) then
    Ok (false,
        {| waitTicks := waitTicks st;
           minimumWaitTicks := min (minimumWaitTicks st) wait;
           countFinishedTracks := countFinishedTracks st;
           currentEvent := currentEvent st;
           TickDurationUs := TickDurationUs st;
           currentTotalTime_Ticks := currentTotalTime_Ticks st;
           currentTotalTime_Usecs := currentTotalTime_Usecs st;
           cb_state := cb_state st;
           callbacks := callbacks st;
           device := device st |})
  else
    current ← array_at (currentEvent st) trackIndex;
    let event_ptr : MidiEvent_ptr := (trackIndex, current) in
    event ← deref midi event_ptr;
    type0 ← MidiEvent_GetType event;
    '(s, cbResult) ← cbFunc (cb_state st) event_ptr trackIndex
                        (currentTotalTime_Ticks st) (currentTotalTime_Usecs st);
    let st := {| waitTicks := waitTicks st;
                 minimumWaitTicks := minimumWaitTicks st;
                 countFinishedTracks := countFinishedTracks st;
                 currentEvent := currentEvent st;
                 TickDurationUs := TickDurationUs st;
                 currentTotalTime_Ticks := currentTotalTime_Ticks st;
                 currentTotalTime_Usecs := currentTotalTime_Usecs st;
                 cb_state := s;
                 callbacks := callbacks st ++ [(event_ptr, trackIndex, currentTotalTime_Ticks st,
                                                currentTotalTime_Usecs st)];
                 device := device st |} in
    if cbResult =? Player_Callback_Abort then Ok (true, st)
    else
      st ← play_event event type0 cbResult st;
      st ← next_event trackIndex st;
      Ok (false, st).

(** The [for] loop over the tracks, with [n] tracks to go. *)
Fixpoint play_tracks (n : nat) (trackIndex : Z) (decrementTicks : Z)
    (st : PlayState St) : result (bool * PlayState St) :=
  match n with
  | O => Ok (false, st)
  | S n =>
      '(aborted, st) ← play_track trackIndex decrementTicks st;
      if (aborted : bool) then Ok (true, st)
      else play_tracks n (trackIndex + 1) decrementTicks st
  end.

(** The body of the [while] loop: the clock advances by the smallest
    wait, then every track is visited. *)
Definition play_turn (st : PlayState St) : result (bool * PlayState St) :=
  let ticks := u32 (currentTotalTime_Ticks st + minimumWaitTicks st) in
  let usecs := u32 (currentTotalTime_Usecs st
                    + u32 (TickDurationUs st * minimumWaitTicks st)) in
  let dev := if usecs >=? start_usec
             then device st ++ [SLEEPUS (u32 (TickDurationUs st * minimumWaitTicks st))]
             else device st in
  let decrementTicks := minimumWaitTicks st in
  let st := {| waitTicks := waitTicks st;
               minimumWaitTicks := UINT32_MAX;
               countFinishedTracks := countFinishedTracks st;
               currentEvent := currentEvent st;
               TickDurationUs := TickDurationUs st;
               currentTotalTime_Ticks := ticks;
               currentTotalTime_Usecs := usecs;
               cb_state := cb_state st;
               callbacks := callbacks st;
               device := dev |} in
  play_tracks (Z.to_nat (nTrks midi)) 0 decrementTicks st.

(** The [while (countFinishedTracks < midi->nTrks)] loop. *)
Fixpoint play_loop (fuel : nat) (st : PlayState St) : result (PlayState St) :=
  match fuel with
  | O => OutOfFuel
  | S fuel =>
      if countFinishedTracks st <? nTrks midi then
        '(aborted, st) ← play_turn st;
        if (aborted : bool) then Ok st else play_loop fuel st
      else Ok st
  end.

(** The state in which [MidiFile_Play] enters its loop, with the state
    [s] of the callback and a device that was not called yet. *)
Definition play_start (s : St) : PlayState St :=
  {| waitTicks := replicate (Z.to_nat (nTrks midi)) 0;
     minimumWaitTicks := 0;
     countFinishedTracks := 0;
     currentEvent := replicate (Z.to_nat (nTrks midi)) 0;
     TickDurationUs := 2602;
     currentTotalTime_Ticks := 0;
     currentTotalTime_Usecs := 0;
     cb_state := s;
     callbacks := [];
     device := [] |}.

(** [MidiFile_Play] with a callback that is not [NULL]. *)
Definition MidiFile_Play (fuel : nat) (s : St) : result (PlayState St) :=
  play_loop fuel (play_start s).

(** The state of [MidiFile_Play] after [n] turns of its loop, or where
    the loop ended before: what a run has done by then, also a run that
    goes on for ever. *)
Fixpoint play_turns (n : nat) (st : PlayState St) : result (PlayState St) :=
  match n with
  | O => Ok st
  | S n =>
      if countFinishedTracks st <? nTrks midi then
        '(aborted, st) ← play_turn st;
        if (aborted : bool) then Ok st else play_turns n st
      else Ok st
  end.

End Play.

(** ** Time map *)

Record MidiAbsoluteTimeMap_t : Type := {
  track : Z;
  OnEvent : MidiEvent_ptr;
  OffEvent : option MidiEvent_ptr;
  startTime : Z;
  endTime : Z;
}.

Section TimeMap.

Variable midi : MidiFile_t.

(** The loop [for (int i = numEvents - 1; i >= 0; i--)] of [playerCb],
    with [n] entries still to visit: [*list] after the loop. *)
Fixpoint playerCb_match (n : nat) (entries : list MidiAbsoluteTimeMap_t)
    (event : MidiEvent_ptr) (channel key : Z) (track0 : Z) (timeUs : Z)
    : result (list MidiAbsoluteTimeMap_t) :=
  match n with
  | O => Ok entries
  | S i =>
      match entries !! i with
      | None => Undefined
      | Some match_ =>
          match OffEvent match_ with
          | Some _ => playerCb_match i entries event channel key track0 timeUs
          | None =>
              on ← deref midi (OnEvent match_);
              match data on with
              | None => playerCb_match i entries event channel key track0 timeUs
              | Some (Data_NoteEvent mchannel mkey mvelocity mOnOff) =>
                  if (mchannel =? channel) && (track match_ =? track0) && (mkey =? key)
                     && (mOnOff =? Midi_Event_Type_NoteOn)
                  then Ok (<[i := {| track := track match_; OnEvent := OnEvent match_;
                                     OffEvent := Some event; startTime := startTime match_;
                                     endTime := timeUs |}]> entries)
                  else playerCb_match i entries event channel key track0 timeUs
              | Some _ => Undefined
              end
          end
      end
  end.

(** The nested callback of [Midi_MapAbsoluteTime]; its state [entries] is [*list],
    whose length is [numEvents]. *)
Definition playerCb : playerCallback (list MidiAbsoluteTimeMap_t) :=
  fun entries event track0 timeTicks timeUs =>
    ev ← deref midi event;
    type0 ← MidiEvent_GetType ev;
    if (type0 =? Midi_Event_Type_NoteOff) || (type0 =? Midi_Event_Type_NoteOn) then
      match data ev with
      | None => Ok (entries, Player_Callback_IgnoreEvent)
      | Some (Data_NoteEvent channel key velocity OnOff) =>
          if (OnOff =? Midi_Event_Type_NoteOff) || (velocity =? 0) then
            entries ← playerCb_match (length entries) entries event channel key track0 timeUs;
            Ok (entries, Player_Callback_IgnoreEvent)
          else
            Ok (entries ++ [{| OnEvent := event; OffEvent := None; track := track0;
                            startTime := timeUs; endTime := UINT32_MAX |}],
                Player_Callback_IgnoreEvent)
      | Some _ => Undefined
      end
    else Ok (entries, Player_Callback_IgnoreEvent).

(** [Midi_MapAbsoluteTime] called with [*list == NULL]: the returned
    [numEvents] and the final [*list]. *)
Definition Midi_MapAbsoluteTime (fuel : nat) : result (Z * list MidiAbsoluteTimeMap_t) :=
  st ← MidiFile_Play midi UINT32_MAX playerCb fuel [];
  Ok (u32 (Z.of_nat (length (cb_state st))), cb_state st).

End TimeMap.

(** ** Vocabulary of the statements about variable-length quantities *)

(** An octet. *)
Definition is_byte (b : Z) : Prop := 0 <= b < 256.

(** A byte with the continuation flag and one without. *)
Definition continues (b : Z) : Prop := 128 <= b < 256.
Definition terminates (b : Z) : Prop := 0 <= b < 128.

(** The number a sequence of 7-bit groups denotes, most significant
    group first, on top of the groups already in [acc]. *)
Definition vlq_value_from (acc : Z) (bs : list Z) : Z :=
  fold_left (fun acc b => acc * 128 + b mod 128) bs acc.

Definition vlq_value (bs : list Z) : Z := vlq_value_from 0 bs.

(** A well-formed quantity: continuation bytes, then one final byte. *)
Definition vlq_wf (bs : list Z) : Prop :=
  exists pre last, bs = pre ++ [last] /\ Forall continues pre /\ terminates last.

(** ** Vocabulary of the statements about the codec *)

(** A header chunk for format 1, one track, 96 pulses per quarter note. *)
Definition header_chunk : list Z :=
  [0x4D; 0x54; 0x68; 0x64; 0; 0; 0; 6; 0; 1; 0; 1; 0; 0x60].

(** A track chunk holding an end-of-track event. *)
Definition end_of_track_chunk : list Z :=
  [0x4D; 0x54; 0x72; 0x6B; 0; 0; 0; 4; 0; 0xFF; 0x2F; 0].

(** A chunk with the tag XTRA and two bytes of payload. *)
Definition unknown_chunk : list Z :=
  [0x58; 0x54; 0x52; 0x41; 0; 0; 0; 2; 7; 7].

(** A file whose track holds an SMPTE offset, an end of track at delta
    2 and a note-on at delta 8192. *)
Definition smpte_file_bytes : list Z :=
  header_chunk ++
  [0x4D; 0x54; 0x72; 0x6B; 0; 0; 0; 18;
   0; 0xFF; 0x54; 5; 1; 2; 3; 4; 5;
   2; 0xFF; 0x2F; 0;
   0xC0; 0; 0x90; 0x3C; 0x40].

Definition smpte_file : MidiFile_t :=
  {| Format := 1; nTrks := 1; PulsesPerQuarterNote := 96;
     Tracks := Some [
       {| NumEvents := 3;
          Events := [
            Some {| deltaTime := 0; interface := 13; data := Some (Data_SMPTEoffset 1 2 3 4 5) |};
            Some {| deltaTime := 2; interface := 11; data := Some Data_Uninit |};
            Some {| deltaTime := 8192; interface := 18;
                    data := Some (Data_NoteEvent 0 60 64 144) |} ] |} ] |}.

(** A track stream: a note-on with its status byte, a channel-prefix
    meta-event, and two data bytes without a status byte. *)
Definition status_meta_data : list Z :=
  [0x00; 0x90; 0x3C; 0x40;  0x00; 0xFF; 0x20; 0x01; 0x05;  0x00; 0x3E; 0x40].

Definition empty_track : MidiTrack_t := {| NumEvents := 0; Events := [] |}.

(** The characters of [s] before its first zero byte: the string that
    [s] holds for [sprintf]. *)
Fixpoint c_string (s : list Z) : list Z :=
  match s with
  | [] => []
  | c :: s => if c =? 0 then [] else c :: c_string s
  end.

(** ** Vocabulary of the statements about the player and the time map *)

(** A call that reaches the clock, not the synth. *)
Definition is_sleep (c : DeviceCall) : Prop :=
  match c with
  | SLEEPUS _ => True
  | _ => False
  end.

(** No call of [MidiDevice_PlayNote] or [MidiDevice_SetChannelInstrument]. *)
Definition synth_free (calls : list DeviceCall) : Prop := Forall is_sleep calls.

(** One track: a tempo event at tick 0 and an end of track [ticks]
    ticks later. *)
Definition tempo_file (ppq tempo ticks : Z) : MidiFile_t :=
  {| Format := 1; nTrks := 1; PulsesPerQuarterNote := ppq;
     Tracks := Some [
       {| NumEvents := 2;
          Events := [
            Some {| deltaTime := 0; interface := 12; data := Some (Data_SetTempo tempo) |};
            Some {| deltaTime := ticks; interface := 11; data := Some Data_Uninit |} ] |} ] |}.

(** Two tracks.  The first holds a note-on of key 60 ended by a
    note-on of velocity 0, then a note-on of key 60 ended by a note-off;
    the second a note-on of key 61 that is never ended and a program
    change. *)
Definition note_file : MidiFile_t :=
  {| Format := 1; nTrks := 2; PulsesPerQuarterNote := 480;
     Tracks := Some [
       {| NumEvents := 5;
          Events := [
            Some {| deltaTime := 0; interface := 18; data := Some (Data_NoteEvent 0 60 64 0x90) |};
            Some {| deltaTime := 10; interface := 18; data := Some (Data_NoteEvent 0 60 0 0x90) |};
            Some {| deltaTime := 0; interface := 18; data := Some (Data_NoteEvent 0 60 64 0x90) |};
            Some {| deltaTime := 10; interface := 19; data := Some (Data_NoteEvent 0 60 64 0x80) |};
            Some {| deltaTime := 0; interface := 11; data := Some Data_Uninit |} ] |};
       {| NumEvents := 3;
          Events := [
            Some {| deltaTime := 5; interface := 18; data := Some (Data_NoteEvent 1 61 64 0x90) |};
            Some {| deltaTime := 10; interface := 22; data := Some (Data_ProgramChange 0 6) |};
            Some {| deltaTime := 0; interface := 11; data := Some Data_Uninit |} ] |} ] |}.

(** The bytes of a file that [MidiFile_Open] loads as [note_file]. *)
Definition note_file_bytes : list Z :=
  [0x4D; 0x54; 0x68; 0x64; 0; 0; 0; 6; 0; 1; 0; 2; 0x01; 0xE0;
   0x4D; 0x54; 0x72; 0x6B; 0; 0; 0; 20;
   0x00; 0x90; 0x3C; 0x40;  0x0A; 0x90; 0x3C; 0x00;  0x00; 0x90; 0x3C; 0x40;
   0x0A; 0x80; 0x3C; 0x40;  0x00; 0xFF; 0x2F; 0x00;
   0x4D; 0x54; 0x72; 0x6B; 0; 0; 0; 11;
   0x05; 0x91; 0x3D; 0x40;  0x0A; 0xC0; 0x06;  0x00; 0xFF; 0x2F; 0x00].

(** The event [event] of [midi] has the type [type0] and holds a note
    with the same byte in [OnOff], as in every event [MidiTrack_Read]
    stores. *)
Definition note_at (midi : MidiFile_t) (event : MidiEvent_ptr)
    (type0 channel key velocity : Z) : Prop :=
  exists ev i,
    deref midi event = Ok ev /\ interface_of ev = Ok i /\ type i = type0
    /\ data ev = Some (Data_NoteEvent channel key velocity type0).

(** A NoteOn with a velocity that is not 0. *)
Definition sounding_note (midi : MidiFile_t) (event : MidiEvent_ptr) (channel key : Z) : Prop :=
  exists velocity, velocity <> 0 /\ note_at midi event Midi_Event_Type_NoteOn channel key velocity.

(** A NoteOff, or a NoteOn with velocity 0. *)
Definition ending_note (midi : MidiFile_t) (event : MidiEvent_ptr) (channel key : Z) : Prop :=
  (exists velocity, note_at midi event Midi_Event_Type_NoteOff channel key velocity)
  \/ note_at midi event Midi_Event_Type_NoteOn channel key 0.

(** An event of type NoteOn or NoteOff holds a note whose [OnOff] is
    its type. *)
Definition event_consistent (slot : option MidiEvent_t) : Prop :=
  forall ev i,
    slot = Some ev -> interface_of ev = Ok i ->
    type i = Midi_Event_Type_NoteOn \/ type i = Midi_Event_Type_NoteOff ->
    exists channel key velocity,
      data ev = Some (Data_NoteEvent channel key velocity (type i)).

Definition notes_consistent (midi : MidiFile_t) : Prop :=
  forall tracks, Tracks midi = Some tracks ->
  Forall (fun track => Forall event_consistent (Events track)) tracks.


(** The entry [m] closed by [event] at [timeUs]. *)
Definition closed_by (m : MidiAbsoluteTimeMap_t) (event : MidiEvent_ptr) (timeUs : Z)
    : MidiAbsoluteTimeMap_t :=
  {| track := track m; OnEvent := OnEvent m; OffEvent := Some event;
     startTime := startTime m; endTime := timeUs |}.

(** The entry a NoteOn opens. *)
Definition opened_by (event : MidiEvent_ptr) (track0 timeUs : Z) : MidiAbsoluteTimeMap_t :=
  {| track := track0; OnEvent := event; OffEvent := None;
     startTime := timeUs; endTime := UINT32_MAX |}.


(** [*list] after the calls [calls] of [playerCb], made in this order. *)
Fixpoint replay (midi : MidiFile_t) (calls : list PlayerCall)
    (entries : list MidiAbsoluteTimeMap_t) : result (list MidiAbsoluteTimeMap_t) :=
  match calls with
  | [] => Ok entries
  | (event, track0, timeTicks, timeUs) :: calls =>
      '(entries, _) ← playerCb midi entries event track0 timeTicks timeUs;
      replay midi calls entries
  end.

(** A property of the state of the callback, of its calls and of the
    calls of the device holds in a state of the player. *)
Definition holds_in {St : Type} (Inv : St -> list PlayerCall -> list DeviceCall -> Prop)
    (st : PlayState St) : Prop :=
  Inv (cb_state st) (callbacks st) (device st).

(** ** Names of keys and instruments *)

Definition MIDI_NOTE_NAMES : list string :=
  [ "C"; "C#"; "D"; "D#"; "E"; "F"; "F#"; "G"; "G#"; "A"; "A#"; "B" ]%string.

(** [table[i]] for a table of strings. *)
Definition name_at (table : list string) (i : Z) : result string :=
  if i <? 0 then Undefined
  else match table !! Z.to_nat i with
       | Some name => Ok name
       | None => Undefined
       end.

(** The argument is converted to the [uint8_t] of the parameter. *)
Definition Midi_GetKeyName (key : Z) : result string :=
  let key := u8 key in
  name_at MIDI_NOTE_NAMES (key mod 12).

Definition MIDI_INSTRUMENT_NAMES : list string :=
  [    "Piano";
    "Acoustic Grand Piano";
    "Bright Acoustic Piano";
    "Electric Grand Piano";
    "Honky-tonk Piano";
    "Electric Piano 1 (Rhodes Piano)";
    "Electric Piano 2 (Chorused Piano)";
    "Harpsichord";
    "Clavinet";
    "Celesta";
    "Glockenspiel";
    "Music Box";
    "Vibraphone";
    "Marimba";
    "Xylophone";
    "Tubular Bells";
    "Dulcimer (Santur)";
    "Drawbar Organ (Hammond)";
    "Percussive Organ";
    "Rock Organ";
    "Church Organ";
    "Reed Organ";
    "Accordion (French)";
    "Harmonica";
    "Tango Accordion (Band neon)";
    "Acoustic Guitar (nylon)";
    "Acoustic Guitar (steel)";
    "Electric Guitar (jazz)";
    "Electric Guitar (clean)";
    "Electric Guitar (muted)";
    "Overdriven Guitar";
    "Distortion Guitar";
    "Guitar harmonics";
    "Acoustic Bass";
    "Electric Bass (fingered)";
    "Electric Bass (picked)";
    "Fretless Bass";
    "Slap Bass 1";
    "Slap Bass 2";
    "Synth Bass 1";
    "Synth Bass 2";
    "Violin";
    "Viola";
    "Cello";
    "Contrabass";
    "Tremolo Strings";
    "Pizzicato Strings";
    "Orchestral Harp";
    "Timpani";
    "String Ensemble 1 (strings)";
    "String Ensemble 2 (slow strings)";
    "SynthStrings 1";
    "SynthStrings 2";
    "Choir Aahs";
    "Voice Oohs";
    "Synth Voice";
    "Orchestra Hit";
    "Trumpet";
    "Trombone";
    "Tuba";
    "Muted Trumpet";
    "French Horn";
    "Brass Section";
    "SynthBrass 1";
    "SynthBrass 2";
    "Soprano Sax";
    "Alto Sax";
    "Tenor Sax";
    "Baritone Sax";
    "Oboe";
    "English Horn";
    "Bassoon";
    "Clarinet";
    "Piccolo";
    "Flute";
    "Recorder";
    "Pan Flute";
    "Blown Bottle";
    "Shakuhachi";
    "Whistle";
    "Ocarina";
    "Lead 1 (square wave)";
    "Lead 2 (sawtooth wave)";
    "Lead 3 (calliope)";
    "Lead 4 (chiffer)";
    "Lead 5 (charang)";
    "Lead 6 (voice solo)";
    "Lead 7 (fifths)";
    "Lead 8 (bass + lead)";
    "Pad 1 (new age Fantasia)";
    "Pad 2 (warm)";
    "Pad 3 (polysynth)";
    "Pad 4 (choir space voice)";
    "Pad 5 (bowed glass)";
    "Pad 6 (metallic pro)";
    "Pad 7 (halo)";
    "Pad 8 (sweep)";
    "FX 1 (rain)";
    "FX 2 (soundtrack)";
    "FX 3 (crystal)";
    "FX 4 (atmosphere)";
    "FX 5 (brightness)";
    "FX 6 (goblins)";
    "FX 7 (echoes, drops)";
    "FX 8 (sci-fi, star theme)";
    "Sitar";
    "Banjo";
    "Shamisen";
    "Koto";
    "Kalimba";
    "Bag pipe";
    "Fiddle";
    "Shanai";
    "Tinkle Bell";
    "Agogo";
    "Steel Drums";
    "Woodblock";
    "Taiko Drum";
    "Melodic Tom";
    "Synth Drum";
    "Reverse Cymbal";
    "Guitar Fret Noise";
    "Breath Noise";
    "Seashore";
    "Bird Tweet";
    "Telephone Ring";
    "Helicopter";
    "Applause";
    "Gunshot"
  ]%string.

(** [None] is the returned [NULL]. *)
Definition Midi_GetInstrumentName (program : Z) : result (option string) :=
  if program >? 128 then Ok None
  else name ← name_at MIDI_INSTRUMENT_NAMES program; Ok (Some name).

(** The argument is converted to the [uint8_t] of the parameter. *)
Definition Midi_IsSharp (key : Z) : Z :=
  let key := u8 key in
  let note := u8 (key mod 12) in
  if (note =? 1) || (note =? 3) || (note =? 6) || (note =? 8) || (note =? 10) then 1 else 0.

(** ** Transposition *)

(** [int8_t]: the value a conversion to it gives. *)
Definition i8 (x : Z) : Z := (x + 128) mod 256 - 128.

(** [sf] is a [uint8_t]: the initialisers -1 to -7 of the table are
    stored as 255 to 249. *)
Record MidiTranspositionData_t : Type := {
  sf : Z;
  mi : Z;
  tranposeDelta : Z;
  description_of_key : string;
}.

Definition Midi_Transposition_Table : list MidiTranspositionData_t := [
  Build_MidiTranspositionData_t (u8 (7)) 0 1 "C# MAJ";
  Build_MidiTranspositionData_t (u8 (6)) 0 6 "F# MAJ";
  Build_MidiTranspositionData_t (u8 (5)) 0 11 "B MAJ";
  Build_MidiTranspositionData_t (u8 (4)) 0 4 "E MAJ";
  Build_MidiTranspositionData_t (u8 (3)) 0 9 "A MAJ";
  Build_MidiTranspositionData_t (u8 (2)) 0 2 "D MAJ";
  Build_MidiTranspositionData_t (u8 (1)) 0 7 "G MAJ";
  Build_MidiTranspositionData_t (u8 (0)) 0 0 "C MAJ";
  Build_MidiTranspositionData_t (u8 (-1)) 0 5 "F MAJ";
  Build_MidiTranspositionData_t (u8 (-2)) 0 10 "Bb MAJ";
  Build_MidiTranspositionData_t (u8 (-3)) 0 3 "Eb MAJ";
  Build_MidiTranspositionData_t (u8 (-4)) 0 8 "Ab MAJ";
  Build_MidiTranspositionData_t (u8 (-5)) 0 1 "Db MAJ";
  Build_MidiTranspositionData_t (u8 (-6)) 0 6 "Gb MAJ";
  Build_MidiTranspositionData_t (u8 (-7)) 0 11 "Cb MAJ";
  Build_MidiTranspositionData_t (u8 (7)) 1 10 "A# MIN";
  Build_MidiTranspositionData_t (u8 (6)) 1 3 "D# MIN";
  Build_MidiTranspositionData_t (u8 (5)) 1 8 "G# MIN";
  Build_MidiTranspositionData_t (u8 (4)) 1 1 "C# MIN";
  Build_MidiTranspositionData_t (u8 (3)) 1 6 "F# MIN";
  Build_MidiTranspositionData_t (u8 (2)) 1 11 "B MIN";
  Build_MidiTranspositionData_t (u8 (1)) 1 4 "E MIN";
  Build_MidiTranspositionData_t (u8 (0)) 1 9 "A MIN";
  Build_MidiTranspositionData_t (u8 (-1)) 1 2 "D MIN";
  Build_MidiTranspositionData_t (u8 (-2)) 1 7 "G MIN";
  Build_MidiTranspositionData_t (u8 (-3)) 1 0 "C MIN";
  Build_MidiTranspositionData_t (u8 (-4)) 1 5 "F MIN";
  Build_MidiTranspositionData_t (u8 (-5)) 1 10 "Bb MIN";
  Build_MidiTranspositionData_t (u8 (-6)) 1 3 "Eb MIN";
  Build_MidiTranspositionData_t (u8 (-7)) 1 8 "Ab MIN"
].


(** [Midi_GetKeySignatureTranspositionInfo]: the loop over the table;
    the row found stands for the pointer to it, [None] for [NULL]. *)
Fixpoint transposition_search (table : list MidiTranspositionData_t) (ks_sf ks_mi : Z)
    : option MidiTranspositionData_t :=
  match table with
  | [] => None
  | row :: table =>
      if (sf row =? ks_sf) && (mi row =? ks_mi) then Some row
      else transposition_search table ks_sf ks_mi
  end.

(** The key signature [ks] points to is given by its two fields. *)
Definition Midi_GetKeySignatureTranspositionInfo (ks : option (Z * Z))
    : option MidiTranspositionData_t :=
  match ks with
  | None => None
  | Some (ks_sf, ks_mi) => transposition_search Midi_Transposition_Table ks_sf ks_mi
  end.

(** The loop of [Midi_GetKeySignature] over the events of track [t].
    [Some r]: the function returns [r]; [None]: the loop ended.  The
    pointer returned is the [data] of the event, which the event that
    holds it stands for; it is [NULL] when that [data] is. *)
Fixpoint Midi_GetKeySignature_events (n : nat) (t e : Z) (track : MidiTrack_t)
    : result (option (option MidiEvent_ptr)) :=
  match n with
  | O => Ok None
  | S n =>
      event ← event_at track e;
      type0 ← MidiEvent_GetType event;
      if type0 =? Midi_Event_Type_KeySignature then
        Ok (Some (match data event with
                  | Some _ => Some (t, e)
                  | None => None
                  end))
      else Midi_GetKeySignature_events n t (e + 1) track
  end.

Fixpoint Midi_GetKeySignature_tracks (n : nat) (t : Z) (midi : MidiFile_t)
    : result (option MidiEvent_ptr) :=
  match n with
  | O => Ok None
  | S n =>
      tracks ← (match Tracks midi with Some ts => Ok ts | None => Undefined end);
      track ← track_at tracks t;
      found ← Midi_GetKeySignature_events (Z.to_nat (NumEvents track)) t 0 track;
      match found with
      | Some r => Ok r
      | None => Midi_GetKeySignature_tracks n (t + 1) midi
      end
  end.

Definition Midi_GetKeySignature (midi : MidiFile_t) : result (option MidiEvent_ptr) :=
  Midi_GetKeySignature_tracks (Z.to_nat (nTrks midi)) 0 midi.

(** The fields [sf] and [mi] read through the pointer
    [Midi_GetKeySignature] returned. *)
Definition key_signature_at (midi : MidiFile_t) (ks : option MidiEvent_ptr)
    : result (option (Z * Z)) :=
  match ks with
  | None => Ok None
  | Some event =>
      ev ← deref midi event;
      match data ev with
      | Some (Data_KeySignature ks_sf ks_mi) => Ok (Some (ks_sf, ks_mi))
      | _ => Undefined
      end
  end.

(** [file->Tracks[t].Events[e].data] replaced. *)
Definition store_data (file : MidiFile_t) (event : MidiEvent_ptr) (d : MidiEventData)
    : result MidiFile_t :=
  tracks ← (match Tracks file with Some ts => Ok ts | None => Undefined end);
  track ← track_at tracks (fst event);
  ev ← event_at track (snd event);
  let ev := {| deltaTime := deltaTime ev; interface := interface ev; data := Some d |} in
  let track := {| NumEvents := NumEvents track;
                  Events := <[Z.to_nat (snd event) := Some ev]> (Events track) |} in
  Ok {| Format := Format file; nTrks := nTrks file;
        PulsesPerQuarterNote := PulsesPerQuarterNote file;
        Tracks := Some (<[Z.to_nat (fst event) := track]> tracks) |}.

(** The loop of [Midi_Transpose] over the events of a track. *)
Fixpoint Midi_Transpose_events (n : nat) (e : Z) (delta : Z) (track : MidiTrack_t)
    : result MidiTrack_t :=
  match n with
  | O => Ok track
  | S n =>
      event ← event_at track e;
      type0 ← MidiEvent_GetType event;
      let eventType := u8 type0 in
      track ←
        (if (eventType =? Midi_Event_Type_NoteOff) || (eventType =? Midi_Event_Type_NoteOn)
         then
           match data event with
           | Some (Data_NoteEvent channel key velocity OnOff) =>
               let event := {| deltaTime := deltaTime event; interface := interface event;
                               data := Some (Data_NoteEvent channel (u8 (key + delta))
                                                            velocity OnOff) |} in
               Ok {| NumEvents := NumEvents track;
                     Events := <[Z.to_nat e := Some event]> (Events track) |}
           | _ => Undefined
           end
         else Ok track);
      Midi_Transpose_events n (e + 1) delta track
  end.

(** The loop of [Midi_Transpose] over the tracks. *)
Fixpoint Midi_Transpose_tracks (n : nat) (t : Z) (delta : Z) (file : MidiFile_t)
    : result MidiFile_t :=
  match n with
  | O => Ok file
  | S n =>
      tracks ← (match Tracks file with Some ts => Ok ts | None => Undefined end);
      track ← track_at tracks t;
      track ← Midi_Transpose_events (Z.to_nat (NumEvents track)) 0 delta track;
      Midi_Transpose_tracks n (t + 1) delta
        {| Format := Format file; nTrks := nTrks file;
           PulsesPerQuarterNote := PulsesPerQuarterNote file;
           Tracks := Some (<[Z.to_nat t := track]> tracks) |}
  end.

(** [Midi_Transpose] on a file that is not [NULL]: the returned
    [int8_t] and the file afterwards.  [newKey] is [None] for [NULL]. *)
Definition Midi_Transpose (file : MidiFile_t) (newKey : option MidiTranspositionData_t)
    : result (Z * MidiFile_t) :=
  midi_ks ← Midi_GetKeySignature file;
  ks ← key_signature_at file midi_ks;
  let oldKey := Midi_GetKeySignatureTranspositionInfo ks in
  match newKey, oldKey, midi_ks with
  | Some newKey, Some oldKey, Some ks_event =>
      if negb (mi newKey =? mi oldKey) then Ok (0, file)
      else
        let delta := i8 (tranposeDelta newKey - tranposeDelta oldKey) in
        file ← Midi_Transpose_tracks (Z.to_nat (nTrks file)) 0 delta file;
        (* update the key signature event *)
        file ← store_data file ks_event (Data_KeySignature (sf newKey) (mi newKey));
        Ok (delta, file)
  | _, _, _ => Ok (0, file)
  end.


(** ** Vocabulary of the further properties *)

(** The number of bytes of the variable-length form of a value. *)
Definition vlq_size (v : Z) : Z :=
  if v <? 128 then 1
  else if v <? 16384 then 2
  else if v <? 2097152 then 3
  else if v <? 268435456 then 4
  else 5.

(** The enumerators of [MidiEventType_t], in the order of the header. *)
Definition MidiEventType_values : list Z := [
  Midi_Event_Type_Text; Midi_Event_Type_Copyright; Midi_Event_Type_SequenceName;
  Midi_Event_Type_InstrumentName; Midi_Event_Type_Lyric; Midi_Event_Type_Marker;
  Midi_Event_Type_CuePoint; Midi_Event_Type_ProgramName;
  Midi_Event_Type_SequenceNumber; Midi_Event_Type_ChannelPrefix; Midi_Event_Type_MidiPort;
  Midi_Event_Type_EndOfTrack; Midi_Event_Type_SetTempo; Midi_Event_Type_SMPTEoffset;
  Midi_Event_Type_TimeSignature; Midi_Event_Type_KeySignature; Midi_Event_Type_SysEx;
  Midi_Event_Type_SysEx2;
  Midi_Event_Type_NoteOn; Midi_Event_Type_NoteOff; Midi_Event_Type_PolyphonicKeyPressure;
  Midi_Event_Type_ControlChange; Midi_Event_Type_ProgramChange;
  Midi_Event_Type_ChannelPressure; Midi_Event_Type_PitchWheelChange ].

(** The event is a NoteOn or a NoteOff. *)
Definition is_note_event (event : MidiEvent_t) : bool :=
  match MidiEvent_GetType event with
  | Ok type0 => (type0 =? Midi_Event_Type_NoteOff) || (type0 =? Midi_Event_Type_NoteOn)
  | _ => false
  end.

(** The event with the key of its note, if it is a note, raised by
    [delta] in a [uint8_t]. *)
Definition transposed (delta : Z) (event : MidiEvent_t) : MidiEvent_t :=
  match data event with
  | Some (Data_NoteEvent channel key velocity OnOff) =>
      if is_note_event event
      then {| deltaTime := deltaTime event; interface := interface event;
              data := Some (Data_NoteEvent channel (u8 (key + delta)) velocity OnOff) |}
      else event
  | _ => event
  end.

(** The event with other data. *)
Definition with_data (event : MidiEvent_t) (d : MidiEventData) : MidiEvent_t :=
  {| deltaTime := deltaTime event; interface := interface event; data := Some d |}.

(** [file->Tracks[t]], when the file has such a track. *)
Definition track_of (file : MidiFile_t) (t : nat) : option MidiTrack_t :=
  match Tracks file with
  | Some tracks => tracks !! t
  | None => None
  end.

(** An event whose interface is a row of the table and whose data, when
    it is a note or a key signature, are of that kind. *)
Definition event_well_typed (event : MidiEvent_t) : Prop :=
  exists i,
    interface_of event = Ok i
    /\ (type i = Midi_Event_Type_NoteOn \/ type i = Midi_Event_Type_NoteOff ->
        exists channel key velocity OnOff,
          data event = Some (Data_NoteEvent channel key velocity OnOff))
    /\ (type i = Midi_Event_Type_KeySignature ->
        data event = None \/ exists ks_sf ks_mi, data event = Some (Data_KeySignature ks_sf ks_mi)).

(** The file has the [nTrks] tracks and each of them the [NumEvents]
    events it announces, all well typed. *)
Definition well_typed (file : MidiFile_t) : Prop :=
  forall t, (t < Z.to_nat (nTrks file))%nat ->
  exists track,
    track_of file t = Some track
    /\ forall e, (e < Z.to_nat (NumEvents track))%nat ->
       exists event, Events track !! e = Some (Some event) /\ event_well_typed event.

(** The keys of the notes are octets. *)
Definition keys_are_bytes (file : MidiFile_t) : Prop :=
  forall event ev channel key velocity OnOff,
    deref file event = Ok ev ->
    data ev = Some (Data_NoteEvent channel key velocity OnOff) -> is_byte key.

(** The event has a type and it is not that of a key signature. *)
Definition not_key_signature (event : MidiEvent_t) : Prop :=
  exists type0, MidiEvent_GetType event = Ok type0 /\ type0 <> Midi_Event_Type_KeySignature.

(** The events [first .. last) of the track exist and none is a key
    signature. *)
Definition key_signature_free (track : MidiTrack_t) (first last : nat) : Prop :=
  forall j, (first <= j < last)%nat ->
  exists event, Events track !! j = Some (Some event) /\ not_key_signature event.

(** The tracks [first .. last) of the file exist and hold no key
    signature among the events they announce. *)
Definition key_signature_free_tracks (file : MidiFile_t) (first last : nat) : Prop :=
  forall j, (first <= j < last)%nat ->
  exists track, track_of file j = Some track
                /\ key_signature_free track 0 (Z.to_nat (NumEvents track)).

(** The event [e] of the track [t] is the first key signature of the
    file, in the order of the tracks and of their events. *)
Definition first_key_signature (file : MidiFile_t) (t e : nat) (event : MidiEvent_t) : Prop :=
  (t < Z.to_nat (nTrks file))%nat
  /\ key_signature_free_tracks file 0 t
  /\ exists track,
       track_of file t = Some track
       /\ (e < Z.to_nat (NumEvents track))%nat
       /\ key_signature_free track 0 e
       /\ Events track !! e = Some (Some event)
       /\ MidiEvent_GetType event = Ok Midi_Event_Type_KeySignature.

(** [file'] has the header of [file] and its tracks and events, each
    event transposed by [delta], but for the event [ke] of the track
    [kt], which has the data [d] instead of its own. *)
Definition transposition_of (file file' : MidiFile_t) (kt ke : nat) (d : MidiEventData)
    (delta : Z) : Prop :=
  Format file' = Format file /\ nTrks file' = nTrks file
  /\ PulsesPerQuarterNote file' = PulsesPerQuarterNote file
  /\ forall t track,
       (t < Z.to_nat (nTrks file))%nat -> track_of file t = Some track ->
       exists track',
         track_of file' t = Some track' /\ NumEvents track' = NumEvents track
         /\ forall e event,
              (e < Z.to_nat (NumEvents track))%nat ->
              Events track !! e = Some (Some event) ->
              Events track' !! e
              = Some (Some (if (t =? kt)%nat && (e =? ke)%nat
                            then with_data event d
                            else transposed delta event)).

(** [file'] has the header of [file] and the same events in the tracks
    of [file]. *)
Definition same_events (file file' : MidiFile_t) : Prop :=
  Format file' = Format file /\ nTrks file' = nTrks file
  /\ PulsesPerQuarterNote file' = PulsesPerQuarterNote file
  /\ forall t track,
       (t < Z.to_nat (nTrks file))%nat -> track_of file t = Some track ->
       exists track',
         track_of file' t = Some track' /\ NumEvents track' = NumEvents track
         /\ forall e event,
              (e < Z.to_nat (NumEvents track))%nat ->
              Events track !! e = Some (Some event) ->
              Events track' !! e = Some (Some event).

(** One track in D major: a key signature of two sharps, a note of key
    60 and its end, and the end of the track. *)
Definition key_file : MidiFile_t :=
  {| Format := 0; nTrks := 1; PulsesPerQuarterNote := 480;
     Tracks := Some [
       {| NumEvents := 4;
          Events := [
            Some {| deltaTime := 0; interface := 15; data := Some (Data_KeySignature 2 0) |};
            Some {| deltaTime := 0; interface := 18; data := Some (Data_NoteEvent 0 60 64 0x90) |};
            Some {| deltaTime := 96; interface := 19; data := Some (Data_NoteEvent 0 60 0 0x80) |};
            Some {| deltaTime := 0; interface := 11; data := Some Data_Uninit |} ] |} ] |}.

(** The rows of [Midi_Transposition_Table] for D major and for F major. *)
Definition D_major : MidiTranspositionData_t :=
  {| sf := 2; mi := 0; tranposeDelta := 2; description_of_key := "D MAJ" |}.
Definition F_major : MidiTranspositionData_t :=
  {| sf := 255; mi := 0; tranposeDelta := 5; description_of_key := "F MAJ" |}.
Definition A_minor : MidiTranspositionData_t :=
  {| sf := 0; mi := 1; tranposeDelta := 9; description_of_key := "A MIN" |}.

(** The types of the events that hold a text or system-exclusive data. *)
Definition text_types : list Z := [
  Midi_Event_Type_Text; Midi_Event_Type_Copyright; Midi_Event_Type_SequenceName;
  Midi_Event_Type_InstrumentName; Midi_Event_Type_Lyric; Midi_Event_Type_Marker;
  Midi_Event_Type_CuePoint; Midi_Event_Type_ProgramName;
  Midi_Event_Type_SysEx; Midi_Event_Type_SysEx2 ].

(** A text as [read_data_Text] leaves it: [len] characters, none of them
    zero, at most 254, and zeros up to the end of the array. *)
Definition text_as_read (len : Z) (text : list Z) : Prop :=
  exists payload,
    Z.of_nat (length payload) = len /\ len <= 254
    /\ Forall (fun c => 0 < c < 256) payload
    /\ text = payload ++ replicate (255 - length payload) 0.

Definition is_channel (channel : Z) : Prop := 0 <= channel < 16.

(** Data of the kind of an event of type [type0], with every field in
    the range the file format can hold.  An end of track has allocated
    data nothing was stored in.  SMPTE offsets are left out: they are
    not written. *)
Definition canonical_data (type0 : Z) (d : option MidiEventData) : Prop :=
  match d with
  | Some (Data_Text len text) => In type0 text_types /\ text_as_read len text
  | Some (Data_SequenceNumber number) =>
      type0 = Midi_Event_Type_SequenceNumber /\ 0 <= number < 65536
  | Some (Data_ChannelPrefix channel) =>
      type0 = Midi_Event_Type_ChannelPrefix /\ is_byte channel
  | Some (Data_MidiPort port) => type0 = Midi_Event_Type_MidiPort /\ is_byte port
  | Some (Data_SetTempo tempo) => type0 = Midi_Event_Type_SetTempo /\ 0 <= tempo < 16777216
  | Some (Data_SMPTEoffset _ _ _ _ _) => False
  | Some (Data_TimeSignature nn dd cc bb) =>
      type0 = Midi_Event_Type_TimeSignature
      /\ is_byte nn /\ is_byte dd /\ is_byte cc /\ is_byte bb
  | Some (Data_KeySignature ks_sf ks_mi) =>
      type0 = Midi_Event_Type_KeySignature /\ is_byte ks_sf /\ is_byte ks_mi
  | Some (Data_NoteEvent channel key velocity OnOff) =>
      (type0 = Midi_Event_Type_NoteOn \/ type0 = Midi_Event_Type_NoteOff)
      /\ OnOff = type0 /\ is_channel channel /\ is_byte key /\ is_byte velocity
  | Some (Data_PolyphonicKeyPressure channel key pressure) =>
      type0 = Midi_Event_Type_PolyphonicKeyPressure
      /\ is_channel channel /\ is_byte key /\ is_byte pressure
  | Some (Data_ControlChange channel control value) =>
      type0 = Midi_Event_Type_ControlChange
      /\ is_channel channel /\ is_byte control /\ is_byte value
  | Some (Data_ProgramChange channel program) =>
      type0 = Midi_Event_Type_ProgramChange /\ is_channel channel /\ is_byte program
  | Some (Data_ChannelPressure channel pressure) =>
      type0 = Midi_Event_Type_ChannelPressure /\ is_channel channel /\ is_byte pressure
  | Some (Data_PitchWheelChange channel wheel) =>
      type0 = Midi_Event_Type_PitchWheelChange /\ is_channel channel /\ 0 <= wheel < 32768
  | Some Data_Uninit => type0 = Midi_Event_Type_EndOfTrack
  | None => False
  end.

(** An event as [MidiTrack_Read] makes them: a 32-bit delta-time, an
    interface of the table and canonical data of its type. *)
Definition canonical_event (event : MidiEvent_t) : Prop :=
  0 <= deltaTime event < 4294967296
  /\ exists i, interface_of event = Ok i /\ canonical_data (type i) (data event).

(** The bytes [MidiFile_Save] stores for an event: the delta-time, then
    what [write_data] stores. *)
Definition event_bytes (event : MidiEvent_t) : result (list Z) :=
  i ← interface_of event;
  bytes ← write_data i (type i) (data event);
  Ok (snd (WriteVariableLength 5 (deltaTime event)) ++ bytes).

(** The bytes of the events of a list, one after the other. *)
Fixpoint events_bytes (events : list MidiEvent_t) : result (list Z) :=
  match events with
  | [] => Ok []
  | event :: events =>
      bytes ← event_bytes event;
      rest ← events_bytes events;
      Ok (bytes ++ rest)
  end.

(** The data [d] of an event of interface [i] are written as a header,
    the bytes [0xFF] and type of a meta event or else one status byte
    that holds the type, and a payload which the reader of the interface
    reads back as [d], whatever follows it. *)
Definition written_and_read_back (i : MidiEventInterface_t) (d : option MidiEventData)
    : Prop :=
  exists hdr status payload,
    write_data i (type i) d = Ok (hdr ++ payload)
    /\ (hdr = [0xFF; status] /\ status = type i
        \/ hdr = [status] /\ 0x80 <= status < 0xFF /\ Z.land status 0xF0 = type i)
    /\ forall rest,
         exists stored,
           read_data i (payload ++ rest) status = Ok (Z.of_nat (length payload), stored)
           /\ match stored with
              | Some d' => Some d'
              | None => Some Data_Uninit
              end = d.

(** An event whose text, if it holds one, has at most 120 characters:
    with its delta-time it takes at most 128 bytes. *)
Definition small_event (event : MidiEvent_t) : Prop :=
  match data event with
  | Some (Data_Text len _) => len <= 120
  | _ => True
  end.

(** A track of [events]. *)
Definition track_of_events (events : list MidiEvent_t) : MidiTrack_t :=
  {| NumEvents := Z.of_nat (length events); Events := map Some events |}.

(** A track of fewer than 2^24 canonical, small events. *)
Definition canonical_track (track : MidiTrack_t) : Prop :=
  exists events,
    track = track_of_events events
    /\ Z.of_nat (length events) < 16777216
    /\ Forall canonical_event events /\ Forall small_event events.

(** A track just allocated. *)
Definition empty_track_slot : MidiTrack_t := {| NumEvents := 0; Events := [] |}.

(** A file as [MidiFile_Open] makes them: 16-bit header fields, one
    track if the format is 0, as many tracks as [nTrks] says, at most
    256, all canonical. *)
Definition canonical_file (file : MidiFile_t) : Prop :=
  0 <= Format file < 65536 /\ 0 <= PulsesPerQuarterNote file < 65536
  /\ (Format file = MIDI_FORMAT_SINGLE_TRACK -> nTrks file = 1)
  /\ exists tracks,
       Tracks file = Some tracks
       /\ nTrks file = Z.of_nat (length tracks) /\ (length tracks <= 256)%nat
       /\ Forall canonical_track tracks.

(** Events that make a canonical track. *)
Definition canonical_events (events : list MidiEvent_t) : Prop :=
  Z.of_nat (length events) < 16777216
  /\ Forall canonical_event events /\ Forall small_event events.

(** The track chunks [MidiFile_Save] writes for tracks of the given
    events: the tag, the length of the events' bytes and these bytes. *)
Fixpoint chunks_bytes (tracks : list (list MidiEvent_t)) : result (list Z) :=
  match tracks with
  | [] => Ok []
  | events :: tracks =>
      buffer ← events_bytes events;
      rest ← chunks_bytes tracks;
      Ok (MIDI_CHUNK_TRACK ++ u32toarray (Z.of_nat (length buffer)) ++ buffer ++ rest)
  end.

(** A text event of [n] characters [c], one tick after the event before
    it. *)
Definition text_event (n : nat) (c : Z) : MidiEvent_t :=
  {| deltaTime := 1; interface := 0;
     data := Some (Data_Text (Z.of_nat n) (replicate n c ++ replicate (255 - n) 0)) |}.

(** The entry [m] of the time map agrees with the calls [log] of the
    callback: it was opened by a call for a sounding note on its track at
    its start time; when it is closed, a later call on the same track, at
    its end time, was for the ending note of the same channel and key;
    when it is not, its end time is [UINT32_MAX]. *)
Definition entry_paired (midi : MidiFile_t) (log : list PlayerCall)
    (m : MidiAbsoluteTimeMap_t) : Prop :=
  exists channel key,
    sounding_note midi (OnEvent m) channel key
    /\ match OffEvent m with
       | None =>
           endTime m = UINT32_MAX
           /\ exists ticks, In (OnEvent m, track m, ticks, startTime m) log
       | Some off =>
           ending_note midi off channel key
           /\ exists l1 l2 l3 ticks1 ticks2,
                log = l1 ++ [(OnEvent m, track m, ticks1, startTime m)] ++ l2
                         ++ [(off, track m, ticks2, endTime m)] ++ l3
       end.

(** The test of [playerCb] for a note that starts: an event of type
    NoteOn or NoteOff with data that are not a NoteOff and have a
    velocity other than 0. *)
Definition is_sounding (midi : MidiFile_t) (event : MidiEvent_ptr) : bool :=
  match deref midi event with
  | Ok ev =>
      match MidiEvent_GetType ev, data ev with
      | Ok type0, Some (Data_NoteEvent channel key velocity OnOff) =>
          ((type0 =? Midi_Event_Type_NoteOff) || (type0 =? Midi_Event_Type_NoteOn))
          && negb ((OnOff =? Midi_Event_Type_NoteOff) || (velocity =? 0))
      | _, _ => false
      end
  | _ => false
  end.

(** The event, track and time in microseconds of a call, and the same
    for the opening of an entry. *)
Definition call_key (call : PlayerCall) : MidiEvent_ptr * Z * Z :=
  (call.1.1.1, call.1.1.2, call.2).
Definition entry_key (m : MidiAbsoluteTimeMap_t) : MidiEvent_ptr * Z * Z :=
  (OnEvent m, track m, startTime m).

(** A track announces as many events as its array holds, in a
    [uint32_t]. *)
Definition counts_its_events (track : MidiTrack_t) : Prop :=
  NumEvents track = u32 (Z.of_nat (length (Events track))).

(** The shape of a file [MidiFile_Open] has loaded: without a header
    chunk it has no tracks; with one, its header fields are 16-bit
    numbers, it has one track if its format is 0, and its track array
    has [nTrks] tracks, each of which counts its events. *)
Definition loaded_shape (mf : MidiFile_t) : Prop :=
  match Tracks mf with
  | None => Format mf = 0 /\ nTrks mf = 0 /\ PulsesPerQuarterNote mf = 0
  | Some tracks =>
      0 <= Format mf < 65536 /\ 0 <= nTrks mf < 65536
      /\ 0 <= PulsesPerQuarterNote mf < 65536
      /\ (Format mf = MIDI_FORMAT_SINGLE_TRACK -> nTrks mf = 1)
      /\ length tracks = Z.to_nat (nTrks mf)
      /\ Forall counts_its_events tracks
  end.

(** A track chunk with the bytes [bs]: the tag, the length and [bs]. *)
Definition track_chunk (bs : list Z) : list Z :=
  MIDI_CHUNK_TRACK ++ u32toarray (Z.of_nat (length bs)) ++ bs.

(** The file with its track [t] replaced. *)
Definition with_track (mf : MidiFile_t) (t : nat) (track : MidiTrack_t) : MidiFile_t :=
  {| Format := Format mf; nTrks := nTrks mf;
     PulsesPerQuarterNote := PulsesPerQuarterNote mf;
     Tracks := match Tracks mf with
               | Some tracks => Some (<[t := track]> tracks)
               | None => None
               end |}.


(** ** Vocabulary of a whole run of the player *)

(** The ticks of a list of events: the sum of their delta-times. *)
Fixpoint ticks (events : list MidiEvent_t) : Z :=
  match events with
  | [] => 0
  | event :: events => deltaTime event + ticks events
  end.

(** The tick at which the event [c] of a track is due: the delta-times
    of the events 1 to [c], that of the first event not being waited
    for.  Past the last event it is the tick at which the wait of
    [UINT32_MAX] ticks that the player gives a finished track would
    end. *)
Definition due (events : list MidiEvent_t) (c : Z) : Z :=
  if c <? Z.of_nat (length events) then ticks (take (Z.to_nat c) (tail events))
  else UINT32_MAX + ticks (tail events).

(** An event the player can handle: a 32-bit delta-time, an interface of
    the table, and data of the kind the player reads for a tempo, a
    note or a program change. *)
Definition playable_event (event : MidiEvent_t) : Prop :=
  0 <= deltaTime event < 4294967296
  /\ exists i,
       interface_of event = Ok i
       /\ (type i = Midi_Event_Type_SetTempo ->
           exists tempo, data event = Some (Data_SetTempo tempo))
       /\ (type i = Midi_Event_Type_NoteOn \/ type i = Midi_Event_Type_NoteOff ->
           exists channel key velocity,
             data event = Some (Data_NoteEvent channel key velocity (type i)))
       /\ (type i = Midi_Event_Type_ProgramChange ->
           exists channel program, data event = Some (Data_ProgramChange channel program)).

(** The events of a track the player can handle: at least one, fewer
    than 65536, and lasting less than [UINT32_MAX] ticks. *)
Definition playable_track (events : list MidiEvent_t) : Prop :=
  events <> [] /\ Z.of_nat (length events) < 65536 /\ Forall playable_event events
  /\ ticks (tail events) < UINT32_MAX.

(** [midi] is a file of the tracks [tracks], given by their events, that
    the player can handle. *)
Definition playable (midi : MidiFile_t) (tracks : list (list MidiEvent_t)) : Prop :=
  Tracks midi = Some (map track_of_events tracks)
  /\ nTrks midi = Z.of_nat (length tracks) /\ nTrks midi < 65536
  /\ PulsesPerQuarterNote midi <> 0
  /\ Forall playable_track tracks.

(** The events the callback was called for with the track [t], in the
    order of the calls. *)
Definition calls_of_track (t : Z) (log : list PlayerCall) : list MidiEvent_ptr :=
  map (fun call : PlayerCall => call.1.1.1)
      (filter (fun call : PlayerCall => call.1.1.2 = t) log).

(** The events [0 .. n) of the track [t]. *)
Definition events_of_track (t : Z) (n : Z) : list MidiEvent_ptr :=
  map (fun e : Z => (t, e)) (seqZ 0 n).

(** A call of the callback for an event of the file, with the track of
    the event, at the tick the event is due. *)
Definition call_on_time (tracks : list (list MidiEvent_t)) (call : PlayerCall) : Prop :=
  exists (t e : nat) events,
    tracks !! t = Some events /\ (e < length events)%nat
    /\ call.1.1.1 = (Z.of_nat t, Z.of_nat e) /\ call.1.1.2 = Z.of_nat t
    /\ call.1.2 = due events (Z.of_nat e).

(** The events the player has still to reach, and the tracks it has
    finished, when [current] holds its position in each track. *)
Fixpoint events_left (tracks : list (list MidiEvent_t)) (current : list Z) : Z :=
  match tracks, current with
  | events :: tracks, c :: current =>
      (Z.of_nat (length events) - c) + events_left tracks current
  | _, _ => 0
  end.

Fixpoint finished_tracks (tracks : list (list MidiEvent_t)) (current : list Z) : Z :=
  match tracks, current with
  | events :: tracks, c :: current =>
      (if c <? Z.of_nat (length events) then 0 else 1) + finished_tracks tracks current
  | _, _ => 0
  end.

(** What the player holds for a track of [events] at the tick [now]: its
    position [current] and the ticks [wait] until the event there is
    due. *)
Definition track_state (events : list MidiEvent_t) (now wait current : Z) : Prop :=
  0 <= current <= Z.of_nat (length events)
  /\ wait = due events current - now
  /\ 0 <= wait <= UINT32_MAX
  /\ (current = Z.of_nat (length events) -> ticks (tail events) <= now).

(** The state of the player in the turn that takes the clock from [now]
    to [now + dec], before it visits the track [i]: the tracks before
    [i] are at the new tick, the others at the old one; the callback
    was called for the events before the position of each track.  The
    track [k0] is one whose wait is [dec]; [left0] events were left
    when the turn began. *)
Definition in_turn {St : Type} (tracks : list (list MidiEvent_t)) (CbInv : St -> Prop)
    (now dec : Z) (i k0 : nat) (left0 : Z) (st : PlayState St) : Prop :=
  length (waitTicks st) = length tracks
  /\ length (currentEvent st) = length tracks
  /\ currentTotalTime_Ticks st = now + dec
  /\ (forall k events, tracks !! k = Some events ->
        exists wait current,
          waitTicks st !! k = Some wait /\ currentEvent st !! k = Some current
          /\ track_state events (if (k <? i)%nat then now + dec else now) wait current
          /\ ((i <= k)%nat -> dec <= wait)
          /\ calls_of_track (Z.of_nat k) (callbacks st)
             = events_of_track (Z.of_nat k) current)
  /\ minimumWaitTicks st <= UINT32_MAX
  /\ (forall k wait, (k < i)%nat -> waitTicks st !! k = Some wait ->
        minimumWaitTicks st <= wait)
  /\ (minimumWaitTicks st = UINT32_MAX
      \/ exists k, (k < i)%nat /\ waitTicks st !! k = Some (minimumWaitTicks st))
  /\ countFinishedTracks st = finished_tracks tracks (currentEvent st)
  /\ (if (k0 <? i)%nat then events_left tracks (currentEvent st) < left0
      else events_left tracks (currentEvent st) <= left0
           /\ waitTicks st !! k0 = Some dec)
  /\ Forall (call_on_time tracks) (callbacks st)
  /\ CbInv (cb_state st).

(** The state of the player between two turns of its loop, at the tick
    [now]. *)
Definition between_turns {St : Type} (tracks : list (list MidiEvent_t)) (CbInv : St -> Prop)
    (now : Z) (st : PlayState St) : Prop :=
  0 <= now < UINT32_MAX
  /\ length (waitTicks st) = length tracks
  /\ length (currentEvent st) = length tracks
  /\ currentTotalTime_Ticks st = now
  /\ (forall k events, tracks !! k = Some events ->
        exists wait current,
          waitTicks st !! k = Some wait /\ currentEvent st !! k = Some current
          /\ track_state events now wait current
          /\ calls_of_track (Z.of_nat k) (callbacks st)
             = events_of_track (Z.of_nat k) current)
  /\ (forall k wait, waitTicks st !! k = Some wait -> minimumWaitTicks st <= wait)
  /\ (tracks <> [] -> exists k, waitTicks st !! k = Some (minimumWaitTicks st))
  /\ countFinishedTracks st = finished_tracks tracks (currentEvent st)
  /\ Forall (call_on_time tracks) (callbacks st)
  /\ CbInv (cb_state st).

(** The tracks of [note_file], by their events. *)
Definition note_file_tracks : list (list MidiEvent_t) :=
  [ [ {| deltaTime := 0; interface := 18; data := Some (Data_NoteEvent 0 60 64 0x90) |};
      {| deltaTime := 10; interface := 18; data := Some (Data_NoteEvent 0 60 0 0x90) |};
      {| deltaTime := 0; interface := 18; data := Some (Data_NoteEvent 0 60 64 0x90) |};
      {| deltaTime := 10; interface := 19; data := Some (Data_NoteEvent 0 60 64 0x80) |};
      {| deltaTime := 0; interface := 11; data := Some Data_Uninit |} ];
    [ {| deltaTime := 5; interface := 18; data := Some (Data_NoteEvent 1 61 64 0x90) |};
      {| deltaTime := 10; interface := 22; data := Some (Data_ProgramChange 0 6) |};
      {| deltaTime := 0; interface := 11; data := Some Data_Uninit |} ] ].


(** ** Results and buffers: lemmas *)

Lemma bind_Ok {A B : Type} (f : A -> result B) (a : A) : (Ok a ≫= f) = f a.
Proof. reflexivity. Qed.

Lemma byte_at_head (b : Z) (buffer : list Z) : byte_at (b :: buffer) 0 = Ok b.
Proof. reflexivity. Qed.

(** ** Variable-length quantities: lemmas *)

Lemma land_127 (x : Z) : Z.land x 127 = x mod 128.
Proof. change 127 with (Z.ones 7). rewrite Z.land_ones by lia. reflexivity. Qed.

Lemma lor_128 (y : Z) : 0 <= y < 128 -> Z.lor y 128 = y + 128.
Proof.
  intros Hy. symmetry. apply Z.add_nocarry_lor.
  apply Z.bits_inj'. intros n Hn. rewrite Z.land_spec, Z.bits_0.
  destruct (Z.eq_dec n 7) as [->|Hne].
  - replace (Z.testbit y 7) with false; [reflexivity|].
    symmetry. apply Z.bits_above_log2; [lia|].
    destruct (Z.eq_dec y 0) as [->|]; [simpl; lia|].
    apply Z.log2_lt_pow2; lia.
  - replace (Z.testbit 128 n) with false; [apply andb_false_r|].
    symmetry. change 128 with (2 ^ 7). apply Z.pow2_bits_false. lia.
Qed.

Lemma continuation_byte (x : Z) : continues (Z.lor (Z.land x 127) 128).
Proof.
  rewrite land_127. pose proof (Z.mod_pos_bound x 128 ltac:(lia)).
  rewrite lor_128 by lia. unfold continues. lia.
Qed.

Lemma continuation_byte_mod (x : Z) : Z.lor (Z.land x 127) 128 mod 128 = x mod 128.
Proof.
  rewrite land_127. pose proof (Z.mod_pos_bound x 128 ltac:(lia)).
  rewrite lor_128 by lia.
  replace (x mod 128 + 128) with (x mod 128 + 1 * 128) by lia.
  rewrite Z.mod_add by lia. apply Z.mod_mod. lia.
Qed.

Lemma vlq_value_from_app (acc : Z) (bs cs : list Z) :
  vlq_value_from acc (bs ++ cs) = vlq_value_from (vlq_value_from acc bs) cs.
Proof. unfold vlq_value_from. apply fold_left_app. Qed.

Lemma vlq_value_from_bounds (bs : list Z) : forall acc,
  0 <= acc ->
  acc * 128 ^ Z.of_nat (length bs) <= vlq_value_from acc bs
    < (acc + 1) * 128 ^ Z.of_nat (length bs).
Proof.
  induction bs as [|b bs IH]; intros acc Hacc.
  - cbn. lia.
  - cbn [vlq_value_from fold_left length]. fold (vlq_value_from (acc * 128 + b mod 128) bs).
    pose proof (Z.mod_pos_bound b 128 ltac:(lia)) as Hb.
    specialize (IH (acc * 128 + b mod 128) ltac:(lia)).
    rewrite Nat2Z.inj_succ, Z.pow_succ_r by lia.
    assert (0 < 128 ^ Z.of_nat (length bs)) by (apply Z.pow_pos_nonneg; lia).
    nia.
Qed.

(** *** The writer *)

Lemma WriteVariableLength_back_app (i : nat) : forall value stored,
  WriteVariableLength_back i value stored = WriteVariableLength_back i value [] ++ stored.
Proof.
  induction i as [|i IH]; intros value stored; cbn [WriteVariableLength_back].
  - reflexivity.
  - rewrite IH. rewrite (IH _ [_]). rewrite <- app_assoc. reflexivity.
Qed.

Lemma WriteVariableLength_back_length (i : nat) : forall value stored,
  length (WriteVariableLength_back i value stored) = (i + length stored)%nat.
Proof.
  induction i as [|i IH]; intros value stored; cbn [WriteVariableLength_back].
  - reflexivity.
  - rewrite IH. cbn. lia.
Qed.

Lemma WriteVariableLength_back_continues (i : nat) : forall value,
  Forall continues (WriteVariableLength_back i value []).
Proof.
  induction i as [|i IH]; intros value; cbn [WriteVariableLength_back].
  - constructor.
  - rewrite WriteVariableLength_back_app. apply Forall_app. split; [apply IH|].
    constructor; [apply continuation_byte|constructor].
Qed.

Lemma WriteVariableLength_back_value (i : nat) : forall value,
  0 <= value ->
  vlq_value (WriteVariableLength_back i value []) = (value / 128) mod 128 ^ Z.of_nat i.
Proof.
  induction i as [|i IH]; intros value Hv; cbn [WriteVariableLength_back].
  - cbn. rewrite Z.mod_1_r. reflexivity.
  - rewrite WriteVariableLength_back_app. unfold vlq_value in *.
    rewrite vlq_value_from_app, IH by (apply Z.div_pos; lia).
    cbn [vlq_value_from fold_left]. rewrite continuation_byte_mod.
    rewrite Nat2Z.inj_succ, Z.pow_succ_r by lia.
    assert (0 < 128 ^ Z.of_nat i) by (apply Z.pow_pos_nonneg; lia).
    rewrite (Z.rem_mul_r (value / 128) 128 (128 ^ Z.of_nat i)) by lia. lia.
Qed.

Lemma WriteVariableLength_count_spec (turns : nat) : forall v i,
  0 <= v < 128 ^ Z.of_nat turns ->
  let n := WriteVariableLength_count turns v i - i in
  0 <= n /\ v < 128 ^ (n + 1) /\ (0 < n -> 128 ^ n <= v).
Proof.
  induction turns as [|turns IH]; intros v i Hv; cbn [WriteVariableLength_count].
  - cbn in *. lia.
  - rewrite Nat2Z.inj_succ, Z.pow_succ_r in Hv by lia.
    destruct (Z.gtb_spec (v / 128) 0) as [Hq|Hq].
    + assert (Hq' : 0 <= v / 128 < 128 ^ Z.of_nat turns).
      { split; [lia|]. apply Z.div_lt_upper_bound; lia. }
      specialize (IH (v / 128) (i + 1) Hq'). cbn zeta in IH.
      set (m := WriteVariableLength_count turns (v / 128) (i + 1)) in *.
      destruct IH as (Hn & Hlt & Hge).
      replace (m - i) with (Z.succ (m - (i + 1))) by lia.
      cbn zeta. repeat split.
      * lia.
      * replace (Z.succ (m - (i + 1)) + 1) with (Z.succ (m - (i + 1) + 1)) by lia.
        rewrite Z.pow_succ_r by lia.
        pose proof (Z.div_mod v 128 ltac:(lia)).
        pose proof (Z.mod_pos_bound v 128 ltac:(lia)). lia.
      * intros _. rewrite Z.pow_succ_r by lia.
        pose proof (Z.div_mod v 128 ltac:(lia)).
        pose proof (Z.mod_pos_bound v 128 ltac:(lia)).
        destruct (Z.eq_dec (m - (i + 1)) 0) as [E|E].
        -- rewrite E. cbn. lia.
        -- specialize (Hge ltac:(lia)). lia.
    + cbn zeta. replace (i - i) with 0 by lia. cbn.
      pose proof (Z.div_mod v 128 ltac:(lia)).
      pose proof (Z.mod_pos_bound v 128 ltac:(lia)).
      assert (v / 128 = 0) by (pose proof (Z.div_pos v 128); lia).
      lia.
Qed.

(** *** The reader *)

Lemma u32_accumulate (acc b : Z) :
  continues b ->
  u32 (u32 (u32 (128 * acc) + (b - 128)) * 128) = u32 (128 * (acc * 128 + b mod 128)).
Proof.
  intros Hb. unfold continues in Hb. unfold u32.
  replace (b mod 128) with (b - 128).
  2:{ symmetry. replace b with ((b - 128) + 1 * 128) at 1 by lia.
      rewrite Z.mod_add by lia. apply Z.mod_small. lia. }
  rewrite Zplus_mod_idemp_l, Zmult_mod_idemp_l. f_equal. lia.
Qed.

(** On continuation bytes followed by a final byte the loop returns the
    number of bytes up to the final one and the value modulo 2^32. *)
Lemma ReadVariableLength_loop_wf (last : Z) (rest : list Z) (bufflen : Z) (pre : list Z) :
  forall acc size_read,
  Forall continues pre -> terminates last ->
  size_read + Z.of_nat (length pre) < bufflen ->
  ReadVariableLength_loop (pre ++ last :: rest) bufflen size_read (u32 (128 * acc))
  = Ok (size_read + Z.of_nat (length pre) + 1, u32 (vlq_value_from acc (pre ++ [last]))).
Proof.
  induction pre as [|b pre IH]; intros acc size_read Hpre Hlast Hlen.
  - cbn [app ReadVariableLength_loop length] in *.
    destruct (Z.geb_spec size_read bufflen); [lia|].
    unfold terminates in Hlast. destruct (Z.ltb_spec last 128); [|lia].
    cbn. f_equal. f_equal; [lia|].
    unfold u32. rewrite Zplus_mod_idemp_l. f_equal.
    rewrite (Z.mod_small last 128) by lia. lia.
  - inversion Hpre as [|? ? Hb Hpre']; subst.
    cbn [app ReadVariableLength_loop length] in *.
    destruct (Z.geb_spec size_read bufflen); [lia|].
    pose proof Hb as Hb'. unfold continues in Hb'.
    destruct (Z.ltb_spec b 128); [lia|].
    rewrite u32_accumulate by assumption.
    rewrite IH by (try assumption; lia).
    cbn [vlq_value_from fold_left]. f_equal. f_equal. lia.
Qed.

Lemma ReadVariableLength_wf (bs rest : list Z) (bufflen : Z) :
  vlq_wf bs -> Z.of_nat (length bs) <= bufflen ->
  ReadVariableLength (bs ++ rest) bufflen
  = Ok (Z.of_nat (length bs), u32 (vlq_value bs)).
Proof.
  intros (pre & last & -> & Hpre & Hlast) Hlen.
  rewrite length_app in Hlen. cbn [length] in Hlen.
  unfold ReadVariableLength. rewrite <- app_assoc. cbn [app].
  change 0 with (u32 (128 * 0)) at 2.
  rewrite ReadVariableLength_loop_wf; try assumption; [|lia].
  rewrite length_app. cbn. f_equal. f_equal. lia.
Qed.

(** Continuation bytes up to the end of the buffer: the return is -1. *)
Lemma ReadVariableLength_loop_short (bufflen : Z) (pre : list Z) :
  forall rest size_read outvalue,
  Forall continues pre -> bufflen <= size_read + Z.of_nat (length pre) ->
  exists v, ReadVariableLength_loop (pre ++ rest) bufflen size_read outvalue = Ok (-1, v).
Proof.
  induction pre as [|b pre IH]; intros rest size_read outvalue Hpre Hlen.
  - cbn [length] in Hlen. destruct rest; cbn [app ReadVariableLength_loop];
      (destruct (Z.geb_spec size_read bufflen); [eauto|lia]).
  - inversion Hpre as [|? ? Hb Hpre']; subst. unfold continues in Hb.
    cbn [app ReadVariableLength_loop length] in *.
    destruct (Z.geb_spec size_read bufflen); [eauto|].
    destruct (Z.ltb_spec b 128); [lia|].
    apply IH; [assumption|lia].
Qed.

(** A positive return means that the bytes read are a well-formed
    quantity. *)
Lemma ReadVariableLength_loop_inv (bufflen : Z) (bs : list Z) :
  forall size_read outvalue n v,
  Forall is_byte bs -> 0 <= size_read ->
  ReadVariableLength_loop bs bufflen size_read outvalue = Ok (n, v) -> 0 < n ->
  exists pre last rest,
    bs = pre ++ last :: rest /\ Forall continues pre /\ terminates last
    /\ n = size_read + Z.of_nat (length pre) + 1.
Proof.
  induction bs as [|b bs IH]; intros size_read outvalue n v Hbs Hs Hrun Hn;
    cbn [ReadVariableLength_loop] in Hrun.
  - destruct (size_read >=? bufflen); [injection Hrun as <- <-; lia|discriminate].
  - inversion Hbs as [|? ? Hb Hbs']; subst. unfold is_byte in Hb.
    destruct (size_read >=? bufflen); [injection Hrun as <- <-; lia|].
    destruct (Z.ltb_spec b 128).
    + injection Hrun as <- <-. exists [], b, bs. cbn. repeat split; try constructor; lia.
    + apply IH in Hrun; [|assumption|lia|assumption].
      destruct Hrun as (pre & last & rest & -> & Hpre & Hlast & ->).
      exists (b :: pre), last, rest. cbn [app length].
      repeat split; [constructor; [unfold continues; lia|assumption]|apply Hlast..|lia].
Qed.

Lemma ReadVariableLength_whole_inv (bs : list Z) (v : Z) :
  Forall is_byte bs ->
  ReadVariableLength bs (Z.of_nat (length bs)) = Ok (Z.of_nat (length bs), v) ->
  vlq_wf bs /\ v = u32 (vlq_value bs).
Proof.
  intros Hbs Hrun.
  assert (Hpos : 0 < Z.of_nat (length bs)).
  { destruct bs; [cbn in Hrun; discriminate|cbn; lia]. }
  pose proof Hrun as Hrun'.
  apply ReadVariableLength_loop_inv in Hrun'; [|assumption|lia|assumption].
  destruct Hrun' as (pre & last & rest & E & Hpre & Hlast & Hn).
  assert (rest = []) as ->.
  { subst bs. rewrite length_app in Hn. cbn [length] in Hn. destruct rest; [reflexivity|].
    cbn [length] in Hn. lia. }
  assert (Hwf : vlq_wf bs) by (exists pre, last; auto).
  split; [assumption|].
  pose proof (ReadVariableLength_wf bs [] _ Hwf (Z.le_refl _)) as R. rewrite app_nil_r in R.
  rewrite R in Hrun. injection Hrun as <-. reflexivity.
Qed.

(** *** Uniqueness of the groups *)

Lemma vlq_value_snoc (bs : list Z) (b : Z) :
  vlq_value (bs ++ [b]) = vlq_value bs * 128 + b mod 128.
Proof. unfold vlq_value. rewrite vlq_value_from_app. reflexivity. Qed.

Lemma vlq_value_nonneg (bs : list Z) : 0 <= vlq_value bs.
Proof.
  pose proof (vlq_value_from_bounds bs 0 ltac:(lia)). unfold vlq_value. lia.
Qed.

Lemma continues_inj (b c : Z) : continues b -> continues c -> b mod 128 = c mod 128 -> b = c.
Proof.
  unfold continues. intros Hb Hc E.
  revert E. replace b with ((b - 128) + 1 * 128) at 1 by lia.
  replace c with ((c - 128) + 1 * 128) at 1 by lia.
  rewrite !Z.mod_add, !Z.mod_small by lia. lia.
Qed.

Lemma vlq_value_continues_inj (p : list Z) : forall q,
  Forall continues p -> Forall continues q -> length p = length q ->
  vlq_value p = vlq_value q -> p = q.
Proof.
  induction p as [|b p IH] using rev_ind; intros q Hp Hq Hlen E.
  - destruct q; [reflexivity|discriminate].
  - destruct q as [|c q _] using rev_ind.
    + rewrite length_app in Hlen. cbn in Hlen. lia.
    + rewrite !length_app in Hlen. cbn in Hlen.
      apply Forall_app in Hp as [Hp Hb]. apply Forall_app in Hq as [Hq Hc].
      inversion Hb; subst. inversion Hc; subst.
      rewrite !vlq_value_snoc in E.
      pose proof (Z.mod_pos_bound b 128 ltac:(lia)).
      pose proof (Z.mod_pos_bound c 128 ltac:(lia)).
      assert (b mod 128 = c mod 128 /\ vlq_value p = vlq_value q) as [Eb Ev] by lia.
      f_equal; [apply IH; try assumption; lia|].
      f_equal. apply continues_inj; assumption.
Qed.

Lemma vlq_wf_inj (bs cs : list Z) :
  vlq_wf bs -> vlq_wf cs -> length bs = length cs -> vlq_value bs = vlq_value cs -> bs = cs.
Proof.
  intros (p & b & -> & Hp & Hb) (q & c & -> & Hq & Hc) Hlen E.
  rewrite !length_app in Hlen. cbn in Hlen.
  rewrite !vlq_value_snoc in E. unfold terminates in *.
  rewrite (Z.mod_small b), (Z.mod_small c) in E by lia.
  assert (b = c /\ vlq_value p = vlq_value q) as [-> Ev] by lia.
  f_equal. apply vlq_value_continues_inj; try assumption; lia.
Qed.

Lemma vlq_value_lt (bs : list Z) : vlq_value bs < 128 ^ Z.of_nat (length bs).
Proof.
  pose proof (vlq_value_from_bounds bs 0 ltac:(lia)). unfold vlq_value. lia.
Qed.

(** *** What the writer stores *)

Lemma WriteVariableLength_spec (bufflen value : Z) :
  0 <= value < 4294967296 -> 5 <= bufflen ->
  exists bs,
    WriteVariableLength bufflen value = (Z.of_nat (length bs), bs)
    /\ vlq_wf bs /\ vlq_value bs = value
    /\ (1 < Z.of_nat (length bs) -> 128 ^ (Z.of_nat (length bs) - 1) <= value).
Proof.
  intros Hv Hb. unfold WriteVariableLength.
  pose proof (WriteVariableLength_count_spec 5 value 0 ltac:(cbn; lia)) as Hc.
  cbn zeta in Hc. rewrite Z.sub_0_r in Hc.
  set (i := WriteVariableLength_count 5 value 0) in *.
  destruct Hc as (Hi & Hlt & Hge).
  assert (Hi5 : i < 5).
  { destruct (Z.lt_ge_cases i 5) as [|Hbig]; [assumption|].
    specialize (Hge ltac:(lia)).
    assert (128 ^ 5 <= 128 ^ i) by (apply Z.pow_le_mono_r; lia).
    cbn in *. lia. }
  destruct (Z.gtb_spec (i + 1) bufflen); [lia|].
  exists (WriteVariableLength_back (Z.to_nat i) value [Z.land value 127]).
  split; [|split; [|split]].
  - rewrite WriteVariableLength_back_length. cbn [length]. f_equal. lia.
  - rewrite WriteVariableLength_back_app.
    exists (WriteVariableLength_back (Z.to_nat i) value []), (Z.land value 127).
    split; [reflexivity|]. split; [apply WriteVariableLength_back_continues|].
    rewrite land_127. unfold terminates. apply Z.mod_pos_bound. lia.
  - rewrite WriteVariableLength_back_app, vlq_value_snoc.
    rewrite WriteVariableLength_back_value by lia.
    rewrite land_127, Z.mod_mod by lia. rewrite Z2Nat.id by lia.
    assert (0 < 128 ^ i) by (apply Z.pow_pos_nonneg; lia).
    replace (128 ^ (i + 1)) with (128 * 128 ^ i) in Hlt by (rewrite Z.pow_add_r by lia; lia).
    rewrite (Z.mod_small (value / 128)).
    2:{ split; [apply Z.div_pos; lia|]. apply Z.div_lt_upper_bound; lia. }
    pose proof (Z.div_mod value 128 ltac:(lia)). lia.
  - rewrite WriteVariableLength_back_length. cbn [length]. intros Hlen.
    replace (Z.of_nat (Z.to_nat i + 1) - 1) with i by lia. apply Hge. lia.
Qed.

(** ** C4: the writer and the reader of variable-length quantities *)

(** C4.  For every value [v <= 2^28 - 1], [WriteVariableLength] (with
    room for the 5 bytes [MidiFile_Save] gives it, or more) stores bytes
    from which [ReadVariableLength] reads back exactly [v], consuming all
    of them; every byte sequence from which the reader reads [v],
    consuming all of it, is at least as long, and is the stored one when
    it has the same length; and 0 is stored as the single byte 0x00. *)
Theorem WriteVariableLength_roundtrip_minimal (v bufflen : Z) :
  0 <= v <= 2 ^ 28 - 1 -> 5 <= bufflen ->
  exists bs,
    WriteVariableLength bufflen v = (Z.of_nat (length bs), bs)
    /\ ReadVariableLength bs (Z.of_nat (length bs)) = Ok (Z.of_nat (length bs), v)
    /\ (forall bs', Forall is_byte bs' ->
          ReadVariableLength bs' (Z.of_nat (length bs')) = Ok (Z.of_nat (length bs'), v) ->
          (length bs <= length bs')%nat /\ (length bs' = length bs -> bs' = bs))
    /\ (v = 0 -> bs = [0]).
Proof.
  intros Hv Hb. change (2 ^ 28 - 1) with 268435455 in Hv.
  destruct (WriteVariableLength_spec bufflen v ltac:(lia) Hb) as (bs & Hw & Hwf & Hval & Hmin).
  exists bs. split; [assumption|].
  assert (Hlen4 : Z.of_nat (length bs) <= 4).
  { destruct (Z.le_gt_cases (Z.of_nat (length bs)) 4) as [|Hbig]; [assumption|].
    specialize (Hmin ltac:(lia)).
    assert (128 ^ 4 <= 128 ^ (Z.of_nat (length bs) - 1)) by (apply Z.pow_le_mono_r; lia).
    change (128 ^ 4) with 268435456 in *. lia. }
  split; [|split].
  - pose proof (ReadVariableLength_wf bs [] _ Hwf (Z.le_refl _)) as R.
    rewrite app_nil_r, Hval in R. rewrite R. unfold u32. rewrite Z.mod_small by lia.
    reflexivity.
  - intros bs' Hbytes Hrun.
    destruct (ReadVariableLength_whole_inv bs' v Hbytes Hrun) as [Hwf' Hv'].
    pose proof (vlq_value_lt bs') as Hlt'. pose proof (vlq_value_nonneg bs') as Hnn'.
    assert (Hsmall : Z.of_nat (length bs') <= 4 -> vlq_value bs' = v).
    { intros Hle.
      assert (128 ^ Z.of_nat (length bs') <= 128 ^ 4) by (apply Z.pow_le_mono_r; lia).
      change (128 ^ 4) with 268435456 in *.
      rewrite Hv'. unfold u32. symmetry. apply Z.mod_small.
      split; [exact Hnn'|]. lia. }
    assert (Hpos' : (0 < length bs')%nat).
    { destruct Hwf' as (p & l & -> & _). rewrite length_app. cbn. lia. }
    split.
    + destruct (Nat.le_gt_cases (length bs) (length bs')) as [|Hshort]; [assumption|].
      exfalso. specialize (Hsmall ltac:(lia)). specialize (Hmin ltac:(lia)).
      assert (128 ^ Z.of_nat (length bs') <= 128 ^ (Z.of_nat (length bs) - 1))
        by (apply Z.pow_le_mono_r; lia).
      lia.
    + intros Hsame. apply vlq_wf_inj; try assumption.
      rewrite Hval. apply Hsmall. lia.
  - intros ->.
    assert (E : WriteVariableLength bufflen 0 = (1, [0])).
    { unfold WriteVariableLength. change (WriteVariableLength_count 5 0 0) with 0.
      change (0 + 1) with 1. destruct (Z.gtb_spec 1 bufflen); [lia|reflexivity]. }
    rewrite E in Hw. injection Hw as _ <-. reflexivity.
Qed.

Lemma WriteVariableLength_roundtrip_minimal_witness :
  exists bs,
    WriteVariableLength 5 300 = (Z.of_nat (length bs), bs)
    /\ ReadVariableLength bs (Z.of_nat (length bs)) = Ok (Z.of_nat (length bs), 300)
    /\ (forall bs', Forall is_byte bs' ->
          ReadVariableLength bs' (Z.of_nat (length bs')) = Ok (Z.of_nat (length bs'), 300) ->
          (length bs <= length bs')%nat /\ (length bs' = length bs -> bs' = bs))
    /\ (300 = 0 -> bs = [0]).
Proof.
  apply (WriteVariableLength_roundtrip_minimal 300 5); [cbn; lia | lia].
Defined.

(** ** C5: what the reader returns *)

(** C5, as the claim states it, fails: the five bytes 81 80 80 80 00
    encode 2^28, which does not fit in 28 bits, and the reader returns 5
    with that value instead of an error. *)
Lemma ReadVariableLength_five_bytes_no_error :
  ReadVariableLength [0x81; 0x80; 0x80; 0x80; 0x00] 5 = Ok (5, 2 ^ 28).
Proof. reflexivity. Qed.

(** C5, amended.  The reader returns -1 when the buffer ends within the
    continuation bytes.  It has no limit of 28 bits: for continuation
    bytes followed by a final byte, all within the buffer, however many,
    it returns their number and their value modulo 2^32. *)
Theorem ReadVariableLength_results (pre rest : list Z) (last bufflen short : Z) :
  Forall continues pre -> terminates last ->
  Z.of_nat (length pre) < bufflen ->
  short <= Z.of_nat (length pre) ->
  ReadVariableLength (pre ++ last :: rest) bufflen
    = Ok (Z.of_nat (length pre) + 1, u32 (vlq_value (pre ++ [last])))
  /\ (exists v, ReadVariableLength (pre ++ last :: rest) short = Ok (-1, v)).
Proof.
  intros Hpre Hlast Hlen Hshort. split.
  - assert (Hwf : vlq_wf (pre ++ [last])) by (exists pre, last; auto).
    pose proof (ReadVariableLength_wf (pre ++ [last]) rest bufflen Hwf) as R.
    rewrite <- app_assoc in R. cbn [app] in R. rewrite length_app in R. cbn [length] in R.
    rewrite R by lia. f_equal. f_equal. lia.
  - unfold ReadVariableLength. apply ReadVariableLength_loop_short; [assumption|lia].
Qed.

Lemma ReadVariableLength_results_witness :
  ReadVariableLength ([0x81; 0x80; 0x80; 0x80] ++ 0x00 :: []) 5
    = Ok (Z.of_nat (length [0x81; 0x80; 0x80; 0x80]) + 1,
          u32 (vlq_value ([0x81; 0x80; 0x80; 0x80] ++ [0x00])))
  /\ (exists v, ReadVariableLength ([0x81; 0x80; 0x80; 0x80] ++ 0x00 :: []) 4 = Ok (-1, v)).
Proof.
  apply (ReadVariableLength_results [0x81; 0x80; 0x80; 0x80] [] 0x00 5 4).
  - repeat constructor; unfold continues; lia.
  - unfold terminates; lia.
  - cbn; lia.
  - cbn; lia.
Defined.

(** ** C9: the reader of text-like and SysEx payloads *)

Lemma sprintf_precision_nonzero (payload rest : list Z) :
  Forall (fun c => c <> 0) payload ->
  sprintf_precision (length payload) (payload ++ rest) = Ok payload.
Proof.
  induction payload as [|c payload IH]; intros Hnz; cbn [length app sprintf_precision].
  - reflexivity.
  - inversion Hnz as [|? ? Hc Hnz']; subst.
    destruct (Z.eqb_spec c 0); [contradiction|].
    rewrite IH by assumption. reflexivity.
Qed.

(** C9, as the claim states it, fails for the length octet 255: a
    payload of 255 bytes is rejected and nothing is stored. *)
Lemma read_data_Text_rejects_255 :
  read_data_Text (255 :: replicate 255 0x41) Midi_Event_Type_Text = Ok (-1, None).
Proof. reflexivity. Qed.

(** What [sprintf] copies of a payload of [len] bytes: its bytes before
    the first zero byte, whatever follows the payload. *)
Lemma sprintf_precision_c_string (payload rest : list Z) :
  sprintf_precision (length payload) (payload ++ rest) = Ok (c_string payload).
Proof.
  induction payload as [|c payload IH]; cbn [length app sprintf_precision c_string].
  - reflexivity.
  - destruct (c =? 0); [reflexivity|]. rewrite IH, bind_Ok. reflexivity.
Qed.

Lemma c_string_nonzero (payload : list Z) :
  Forall (fun c => c <> 0) payload -> c_string payload = payload.
Proof.
  induction payload as [|c payload IH]; intros Hnz; cbn [c_string]; [reflexivity|].
  inversion Hnz as [|? ? Hc Hnz']; subst.
  destruct (Z.eqb_spec c 0); [contradiction|]. rewrite IH by assumption. reflexivity.
Qed.

Lemma c_string_length (payload : list Z) : (length (c_string payload) <= length payload)%nat.
Proof.
  induction payload as [|c payload IH]; cbn [c_string length]; [lia|].
  destruct (c =? 0); cbn [length]; lia.
Qed.

(** C9, amended.  [read_data_Text] accepts the length octets 0 to 254,
    whatever the bytes of the payload and whatever follows it: it
    returns 1 + len and stores the length and the bytes of the payload
    before its first zero byte, the rest of the 255-byte array being
    zero; these are all the bytes of a payload without a zero byte.  The
    length octet 255 is rejected with -1 and nothing is stored. *)
Theorem read_data_Text_accepts_up_to_254 (payload rest after_255 : list Z) (type0 : Z) :
  Z.of_nat (length payload) <= 254 ->
  read_data_Text (Z.of_nat (length payload) :: payload ++ rest) type0
    = Ok (1 + Z.of_nat (length payload),
          Some (Data_Text (Z.of_nat (length payload))
                  (c_string payload ++ replicate (255 - length (c_string payload)) 0)))
  /\ (length (c_string payload) <= length payload)%nat
  /\ (Forall (fun c => c <> 0) payload -> c_string payload = payload)
  /\ read_data_Text (255 :: after_255) type0 = Ok (-1, None).
Proof.
  intros Hlen. split; [|split; [|split]].
  - unfold read_data_Text, declare_len, MidiEventData_Text_Max_Length.
    rewrite byte_at_head, bind_Ok.
    destruct (Z.gtb_spec (Z.of_nat (length payload)) (255 - 1)); [lia|].
    change (buffer_from (Z.of_nat (length payload) :: payload ++ rest) 1) with (payload ++ rest).
    rewrite Nat2Z.id, sprintf_precision_c_string, bind_Ok.
    reflexivity.
  - apply c_string_length.
  - apply c_string_nonzero.
  - reflexivity.
Qed.

Lemma read_data_Text_accepts_up_to_254_witness :
  read_data_Text [3; 0x41; 0x00; 0x42; 0x90; 0x3C] Midi_Event_Type_Text
    = Ok (4, Some (Data_Text 3 (0x41 :: replicate 254 0)))
  /\ read_data_Text [4; 0x4D; 0x49; 0x44; 0x49; 0x00] Midi_Event_Type_Text
    = Ok (5, Some (Data_Text 4 ([0x4D; 0x49; 0x44; 0x49] ++ replicate 251 0))).
Proof.
  split.
  - destruct (read_data_Text_accepts_up_to_254 [0x41; 0x00; 0x42] [0x90; 0x3C] []
                Midi_Event_Type_Text) as (H & _).
    + cbn. lia.
    + exact H.
  - destruct (read_data_Text_accepts_up_to_254 [0x4D; 0x49; 0x44; 0x49] [0x00] []
                Midi_Event_Type_Text) as (H & _).
    + cbn. lia.
    + exact H.
Defined.

(** ** C6: running status across a meta-event *)

Lemma find_interface_type (type0 : Z) (table : list MidiEventInterface_t) :
  forall k n, find_interface table type0 k = Some n ->
  exists i, table !! (n - k)%nat = Some i /\ type i = type0 /\ (k <= n)%nat.
Proof.
  induction table as [|row table IH]; intros k n Hfind; cbn [find_interface] in Hfind.
  - discriminate.
  - destruct (Z.eqb_spec (type row) type0) as [E|E]; cbn [negb] in Hfind.
    + injection Hfind as <-. exists row. rewrite Nat.sub_diag. auto.
    + apply IH in Hfind as (i & Hi & Ht & Hk). exists i.
      replace (n - k)%nat with (S (n - S k)) by lia. cbn. repeat split; [assumption..|lia].
Qed.

Lemma MidiEvent_Create_interface (type0 deltaTime0 allocData : Z) (event : MidiEvent_t) :
  MidiEvent_Create type0 deltaTime0 allocData = Some event ->
  deltaTime event = deltaTime0
  /\ exists i, interface_of event = Ok i /\ type i = type0.
Proof.
  unfold MidiEvent_Create. destruct (find_interface InterfaceTable type0 0) as [n|] eqn:Hfind;
    [|discriminate].
  intros [= <-]. split; [reflexivity|].
  apply find_interface_type in Hfind as (i & Hi & Ht & _).
  rewrite Nat.sub_0_r in Hi. exists i. unfold interface_of. cbn [interface].
  rewrite Hi. auto.
Qed.

(** C6, as the claim states it, fails: after the note-on with status
    0x90 and the channel-prefix meta-event, the data bytes 3E 40 are
    decoded as a note-on (row 18 of the table, [OnOff] 0x90) on channel 0:
    the status byte from before the meta-event is reused. *)
Lemma MidiTrack_Read_reuses_status_after_meta :
  MidiTrack_Read 3 status_meta_data 12 empty_track
  = Ok {| NumEvents := 3;
          Events := [
            Some {| deltaTime := 0; interface := 18; data := Some (Data_NoteEvent 0 0x3C 0x40 0x90) |};
            Some {| deltaTime := 0; interface := 9; data := Some (Data_ChannelPrefix 5) |};
            Some {| deltaTime := 0; interface := 18; data := Some (Data_NoteEvent 0 0x3E 0x40 0x90) |}
          ] |}.
Proof. reflexivity. Qed.

(** C6, amended.  A turn of the loop of [MidiTrack_Read] that decodes a
    meta-event (status byte 0xFF) leaves the running status as it was;
    and a turn whose first byte after the delta-time is below 0x80
    decodes its event with the running status it finds: the event it
    appends has the type [running_status & 0xF0]. *)
Theorem MidiTrack_Read_meta_keeps_running_status
    (buffer : list Z) (length0 : Z)
    (r r' : TrackReader) (more : bool) (variablelen deltaTime0 : Z)
    (r2 r2' : TrackReader) (variablelen2 deltaTime2 b : Z) :
  ReadVariableLength (buffer_from buffer (read r)) (u32 (length0 - read r))
    = Ok (variablelen, deltaTime0) ->
  0 < variablelen ->
  byte_at buffer (u32 (read r + variablelen)) = Ok 0xFF ->
  MidiTrack_Read_body buffer length0 r = Ok (more, r') ->
  ReadVariableLength (buffer_from buffer (read r2)) (u32 (length0 - read r2))
    = Ok (variablelen2, deltaTime2) ->
  0 < variablelen2 ->
  byte_at buffer (u32 (read r2 + variablelen2)) = Ok b ->
  b < 0x80 ->
  NumEvents (track_read r2) = Z.of_nat (length (Events (track_read r2))) ->
  NumEvents (track_read r2) < UINT32_MAX ->
  MidiTrack_Read_body buffer length0 r2 = Ok (true, r2') ->
  running_status r' = running_status r
  /\ running_status r2' = running_status r2
  /\ exists event i,
       Events (track_read r2') = Events (track_read r2) ++ [Some event]
       /\ deltaTime event = deltaTime2
       /\ interface_of event = Ok i
       /\ type i = Z.land (running_status r2) 0xF0.
Proof.
  intros Hvlq Hpos Hff Hbody Hvlq2 Hpos2 Hb Hlt Hnum Hmax Hbody2.
  split; [|].
  - unfold MidiTrack_Read_body in Hbody. rewrite Hvlq, bind_Ok in Hbody.
    destruct (Z.leb_spec variablelen 0); [lia|].
    rewrite Hff, bind_Ok in Hbody. change (255 =? 255) with true in Hbody. cbv iota in Hbody.
    destruct (byte_at buffer (u32 (u32 (read r + variablelen) + 1))) as [t| |];
      [|discriminate..].
    rewrite !bind_Ok in Hbody.
    destruct (MidiEvent_Create _ _ _) as [ev|]; [|injection Hbody as _ <-; reflexivity].
    destruct (interface_of ev) as [i| |]; [|discriminate..].
    rewrite bind_Ok in Hbody.
    destruct (read_data i _ _) as [[ret stored]| |]; [|discriminate..].
    rewrite bind_Ok in Hbody. injection Hbody as _ <-. reflexivity.
  - unfold MidiTrack_Read_body in Hbody2. rewrite Hvlq2, bind_Ok in Hbody2.
    destruct (Z.leb_spec variablelen2 0); [lia|].
    rewrite Hb, bind_Ok in Hbody2.
    destruct (Z.eqb_spec b 255); [lia|].
    destruct (Z.ltb_spec b 128); [|lia].
    rewrite bind_Ok in Hbody2. change (0 =? 0) with true in Hbody2. cbn [negb] in Hbody2.
    destruct (MidiEvent_Create _ _ _) as [ev|] eqn:Hcreate; [|discriminate].
    apply MidiEvent_Create_interface in Hcreate as (Hdelta & i & Hi & Htype).
    rewrite Hi, bind_Ok in Hbody2.
    destruct (read_data i _ _) as [[ret stored]| |]; [|discriminate..].
    rewrite bind_Ok in Hbody2. injection Hbody2 as <-. cbn [running_status track_read Events NumEvents].
    split; [reflexivity|].
    assert (Hidx : Z.to_nat (u32 (NumEvents (track_read r2) + 1) - 1)
                   = length (Events (track_read r2))).
    { unfold u32, UINT32_MAX in *. rewrite Z.mod_small by lia. lia. }
    rewrite Hidx.
    rewrite insert_app_r_alt, Nat.sub_diag by lia. cbn [insert list_insert].
    destruct stored as [d|]; eexists _, i; (split; [reflexivity|]); cbn [deltaTime interface];
      repeat split; assumption.
Qed.

Lemma MidiTrack_Read_meta_keeps_running_status_witness :
  running_status {| read := 9; running_status := 0x90;
                    track_read := {| NumEvents := 2; Events := [None; Some {| deltaTime := 0; interface := 9; data := Some (Data_ChannelPrefix 5) |}] |} |}
    = 0x90
  /\ running_status {| read := 12; running_status := 0x90;
                       track_read := {| NumEvents := 3; Events := [None; None; Some {| deltaTime := 0; interface := 18; data := Some (Data_NoteEvent 0 0x3E 0x40 0x90) |}] |} |}
    = 0x90
  /\ exists event i,
       [None; None; Some {| deltaTime := 0; interface := 18; data := Some (Data_NoteEvent 0 0x3E 0x40 0x90) |}]
         = [None; None] ++ [Some event]
       /\ deltaTime event = 0
       /\ interface_of event = Ok i
       /\ type i = Z.land 0x90 0xF0.
Proof.
  apply (MidiTrack_Read_meta_keeps_running_status status_meta_data 12
           {| read := 4; running_status := 0x90;
              track_read := {| NumEvents := 1; Events := [None] |} |}
           {| read := 9; running_status := 0x90;
              track_read := {| NumEvents := 2; Events := [None; Some {| deltaTime := 0; interface := 9; data := Some (Data_ChannelPrefix 5) |}] |} |}
           true 1 0
           {| read := 9; running_status := 0x90;
              track_read := {| NumEvents := 2; Events := [None; None] |} |}
           {| read := 12; running_status := 0x90;
              track_read := {| NumEvents := 3; Events := [None; None; Some {| deltaTime := 0; interface := 18; data := Some (Data_NoteEvent 0 0x3E 0x40 0x90) |}] |} |}
           1 0 0x3E).
  - reflexivity.
  - lia.
  - reflexivity.
  - reflexivity.
  - reflexivity.
  - lia.
  - reflexivity.
  - lia.
  - reflexivity.
  - cbn; unfold UINT32_MAX; lia.
  - reflexivity.
Defined.

(** ** C7: chunks that are neither MThd nor MTrk *)

(** C7, as the claim states it, fails: a file made of a header chunk and
    a track chunk is loaded, and the same file with a chunk tagged XTRA
    between the two is not: [MidiFile_Open] returns [NULL]. *)
Lemma MidiFile_Open_fails_on_unknown_chunk :
  MidiFile_Open 4 (header_chunk ++ end_of_track_chunk)
    = Ok (Some {| Format := 1; nTrks := 1; PulsesPerQuarterNote := 96;
                  Tracks := Some [ {| NumEvents := 1;
                                      Events := [ Some {| deltaTime := 0; interface := 11;
                                                          data := Some Data_Uninit |} ] |} ] |})
  /\ MidiFile_Open 4 (header_chunk ++ unknown_chunk ++ end_of_track_chunk) = Ok None.
Proof. split; reflexivity. Qed.

Lemma fread_app (chunk rest : list Z) (eof : bool) :
  fread (Z.of_nat (length chunk)) {| unread := chunk ++ rest; eof_indicator := eof |}
  = (chunk, {| unread := rest; eof_indicator := eof |}).
Proof.
  unfold fread. cbn [unread eof_indicator].
  destruct (Z.leb_spec (Z.of_nat (length chunk)) (Z.of_nat (length (chunk ++ rest)))) as [_|H].
  - rewrite Nat2Z.id, take_app_length, drop_app_length. reflexivity.
  - rewrite length_app in H. lia.
Qed.

(** C7, amended.  When the loop of [MidiFile_Open] reads a chunk whose
    4-byte tag is neither MThd nor MTrk, it leaves through [error:]:
    the load fails with [NULL], whatever was loaded before and whatever
    follows the tag. *)
Theorem MidiFile_Open_unknown_chunk_is_error
    (track_fuel fuel : nat) (chunktype rest : list Z) (mf : MidiFile_t) (trackNumber : Z) :
  length chunktype = 4%nat ->
  chunktype <> MIDI_CHUNK_HEADER ->
  chunktype <> MIDI_CHUNK_TRACK ->
  MidiFile_Open_loop track_fuel (S fuel)
    {| unread := chunktype ++ rest; eof_indicator := false |} mf trackNumber
  = Ok None.
Proof.
  intros Hlen Hhdr Htrk. cbn [MidiFile_Open_loop feof eof_indicator].
  change MIDI_CHUNK_SIZE with (Z.of_nat 4). rewrite <- Hlen, fread_app.
  rewrite Z.eqb_refl. cbn [negb].
  destruct (fread MIDI_CHUNK_LEN_BYTES _) as [chunklength fp].
  unfold memcmp_eq. rewrite !bool_decide_eq_false_2 by assumption. reflexivity.
Qed.

Lemma MidiFile_Open_unknown_chunk_is_error_witness :
  MidiFile_Open_loop 4 (S 3)
    {| unread := [0x58; 0x54; 0x52; 0x41] ++ [0; 0; 0; 2; 7; 7] ++ end_of_track_chunk;
       eof_indicator := false |}
    {| Format := 1; nTrks := 1; PulsesPerQuarterNote := 96; Tracks := Some [empty_track] |} 0
  = Ok None.
Proof.
  apply (MidiFile_Open_unknown_chunk_is_error 4 3 [0x58; 0x54; 0x52; 0x41]).
  - reflexivity.
  - discriminate.
  - discriminate.
Defined.

(** ** C3: saving and loading again *)

(** C3 fails on the code.  [smpte_file] is what [MidiFile_Open] makes of
    [smpte_file_bytes]; [MidiFile_Save] writes only the delta-time of its
    SMPTE-offset event, since [write_data_SMPTEoffset] stores nothing;
    and [MidiFile_Open] makes of the saved bytes a file with other
    events: a sequence number and two program changes. *)
Theorem MidiFile_Save_loses_SMPTEoffset :
  MidiFile_Open 4 smpte_file_bytes = Ok (Some smpte_file)
  /\ MidiFile_Save smpte_file
     = Ok (header_chunk ++
           [0x4D; 0x54; 0x72; 0x6B; 0; 0; 0; 10;
            0;  2; 0xFF; 0x2F; 0;  0xC0; 0; 0x90; 0x3C; 0x40])
  /\ MidiFile_Open 4
       (header_chunk ++
        [0x4D; 0x54; 0x72; 0x6B; 0; 0; 0; 10;
         0;  2; 0xFF; 0x2F; 0;  0xC0; 0; 0x90; 0x3C; 0x40])
     = Ok (Some
        {| Format := 1; nTrks := 1; PulsesPerQuarterNote := 96;
           Tracks := Some [
             {| NumEvents := 3;
                Events := [
                  Some {| deltaTime := 0; interface := 8; data := Some (Data_SequenceNumber 65327) |};
                  Some {| deltaTime := 0; interface := 22; data := Some (Data_ProgramChange 0 0) |};
                  Some {| deltaTime := 2108; interface := 22;
                          data := Some (Data_ProgramChange 0 64) |} ] |} ] |})
  /\ (forall f,
        MidiFile_Open 4
          (header_chunk ++
           [0x4D; 0x54; 0x72; 0x6B; 0; 0; 0; 10;
            0;  2; 0xFF; 0x2F; 0;  0xC0; 0; 0x90; 0x3C; 0x40]) = Ok (Some f) ->
        f <> smpte_file).
Proof.
  repeat split; try reflexivity.
  intros f Hf. vm_compute in Hf. injection Hf as <-. discriminate.
Qed.

(** ** The notes the decoder stores *)

Lemma MidiEvent_Create_note (type0 deltaTime0 allocData : Z) (event : MidiEvent_t)
    (i : MidiEventInterface_t) :
  MidiEvent_Create type0 deltaTime0 allocData = Some event ->
  interface_of event = Ok i ->
  type i = Midi_Event_Type_NoteOn \/ type i = Midi_Event_Type_NoteOff ->
  type0 = type i /\ read_data i = read_data_Note.
Proof.
  intros Hcreate Hi Ht.
  destruct (MidiEvent_Create_interface _ _ _ _ Hcreate) as (_ & i' & Hi' & Ht').
  rewrite Hi in Hi'. injection Hi' as <-. split; [congruence|].
  rewrite <- Ht' in Hcreate.
  destruct Ht as [E|E]; rewrite E in Hcreate; vm_compute in Hcreate;
    injection Hcreate as <-; vm_compute in Hi; injection Hi as <-; reflexivity.
Qed.

Lemma read_data_Note_stores (buffer_ptr : list Z) (type0 ret : Z) (stored : option MidiEventData) :
  read_data_Note buffer_ptr type0 = Ok (ret, stored) ->
  exists key velocity,
    stored = Some (Data_NoteEvent (Z.land type0 0x0F) key velocity (Z.land type0 0xF0)).
Proof.
  unfold read_data_Note. intros H.
  destruct (read_integer_at buffer_ptr 0) as [b0| |]; [|discriminate..]. rewrite bind_Ok in H.
  destruct (read_integer_at buffer_ptr 1) as [b1| |]; [|discriminate..]. rewrite bind_Ok in H.
  injection H as _ <-. eauto.
Qed.

Lemma MidiTrack_Read_body_consistent (buffer : list Z) (length0 : Z) (r r' : TrackReader)
    (more : bool) :
  Forall event_consistent (Events (track_read r)) ->
  MidiTrack_Read_body buffer length0 r = Ok (more, r') ->
  Forall event_consistent (Events (track_read r')).
Proof.
  intros Hall H. unfold MidiTrack_Read_body in H.
  destruct (ReadVariableLength _ _) as [[variablelen deltaTime0]| |]; [|discriminate..].
  rewrite bind_Ok in H.
  destruct (variablelen <=? 0); [injection H as _ <-; exact Hall|].
  destruct (byte_at buffer (u32 (read r + variablelen))) as [statusByte| |]; [|discriminate..].
  rewrite bind_Ok in H.
  assert (Hgrown : Forall event_consistent (Events (track_read r) ++ [None])).
  { apply Forall_app. split; [exact Hall|]. apply Forall_cons_2; [|apply Forall_nil_2].
    intros ev i Hslot. discriminate Hslot. }
  assert (Hstep : forall meta sb rd rs,
    (meta = 0 \/ sb = Z.land sb 0xF0 \/ (sb <> Midi_Event_Type_NoteOn /\ sb <> Midi_Event_Type_NoteOff)) ->
    match MidiEvent_Create (if negb (meta =? 0) then sb else Z.land sb 0xF0) deltaTime0 1 with
    | None =>
        Ok (false, {| read := rd; running_status := rs;
                      track_read := {| NumEvents := u32 (NumEvents (track_read r) + 1);
                                       Events := Events (track_read r) ++ [None] |} |})
    | Some new_event =>
        i ← interface_of new_event;
        '(ret, stored) ← read_data i (buffer_from buffer rd) sb;
        Ok (true,
            {| read := u32 (rd + ret); running_status := rs;
               track_read :=
                 {| NumEvents := u32 (NumEvents (track_read r) + 1);
                    Events := <[Z.to_nat (u32 (NumEvents (track_read r) + 1) - 1) :=
                                  Some match stored with
                                       | Some d => {| deltaTime := deltaTime0;
                                                      interface := interface new_event;
                                                      data := Some d |}
                                       | None => new_event
                                       end]> (Events (track_read r) ++ [None]) |} |})
    end = Ok (more, r') ->
    Forall event_consistent (Events (track_read r'))).
  { intros meta sb rd rs Hmeta Hrun.
    destruct (MidiEvent_Create _ _ _) as [new_event|] eqn:Hcreate;
      [|injection Hrun as _ <-; exact Hgrown].
    destruct (interface_of new_event) as [i| |] eqn:Hi; [|discriminate..].
    rewrite bind_Ok in Hrun.
    destruct (read_data i _ _) as [[ret stored]| |] eqn:Hread; [|discriminate..].
    rewrite bind_Ok in Hrun. injection Hrun as _ <-. cbn [track_read Events].
    apply Forall_insert; [exact Hgrown|].
    intros ev i' [= <-] Hi' Ht.
    assert (i' = i) as ->.
    { destruct stored; cbn [interface_of interface] in Hi'; unfold interface_of in Hi, Hi';
        cbn [interface] in Hi'; congruence. }
    destruct (MidiEvent_Create_note _ _ _ _ _ Hcreate Hi Ht) as [Htype Hreader].
    rewrite Hreader in Hread.
    apply read_data_Note_stores in Hread as (key & velocity & ->).
    cbn [data]. exists (Z.land sb 15), key, velocity. do 2 f_equal.
    rewrite <- Htype.
    destruct (Z.eqb_spec meta 0) as [E|E]; cbn [negb] in *; [reflexivity|].
    destruct Hmeta as [Hm|[Hm|[Hm1 Hm2]]]; [contradiction|congruence|].
    rewrite <- Htype in Ht. destruct Ht; contradiction. }
  destruct (Z.eqb_spec statusByte 255).
  - destruct (byte_at buffer (u32 (u32 (read r + variablelen) + 1))) as [sb| |];
      [|discriminate..].
    rewrite !bind_Ok in H. apply Hstep in H; [exact H|].
    destruct (Z.eq_dec sb Midi_Event_Type_NoteOn) as [->|Hn1]; [right; left; reflexivity|].
    destruct (Z.eq_dec sb Midi_Event_Type_NoteOff) as [->|Hn2]; [right; left; reflexivity|].
    right. right. auto.
  - destruct (statusByte <? 128); rewrite bind_Ok in H; apply Hstep in H; auto.
Qed.

Lemma MidiTrack_Read_loop_consistent (buffer : list Z) (length0 : Z) (fuel : nat) :
  forall (r : TrackReader) (track : MidiTrack_t),
  Forall event_consistent (Events (track_read r)) ->
  MidiTrack_Read_loop fuel buffer length0 r = Ok track ->
  Forall event_consistent (Events track).
Proof.
  induction fuel as [|fuel IH]; intros r track Hall H; cbn [MidiTrack_Read_loop] in H.
  - discriminate.
  - destruct (MidiTrack_Read_body buffer length0 r) as [[more r']| |] eqn:Hbody;
      [|discriminate..].
    rewrite bind_Ok in H. apply MidiTrack_Read_body_consistent in Hbody; [|exact Hall].
    destruct (_ && _); [eapply IH; eassumption|injection H as <-; exact Hbody].
Qed.

Lemma MidiFile_Open_loop_consistent (track_fuel fuel : nat) :
  forall (fp : FILE) (mf mf' : MidiFile_t) (trackNumber : Z),
  notes_consistent mf ->
  MidiFile_Open_loop track_fuel fuel fp mf trackNumber = Ok (Some mf') ->
  notes_consistent mf'.
Proof.
  induction fuel as [|fuel IH]; intros fp mf mf' trackNumber Hmf H;
    cbn [MidiFile_Open_loop] in H.
  - discriminate.
  - destruct (feof fp); [injection H as <-; exact Hmf|].
    destruct (fread MIDI_CHUNK_SIZE fp) as [chunktype fp1].
    destruct (negb _).
    { destruct (feof fp1); [injection H as <-; exact Hmf|discriminate]. }
    destruct (fread MIDI_CHUNK_LEN_BYTES fp1) as [lenbytes fp2].
    destruct (memcmp_eq chunktype MIDI_CHUNK_HEADER).
    + destruct (u32fromarray lenbytes) as [chunklength| |]; [|discriminate..].
      rewrite bind_Ok in H. destruct (negb _); [discriminate|].
      destruct (fread MIDI_CHUNK_HEADER_LEN fp2) as [header fp3].
      destruct (negb _); [discriminate|].
      destruct (u16fromarray (buffer_from header 0)) as [format| |]; [|discriminate..].
      rewrite bind_Ok in H.
      destruct (u16fromarray (buffer_from header 2)) as [ntrks| |]; [|discriminate..].
      rewrite bind_Ok in H.
      destruct (u16fromarray (buffer_from header 4)) as [ppq| |]; [|discriminate..].
      rewrite bind_Ok in H. destruct (_ && _); [discriminate|].
      eapply IH; [|exact H]. intros tracks [= <-].
      apply Forall_replicate. apply Forall_nil_2.
    + destruct (memcmp_eq chunktype MIDI_CHUNK_TRACK); [|discriminate].
      destruct (Tracks mf) as [tracks|] eqn:Htracks; [|discriminate].
      destruct (trackNumber >=? nTrks mf); [discriminate|].
      destruct (u32fromarray lenbytes) as [chunklength| |]; [|discriminate..].
      rewrite bind_Ok in H.
      destruct (fread chunklength fp2) as [track_buff fp3].
      destruct (negb _); [discriminate|].
      destruct (track_at tracks trackNumber) as [track| |] eqn:Htrack; [|discriminate..].
      rewrite bind_Ok in H.
      destruct (MidiTrack_Read track_fuel track_buff chunklength track) as [track'| |] eqn:Hread;
        [|discriminate..].
      rewrite bind_Ok in H. eapply IH; [|exact H]. intros tracks' [= <-].
      pose proof (Hmf tracks Htracks) as Hall.
      apply Forall_insert; [exact Hall|].
      unfold MidiTrack_Read in Hread. eapply MidiTrack_Read_loop_consistent; [|exact Hread].
      cbn [track_read]. unfold track_at in Htrack. destruct (trackNumber <? 0); [discriminate|].
      destruct (tracks !! Z.to_nat trackNumber) as [t0|] eqn:Hlookup; [|discriminate].
      injection Htrack as ->. rewrite Forall_lookup in Hall. exact (Hall _ _ Hlookup).
Qed.

(** Every file [MidiFile_Open] returns has its notes as [notes_consistent]
    says: the [OnOff] of a note is the type of its event. *)
Lemma MidiFile_Open_consistent (fuel : nat) (file : list Z) (mf : MidiFile_t) :
  MidiFile_Open fuel file = Ok (Some mf) -> notes_consistent mf.
Proof.
  unfold MidiFile_Open. apply MidiFile_Open_loop_consistent.
  intros tracks Ht. discriminate Ht.
Qed.

(** ** The player: what a turn leaves unchanged *)

Section PlayFrame.

Context {St : Type}.
Variable midi : MidiFile_t.
Variable start_usec : Z.
Variable cbFunc : playerCallback St.

Lemma play_event_frame (event : MidiEvent_t) (type0 cbResult : Z) (st st' : PlayState St) :
  play_event midi start_usec event type0 cbResult st = Ok st' ->
  cb_state st' = cb_state st /\ callbacks st' = callbacks st
  /\ (cbResult = Player_Callback_IgnoreEvent -> device st' = device st).
Proof.
  unfold play_event, Player_Callback_IgnoreEvent. intros H.
  destruct (Z.eqb_spec cbResult 0) as [->|Hr]; cbn [andb] in H.
  - destruct (Z.eqb_spec type0 Midi_Event_Type_SetTempo) as [->|Ht]; cbn [negb] in H.
    + cbn in H. destruct (data event) as [[]|]; try discriminate.
      destruct (PulsesPerQuarterNote midi =? 0); [discriminate|].
      injection H as <-. cbn. auto.
    + injection H as <-. auto.
  - split; [|split; [|intros; contradiction]];
    repeat match type of H with
    | (if ?c then _ else _) = _ => destruct c
    | match ?d with _ => _ end = _ => destruct d
    end; try discriminate; injection H as <-; reflexivity.
Qed.

Lemma next_event_frame (trackIndex : Z) (st st' : PlayState St) :
  next_event midi trackIndex st = Ok st' ->
  cb_state st' = cb_state st /\ callbacks st' = callbacks st /\ device st' = device st.
Proof.
  unfold next_event. intros H.
  destruct (Tracks midi) as [tracks|]; [|discriminate]. rewrite bind_Ok in H.
  destruct (track_at tracks trackIndex) as [track| |]; [|discriminate..]. rewrite bind_Ok in H.
  destruct (array_at (currentEvent st) trackIndex) as [current| |]; [|discriminate..].
  rewrite bind_Ok in H.
  destruct (u16 (current + 1) >=? NumEvents track).
  - rewrite bind_Ok in H. injection H as <-. auto.
  - destruct (event_at track (u16 (current + 1))) as [event| |]; [|discriminate..].
    rewrite !bind_Ok in H. injection H as <-. auto.
Qed.

(** *** Invariants of a run whose callback always ignores *)

Variable Inv : St -> list PlayerCall -> list DeviceCall -> Prop.

Hypothesis Inv_callback :
  forall s log dev event track0 timeTicks timeUs s' r,
    Inv s log dev ->
    cbFunc s event track0 timeTicks timeUs = Ok (s', r) ->
    r = Player_Callback_IgnoreEvent
    /\ Inv s' (log ++ [(event, track0, timeTicks, timeUs)]) dev.

Hypothesis Inv_sleep :
  forall s log dev us, Inv s log dev -> Inv s log (dev ++ [SLEEPUS us]).

Lemma play_track_invariant (trackIndex decrementTicks : Z) (st st' : PlayState St) (aborted : bool) :
  holds_in Inv st ->
  play_track midi start_usec cbFunc trackIndex decrementTicks st = Ok (aborted, st') ->
  holds_in Inv st'.
Proof.
  unfold play_track, holds_in. intros HI H.
  destruct (array_at (waitTicks st) trackIndex) as [wait| |]; [|discriminate..].
  rewrite bind_Ok in H.
  destruct (negb (u32 (wait - decrementTicks) =? 0)).
  { injection H as _ <-. exact HI. }
  cbn [currentEvent cb_state currentTotalTime_Ticks currentTotalTime_Usecs] in H.
  destruct (array_at (currentEvent st) trackIndex) as [current| |]; [|discriminate..].
  rewrite bind_Ok in H.
  destruct (deref midi (trackIndex, current)) as [event| |]; [|discriminate..].
  rewrite bind_Ok in H.
  destruct (MidiEvent_GetType event) as [type0| |]; [|discriminate..].
  rewrite bind_Ok in H.
  destruct (cbFunc _ _ _ _ _) as [[s r]| |] eqn:Hcb; [|discriminate..].
  rewrite bind_Ok in H.
  destruct (Inv_callback _ _ _ _ _ _ _ _ _ HI Hcb) as [-> HI'].
  change (Player_Callback_IgnoreEvent =? Player_Callback_Abort) with false in H. cbv iota in H.
  destruct (play_event _ _ _ _ _ _) as [st1| |] eqn:Hev; [|discriminate..].
  rewrite bind_Ok in H.
  destruct (next_event _ _ _) as [st2| |] eqn:Hnext; [|discriminate..].
  rewrite bind_Ok in H. injection H as _ <-.
  apply play_event_frame in Hev as (E1 & E2 & E3). specialize (E3 eq_refl).
  apply next_event_frame in Hnext as (F1 & F2 & F3).
  rewrite F1, F2, F3, E1, E2, E3. exact HI'.
Qed.

Lemma play_tracks_invariant (n : nat) : forall (trackIndex decrementTicks : Z)
    (st st' : PlayState St) (aborted : bool),
  holds_in Inv st ->
  play_tracks midi start_usec cbFunc n trackIndex decrementTicks st = Ok (aborted, st') ->
  holds_in Inv st'.
Proof.
  induction n as [|n IH]; intros trackIndex decrementTicks st st' aborted HI H;
    cbn [play_tracks] in H.
  - injection H as _ <-. exact HI.
  - destruct (play_track _ _ _ _ _ _) as [[a st1]| |] eqn:Htrack; [|discriminate..].
    rewrite bind_Ok in H. apply play_track_invariant in Htrack; [|exact HI].
    destruct a.
    + injection H as _ <-. exact Htrack.
    + eapply IH; eassumption.
Qed.

Lemma play_turn_invariant (st st' : PlayState St) (aborted : bool) :
  holds_in Inv st ->
  play_turn midi start_usec cbFunc st = Ok (aborted, st') ->
  holds_in Inv st'.
Proof.
  unfold play_turn. intros HI H. eapply play_tracks_invariant; [|exact H].
  unfold holds_in in *. cbn [cb_state callbacks device].
  destruct (_ >=? start_usec); [apply Inv_sleep|]; exact HI.
Qed.

Lemma play_turns_invariant (n : nat) : forall (st st' : PlayState St),
  holds_in Inv st ->
  play_turns midi start_usec cbFunc n st = Ok st' ->
  holds_in Inv st'.
Proof.
  induction n as [|n IH]; intros st st' HI H; cbn [play_turns] in H.
  - injection H as <-. exact HI.
  - destruct (countFinishedTracks st <? nTrks midi); [|injection H as <-; exact HI].
    destruct (play_turn _ _ _ _) as [[a st1]| |] eqn:Hturn; [|discriminate..].
    rewrite bind_Ok in H. apply play_turn_invariant in Hturn; [|exact HI].
    destruct a; [injection H as <-; exact Hturn|]. eapply IH; eassumption.
Qed.

End PlayFrame.

(** A run that ends is a run of as many turns as it had fuel. *)
Lemma play_loop_turns {St : Type} (midi : MidiFile_t) (start_usec : Z)
    (cbFunc : playerCallback St) (fuel : nat) :
  forall st st' : PlayState St,
  play_loop midi start_usec cbFunc fuel st = Ok st' ->
  play_turns midi start_usec cbFunc fuel st = Ok st'.
Proof.
  induction fuel as [|fuel IH]; intros st st' H; cbn [play_loop play_turns] in *.
  - discriminate.
  - destruct (countFinishedTracks st <? nTrks midi); [|exact H].
    destruct (play_turn _ _ _ _) as [[a st1]| |]; [|discriminate..].
    rewrite bind_Ok in *. destruct a; [exact H|]. apply IH. exact H.
Qed.

(** ** C10: the time map does not touch the synth *)

Lemma playerCb_ignores (midi : MidiFile_t) (entries entries' : list MidiAbsoluteTimeMap_t)
    (event : MidiEvent_ptr) (track0 timeTicks timeUs r : Z) :
  playerCb midi entries event track0 timeTicks timeUs = Ok (entries', r) ->
  r = Player_Callback_IgnoreEvent.
Proof.
  unfold playerCb. intros H.
  destruct (deref midi event) as [ev| |]; [|discriminate..]. rewrite bind_Ok in H.
  destruct (MidiEvent_GetType ev) as [type0| |]; [|discriminate..]. rewrite bind_Ok in H.
  destruct (_ || _).
  - destruct (data ev) as [[]|]; try discriminate; try (injection H as _ <-; reflexivity).
    destruct (_ || _).
    + destruct (playerCb_match _ _ _ _ _ _ _ _) as [l| |]; [|discriminate..].
      rewrite bind_Ok in H. injection H as _ <-. reflexivity.
    + injection H as _ <-. reflexivity.
  - injection H as _ <-. reflexivity.
Qed.

(** An ignored event changes nothing, unless it is a tempo event, which
    changes the tick duration alone. *)
Lemma play_event_ignored {St : Type} (midi : MidiFile_t) (start_usec : Z)
    (event : MidiEvent_t) (type0 : Z) (st st' : PlayState St) :
  play_event midi start_usec event type0 Player_Callback_IgnoreEvent st = Ok st' ->
  (type0 <> Midi_Event_Type_SetTempo /\ st' = st)
  \/ (type0 = Midi_Event_Type_SetTempo
      /\ exists tempo,
           data event = Some (Data_SetTempo tempo)
           /\ st' = {| waitTicks := waitTicks st; minimumWaitTicks := minimumWaitTicks st;
                       countFinishedTracks := countFinishedTracks st;
                       currentEvent := currentEvent st;
                       TickDurationUs := tempo / PulsesPerQuarterNote midi;
                       currentTotalTime_Ticks := currentTotalTime_Ticks st;
                       currentTotalTime_Usecs := currentTotalTime_Usecs st;
                       cb_state := cb_state st; callbacks := callbacks st;
                       device := device st |}).
Proof.
  unfold play_event. change (Player_Callback_IgnoreEvent =? Player_Callback_IgnoreEvent) with true.
  cbn [andb]. intros H.
  destruct (Z.eqb_spec type0 Midi_Event_Type_SetTempo) as [->|Ht]; cbn [negb] in H.
  - right. split; [reflexivity|].
    change (Midi_Event_Type_SetTempo =? Midi_Event_Type_NoteOn) with false in H.
    change (Midi_Event_Type_SetTempo =? Midi_Event_Type_NoteOff) with false in H.
    change (Midi_Event_Type_SetTempo =? Midi_Event_Type_SetTempo) with true in H.
    cbn [orb andb] in H.
    destruct (data event) as [[]|]; try discriminate.
    destruct (PulsesPerQuarterNote midi =? 0); [discriminate|].
    injection H as <-. eauto.
  - left. injection H as <-. auto.
Qed.

(** C10.  In the run of the player that [Midi_MapAbsoluteTime] makes
    (callback [playerCb], start time [UINT32_MAX]), after any number of
    turns of the loop, and so at the end of every run that ends, the
    device was asked nothing but to sleep: there is no call of
    [MidiDevice_PlayNote] and none of [MidiDevice_SetChannelInstrument].
    The callback answers Ignore to every call, and an ignored event
    changes the state of the player only when it is a tempo event, which
    sets the tick duration. *)
Theorem Midi_MapAbsoluteTime_never_calls_synth
    (midi : MidiFile_t) (n : nat) (st : PlayState (list MidiAbsoluteTimeMap_t)) :
  play_turns midi UINT32_MAX (playerCb midi) n (play_start midi []) = Ok st ->
  synth_free (device st)
  /\ (forall entries entries' event track0 timeTicks timeUs r,
        playerCb midi entries event track0 timeTicks timeUs = Ok (entries', r) ->
        r = Player_Callback_IgnoreEvent)
  /\ (forall (event : MidiEvent_t) (type0 : Z) (st0 st1 : PlayState (list MidiAbsoluteTimeMap_t)),
        play_event midi UINT32_MAX event type0 Player_Callback_IgnoreEvent st0 = Ok st1 ->
        device st1 = device st0
        /\ (type0 <> Midi_Event_Type_SetTempo -> st1 = st0)).
Proof.
  intros H. split; [|split].
  - apply (play_turns_invariant midi UINT32_MAX (playerCb midi)
             (fun _ _ dev => synth_free dev)) in H; [exact H| | |].
    + intros s log dev event track0 timeTicks timeUs s' r Hdev Hcb.
      split; [eapply playerCb_ignores; exact Hcb|exact Hdev].
    + intros s log dev us Hdev. apply Forall_app. split; [exact Hdev|].
      constructor; [exact I|constructor].
    + constructor.
  - intros entries entries' event track0 timeTicks timeUs r Hcb.
    eapply playerCb_ignores. exact Hcb.
  - intros event type0 st0 st1 Hev.
    apply play_event_ignored in Hev as [[Ht ->]|[-> (tempo & _ & ->)]].
    + auto.
    + split; [reflexivity|]. intros Hne. contradiction.
Qed.

Lemma Midi_MapAbsoluteTime_never_calls_synth_witness :
  synth_free [].
Proof.
  refine (proj1 (Midi_MapAbsoluteTime_never_calls_synth note_file 4
           {| waitTicks := [0; 4294967285];
              minimumWaitTicks := 0;
              countFinishedTracks := 1;
              currentEvent := [4; 3];
              TickDurationUs := 2602;
              currentTotalTime_Ticks := 20;
              currentTotalTime_Usecs := 52040;
              cb_state := [ {| track := 0; OnEvent := (0, 0); OffEvent := Some (0, 1);
                               startTime := 0; endTime := 26020 |};
                            {| track := 1; OnEvent := (1, 0); OffEvent := None;
                               startTime := 0; endTime := UINT32_MAX |};
                            {| track := 0; OnEvent := (0, 2); OffEvent := Some (0, 3);
                               startTime := 26020; endTime := 52040 |} ];
              callbacks := [ ((0, 0), 0, 0, 0); ((1, 0), 1, 0, 0); ((0, 1), 0, 10, 26020);
                             ((1, 1), 1, 10, 26020); ((0, 2), 0, 10, 26020);
                             ((1, 2), 1, 10, 26020); ((0, 3), 0, 20, 52040) ];
              device := [] |} _)).
  vm_compute. reflexivity.
Defined.

(** ** Fuel *)

(** Five turns end the counting loop of the writer for every
    [uint32_t]: more turns count the same. *)
Lemma WriteVariableLength_count_turns (n : nat) : forall (m : nat) (v i : Z),
  0 <= v < 128 ^ Z.of_nat n -> (n <= m)%nat ->
  WriteVariableLength_count m v i = WriteVariableLength_count n v i.
Proof.
  induction n as [|n IH]; intros m v i Hv Hm.
  - cbn in Hv. assert (v = 0) as -> by lia.
    destruct m; cbn [WriteVariableLength_count]; reflexivity.
  - destruct m as [|m]; [lia|]. cbn [WriteVariableLength_count].
    destruct (v / 128 >? 0); [|reflexivity].
    apply IH; [|lia]. rewrite Nat2Z.inj_succ, Z.pow_succ_r in Hv by lia.
    split; [apply Z.div_pos; lia|apply Z.div_lt_upper_bound; lia].
Qed.

(** A run that ends with some fuel ends in the same way with more. *)
Lemma MidiTrack_Read_loop_fuel (buffer : list Z) (length0 : Z) (fuel : nat) :
  forall (fuel' : nat) (r : TrackReader),
  (fuel <= fuel')%nat ->
  MidiTrack_Read_loop fuel buffer length0 r <> OutOfFuel ->
  MidiTrack_Read_loop fuel' buffer length0 r = MidiTrack_Read_loop fuel buffer length0 r.
Proof.
  induction fuel as [|fuel IH]; intros fuel' r Hle Hrun; [contradiction|].
  destruct fuel' as [|fuel']; [lia|]. cbn [MidiTrack_Read_loop] in *.
  destruct (MidiTrack_Read_body buffer length0 r) as [[more r']| |]; [|reflexivity..].
  rewrite !bind_Ok in *. destruct (_ && _); [|reflexivity]. apply IH; [lia|exact Hrun].
Qed.

Lemma play_loop_fuel {St : Type} (midi : MidiFile_t) (start_usec : Z)
    (cbFunc : playerCallback St) (fuel : nat) :
  forall (fuel' : nat) (st : PlayState St),
  (fuel <= fuel')%nat ->
  play_loop midi start_usec cbFunc fuel st <> OutOfFuel ->
  play_loop midi start_usec cbFunc fuel' st = play_loop midi start_usec cbFunc fuel st.
Proof.
  induction fuel as [|fuel IH]; intros fuel' st Hle Hrun; [contradiction|].
  destruct fuel' as [|fuel']; [lia|]. cbn [play_loop] in *.
  destruct (countFinishedTracks st <? nTrks midi); [|reflexivity].
  destruct (play_turn midi start_usec cbFunc st) as [[aborted st']| |]; [|reflexivity..].
  rewrite !bind_Ok in *. destruct aborted; [reflexivity|]. apply IH; [lia|exact Hrun].
Qed.

Lemma MidiFile_Open_loop_fuel (track_fuel : nat) (fuel : nat) :
  forall (track_fuel' fuel' : nat) (fp : FILE) (mf : MidiFile_t) (trackNumber : Z),
  (track_fuel <= track_fuel')%nat -> (fuel <= fuel')%nat ->
  MidiFile_Open_loop track_fuel fuel fp mf trackNumber <> OutOfFuel ->
  MidiFile_Open_loop track_fuel' fuel' fp mf trackNumber
  = MidiFile_Open_loop track_fuel fuel fp mf trackNumber.
Proof.
  induction fuel as [|fuel IH]; intros track_fuel' fuel' fp mf trackNumber Ht Hle Hrun;
    [contradiction|].
  destruct fuel' as [|fuel']; [lia|]. cbn [MidiFile_Open_loop] in *.
  destruct (feof fp); [reflexivity|].
  destruct (fread MIDI_CHUNK_SIZE fp) as [chunktype fp1].
  destruct (negb _); [reflexivity|].
  destruct (fread MIDI_CHUNK_LEN_BYTES fp1) as [lenbytes fp2].
  destruct (memcmp_eq chunktype MIDI_CHUNK_HEADER).
  - destruct (u32fromarray lenbytes) as [chunklength| |]; [|reflexivity..].
    rewrite !bind_Ok in *. destruct (negb _); [reflexivity|].
    destruct (fread MIDI_CHUNK_HEADER_LEN fp2) as [header fp3].
    destruct (negb _); [reflexivity|].
    destruct (u16fromarray (buffer_from header 0)) as [format| |]; [|reflexivity..].
    rewrite !bind_Ok in *.
    destruct (u16fromarray (buffer_from header 2)) as [ntrks| |]; [|reflexivity..].
    rewrite !bind_Ok in *.
    destruct (u16fromarray (buffer_from header 4)) as [ppq| |]; [|reflexivity..].
    rewrite !bind_Ok in *. destruct (_ && _); [reflexivity|].
    apply IH; [exact Ht|lia|exact Hrun].
  - destruct (memcmp_eq chunktype MIDI_CHUNK_TRACK); [|reflexivity].
    destruct (Tracks mf) as [tracks|]; [|reflexivity].
    destruct (trackNumber >=? nTrks mf); [reflexivity|].
    destruct (u32fromarray lenbytes) as [chunklength| |]; [|reflexivity..].
    rewrite !bind_Ok in *.
    destruct (fread chunklength fp2) as [track_buff fp3].
    destruct (negb _); [reflexivity|].
    destruct (track_at tracks trackNumber) as [track| |]; [|reflexivity..].
    rewrite !bind_Ok in *.
    unfold MidiTrack_Read in *.
    assert (Hread : MidiTrack_Read_loop track_fuel track_buff chunklength
                      {| read := 0; running_status := 0; track_read := track |} <> OutOfFuel).
    { intros E. rewrite E in Hrun. apply Hrun. reflexivity. }
    rewrite (MidiTrack_Read_loop_fuel _ _ _ _ _ Ht Hread).
    destruct (MidiTrack_Read_loop track_fuel track_buff chunklength _) as [track'| |];
      [|reflexivity..].
    rewrite !bind_Ok in *. apply IH; [exact Ht|lia|exact Hrun].
Qed.

Lemma MidiFile_Open_fuel (fuel fuel' : nat) (file : list Z) :
  (fuel <= fuel')%nat ->
  MidiFile_Open fuel file <> OutOfFuel ->
  MidiFile_Open fuel' file = MidiFile_Open fuel file.
Proof.
  intros Hle. unfold MidiFile_Open. apply MidiFile_Open_loop_fuel; exact Hle.
Qed.

(** ** C2: the clock of the player *)

Section PlayClock.

Context {St : Type}.
Variable midi : MidiFile_t.
Variable start_usec : Z.
Variable cbFunc : playerCallback St.

Lemma play_event_clock (event : MidiEvent_t) (type0 cbResult : Z) (st st' : PlayState St) :
  play_event midi start_usec event type0 cbResult st = Ok st' ->
  currentTotalTime_Ticks st' = currentTotalTime_Ticks st
  /\ currentTotalTime_Usecs st' = currentTotalTime_Usecs st.
Proof.
  unfold play_event. intros H.
  repeat match type of H with
  | (if ?c then _ else _) = _ => destruct c
  | match ?d with _ => _ end = _ => destruct d
  end; try discriminate; injection H as <-; auto.
Qed.

Lemma next_event_clock (trackIndex : Z) (st st' : PlayState St) :
  next_event midi trackIndex st = Ok st' ->
  currentTotalTime_Ticks st' = currentTotalTime_Ticks st
  /\ currentTotalTime_Usecs st' = currentTotalTime_Usecs st.
Proof.
  unfold next_event. intros H.
  destruct (Tracks midi) as [tracks|]; [|discriminate]. rewrite bind_Ok in H.
  destruct (track_at tracks trackIndex) as [track| |]; [|discriminate..]. rewrite bind_Ok in H.
  destruct (array_at (currentEvent st) trackIndex) as [current| |]; [|discriminate..].
  rewrite bind_Ok in H.
  destruct (u16 (current + 1) >=? NumEvents track).
  - rewrite bind_Ok in H. injection H as <-. auto.
  - destruct (event_at track (u16 (current + 1))) as [event| |]; [|discriminate..].
    rewrite !bind_Ok in H. injection H as <-. auto.
Qed.

Lemma play_track_clock (trackIndex decrementTicks : Z) (st st' : PlayState St) (aborted : bool) :
  play_track midi start_usec cbFunc trackIndex decrementTicks st = Ok (aborted, st') ->
  currentTotalTime_Ticks st' = currentTotalTime_Ticks st
  /\ currentTotalTime_Usecs st' = currentTotalTime_Usecs st.
Proof.
  unfold play_track. intros H.
  destruct (array_at (waitTicks st) trackIndex) as [wait| |]; [|discriminate..].
  rewrite bind_Ok in H.
  destruct (negb (u32 (wait - decrementTicks) =? 0)).
  { injection H as _ <-. auto. }
  cbn [currentEvent cb_state currentTotalTime_Ticks currentTotalTime_Usecs] in H.
  destruct (array_at (currentEvent st) trackIndex) as [current| |]; [|discriminate..].
  rewrite bind_Ok in H.
  destruct (deref midi (trackIndex, current)) as [event| |]; [|discriminate..].
  rewrite bind_Ok in H.
  destruct (MidiEvent_GetType event) as [type0| |]; [|discriminate..].
  rewrite bind_Ok in H.
  destruct (cbFunc _ _ _ _ _) as [[s r]| |]; [|discriminate..].
  rewrite bind_Ok in H.
  destruct (r =? Player_Callback_Abort); [injection H as _ <-; auto|].
  destruct (play_event _ _ _ _ _ _) as [st1| |] eqn:Hev; [|discriminate..].
  rewrite bind_Ok in H.
  destruct (next_event _ _ _) as [st2| |] eqn:Hnext; [|discriminate..].
  rewrite bind_Ok in H. injection H as _ <-.
  apply play_event_clock in Hev as [E1 E2]. apply next_event_clock in Hnext as [F1 F2].
  rewrite F1, F2, E1, E2. auto.
Qed.

Lemma play_tracks_clock (n : nat) : forall (trackIndex decrementTicks : Z)
    (st st' : PlayState St) (aborted : bool),
  play_tracks midi start_usec cbFunc n trackIndex decrementTicks st = Ok (aborted, st') ->
  currentTotalTime_Ticks st' = currentTotalTime_Ticks st
  /\ currentTotalTime_Usecs st' = currentTotalTime_Usecs st.
Proof.
  induction n as [|n IH]; intros trackIndex decrementTicks st st' aborted H;
    cbn [play_tracks] in H.
  - injection H as _ <-. auto.
  - destruct (play_track _ _ _ _ _ _) as [[a st1]| |] eqn:Htrack; [|discriminate..].
    rewrite bind_Ok in H. apply play_track_clock in Htrack as [E1 E2].
    destruct a.
    + injection H as _ <-. auto.
    + apply IH in H as [F1 F2]. rewrite F1, F2. auto.
Qed.

(** A turn of the loop advances the two clocks by the smallest wait and
    by that many tick durations. *)
Lemma play_turn_clock (st st' : PlayState St) (aborted : bool) :
  play_turn midi start_usec cbFunc st = Ok (aborted, st') ->
  currentTotalTime_Ticks st' = u32 (currentTotalTime_Ticks st + minimumWaitTicks st)
  /\ currentTotalTime_Usecs st'
     = u32 (currentTotalTime_Usecs st + u32 (TickDurationUs st * minimumWaitTicks st)).
Proof.
  unfold play_turn. intros H. apply play_tracks_clock in H as [E1 E2].
  rewrite E1, E2. auto.
Qed.

(** A tempo event sets the tick duration to the truncated quotient. *)
Lemma play_event_SetTempo (event : MidiEvent_t) (tempo cbResult : Z) (st st' : PlayState St) :
  data event = Some (Data_SetTempo tempo) ->
  play_event midi start_usec event Midi_Event_Type_SetTempo cbResult st = Ok st' ->
  TickDurationUs st' = tempo / PulsesPerQuarterNote midi.
Proof.
  unfold play_event. intros Hdata H. rewrite Hdata in H.
  change (Midi_Event_Type_SetTempo =? Midi_Event_Type_SetTempo) with true in H.
  change (Midi_Event_Type_SetTempo =? Midi_Event_Type_NoteOn) with false in H.
  change (Midi_Event_Type_SetTempo =? Midi_Event_Type_NoteOff) with false in H.
  cbn [negb andb orb] in H. rewrite andb_false_r in H.
  destruct (PulsesPerQuarterNote midi =? 0); [discriminate|].
  injection H as <-. reflexivity.
Qed.

End PlayClock.

(** The run of the player on [tempo_file], turn by turn. *)
Section TempoFile.

Variables ppq tempo ticks : Z.
Hypothesis ppq_range : 0 < ppq < 65536.
Hypothesis tempo_range : 0 <= tempo < 16777216.
Hypothesis ticks_range : 0 < ticks < 4294967296.

Lemma u32_small (x : Z) : 0 <= x < 4294967296 -> u32 x = x.
Proof. intros H. unfold u32. apply Z.mod_small. exact H. Qed.

Lemma u32_range (x : Z) : 0 <= u32 x < 4294967296.
Proof. unfold u32. apply Z.mod_pos_bound. lia. Qed.

Lemma tempo_file_turn1 :
  play_turn (tempo_file ppq tempo ticks) 0 trivial_callback (play_start (tempo_file ppq tempo ticks) tt)
  = Ok (false,
        {| waitTicks := [ticks]; minimumWaitTicks := ticks; countFinishedTracks := 0;
           currentEvent := [1]; TickDurationUs := tempo / ppq;
           currentTotalTime_Ticks := 0; currentTotalTime_Usecs := 0;
           cb_state := tt; callbacks := [((0, 0), 0, 0, 0)];
           device := [SLEEPUS 0] |}).
Proof.
  unfold play_turn, play_start. cbn [nTrks tempo_file].
  change (Z.to_nat 1) with 1%nat. cbn [replicate play_tracks].
  cbn [waitTicks minimumWaitTicks countFinishedTracks currentEvent TickDurationUs
       currentTotalTime_Ticks currentTotalTime_Usecs cb_state callbacks device].
  change (u32 (0 + 0)) with 0. change (u32 (0 + u32 (2602 * 0))) with 0.
  change (u32 (2602 * 0)) with 0. change (0 >=? 0) with true. cbv iota. cbn [app].
  unfold play_track.
  cbn [waitTicks minimumWaitTicks countFinishedTracks currentEvent TickDurationUs
       currentTotalTime_Ticks currentTotalTime_Usecs cb_state callbacks device].
  change (array_at [0] 0) with (Ok 0 : result Z). rewrite !bind_Ok.
  change (u32 (0 - 0)) with 0. change (negb (0 =? 0)) with false. cbv iota.
  change (deref (tempo_file ppq tempo ticks) (0, 0))
    with (Ok {| deltaTime := 0; interface := 12; data := Some (Data_SetTempo tempo) |}).
  rewrite bind_Ok.
  change (MidiEvent_GetType {| deltaTime := 0; interface := 12;
                               data := Some (Data_SetTempo tempo) |})
    with (Ok Midi_Event_Type_SetTempo : result Z).
  rewrite bind_Ok. unfold trivial_callback. rewrite bind_Ok.
  change (Player_Callback_PlayEvent =? Player_Callback_Abort) with false. cbv iota.
  unfold play_event. cbn [data PulsesPerQuarterNote tempo_file].
  change (Player_Callback_PlayEvent =? Player_Callback_IgnoreEvent) with false.
  change (Midi_Event_Type_SetTempo =? Midi_Event_Type_NoteOn) with false.
  change (Midi_Event_Type_SetTempo =? Midi_Event_Type_NoteOff) with false.
  change (Midi_Event_Type_SetTempo =? Midi_Event_Type_SetTempo) with true.
  cbn [andb orb]. destruct (Z.eqb_spec ppq 0); [lia|]. rewrite bind_Ok.
  unfold next_event. cbn [Tracks tempo_file]. rewrite bind_Ok.
  change (track_at _ 0)
    with (Ok {| NumEvents := 2;
                Events := [
                  Some {| deltaTime := 0; interface := 12; data := Some (Data_SetTempo tempo) |};
                  Some {| deltaTime := ticks; interface := 11; data := Some Data_Uninit |} ] |}).
  rewrite bind_Ok.
  cbn [waitTicks minimumWaitTicks countFinishedTracks currentEvent TickDurationUs
       currentTotalTime_Ticks currentTotalTime_Usecs cb_state callbacks device NumEvents].
  change (array_at [0] 0) with (Ok 0 : result Z). rewrite bind_Ok.
  change (u16 (0 + 1)) with 1. change (1 >=? 2) with false. cbv iota.
  change (event_at _ 1)
    with (Ok {| deltaTime := ticks; interface := 11; data := Some Data_Uninit |}).
  rewrite !bind_Ok. cbn [deltaTime app].
  change (Z.to_nat 0) with 0%nat. cbn [insert list_insert].
  unfold min, UINT32_MAX. destruct (Z.ltb_spec 4294967295 ticks); [lia|]. reflexivity.
Qed.

Lemma tempo_file_turn2 :
  play_turn (tempo_file ppq tempo ticks) 0 trivial_callback
    {| waitTicks := [ticks]; minimumWaitTicks := ticks; countFinishedTracks := 0;
       currentEvent := [1]; TickDurationUs := tempo / ppq;
       currentTotalTime_Ticks := 0; currentTotalTime_Usecs := 0;
       cb_state := tt; callbacks := [((0, 0), 0, 0, 0)];
       device := [SLEEPUS 0] |}
  = Ok (false,
        {| waitTicks := [UINT32_MAX]; minimumWaitTicks := UINT32_MAX; countFinishedTracks := 1;
           currentEvent := [2]; TickDurationUs := tempo / ppq;
           currentTotalTime_Ticks := ticks;
           currentTotalTime_Usecs := u32 (tempo / ppq * ticks);
           cb_state := tt;
           callbacks := [((0, 0), 0, 0, 0); ((0, 1), 0, ticks, u32 (tempo / ppq * ticks))];
           device := [SLEEPUS 0; SLEEPUS (u32 (tempo / ppq * ticks))] |}).
Proof.
  unfold play_turn. cbn [nTrks tempo_file].
  change (Z.to_nat 1) with 1%nat. cbn [play_tracks].
  cbn [waitTicks minimumWaitTicks countFinishedTracks currentEvent TickDurationUs
       currentTotalTime_Ticks currentTotalTime_Usecs cb_state callbacks device].
  rewrite !Z.add_0_l. rewrite (u32_small ticks) by lia.
  rewrite (u32_small (u32 _)) by apply u32_range.
  pose proof (u32_range (tempo / ppq * ticks)) as Hus.
  destruct (Z.geb_spec (u32 (tempo / ppq * ticks)) 0); [|lia]. cbn [app].
  unfold play_track.
  cbn [waitTicks minimumWaitTicks countFinishedTracks currentEvent TickDurationUs
       currentTotalTime_Ticks currentTotalTime_Usecs cb_state callbacks device].
  change (array_at [ticks] 0) with (Ok ticks : result Z). rewrite !bind_Ok.
  rewrite Z.sub_diag. change (u32 0) with 0. change (negb (0 =? 0)) with false. cbv iota.
  change (array_at [1] 0) with (Ok 1 : result Z). rewrite bind_Ok.
  change (deref (tempo_file ppq tempo ticks) (0, 1))
    with (Ok {| deltaTime := ticks; interface := 11; data := Some Data_Uninit |}).
  rewrite bind_Ok.
  change (MidiEvent_GetType {| deltaTime := ticks; interface := 11; data := Some Data_Uninit |})
    with (Ok Midi_Event_Type_EndOfTrack : result Z).
  rewrite bind_Ok. unfold trivial_callback. rewrite bind_Ok.
  change (Player_Callback_PlayEvent =? Player_Callback_Abort) with false. cbv iota.
  unfold play_event.
  change (Player_Callback_PlayEvent =? Player_Callback_IgnoreEvent) with false.
  change (Midi_Event_Type_EndOfTrack =? Midi_Event_Type_NoteOn) with false.
  change (Midi_Event_Type_EndOfTrack =? Midi_Event_Type_NoteOff) with false.
  change (Midi_Event_Type_EndOfTrack =? Midi_Event_Type_SetTempo) with false.
  change (Midi_Event_Type_EndOfTrack =? Midi_Event_Type_ProgramChange) with false.
  cbn [andb orb]. rewrite bind_Ok.
  unfold next_event. cbn [Tracks tempo_file]. rewrite bind_Ok.
  change (track_at _ 0)
    with (Ok {| NumEvents := 2;
                Events := [
                  Some {| deltaTime := 0; interface := 12; data := Some (Data_SetTempo tempo) |};
                  Some {| deltaTime := ticks; interface := 11; data := Some Data_Uninit |} ] |}).
  rewrite bind_Ok.
  cbn [waitTicks minimumWaitTicks countFinishedTracks currentEvent TickDurationUs
       currentTotalTime_Ticks currentTotalTime_Usecs cb_state callbacks device NumEvents].
  change (array_at [1] 0) with (Ok 1 : result Z). rewrite bind_Ok.
  change (u16 (1 + 1)) with 2. change (2 >=? 2) with true. cbv iota. rewrite !bind_Ok.
  change (Z.to_nat 0) with 0%nat. cbn [insert list_insert app].
  change (u16 (0 + 1)) with 1. change (min UINT32_MAX UINT32_MAX) with UINT32_MAX.
  reflexivity.
Qed.

(** After the tempo event at tick 0 and [ticks] ticks, the player has
    counted [ticks] times the truncated quotient [tempo / ppq]
    microseconds, modulo 2^32. *)
Lemma tempo_file_run :
  exists st,
    MidiFile_Play (tempo_file ppq tempo ticks) 0 trivial_callback 3 tt = Ok st
    /\ TickDurationUs st = tempo / ppq
    /\ currentTotalTime_Ticks st = ticks
    /\ currentTotalTime_Usecs st = u32 (tempo / ppq * ticks).
Proof.
  eexists. split.
  - unfold MidiFile_Play. cbn [play_loop].
    change (countFinishedTracks (play_start (tempo_file ppq tempo ticks) tt) <? nTrks (tempo_file ppq tempo ticks)) with true. cbv iota.
    rewrite tempo_file_turn1, bind_Ok.
    cbn [countFinishedTracks]. change (0 <? nTrks (tempo_file ppq tempo ticks)) with true. cbv iota.
    rewrite tempo_file_turn2, bind_Ok.
    cbn [countFinishedTracks]. change (1 <? nTrks (tempo_file ppq tempo ticks)) with false. cbv iota.
    reflexivity.
  - repeat split; reflexivity.
Qed.

End TempoFile.

(** C2, as the claim states it, fails: on [tempo_file 480 500000 480] (480 pulses per
    quarter note, tempo 500000 at tick 0, the next event 480 ticks
    later) the player ends with its tick clock at 480 and its
    microsecond clock at 499680, not at 500000. *)
Lemma MidiFile_Play_clock_is_not_500000 :
  exists st,
    MidiFile_Play (tempo_file 480 500000 480) 0 trivial_callback 3 tt = Ok st
    /\ currentTotalTime_Ticks st = 480
    /\ currentTotalTime_Usecs st <> 500000.
Proof.
  eexists. split; [vm_compute; reflexivity|]. split; [reflexivity|].
  cbn [currentTotalTime_Usecs]. lia.
Qed.

(** C2, amended.  For a file with one track holding a tempo event at
    tick 0 and the next event [ticks] ticks later, the player derives
    the tick duration as the truncated integer quotient
    [tempo / PulsesPerQuarterNote] and after the [ticks] ticks its
    microsecond clock is [ticks] times that duration, modulo 2^32.  With
    480 pulses per quarter note, tempo 500000 and 480 ticks: the tick
    duration is 1041 and the clock is 499680. *)
Theorem MidiFile_Play_clock_truncates (ppq tempo ticks : Z) :
  0 < ppq < 65536 -> 0 <= tempo < 16777216 -> 0 < ticks < 4294967296 ->
  exists st,
    MidiFile_Play (tempo_file ppq tempo ticks) 0 trivial_callback 3 tt = Ok st
    /\ TickDurationUs st = tempo / ppq
    /\ currentTotalTime_Ticks st = ticks
    /\ currentTotalTime_Usecs st = u32 (tempo / ppq * ticks).
Proof. intros Hppq Htempo Hticks. apply tempo_file_run; assumption. Qed.

Lemma MidiFile_Play_clock_truncates_witness :
  exists st,
    MidiFile_Play (tempo_file 480 500000 480) 0 trivial_callback 3 tt = Ok st
    /\ TickDurationUs st = 1041
    /\ currentTotalTime_Ticks st = 480
    /\ currentTotalTime_Usecs st = 499680.
Proof.
  apply (MidiFile_Play_clock_truncates 480 500000 480); lia.
Defined.

(** ** C1: a NoteOn with velocity 0 *)

Lemma playerCb_ending_note (midi : MidiFile_t) (entries : list MidiAbsoluteTimeMap_t)
    (event : MidiEvent_ptr) (channel key track0 timeTicks timeUs : Z) :
  ending_note midi event channel key ->
  playerCb midi entries event track0 timeTicks timeUs
  = (l ← playerCb_match midi (length entries) entries event channel key track0 timeUs;
     Ok (l, Player_Callback_IgnoreEvent)).
Proof.
  intros [(velocity & ev & i & Hev & Hi & Ht & Hd)|(ev & i & Hev & Hi & Ht & Hd)];
    unfold playerCb, MidiEvent_GetType; rewrite Hev, bind_Ok, Hi, !bind_Ok, Ht, Hd.
  - reflexivity.
  - reflexivity.
Qed.

(** C1, as the claim states it, fails in the player: on [note_file]
    with the callback that always answers Play and start time 0, the
    NoteOn of key 60 with velocity 0 reaches the synth as
    [MidiDevice_PlayNote] with state 1, the note-on state, and no call
    with the note-off state 0 is made. *)
Lemma MidiFile_Play_velocity_0_is_sent_as_note_on :
  exists st,
    MidiFile_Play note_file 0 trivial_callback 6 tt = Ok st
    /\ In (MidiDevice_PlayNote 60 0 0 1) (device st)
    /\ ~ In (MidiDevice_PlayNote 60 0 0 0) (device st).
Proof.
  eexists. split; [vm_compute; reflexivity|]. split.
  - cbn. tauto.
  - cbn. intros H. repeat destruct H as [H|H]; try discriminate H. exact H.
Qed.

(** C1, amended.  In the time map a NoteOn with velocity 0 does what a
    NoteOff for the same channel and key does: the callback runs the
    same search for the entry to close, with the same track, channel,
    key and time.  In the player, when the callback answers Play and
    the clock has reached the start time, a NoteOn with velocity 0 is
    sent to the synth with state 1 (the state is 1 for every event of
    type NoteOn) and velocity 0. *)
Theorem NoteOn_velocity_0
    (midi : MidiFile_t) (entries : list MidiAbsoluteTimeMap_t)
    (on0 off : MidiEvent_ptr) (channel key velocity_off track0 timeTicks timeUs : Z)
    (ev : MidiEvent_t) (OnOff start_usec : Z) (St : Type) (st : PlayState St) :
  note_at midi on0 Midi_Event_Type_NoteOn channel key 0 ->
  note_at midi off Midi_Event_Type_NoteOff channel key velocity_off ->
  data ev = Some (Data_NoteEvent channel key 0 OnOff) ->
  start_usec <= currentTotalTime_Usecs st ->
  playerCb midi entries on0 track0 timeTicks timeUs
  = (l ← playerCb_match midi (length entries) entries on0 channel key track0 timeUs;
     Ok (l, Player_Callback_IgnoreEvent))
  /\ playerCb midi entries off track0 timeTicks timeUs
     = (l ← playerCb_match midi (length entries) entries off channel key track0 timeUs;
        Ok (l, Player_Callback_IgnoreEvent))
  /\ exists st',
       play_event midi start_usec ev Midi_Event_Type_NoteOn Player_Callback_PlayEvent st = Ok st'
       /\ device st' = device st ++ [MidiDevice_PlayNote key channel 0 1].
Proof.
  intros Hon0 Hoff Hdata Hstart. split; [|split].
  - apply playerCb_ending_note. right. exact Hon0.
  - apply playerCb_ending_note. left. exists velocity_off. exact Hoff.
  - unfold play_event. rewrite Hdata.
    change (Player_Callback_PlayEvent =? Player_Callback_IgnoreEvent) with false.
    change (Midi_Event_Type_NoteOn =? Midi_Event_Type_NoteOn) with true.
    cbn [andb orb].
    destruct (Z.geb_spec (currentTotalTime_Usecs st) start_usec); [|lia].
    eexists. split; reflexivity.
Qed.

Lemma NoteOn_velocity_0_witness :
  playerCb note_file [] (0, 1) 0 10 26020
  = (l ← playerCb_match note_file (length ([] : list MidiAbsoluteTimeMap_t)) [] (0, 1) 0 60 0 26020;
     Ok (l, Player_Callback_IgnoreEvent))
  /\ playerCb note_file [] (0, 3) 0 10 26020
     = (l ← playerCb_match note_file (length ([] : list MidiAbsoluteTimeMap_t)) [] (0, 3) 0 60 0 26020;
        Ok (l, Player_Callback_IgnoreEvent))
  /\ exists st',
       play_event note_file 0
         {| deltaTime := 10; interface := 18; data := Some (Data_NoteEvent 0 60 0 0x90) |}
         Midi_Event_Type_NoteOn Player_Callback_PlayEvent (play_start note_file tt) = Ok st'
       /\ device st' = device (play_start note_file tt) ++ [MidiDevice_PlayNote 60 0 0 1].
Proof.
  apply (NoteOn_velocity_0 note_file [] (0, 1) (0, 3) 0 60 64 0 10 26020
           {| deltaTime := 10; interface := 18; data := Some (Data_NoteEvent 0 60 0 0x90) |}
           0x90 0 unit (play_start note_file tt)).
  - eexists _, _. repeat split; reflexivity.
  - eexists _, _. repeat split; reflexivity.
  - reflexivity.
  - cbn. lia.
Defined.

(** ** C8: pairing of the notes in the time map *)

Section Pairing.

Variable midi : MidiFile_t.

Lemma note_at_inj (event : MidiEvent_ptr) (t1 c1 k1 v1 t2 c2 k2 v2 : Z) :
  note_at midi event t1 c1 k1 v1 -> note_at midi event t2 c2 k2 v2 ->
  t1 = t2 /\ c1 = c2 /\ k1 = k2 /\ v1 = v2.
Proof.
  intros (ev & i & Hev & Hi & Ht & Hd) (ev' & i' & Hev' & Hi' & Ht' & Hd').
  rewrite Hev in Hev'. injection Hev' as <-. rewrite Hd in Hd'. injection Hd' as -> -> -> ->.
  auto.
Qed.

Lemma sounding_not_ending (event : MidiEvent_ptr) (c1 k1 c2 k2 : Z) :
  sounding_note midi event c1 k1 -> ending_note midi event c2 k2 -> False.
Proof.
  intros (v & Hv & Hon) [(v' & Hoff)|Hon0].
  - destruct (note_at_inj _ _ _ _ _ _ _ _ _ Hon Hoff) as (E & _). discriminate E.
  - destruct (note_at_inj _ _ _ _ _ _ _ _ _ Hon Hon0) as (_ & _ & _ & E). contradiction.
Qed.


(** *** The search for the entry to close *)

(** Whatever the entries, the search changes nothing or closes one entry
    that was open on the same track, channel and key. *)
Lemma playerCb_match_result (event : MidiEvent_ptr) (channel key track0 timeUs : Z)
    (entries : list MidiAbsoluteTimeMap_t) (n : nat) :
  forall entries',
  playerCb_match midi n entries event channel key track0 timeUs = Ok entries' ->
  entries' = entries
  \/ exists i m ev velocity,
       (i < n)%nat /\ entries !! i = Some m /\ OffEvent m = None /\ track m = track0
       /\ deref midi (OnEvent m) = Ok ev
       /\ data ev = Some (Data_NoteEvent channel key velocity Midi_Event_Type_NoteOn)
       /\ entries' = <[i := closed_by m event timeUs]> entries.
Proof.
  induction n as [|n IH]; intros entries' H; cbn [playerCb_match] in H.
  - injection H as <-. auto.
  - assert (Hnext : playerCb_match midi n entries event channel key track0 timeUs = Ok entries' ->
                    entries' = entries
                    \/ exists i m ev velocity,
                         (i < S n)%nat /\ entries !! i = Some m /\ OffEvent m = None
                         /\ track m = track0 /\ deref midi (OnEvent m) = Ok ev
                         /\ data ev = Some (Data_NoteEvent channel key velocity
                                              Midi_Event_Type_NoteOn)
                         /\ entries' = <[i := closed_by m event timeUs]> entries).
    { intros H'. apply IH in H' as [->|(i & m & ev & v & Hi & Hrest)]; [auto|].
      right. exists i, m, ev, v. split; [lia|exact Hrest]. }
    destruct (entries !! n) as [m|] eqn:Hm; [|discriminate].
    destruct (OffEvent m) as [off|] eqn:Hoff; [auto|].
    destruct (deref midi (OnEvent m)) as [on| |] eqn:Hon; [|discriminate..].
    rewrite bind_Ok in H.
    destruct (data on) as [[]|] eqn:Hdata; try discriminate; [|auto].
    destruct (_ && _) eqn:Htest; [|auto].
    injection H as <-.
    apply andb_true_iff in Htest as [Htest E4]. apply andb_true_iff in Htest as [Htest E3].
    apply andb_true_iff in Htest as [E1 E2].
    apply Z.eqb_eq in E1, E2, E3, E4. subst.
    right. exists n, m, on, velocity. repeat split; auto.
Qed.





(** *** The callback *)

Lemma playerCb_sounding_note (entries : list MidiAbsoluteTimeMap_t) (event : MidiEvent_ptr)
    (channel key track0 timeTicks timeUs : Z) :
  sounding_note midi event channel key ->
  playerCb midi entries event track0 timeTicks timeUs
  = Ok (entries ++ [opened_by event track0 timeUs], Player_Callback_IgnoreEvent).
Proof.
  intros (v & Hv & ev & i & Hev & Hi & Ht & Hd).
  unfold playerCb, MidiEvent_GetType. rewrite Hev, bind_Ok, Hi, !bind_Ok, Ht, Hd.
  change (Midi_Event_Type_NoteOn =? Midi_Event_Type_NoteOff) with false.
  change (Midi_Event_Type_NoteOn =? Midi_Event_Type_NoteOn) with true.
  cbn [orb]. destruct (Z.eqb_spec v 0); [contradiction|]. reflexivity.
Qed.

Hypothesis consistent : notes_consistent midi.

Lemma deref_consistent (event : MidiEvent_ptr) (ev : MidiEvent_t) (i : MidiEventInterface_t) :
  deref midi event = Ok ev -> interface_of ev = Ok i ->
  type i = Midi_Event_Type_NoteOn \/ type i = Midi_Event_Type_NoteOff ->
  exists channel key velocity, note_at midi event (type i) channel key velocity.
Proof.
  intros Hev Hi Ht. pose proof Hev as Hev0. unfold deref in Hev.
  destruct (Tracks midi) as [tracks|] eqn:Htracks; [|discriminate]. rewrite bind_Ok in Hev.
  unfold track_at in Hev. destruct (fst event <? 0); [discriminate|].
  destruct (tracks !! Z.to_nat (fst event)) as [track|] eqn:Htrack; [|discriminate].
  rewrite bind_Ok in Hev. unfold event_at in Hev. destruct (snd event <? 0); [discriminate|].
  destruct (Events track !! Z.to_nat (snd event)) as [[ev'|]|] eqn:Hslot; try discriminate.
  injection Hev as ->.
  pose proof (consistent tracks Htracks) as Hall. rewrite Forall_lookup in Hall.
  pose proof (Hall _ _ Htrack) as Hall'. rewrite Forall_lookup in Hall'.
  destruct (Hall' _ _ Hslot ev i eq_refl Hi Ht) as (c & k & v & Hd).
  exists c, k, v, ev, i. auto.
Qed.

(** What a call of the callback does to the list. *)
Lemma playerCb_cases (entries entries' : list MidiAbsoluteTimeMap_t) (event : MidiEvent_ptr)
    (track0 timeTicks timeUs r : Z) :
  playerCb midi entries event track0 timeTicks timeUs = Ok (entries', r) ->
  (exists channel key,
     sounding_note midi event channel key /\ entries' = entries ++ [opened_by event track0 timeUs])
  \/ (exists channel key,
        ending_note midi event channel key
        /\ playerCb_match midi (length entries) entries event channel key track0 timeUs
           = Ok entries')
  \/ ((forall channel key, ~ sounding_note midi event channel key)
      /\ (forall channel key, ~ ending_note midi event channel key)
      /\ entries' = entries).
Proof.
  intros H. pose proof H as H0. unfold playerCb in H.
  destruct (deref midi event) as [ev| |] eqn:Hev; [|discriminate..]. rewrite bind_Ok in H.
  unfold MidiEvent_GetType in H.
  destruct (interface_of ev) as [i| |] eqn:Hi; [|discriminate..]. rewrite !bind_Ok in H.
  destruct (_ || _) eqn:Htype.
  - apply orb_true_iff in Htype. rewrite !Z.eqb_eq in Htype.
    destruct (deref_consistent event ev i Hev Hi ltac:(tauto)) as (c & k & v & Hnote).
    destruct (Z.eq_dec v 0) as [->|Hv].
    + right. left. exists c, k.
      assert (Hend : ending_note midi event c k).
      { destruct Htype as [E|E]; rewrite E in Hnote; [left; eauto|right; exact Hnote]. }
      split; [exact Hend|].
      rewrite (playerCb_ending_note midi entries event c k track0 timeTicks timeUs Hend) in H0.
      destruct (playerCb_match _ _ _ _ _ _ _ _) as [l| |]; [|discriminate..].
      rewrite bind_Ok in H0. injection H0 as <- _. reflexivity.
    + destruct Htype as [E|E]; rewrite E in Hnote.
      * right. left. exists c, k.
        assert (Hend : ending_note midi event c k) by (left; eauto).
        split; [exact Hend|].
        rewrite (playerCb_ending_note midi entries event c k track0 timeTicks timeUs Hend) in H0.
        destruct (playerCb_match _ _ _ _ _ _ _ _) as [l| |]; [|discriminate..].
        rewrite bind_Ok in H0. injection H0 as <- _. reflexivity.
      * left. exists c, k.
        assert (Hsound : sounding_note midi event c k) by (exists v; auto).
        split; [exact Hsound|].
        rewrite (playerCb_sounding_note entries event c k track0 timeTicks timeUs Hsound) in H0.
        injection H0 as <- _. reflexivity.
  - right. right. apply orb_false_iff in Htype as [E1 E2].
    apply Z.eqb_neq in E1, E2. injection H as <- _.
    split; [|split; [|reflexivity]].
    + intros c k (v & _ & ev' & i' & Hev' & Hi' & Ht' & _).
      rewrite Hev in Hev'. injection Hev' as <-. rewrite Hi in Hi'. injection Hi' as <-. auto.
    + intros c k [(v & ev' & i' & Hev' & Hi' & Ht' & _)|(ev' & i' & Hev' & Hi' & Ht' & _)];
        rewrite Hev in Hev'; injection Hev' as <-; rewrite Hi in Hi'; injection Hi' as <-; auto.
Qed.




(** *** Sequences of calls *)

Lemma replay_app (calls1 calls2 : list PlayerCall) : forall entries,
  replay midi (calls1 ++ calls2) entries
  = (entries1 ← replay midi calls1 entries; replay midi calls2 entries1).
Proof.
  induction calls1 as [|[[[event track0] timeTicks] timeUs] calls1 IH]; intros entries;
    cbn [app replay].
  - reflexivity.
  - destruct (playerCb midi entries event track0 timeTicks timeUs) as [[entries1 r]| |];
      [|reflexivity..].
    rewrite !bind_Ok. apply IH.
Qed.



End Pairing.

(** The list [Midi_MapAbsoluteTime] returns is what [playerCb] makes of
    the calls of the player, in the order the player made them. *)
Lemma Midi_MapAbsoluteTime_replay (midi : MidiFile_t) (fuel : nat) (numEvents : Z)
    (final : list MidiAbsoluteTimeMap_t) :
  Midi_MapAbsoluteTime midi fuel = Ok (numEvents, final) ->
  exists st,
    MidiFile_Play midi UINT32_MAX (playerCb midi) fuel [] = Ok st
    /\ cb_state st = final
    /\ numEvents = u32 (Z.of_nat (length final))
    /\ replay midi (callbacks st) [] = Ok final.
Proof.
  unfold Midi_MapAbsoluteTime. intros H.
  destruct (MidiFile_Play midi UINT32_MAX (playerCb midi) fuel []) as [st| |] eqn:Hplay;
    [|discriminate..].
  rewrite bind_Ok in H. injection H as <- <-. exists st. repeat split.
  unfold MidiFile_Play in Hplay. apply play_loop_turns in Hplay.
  apply (play_turns_invariant midi UINT32_MAX (playerCb midi)
           (fun s log _ => replay midi log [] = Ok s)) in Hplay; [exact Hplay| | |].
  - intros s log dev event track0 timeTicks timeUs s' r Hlog Hcb.
    split; [eapply playerCb_ignores; exact Hcb|].
    rewrite replay_app, Hlog, bind_Ok. cbn [replay]. rewrite Hcb, bind_Ok. reflexivity.
  - intros s log dev us Hlog. exact Hlog.
  - reflexivity.
Qed.

Lemma note_file_decoded : MidiFile_Open 5 note_file_bytes = Ok (Some note_file).
Proof. vm_compute. reflexivity. Qed.

Lemma note_file_consistent : notes_consistent note_file.
Proof. exact (MidiFile_Open_consistent 5 note_file_bytes note_file note_file_decoded). Qed.


(** ** Further properties: byte order and variable-length quantities *)

Lemma land_255 (v : Z) : Z.land v 255 = v mod 256.
Proof. change 255 with (Z.ones 8). rewrite Z.land_ones by lia. reflexivity. Qed.

Lemma u16fromarray_u16toarray (v : Z) :
  0 <= v < 65536 -> u16fromarray (u16toarray v) = Ok v.
Proof.
  intros Hv. unfold u16fromarray, u16toarray.
  rewrite !land_255, !Z.shiftr_div_pow2 by lia. change (2 ^ 8) with 256.
  change (byte_at [v / 256 mod 256; v mod 256] 0) with (Ok (v / 256 mod 256) : result Z).
  change (byte_at [v / 256 mod 256; v mod 256] 1) with (Ok (v mod 256) : result Z).
  rewrite !bind_Ok. f_equal. unfold u16.
  pose proof (Z.div_mod v 256 ltac:(lia)). pose proof (Z.mod_pos_bound v 256 ltac:(lia)).
  assert (0 <= v / 256 < 256) by (split; [apply Z.div_pos; lia|apply Z.div_lt_upper_bound; lia]).
  rewrite (Z.mod_small (v / 256) 256) by lia. rewrite Z.mod_small by lia. lia.
Qed.

Lemma u32fromarray_u32toarray (w : Z) :
  0 <= w < 4294967296 -> u32fromarray (u32toarray w) = Ok w.
Proof.
  intros Hw. unfold u32fromarray, u32toarray.
  rewrite !land_255, !Z.shiftr_div_pow2 by lia.
  change (2 ^ 8) with 256. change (2 ^ 16) with 65536. change (2 ^ 24) with 16777216.
  change (byte_at [w / 16777216 mod 256; w / 65536 mod 256; w / 256 mod 256; w mod 256] 0)
    with (Ok (w / 16777216 mod 256) : result Z).
  change (byte_at [w / 16777216 mod 256; w / 65536 mod 256; w / 256 mod 256; w mod 256] 1)
    with (Ok (w / 65536 mod 256) : result Z).
  change (byte_at [w / 16777216 mod 256; w / 65536 mod 256; w / 256 mod 256; w mod 256] 2)
    with (Ok (w / 256 mod 256) : result Z).
  change (byte_at [w / 16777216 mod 256; w / 65536 mod 256; w / 256 mod 256; w mod 256] 3)
    with (Ok (w mod 256) : result Z).
  rewrite !bind_Ok. f_equal. unfold u32.
  assert (E : w = ((w / 16777216 mod 256 * 256 + w / 65536 mod 256) * 256 + w / 256 mod 256) * 256
                  + w mod 256).
  { assert (0 <= w / 16777216 < 256)
      by (split; [apply Z.div_pos; lia|apply Z.div_lt_upper_bound; lia]).
    rewrite (Z.mod_small (w / 16777216)) by lia.
    replace (w / 16777216) with (w / 65536 / 256) by (rewrite Z.div_div by lia; reflexivity).
    replace (w / 65536) with (w / 256 / 256) by (rewrite Z.div_div by lia; reflexivity).
    pose proof (Z.div_mod (w / 256 / 256) 256 ltac:(lia)).
    pose proof (Z.div_mod (w / 256) 256 ltac:(lia)).
    pose proof (Z.div_mod w 256 ltac:(lia)). lia. }
  pose proof (Z.mod_pos_bound (w / 16777216) 256 ltac:(lia)).
  pose proof (Z.mod_pos_bound (w / 65536) 256 ltac:(lia)).
  pose proof (Z.mod_pos_bound (w / 256) 256 ltac:(lia)).
  pose proof (Z.mod_pos_bound w 256 ltac:(lia)).
  set (a0 := w / 16777216 mod 256) in *. set (a1 := w / 65536 mod 256) in *.
  set (a2 := w / 256 mod 256) in *. set (a3 := w mod 256) in *.
  rewrite (Z.mod_small (a0 * 256 + a1) 4294967296) by lia.
  rewrite (Z.mod_small ((a0 * 256 + a1) * 256 + a2) 4294967296) by lia.
  rewrite Z.mod_small by lia. lia.
Qed.

(** X1.  The big-endian helpers are inverse to each other: a 16-bit or
    32-bit value is read back from the bytes stored for it, the bytes
    are octets, and bytes are stored back from the value read from
    them. *)
Theorem array_helpers_roundtrip (v w b0 b1 b2 b3 : Z) :
  0 <= v < 65536 -> 0 <= w < 4294967296 ->
  is_byte b0 -> is_byte b1 -> is_byte b2 -> is_byte b3 ->
  u16fromarray (u16toarray v) = Ok v
  /\ u32fromarray (u32toarray w) = Ok w
  /\ Forall is_byte (u16toarray v)
  /\ Forall is_byte (u32toarray w)
  /\ (exists x, u16fromarray [b0; b1] = Ok x /\ u16toarray x = [b0; b1])
  /\ (exists y, u32fromarray [b0; b1; b2; b3] = Ok y /\ u32toarray y = [b0; b1; b2; b3]).
Proof.
  unfold is_byte. intros Hv Hw H0 H1 H2 H3.
  split; [apply (u16fromarray_u16toarray v Hv)|].
  split; [apply (u32fromarray_u32toarray w Hw)|].
  unfold u16fromarray, u16toarray, u32fromarray, u32toarray.
  rewrite !land_255, !Z.shiftr_div_pow2 by lia.
  change (2 ^ 8) with 256. change (2 ^ 16) with 65536. change (2 ^ 24) with 16777216.
  repeat split.
  - repeat constructor; apply Z.mod_pos_bound; lia.
  - repeat constructor; apply Z.mod_pos_bound; lia.
  - exists (b0 * 256 + b1). split.
    + change (byte_at [b0; b1] 0) with (Ok b0 : result Z).
      change (byte_at [b0; b1] 1) with (Ok b1 : result Z).
      rewrite !bind_Ok. f_equal. unfold u16. apply Z.mod_small. lia.
    + rewrite !land_255, !Z.shiftr_div_pow2 by lia. change (2 ^ 8) with 256.
      f_equal; [|f_equal].
      * rewrite Z.div_add_l by lia. rewrite (Z.div_small b1) by lia.
        rewrite Z.add_0_r. apply Z.mod_small. lia.
      * rewrite Z.add_comm, Z.mod_add by lia. apply Z.mod_small. lia.
  - exists (((b0 * 256 + b1) * 256 + b2) * 256 + b3). split.
    + change (byte_at [b0; b1; b2; b3] 0) with (Ok b0 : result Z).
      change (byte_at [b0; b1; b2; b3] 1) with (Ok b1 : result Z).
      change (byte_at [b0; b1; b2; b3] 2) with (Ok b2 : result Z).
      change (byte_at [b0; b1; b2; b3] 3) with (Ok b3 : result Z).
      rewrite !bind_Ok. f_equal. unfold u32.
      rewrite (Z.mod_small (b0 * 256 + b1) 4294967296) by lia.
      rewrite (Z.mod_small ((b0 * 256 + b1) * 256 + b2) 4294967296) by lia.
      apply Z.mod_small. lia.
    + rewrite !land_255, !Z.shiftr_div_pow2 by lia.
      change (2 ^ 8) with 256. change (2 ^ 16) with 65536. change (2 ^ 24) with 16777216.
      set (y := ((b0 * 256 + b1) * 256 + b2) * 256 + b3).
      assert (y / 16777216 = b0) by (symmetry; apply Z.div_unique with (r := (b1 * 256 + b2) * 256 + b3); lia).
      assert (y / 65536 = b0 * 256 + b1) by (symmetry; apply Z.div_unique with (r := b2 * 256 + b3); lia).
      assert (y / 256 = (b0 * 256 + b1) * 256 + b2) by (symmetry; apply Z.div_unique with (r := b3); lia).
      f_equal; [|f_equal; [|f_equal; [|f_equal]]].
      * rewrite H. apply Z.mod_small. lia.
      * rewrite H4. rewrite Z.add_comm, Z.mod_add by lia. apply Z.mod_small. lia.
      * rewrite H5. rewrite Z.add_comm, Z.mod_add by lia. apply Z.mod_small. lia.
      * unfold y. rewrite Z.add_comm, Z.mod_add by lia. apply Z.mod_small. lia.
Qed.

Lemma array_helpers_roundtrip_witness :
  u16fromarray (u16toarray 480) = Ok 480
  /\ u32fromarray (u32toarray 305419896) = Ok 305419896.
Proof.
  destruct (array_helpers_roundtrip 480 305419896 0x12 0x34 0x56 0x78) as (H1 & H2 & _);
    unfold is_byte; try lia.
  split; assumption.
Defined.

Lemma vlq_wf_bytes (bs : list Z) : vlq_wf bs -> Forall is_byte bs.
Proof.
  intros (pre & last & -> & Hpre & Hlast). apply Forall_app. split.
  - eapply Forall_impl; [exact Hpre|]. unfold continues, is_byte. intros; lia.
  - apply Forall_cons_2; [|apply Forall_nil_2]. unfold terminates, is_byte in *. lia.
Qed.

(** What [WriteVariableLength] stores for a 32-bit value, with its size. *)
Lemma WriteVariableLength_size (v : Z) :
  0 <= v < 4294967296 ->
  exists bs,
    WriteVariableLength 5 v = (vlq_size v, bs)
    /\ Z.of_nat (length bs) = vlq_size v /\ vlq_wf bs /\ vlq_value bs = v.
Proof.
  intros Hv.
  destruct (WriteVariableLength_spec 5 v Hv ltac:(lia)) as (bs & Hw & Hwf & Hval & Hmin).
  pose proof (vlq_value_lt bs) as Hlt. rewrite Hval in Hlt.
  assert (Hpos : 0 < Z.of_nat (length bs)).
  { destruct Hwf as (pre & last & -> & _). rewrite length_app. cbn. lia. }
  assert (Hlen : Z.of_nat (length bs) = vlq_size v).
  { set (n := Z.of_nat (length bs)) in *.
    assert (Hn5 : n <= 5).
    { destruct (Z.le_gt_cases n 5) as [|Hbig]; [assumption|].
      specialize (Hmin ltac:(lia)).
      assert (128 ^ 5 <= 128 ^ (n - 1)) by (apply Z.pow_le_mono_r; lia).
      change (128 ^ 5) with 34359738368 in *. lia. }
    unfold vlq_size.
    assert (Hc : n = 1 \/ n = 2 \/ n = 3 \/ n = 4 \/ n = 5) by lia.
    destruct Hc as [E|[E|[E|[E|E]]]]; rewrite E in *; cbn in Hlt;
      try (specialize (Hmin ltac:(lia)); cbn in Hmin);
      repeat match goal with
             | |- context [?a <? ?b] => destruct (Z.ltb_spec a b)
             end; lia. }
  exists bs. rewrite <- Hlen. auto.
Qed.

(** X2.  For every 32-bit value [WriteVariableLength] needs 1 to 5 bytes,
    as many as the value has 7-bit groups.  In a shorter buffer it
    returns -1 and stores nothing; otherwise it returns that size and
    stores as many octets, and [ReadVariableLength] on these bytes,
    whatever follows them, returns the size and the value. *)
Theorem WriteVariableLength_any_buffer (v bufflen : Z) :
  0 <= v < 4294967296 ->
  1 <= vlq_size v <= 5
  /\ (bufflen < vlq_size v -> WriteVariableLength bufflen v = (-1, []))
  /\ (vlq_size v <= bufflen ->
      exists bs,
        WriteVariableLength bufflen v = (vlq_size v, bs)
        /\ Z.of_nat (length bs) = vlq_size v
        /\ Forall is_byte bs
        /\ forall rest n, vlq_size v <= n ->
             ReadVariableLength (bs ++ rest) n = Ok (vlq_size v, v)).
Proof.
  intros Hv.
  destruct (WriteVariableLength_size v Hv) as (bs & Hw & Hlen & Hwf & Hval).
  assert (Hs : 1 <= vlq_size v <= 5).
  { unfold vlq_size. repeat (destruct (_ <? _)); lia. }
  split; [exact Hs|].
  unfold WriteVariableLength in *.
  set (i := WriteVariableLength_count 5 v 0) in *.
  destruct (Z.gtb_spec (i + 1) 5) as [Hgt|Hle]; [injection Hw as E _; lia|].
  injection Hw as Ei Ebs. split.
  - intros Hshort. destruct (Z.gtb_spec (i + 1) bufflen); [reflexivity|lia].
  - intros Hfit. exists bs.
    destruct (Z.gtb_spec (i + 1) bufflen); [lia|].
    rewrite Ei, Ebs. repeat split; [assumption|apply vlq_wf_bytes; assumption|].
    intros rest n Hn. rewrite ReadVariableLength_wf by (try assumption; lia).
    rewrite Hlen, Hval. unfold u32. rewrite Z.mod_small by lia. reflexivity.
Qed.

Lemma WriteVariableLength_any_buffer_witness :
  WriteVariableLength 1 4294967295 = (-1, [])
  /\ exists bs, WriteVariableLength 5 4294967295 = (5, bs).
Proof.
  destruct (WriteVariableLength_any_buffer 4294967295 1 ltac:(lia)) as (_ & H1 & _).
  destruct (WriteVariableLength_any_buffer 4294967295 5 ltac:(lia)) as (_ & _ & H2).
  split.
  - apply H1. vm_compute. reflexivity.
  - destruct H2 as (bs & Hw & _); [vm_compute; discriminate|]. exists bs. exact Hw.
Defined.

Lemma ReadVariableLength_loop_safe (buffer : list Z) : forall bufflen size_read outvalue,
  0 <= size_read -> 0 <= outvalue < 4294967296 ->
  bufflen - size_read <= Z.of_nat (length buffer) ->
  exists n v, ReadVariableLength_loop buffer bufflen size_read outvalue = Ok (n, v)
    /\ (n = -1 \/ size_read < n <= bufflen) /\ 0 <= v < 4294967296.
Proof.
  induction buffer as [|b buffer IH]; intros bufflen size_read outvalue Hs Ho Hlen;
    cbn [ReadVariableLength_loop].
  - cbn [length] in Hlen. destruct (Z.geb_spec size_read bufflen); [|lia].
    exists (-1), outvalue. auto.
  - destruct (Z.geb_spec size_read bufflen).
    + exists (-1), outvalue. auto.
    + destruct (b <? 128).
      * exists (size_read + 1), (u32 (outvalue + b)). split; [reflexivity|].
        split; [right; lia|]. apply Z.mod_pos_bound. lia.
      * cbn [length] in Hlen.
        destruct (IH bufflen (size_read + 1) (u32 (u32 (outvalue + (b - 128)) * 128)))
          as (n' & v' & E & Hn & Hv'); [lia|apply Z.mod_pos_bound; lia|lia|].
        exists n', v'. split; [exact E|]. split; [|exact Hv']. destruct Hn; [left|right]; lia.
Qed.

(** X3.  [ReadVariableLength] stays within the bytes it is allowed to
    read: when the buffer holds at least [bufflen] bytes it never reads
    outside it, whatever the bytes are, and returns either -1 or a count
    from 1 to [bufflen], with a 32-bit value. *)
Theorem ReadVariableLength_within_bounds (buffer : list Z) (bufflen : Z) :
  bufflen <= Z.of_nat (length buffer) ->
  exists n v, ReadVariableLength buffer bufflen = Ok (n, v)
    /\ (n = -1 \/ 1 <= n <= bufflen) /\ 0 <= v < 4294967296.
Proof.
  intros Hlen.
  destruct (ReadVariableLength_loop_safe buffer bufflen 0 0) as (n & v & E & Hn & Hv); try lia.
  exists n, v. split; [exact E|]. split; [|exact Hv]. destruct Hn; [left|right]; lia.
Qed.

Lemma ReadVariableLength_within_bounds_witness :
  exists n v, ReadVariableLength [0x81; 0x80; 0x80] 3 = Ok (n, v) /\ (n = -1 \/ 1 <= n <= 3).
Proof.
  destruct (ReadVariableLength_within_bounds [0x81; 0x80; 0x80] 3) as (n & v & E & Hn & _).
  - cbn. lia.
  - exists n, v. split; assumption.
Defined.

(** ** Further properties: events *)

Lemma find_interface_None (type0 : Z) (table : list MidiEventInterface_t) :
  forall k, Forall (fun row => type row <> type0) table ->
  find_interface table type0 k = None.
Proof.
  induction table as [|row table IH]; intros k H; cbn [find_interface]; [reflexivity|].
  inversion H as [|? ? Hrow Htable]; subst.
  destruct (Z.eqb_spec (type row) type0); [contradiction|]. cbn [negb]. apply IH. assumption.
Qed.

Lemma MidiEvent_Create_unknown (type0 deltaTime0 allocData : Z) :
  ~ In type0 MidiEventType_values -> MidiEvent_Create type0 deltaTime0 allocData = None.
Proof.
  intros Hnot. unfold MidiEvent_Create. rewrite find_interface_None; [reflexivity|].
  unfold InterfaceTable.
  repeat (apply Forall_cons_2;
          [cbn [type]; intros <-; apply Hnot; unfold MidiEventType_values; cbn [In]; tauto|]).
  apply Forall_nil_2.
Qed.

(** X4.  [MidiEvent_Create] knows exactly the types of [MidiEventType_t]:
    for each of them it makes an event of that type with the given
    delta-time, with a data block when [allocData] is not 0 and none
    otherwise; for every other type value it fails and makes no event. *)
Theorem MidiEvent_Create_types (type0 deltaTime0 allocData : Z) :
  (In type0 MidiEventType_values ->
     exists event,
       MidiEvent_Create type0 deltaTime0 allocData = Some event
       /\ MidiEvent_GetType event = Ok type0
       /\ deltaTime event = deltaTime0
       /\ data event = if allocData =? 0 then None else Some Data_Uninit)
  /\ (~ In type0 MidiEventType_values ->
      MidiEvent_Create type0 deltaTime0 allocData = None).
Proof.
  split.
  - intros Hin.
    destruct (MidiEvent_Create type0 deltaTime0 allocData) as [event|] eqn:E.
    + exists event. split; [reflexivity|].
      pose proof (MidiEvent_Create_interface _ _ _ _ E) as (Hd & i & Hi & Ht).
      unfold MidiEvent_GetType. rewrite Hi, bind_Ok, Ht. repeat split; [assumption|].
      unfold MidiEvent_Create in E. destruct (find_interface _ _ _); [|discriminate].
      injection E as <-. cbn [data]. destruct (allocData =? 0); reflexivity.
    + exfalso. unfold MidiEventType_values in Hin. cbn [In] in Hin.
      repeat (destruct Hin as [<-|Hin]; [vm_compute in E; discriminate|]). exact Hin.
  - apply MidiEvent_Create_unknown.
Qed.

Lemma MidiEvent_Create_types_witness :
  (exists event, MidiEvent_Create Midi_Event_Type_NoteOn 7 1 = Some event
                 /\ MidiEvent_GetType event = Ok Midi_Event_Type_NoteOn)
  /\ MidiEvent_Create 0xF7 0 1 = None.
Proof.
  destruct (MidiEvent_Create_types Midi_Event_Type_NoteOn 7 1) as [H1 _].
  destruct (MidiEvent_Create_types 0xF7 0 1) as [_ H2].
  split.
  - destruct H1 as (event & E & Ht & _).
    + unfold MidiEventType_values. cbn [In]. tauto.
    + exists event. split; assumption.
  - apply H2. unfold MidiEventType_values. cbn [In]. vm_compute.
    intros H. repeat (destruct H as [H|H]; [discriminate|]). exact H.
Defined.

(** ** Further properties: names and keys *)

(** X5.  Every key, an octet, has a name, the one of its pitch class:
    the lookup of [Midi_GetKeyName] never leaves the table of twelve
    names.  [Midi_IsSharp] answers 1 exactly for the keys whose name
    carries the sign [#] and 0 for the others, and both functions give
    the same for two keys an octave apart. *)
Theorem Midi_IsSharp_agrees_with_name (key : Z) :
  0 <= key < 256 ->
  exists name,
    Midi_GetKeyName key = Ok name
    /\ In name MIDI_NOTE_NAMES
    /\ (Midi_IsSharp key = 1 <-> String.substring 1 1 name = "#"%string)
    /\ (Midi_IsSharp key = 0 <-> String.length name = 1%nat)
    /\ (key + 12 < 256 ->
        Midi_GetKeyName (key + 12) = Ok name
        /\ Midi_IsSharp (key + 12) = Midi_IsSharp key).
Proof.
  intros Hkey. unfold Midi_GetKeyName, Midi_IsSharp. cbv zeta.
  assert (Hu : u8 key = key) by (unfold u8; apply Z.mod_small; lia).
  assert (Hu12 : key + 12 < 256 -> u8 (key + 12) mod 12 = key mod 12).
  { intros H. unfold u8. rewrite (Z.mod_small (key + 12)) by lia.
    rewrite <- (Z.mod_add key 1 12) by lia. f_equal; lia. }
  rewrite Hu.
  pose proof (Z.mod_pos_bound key 12 ltac:(lia)) as Hr.
  assert (Hc : key mod 12 = 0 \/ key mod 12 = 1 \/ key mod 12 = 2 \/ key mod 12 = 3
               \/ key mod 12 = 4 \/ key mod 12 = 5 \/ key mod 12 = 6 \/ key mod 12 = 7
               \/ key mod 12 = 8 \/ key mod 12 = 9 \/ key mod 12 = 10
               \/ key mod 12 = 11) by lia.
  assert (Hcases : forall r, In r [0; 1; 2; 3; 4; 5; 6; 7; 8; 9; 10; 11] ->
            exists name,
              name_at MIDI_NOTE_NAMES r = Ok name
              /\ In name MIDI_NOTE_NAMES
              /\ ((if (u8 r =? 1) || (u8 r =? 3) || (u8 r =? 6) || (u8 r =? 8) || (u8 r =? 10)
                   then 1 else 0) = 1 <-> String.substring 1 1 name = "#"%string)
              /\ ((if (u8 r =? 1) || (u8 r =? 3) || (u8 r =? 6) || (u8 r =? 8) || (u8 r =? 10)
                   then 1 else 0) = 0 <-> String.length name = 1%nat)).
  { intros r Hr'. cbn [In] in Hr'.
    repeat (destruct Hr' as [<-|Hr']; [eexists; split; [vm_compute; reflexivity|];
                                        vm_compute; intuition congruence|]).
    contradiction. }
  destruct (Hcases (key mod 12)) as (name & Hname & Hin & H1 & H0).
  { cbn [In]. lia. }
  exists name. split; [exact Hname|]. split; [exact Hin|].
  split; [exact H1|]. split; [exact H0|].
  intros H12. rewrite (Hu12 H12). split; [exact Hname|reflexivity].
Qed.

Lemma Midi_IsSharp_agrees_with_name_witness :
  exists name,
    Midi_GetKeyName 243 = Ok name
    /\ Midi_GetKeyName 255 = Ok name
    /\ Midi_IsSharp 255 = Midi_IsSharp 243.
Proof.
  destruct (Midi_IsSharp_agrees_with_name 243 ltac:(lia)) as (name & H1 & _ & _ & _ & H2).
  destruct (H2 ltac:(lia)) as (H3 & H4).
  exists name. split; [exact H1|]. split; [exact H3|exact H4].
Defined.

(** X6.  [Midi_GetInstrumentName] has a name for each of the programs 0
    to 128 and answers [NULL] for every program above: it never reads
    outside its table of 129 names. *)
Theorem Midi_GetInstrumentName_in_table (program : Z) :
  0 <= program ->
  (program <= 128 -> exists name, Midi_GetInstrumentName program = Ok (Some name)
                                  /\ In name MIDI_INSTRUMENT_NAMES)
  /\ (128 < program -> Midi_GetInstrumentName program = Ok None).
Proof.
  intros Hp. unfold Midi_GetInstrumentName. split; intros H.
  - destruct (Z.gtb_spec program 128); [lia|]. unfold name_at.
    destruct (Z.ltb_spec program 0); [lia|].
    assert (Hlen : length MIDI_INSTRUMENT_NAMES = 129%nat) by reflexivity.
    destruct (lookup_lt_is_Some_2 MIDI_INSTRUMENT_NAMES (Z.to_nat program)) as [name Hname];
      [rewrite Hlen; lia|].
    rewrite Hname, bind_Ok. exists name. split; [reflexivity|].
    apply list_elem_of_In. eapply list_elem_of_lookup_2, Hname.
  - destruct (Z.gtb_spec program 128); [reflexivity|lia].
Qed.

Lemma Midi_GetInstrumentName_in_table_witness :
  (exists name, Midi_GetInstrumentName 128 = Ok (Some name))
  /\ Midi_GetInstrumentName 129 = Ok None.
Proof.
  destruct (Midi_GetInstrumentName_in_table 128 ltac:(lia)) as [H1 _].
  destruct (Midi_GetInstrumentName_in_table 129 ltac:(lia)) as [_ H2].
  split; [|apply H2; lia].
  destruct H1 as (name & E & _); [lia|]. exists name. exact E.
Defined.

(** ** Further properties: transposition *)

Lemma transposition_search_Some (table : list MidiTranspositionData_t) (ks_sf ks_mi : Z)
    (row : MidiTranspositionData_t) :
  transposition_search table ks_sf ks_mi = Some row ->
  In row table /\ sf row = ks_sf /\ mi row = ks_mi.
Proof.
  induction table as [|r table IH]; cbn [transposition_search]; [discriminate|].
  destruct (Z.eqb_spec (sf r) ks_sf) as [E1|E1]; cbn [andb].
  - destruct (Z.eqb_spec (mi r) ks_mi) as [E2|E2].
    + intros [= <-]. cbn [In]. auto.
    + intros H. apply IH in H as (Hin & H). cbn [In]. auto.
  - intros H. apply IH in H as (Hin & H). cbn [In]. auto.
Qed.

(** X7.  [Midi_GetKeySignatureTranspositionInfo] finds a row exactly for
    the key signatures with a mode of 0 or 1 and with at most seven
    sharps or flats, the flats being the octets 249 to 255.  The row has
    the signature asked for, and its delta is the pitch class of the
    tonic: seven semitones for every sharp, counted from C in major and
    from A in minor.  For [NULL] it returns [NULL]. *)
Theorem Midi_GetKeySignatureTranspositionInfo_spec (ks_sf ks_mi : Z) :
  is_byte ks_sf ->
  match Midi_GetKeySignatureTranspositionInfo (Some (ks_sf, ks_mi)) with
  | Some row =>
      sf row = ks_sf /\ mi row = ks_mi
      /\ (ks_mi = 0 \/ ks_mi = 1) /\ -7 <= i8 ks_sf <= 7
      /\ tranposeDelta row = (7 * i8 ks_sf + 9 * ks_mi) mod 12
  | None => ~ ((ks_mi = 0 \/ ks_mi = 1) /\ -7 <= i8 ks_sf <= 7)
  end
  /\ Midi_GetKeySignatureTranspositionInfo None = None.
Proof.
  intros Hb. split; [|reflexivity]. unfold is_byte in Hb.
  unfold Midi_GetKeySignatureTranspositionInfo.
  destruct (transposition_search Midi_Transposition_Table ks_sf ks_mi) as [row|] eqn:E.
  - apply transposition_search_Some in E as (Hin & <- & <-).
    unfold Midi_Transposition_Table in Hin. cbn [In] in Hin.
    repeat (destruct Hin as [<-|Hin]; [vm_compute; intuition congruence|]).
    contradiction.
  - intros ([Hm|Hm] & Hs); subst ks_mi; unfold i8 in Hs;
      assert (Hc : ks_sf = 0 \/ ks_sf = 1 \/ ks_sf = 2 \/ ks_sf = 3 \/ ks_sf = 4 \/ ks_sf = 5
                   \/ ks_sf = 6 \/ ks_sf = 7 \/ ks_sf = 249 \/ ks_sf = 250 \/ ks_sf = 251
                   \/ ks_sf = 252 \/ ks_sf = 253 \/ ks_sf = 254 \/ ks_sf = 255)
        by (destruct (Z.lt_ge_cases ks_sf 128);
            [rewrite Z.mod_small in Hs by lia; lia
            |replace (ks_sf + 128) with (ks_sf - 128 + 1 * 256) in Hs by lia;
             rewrite Z.mod_add, Z.mod_small in Hs by lia; lia]);
      repeat (destruct Hc as [->|Hc]; [vm_compute in E; discriminate|]);
      subst ks_sf; vm_compute in E; discriminate.
Qed.

Lemma Midi_GetKeySignatureTranspositionInfo_spec_witness :
  exists row, Midi_GetKeySignatureTranspositionInfo (Some (254, 1)) = Some row
              /\ tranposeDelta row = 7.
Proof.
  pose proof (Midi_GetKeySignatureTranspositionInfo_spec 254 1) as [H _].
  - unfold is_byte. lia.
  - destruct (Midi_GetKeySignatureTranspositionInfo (Some (254, 1))) as [row|].
    + exists row. split; [reflexivity|]. destruct H as (_ & _ & _ & _ & ->). reflexivity.
    + exfalso. apply H. vm_compute. intuition congruence.
Defined.

Lemma interface_type_byte (event : MidiEvent_t) (i : MidiEventInterface_t) :
  interface_of event = Ok i -> u8 (type i) = type i.
Proof.
  unfold interface_of. destruct (InterfaceTable !! interface event) as [i'|] eqn:E; [|discriminate].
  intros [= <-].
  assert (Hall : Forall (fun i => u8 (type i) = type i) InterfaceTable)
    by (unfold InterfaceTable; repeat (apply Forall_cons_2; [reflexivity|]); apply Forall_nil_2).
  rewrite Forall_lookup in Hall. eapply Hall, E.
Qed.

Lemma event_at_slot (track : MidiTrack_t) (e : Z) (event : MidiEvent_t) :
  event_at track e = Ok event <-> 0 <= e /\ Events track !! Z.to_nat e = Some (Some event).
Proof.
  unfold event_at. destruct (Z.ltb_spec e 0).
  - split; [discriminate|lia].
  - destruct (Events track !! Z.to_nat e) as [[ev|]|].
    + split; [intros [= ->]; auto|intros (_ & [= ->]); reflexivity].
    + split; [discriminate|intros (_ & ?); discriminate].
    + split; [discriminate|intros (_ & ?); discriminate].
Qed.

(** One turn of the loop of [Midi_Transpose] over the events stores the
    transposed event where the event was. *)
Lemma Midi_Transpose_events_step (delta e : Z) (track track1 : MidiTrack_t)
    (event : MidiEvent_t) (type0 : Z) :
  Events track !! Z.to_nat e = Some (Some event) ->
  MidiEvent_GetType event = Ok type0 ->
  (if (u8 type0 =? Midi_Event_Type_NoteOff) || (u8 type0 =? Midi_Event_Type_NoteOn)
   then
     match data event with
     | Some (Data_NoteEvent channel key velocity OnOff) =>
         let event := {| deltaTime := deltaTime event; interface := interface event;
                         data := Some (Data_NoteEvent channel (u8 (key + delta))
                                                      velocity OnOff) |} in
         Ok {| NumEvents := NumEvents track;
               Events := <[Z.to_nat e := Some event]> (Events track) |}
     | _ => Undefined
     end
   else Ok track) = Ok track1 ->
  NumEvents track1 = NumEvents track
  /\ Events track1 = <[Z.to_nat e := Some (transposed delta event)]> (Events track).
Proof.
  intros Hslot Htype H.
  assert (Hu : u8 type0 = type0).
  { unfold MidiEvent_GetType in Htype.
    destruct (interface_of event) as [i| |] eqn:Hi; [|discriminate..].
    rewrite bind_Ok in Htype. injection Htype as <-. eapply interface_type_byte, Hi. }
  rewrite Hu in H. unfold transposed, is_note_event. rewrite Htype.
  destruct ((type0 =? Midi_Event_Type_NoteOff) || (type0 =? Midi_Event_Type_NoteOn)).
  - destruct (data event) as [[]|]; try discriminate. injection H as <-. cbn. auto.
  - injection H as <-. split; [reflexivity|].
    rewrite list_insert_id; [reflexivity|].
    destruct (data event) as [[]|]; assumption.
Qed.

Lemma Midi_Transpose_events_spec (delta : Z) (n : nat) :
  forall (e : Z) (track track' : MidiTrack_t),
  0 <= e ->
  Midi_Transpose_events n e delta track = Ok track' ->
  NumEvents track' = NumEvents track
  /\ forall j,
       Events track' !! j
       = if (Z.to_nat e <=? j)%nat && (j <? Z.to_nat e + n)%nat
         then fmap (transposed delta) <$> Events track !! j
         else Events track !! j.
Proof.
  induction n as [|n IH]; intros e track track' He H; cbn [Midi_Transpose_events] in H.
  - injection H as <-. split; [reflexivity|]. intros j.
    destruct (Nat.leb_spec (Z.to_nat e) j), (Nat.ltb_spec j (Z.to_nat e + 0)); cbn [andb];
      try reflexivity; lia.
  - destruct (event_at track e) as [event| |] eqn:Hev; [|discriminate..].
    rewrite bind_Ok in H. apply event_at_slot in Hev as (_ & Hslot).
    destruct (MidiEvent_GetType event) as [type0| |] eqn:Htype; [|discriminate..].
    rewrite bind_Ok in H. cbn zeta in H.
    match type of H with (?step ≫= _) = _ => destruct step as [track1| |] eqn:Hstep end;
      [|discriminate..].
    rewrite bind_Ok in H.
    apply (Midi_Transpose_events_step delta e track track1 event type0 Hslot Htype) in Hstep
      as (Hnum & Hevents).
    apply IH in H as (Hnum' & Hlook); [|lia]. split; [congruence|].
    intros j. rewrite Hlook, Hevents.
    replace (Z.to_nat (e + 1)) with (S (Z.to_nat e)) by lia.
    destruct (Nat.eq_dec j (Z.to_nat e)) as [->|Hne].
    + rewrite list_lookup_insert_eq by (eapply lookup_lt_Some, Hslot). rewrite Hslot.
      destruct (Nat.leb_spec (S (Z.to_nat e)) (Z.to_nat e)); [lia|].
      destruct (Nat.leb_spec (Z.to_nat e) (Z.to_nat e)); [|lia].
      destruct (Nat.ltb_spec (Z.to_nat e) (Z.to_nat e + S n)); [|lia]. reflexivity.
    + rewrite list_lookup_insert_ne by lia.
      destruct (Nat.leb_spec (S (Z.to_nat e)) j), (Nat.leb_spec (Z.to_nat e) j),
        (Nat.ltb_spec j (S (Z.to_nat e) + n)), (Nat.ltb_spec j (Z.to_nat e + S n));
        cbn [andb]; try reflexivity; lia.
Qed.

Lemma transposed_well_typed (delta : Z) (event : MidiEvent_t) :
  event_well_typed event -> event_well_typed (transposed delta event).
Proof.
  intros (i & Hi & Hnote & Hks). unfold transposed.
  destruct (data event) as [[]|] eqn:Hd; try (exists i; rewrite ?Hd; auto; fail).
  destruct (is_note_event event) eqn:Hn; [|exists i; rewrite Hd; auto].
  exists i. unfold interface_of in *. cbn [interface data]. split; [exact Hi|]. split.
  - intros _. eauto.
  - intros Ht. destruct (Hks Ht) as [?|(? & ? & ?)]; discriminate.
Qed.

Lemma Midi_Transpose_events_defined (delta : Z) (n : nat) :
  forall (e : Z) (track : MidiTrack_t),
  0 <= e ->
  (forall j, (Z.to_nat e <= j < Z.to_nat e + n)%nat ->
     exists event, Events track !! j = Some (Some event) /\ event_well_typed event) ->
  exists track', Midi_Transpose_events n e delta track = Ok track'.
Proof.
  induction n as [|n IH]; intros e track He Hall; cbn [Midi_Transpose_events].
  - eauto.
  - destruct (Hall (Z.to_nat e) ltac:(lia)) as (event & Hslot & i & Hi & Hnote & _).
    assert (Hev : event_at track e = Ok event) by (apply event_at_slot; auto).
    rewrite Hev, bind_Ok. unfold MidiEvent_GetType. rewrite Hi, !bind_Ok. cbn zeta.
    rewrite (interface_type_byte event i Hi).
    assert (Hstep : exists track1,
      (if (type i =? Midi_Event_Type_NoteOff) || (type i =? Midi_Event_Type_NoteOn)
       then
         match data event with
         | Some (Data_NoteEvent channel key velocity OnOff) =>
             Ok {| NumEvents := NumEvents track;
                   Events := <[Z.to_nat e :=
                     Some {| deltaTime := deltaTime event; interface := interface event;
                             data := Some (Data_NoteEvent channel (u8 (key + delta))
                                                          velocity OnOff) |}]> (Events track) |}
         | _ => Undefined
         end
       else Ok track) = Ok track1
      /\ forall j, j <> Z.to_nat e -> Events track1 !! j = Events track !! j).
    { destruct (Z.eqb_spec (type i) Midi_Event_Type_NoteOff) as [E|E]; cbn [orb].
      - destruct Hnote as (c & k & v & o & ->); [auto|]. eexists. split; [reflexivity|].
        intros j Hj. cbn [Events]. apply list_lookup_insert_ne. lia.
      - destruct (Z.eqb_spec (type i) Midi_Event_Type_NoteOn) as [E'|E'].
        + destruct Hnote as (c & k & v & o & ->); [auto|]. eexists. split; [reflexivity|].
          intros j Hj. cbn [Events]. apply list_lookup_insert_ne. lia.
        + eauto. }
    destruct Hstep as (track1 & -> & Hsame). rewrite bind_Ok.
    apply IH; [lia|]. intros j Hj. rewrite Hsame by lia. apply Hall. lia.
Qed.

Lemma track_at_lookup (tracks : list MidiTrack_t) (t : Z) (track : MidiTrack_t) :
  track_at tracks t = Ok track <-> 0 <= t /\ tracks !! Z.to_nat t = Some track.
Proof.
  unfold track_at. destruct (Z.ltb_spec t 0).
  - split; [discriminate|lia].
  - destruct (tracks !! Z.to_nat t) as [tr|].
    + split; [intros [= ->]; auto|intros (_ & [= ->]); reflexivity].
    + split; [discriminate|intros (_ & ?); discriminate].
Qed.

Lemma Midi_Transpose_tracks_spec (delta : Z) (n : nat) :
  forall (t : Z) (file file' : MidiFile_t),
  0 <= t ->
  Midi_Transpose_tracks n t delta file = Ok file' ->
  Format file' = Format file /\ nTrks file' = nTrks file
  /\ PulsesPerQuarterNote file' = PulsesPerQuarterNote file
  /\ forall j,
       if (Z.to_nat t <=? j)%nat && (j <? Z.to_nat t + n)%nat
       then exists track track',
              track_of file j = Some track /\ track_of file' j = Some track'
              /\ Midi_Transpose_events (Z.to_nat (NumEvents track)) 0 delta track = Ok track'
       else track_of file' j = track_of file j.
Proof.
  induction n as [|n IH]; intros t file file' Ht H; cbn [Midi_Transpose_tracks] in H.
  - injection H as <-. repeat split. intros j.
    destruct (Nat.leb_spec (Z.to_nat t) j), (Nat.ltb_spec j (Z.to_nat t + 0)); cbn [andb];
      try reflexivity; lia.
  - destruct (Tracks file) as [tracks|] eqn:Htracks; [|discriminate]. rewrite bind_Ok in H.
    destruct (track_at tracks t) as [track| |] eqn:Htrack; [|discriminate..].
    rewrite bind_Ok in H. apply track_at_lookup in Htrack as (_ & Htrack).
    destruct (Midi_Transpose_events _ 0 delta track) as [track1| |] eqn:Hrun; [|discriminate..].
    rewrite bind_Ok in H. apply IH in H as (HF & HN & HP & Hlook); [|lia].
    cbn [Format nTrks PulsesPerQuarterNote] in HF, HN, HP. repeat split; try assumption.
    intros j. specialize (Hlook j).
    replace (Z.to_nat (t + 1)) with (S (Z.to_nat t)) in Hlook by lia.
    unfold track_of in *. cbn [Tracks] in Hlook. rewrite Htracks.
    destruct (Nat.eq_dec j (Z.to_nat t)) as [->|Hne].
    + rewrite list_lookup_insert_eq in Hlook by (eapply lookup_lt_Some, Htrack).
      destruct (Nat.leb_spec (S (Z.to_nat t)) (Z.to_nat t)); [lia|]. cbn [andb] in Hlook.
      destruct (Nat.leb_spec (Z.to_nat t) (Z.to_nat t)); [|lia].
      destruct (Nat.ltb_spec (Z.to_nat t) (Z.to_nat t + S n)); [|lia]. cbn [andb].
      exists track, track1. auto.
    + rewrite list_lookup_insert_ne in Hlook by lia.
      destruct (Nat.leb_spec (S (Z.to_nat t)) j), (Nat.leb_spec (Z.to_nat t) j),
        (Nat.ltb_spec j (S (Z.to_nat t) + n)), (Nat.ltb_spec j (Z.to_nat t + S n));
        cbn [andb] in *; try exact Hlook; lia.
Qed.

Lemma Midi_Transpose_tracks_defined (delta : Z) (n : nat) :
  forall (t : Z) (file : MidiFile_t),
  0 <= t ->
  (forall j, (Z.to_nat t <= j < Z.to_nat t + n)%nat ->
     exists track,
       track_of file j = Some track
       /\ forall e, (e < Z.to_nat (NumEvents track))%nat ->
          exists event, Events track !! e = Some (Some event) /\ event_well_typed event) ->
  exists file', Midi_Transpose_tracks n t delta file = Ok file'.
Proof.
  induction n as [|n IH]; intros t file Ht Hall; cbn [Midi_Transpose_tracks].
  - eauto.
  - destruct (Hall (Z.to_nat t) ltac:(lia)) as (track & Htrack & Hevents).
    unfold track_of in Htrack. destruct (Tracks file) as [tracks|] eqn:Htracks; [|discriminate].
    rewrite bind_Ok.
    assert (Hat : track_at tracks t = Ok track) by (apply track_at_lookup; auto).
    rewrite Hat, bind_Ok.
    destruct (Midi_Transpose_events_defined delta (Z.to_nat (NumEvents track)) 0 track)
      as (track1 & ->); [lia|intros j Hj; apply Hevents; lia|].
    rewrite bind_Ok. apply IH; [lia|]. intros j Hj.
    destruct (Hall j ltac:(lia)) as (tr & Htr & Hev). exists tr. split; [|exact Hev].
    unfold track_of in *. cbn [Tracks]. rewrite Htracks in Htr.
    rewrite list_lookup_insert_ne by lia. exact Htr.
Qed.

Lemma Midi_GetKeySignature_events_spec (t : Z) (track : MidiTrack_t) (n : nat) :
  forall (e : Z) (r : option (option MidiEvent_ptr)),
  0 <= e ->
  Midi_GetKeySignature_events n t e track = Ok r ->
  match r with
  | Some found =>
      exists j event,
        (Z.to_nat e <= j < Z.to_nat e + n)%nat
        /\ key_signature_free track (Z.to_nat e) j
        /\ Events track !! j = Some (Some event)
        /\ MidiEvent_GetType event = Ok Midi_Event_Type_KeySignature
        /\ found = match data event with
                   | Some _ => Some (t, Z.of_nat j)
                   | None => None
                   end
  | None => key_signature_free track (Z.to_nat e) (Z.to_nat e + n)
  end.
Proof.
  induction n as [|n IH]; intros e r He H; cbn [Midi_GetKeySignature_events] in H.
  - injection H as <-. intros j Hj. lia.
  - destruct (event_at track e) as [event| |] eqn:Hev; [|discriminate..].
    rewrite bind_Ok in H. apply event_at_slot in Hev as (_ & Hslot).
    destruct (MidiEvent_GetType event) as [type0| |] eqn:Htype; [|discriminate..].
    rewrite bind_Ok in H.
    destruct (Z.eqb_spec type0 Midi_Event_Type_KeySignature) as [->|Hne].
    + injection H as <-. exists (Z.to_nat e), event.
      split; [lia|]. split; [intros j Hj; lia|]. repeat split; try assumption.
      rewrite Z2Nat.id by lia. reflexivity.
    + apply IH in H; [|lia]. replace (Z.to_nat (e + 1)) with (S (Z.to_nat e)) in H by lia.
      assert (Hfree : forall last, key_signature_free track (S (Z.to_nat e)) last ->
                                   key_signature_free track (Z.to_nat e) last).
      { intros last Hfree j Hj. destruct (Nat.eq_dec j (Z.to_nat e)) as [->|Hj'].
        - exists event. split; [assumption|]. exists type0. auto.
        - apply Hfree. lia. }
      destruct r as [found|].
      * destruct H as (j & ev & Hj & Hbefore & H). exists j, ev.
        split; [lia|]. split; [apply Hfree, Hbefore|exact H].
      * replace (Z.to_nat e + S n)%nat with (S (Z.to_nat e) + n)%nat by lia. apply Hfree, H.
Qed.

Lemma Midi_GetKeySignature_tracks_spec (file : MidiFile_t) (n : nat) :
  forall (t : Z) (r : option MidiEvent_ptr),
  0 <= t ->
  Midi_GetKeySignature_tracks n t file = Ok r ->
  (exists j track e event,
     (Z.to_nat t <= j < Z.to_nat t + n)%nat
     /\ key_signature_free_tracks file (Z.to_nat t) j
     /\ track_of file j = Some track
     /\ (e < Z.to_nat (NumEvents track))%nat
     /\ key_signature_free track 0 e
     /\ Events track !! e = Some (Some event)
     /\ MidiEvent_GetType event = Ok Midi_Event_Type_KeySignature
     /\ r = match data event with
            | Some _ => Some (Z.of_nat j, Z.of_nat e)
            | None => None
            end)
  \/ (r = None /\ key_signature_free_tracks file (Z.to_nat t) (Z.to_nat t + n)).
Proof.
  induction n as [|n IH]; intros t r Ht H; cbn [Midi_GetKeySignature_tracks] in H.
  - injection H as <-. right. split; [reflexivity|]. intros j Hj. lia.
  - destruct (Tracks file) as [tracks|] eqn:Htracks; [|discriminate]. rewrite bind_Ok in H.
    destruct (track_at tracks t) as [track| |] eqn:Htrack; [|discriminate..].
    rewrite bind_Ok in H. apply track_at_lookup in Htrack as (_ & Htrack).
    assert (Htrack' : track_of file (Z.to_nat t) = Some track)
      by (unfold track_of; rewrite Htracks; exact Htrack).
    destruct (Midi_GetKeySignature_events _ t 0 track) as [found| |] eqn:Hrun; [|discriminate..].
    rewrite bind_Ok in H. apply Midi_GetKeySignature_events_spec in Hrun; [|lia].
    change (Z.to_nat 0) with 0%nat in Hrun. cbn [Nat.add] in Hrun.
    destruct found as [found|].
    + injection H as <-. destruct Hrun as (e & event & He & Hbefore & Hslot & Htype & ->).
      left. exists (Z.to_nat t), track, e, event.
      split; [lia|]. split; [intros j Hj; lia|]. repeat split; try assumption; try lia.
      rewrite Z2Nat.id by lia. reflexivity.
    + apply IH in H; [|lia]. replace (Z.to_nat (t + 1)) with (S (Z.to_nat t)) in H by lia.
      assert (Hfree : forall last, key_signature_free_tracks file (S (Z.to_nat t)) last ->
                                   key_signature_free_tracks file (Z.to_nat t) last).
      { intros last Hfree j Hj. destruct (Nat.eq_dec j (Z.to_nat t)) as [->|Hj'].
        - exists track. auto.
        - apply Hfree. lia. }
      destruct H as [(j & tr & e & event & Hj & Hbefore & H)|(-> & H)].
      * left. exists j, tr, e, event. split; [lia|]. split; [apply Hfree, Hbefore|exact H].
      * right. split; [reflexivity|].
        replace (Z.to_nat t + S n)%nat with (S (Z.to_nat t) + n)%nat by lia. apply Hfree, H.
Qed.

Lemma Midi_GetKeySignature_events_free (t : Z) (track : MidiTrack_t) (n : nat) :
  forall (e : Z),
  0 <= e ->
  key_signature_free track (Z.to_nat e) (Z.to_nat e + n) ->
  Midi_GetKeySignature_events n t e track = Ok None.
Proof.
  induction n as [|n IH]; intros e He Hfree; cbn [Midi_GetKeySignature_events]; [reflexivity|].
  destruct (Hfree (Z.to_nat e) ltac:(lia)) as (event & Hslot & type0 & Htype & Hne).
  assert (Hev : event_at track e = Ok event) by (apply event_at_slot; auto).
  rewrite Hev, bind_Ok, Htype, bind_Ok.
  destruct (Z.eqb_spec type0 Midi_Event_Type_KeySignature); [contradiction|].
  apply IH; [lia|]. intros j Hj. apply Hfree. lia.
Qed.

Lemma Midi_GetKeySignature_events_found (t : Z) (track : MidiTrack_t) (j : nat)
    (event : MidiEvent_t) (n : nat) :
  forall (e : Z),
  0 <= e -> (Z.to_nat e <= j < Z.to_nat e + n)%nat ->
  key_signature_free track (Z.to_nat e) j ->
  Events track !! j = Some (Some event) ->
  MidiEvent_GetType event = Ok Midi_Event_Type_KeySignature ->
  Midi_GetKeySignature_events n t e track
  = Ok (Some match data event with
             | Some _ => Some (t, Z.of_nat j)
             | None => None
             end).
Proof.
  induction n as [|n IH]; intros e He Hj Hfree Hslot Htype; cbn [Midi_GetKeySignature_events];
    [lia|].
  destruct (Nat.eq_dec j (Z.to_nat e)) as [->|Hne].
  - assert (Hev : event_at track e = Ok event) by (apply event_at_slot; auto).
    rewrite Hev, bind_Ok, Htype, bind_Ok. rewrite Z.eqb_refl, Z2Nat.id by lia. reflexivity.
  - destruct (Hfree (Z.to_nat e) ltac:(lia)) as (ev & Hslot' & type0 & Htype' & Hne').
    assert (Hev : event_at track e = Ok ev) by (apply event_at_slot; auto).
    rewrite Hev, bind_Ok, Htype', bind_Ok.
    destruct (Z.eqb_spec type0 Midi_Event_Type_KeySignature); [contradiction|].
    apply IH; try assumption; [lia..|]. intros j' Hj'. apply Hfree. lia.
Qed.

Lemma Midi_GetKeySignature_tracks_free (file : MidiFile_t) (n : nat) :
  forall (t : Z),
  0 <= t ->
  key_signature_free_tracks file (Z.to_nat t) (Z.to_nat t + n) ->
  Midi_GetKeySignature_tracks n t file = Ok None.
Proof.
  induction n as [|n IH]; intros t Ht Hfree; cbn [Midi_GetKeySignature_tracks]; [reflexivity|].
  destruct (Hfree (Z.to_nat t) ltac:(lia)) as (track & Htrack & Hevents).
  unfold track_of in Htrack. destruct (Tracks file) as [tracks|] eqn:Htracks; [|discriminate].
  rewrite bind_Ok.
  assert (Hat : track_at tracks t = Ok track) by (apply track_at_lookup; auto).
  rewrite Hat, bind_Ok, Midi_GetKeySignature_events_free, bind_Ok by (try lia; exact Hevents).
  apply IH; [lia|]. intros j Hj. apply Hfree. lia.
Qed.

Lemma Midi_GetKeySignature_tracks_found (file : MidiFile_t) (j : nat) (track : MidiTrack_t)
    (e : nat) (event : MidiEvent_t) (n : nat) :
  forall (t : Z),
  0 <= t -> (Z.to_nat t <= j < Z.to_nat t + n)%nat ->
  key_signature_free_tracks file (Z.to_nat t) j ->
  track_of file j = Some track ->
  (e < Z.to_nat (NumEvents track))%nat ->
  key_signature_free track 0 e ->
  Events track !! e = Some (Some event) ->
  MidiEvent_GetType event = Ok Midi_Event_Type_KeySignature ->
  Midi_GetKeySignature_tracks n t file
  = Ok match data event with
       | Some _ => Some (Z.of_nat j, Z.of_nat e)
       | None => None
       end.
Proof.
  induction n as [|n IH]; intros t Ht Hj Hfree Htrack He Hbefore Hslot Htype;
    cbn [Midi_GetKeySignature_tracks]; [lia|].
  destruct (Nat.eq_dec j (Z.to_nat t)) as [->|Hne].
  - unfold track_of in Htrack. destruct (Tracks file) as [tracks|] eqn:Htracks; [|discriminate].
    rewrite bind_Ok.
    assert (Hat : track_at tracks t = Ok track) by (apply track_at_lookup; auto).
    rewrite Hat, bind_Ok.
    rewrite (Midi_GetKeySignature_events_found t track e event) by (try assumption; lia).
    rewrite bind_Ok, Z2Nat.id by lia. reflexivity.
  - destruct (Hfree (Z.to_nat t) ltac:(lia)) as (tr & Htr & Hevents).
    unfold track_of in Htr. destruct (Tracks file) as [tracks|] eqn:Htracks; [|discriminate].
    rewrite bind_Ok.
    assert (Hat : track_at tracks t = Ok tr) by (apply track_at_lookup; auto).
    rewrite Hat, bind_Ok, Midi_GetKeySignature_events_free, bind_Ok by (try lia; exact Hevents).
    apply IH; try assumption; [lia..|]. intros j' Hj'. apply Hfree. lia.
Qed.

Lemma Midi_GetKeySignature_found (file : MidiFile_t) (t e : nat) (event : MidiEvent_t) :
  first_key_signature file t e event ->
  Midi_GetKeySignature file
  = Ok match data event with
       | Some _ => Some (Z.of_nat t, Z.of_nat e)
       | None => None
       end.
Proof.
  intros (Ht & Hbefore & track & Htrack & He & Hfree & Hslot & Htype).
  unfold Midi_GetKeySignature.
  apply (Midi_GetKeySignature_tracks_found file t track e event); try assumption; lia.
Qed.

(** X8.  [Midi_GetKeySignature] returns the data of the first key
    signature event of the file, in the order of the tracks and of their
    events, whatever follows it.  It returns [NULL] when the first key
    signature has no data, and when the file has no key signature among
    the events its tracks announce.  A result it gives is always one of
    these. *)
Theorem Midi_GetKeySignature_first (file : MidiFile_t) :
  (forall t e event,
     first_key_signature file t e event ->
     Midi_GetKeySignature file
     = Ok match data event with
          | Some _ => Some (Z.of_nat t, Z.of_nat e)
          | None => None
          end)
  /\ (key_signature_free_tracks file 0 (Z.to_nat (nTrks file)) ->
      Midi_GetKeySignature file = Ok None)
  /\ (forall r,
      Midi_GetKeySignature file = Ok r ->
      (exists t e event,
         first_key_signature file t e event
         /\ r = match data event with
                | Some _ => Some (Z.of_nat t, Z.of_nat e)
                | None => None
                end)
      \/ (r = None /\ key_signature_free_tracks file 0 (Z.to_nat (nTrks file)))).
Proof.
  split; [apply Midi_GetKeySignature_found|]. split.
  - intros Hfree. apply Midi_GetKeySignature_tracks_free; [lia|exact Hfree].
  - intros r H. unfold Midi_GetKeySignature in H.
    apply Midi_GetKeySignature_tracks_spec in H; [|lia].
    change (Z.to_nat 0) with 0%nat in H. cbn [Nat.add] in H.
    destruct H as [(t & track & e & event & Ht & Hbefore & Htrack & He & Hfree & Hslot & Htype
                    & ->)|(-> & H)].
    + left. exists t, e, event. split; [|reflexivity].
      split; [lia|]. split; [exact Hbefore|]. exists track. auto.
    + right. auto.
Qed.

Lemma Midi_GetKeySignature_first_witness :
  Midi_GetKeySignature note_file = Ok None.
Proof.
  destruct (Midi_GetKeySignature_first note_file) as (_ & H & _). apply H.
  intros j Hj. change (Z.to_nat 0) with 0%nat in Hj.
  assert (Hc : j = 0%nat \/ j = 1%nat) by (vm_compute in Hj; lia).
  destruct Hc as [-> | ->]; eexists; (split; [reflexivity|]); intros e He; cbn in He.
  - assert (Hc : (e = 0 \/ e = 1 \/ e = 2 \/ e = 3 \/ e = 4)%nat) by lia.
    destruct Hc as [-> | [-> | [-> | [-> | ->]]]]; eexists; (split; [reflexivity|]);
      eexists; (split; [vm_compute; reflexivity|]); vm_compute; discriminate.
  - assert (Hc : (e = 0 \/ e = 1 \/ e = 2)%nat) by lia.
    destruct Hc as [-> | [-> | ->]]; eexists; (split; [reflexivity|]);
      eexists; (split; [vm_compute; reflexivity|]); vm_compute; discriminate.
Defined.

Lemma deref_slot (file : MidiFile_t) (t e : nat) (event : MidiEvent_t) :
  deref file (Z.of_nat t, Z.of_nat e) = Ok event
  <-> exists track, track_of file t = Some track /\ Events track !! e = Some (Some event).
Proof.
  unfold deref, track_of. cbn [fst snd]. destruct (Tracks file) as [tracks|].
  - rewrite bind_Ok. split.
    + intros H. destruct (track_at tracks (Z.of_nat t)) as [track| |] eqn:Htrack;
        [|discriminate..].
      rewrite bind_Ok in H. apply track_at_lookup in Htrack as (_ & Htrack).
      apply event_at_slot in H as (_ & H). rewrite Nat2Z.id in *. eauto.
    + intros (track & Htrack & Hslot).
      assert (Hat : track_at tracks (Z.of_nat t) = Ok track)
        by (apply track_at_lookup; rewrite Nat2Z.id; split; [lia|assumption]).
      rewrite Hat, bind_Ok. apply event_at_slot. rewrite Nat2Z.id. split; [lia|assumption].
  - split; [discriminate|]. intros (track & H & _). discriminate.
Qed.

Lemma store_data_spec (file file' : MidiFile_t) (event : MidiEvent_ptr) (d : MidiEventData) :
  store_data file event d = Ok file' ->
  0 <= fst event /\ 0 <= snd event
  /\ Format file' = Format file /\ nTrks file' = nTrks file
  /\ PulsesPerQuarterNote file' = PulsesPerQuarterNote file
  /\ exists track ev,
       track_of file (Z.to_nat (fst event)) = Some track
       /\ Events track !! Z.to_nat (snd event) = Some (Some ev)
       /\ track_of file' (Z.to_nat (fst event))
          = Some {| NumEvents := NumEvents track;
                    Events := <[Z.to_nat (snd event) := Some (with_data ev d)]> (Events track) |}
       /\ forall j, j <> Z.to_nat (fst event) -> track_of file' j = track_of file j.
Proof.
  unfold store_data, track_of. intros H.
  destruct (Tracks file) as [tracks|]; [|discriminate]. rewrite bind_Ok in H.
  destruct (track_at tracks (fst event)) as [track| |] eqn:Htrack; [|discriminate..].
  rewrite bind_Ok in H. apply track_at_lookup in Htrack as (Ht & Htrack).
  destruct (event_at track (snd event)) as [ev| |] eqn:Hev; [|discriminate..].
  rewrite bind_Ok in H. apply event_at_slot in Hev as (He & Hev).
  cbn zeta in H. injection H as <-. cbn [Format nTrks PulsesPerQuarterNote Tracks].
  repeat split; try assumption. exists track, ev. repeat split; try assumption.
  - apply list_lookup_insert_eq. eapply lookup_lt_Some, Htrack.
  - intros j Hj. apply list_lookup_insert_ne. lia.
Qed.

Lemma store_data_defined (file : MidiFile_t) (event : MidiEvent_ptr) (ev : MidiEvent_t)
    (d : MidiEventData) :
  deref file event = Ok ev -> exists file', store_data file event d = Ok file'.
Proof.
  unfold deref, store_data. intros H.
  destruct (Tracks file) as [tracks|]; [|discriminate H]. rewrite bind_Ok in H. rewrite bind_Ok.
  destruct (track_at tracks (fst event)) as [track| |]; [|discriminate H..].
  rewrite bind_Ok in H. rewrite bind_Ok, H, bind_Ok. eauto.
Qed.

Lemma with_data_transposed (delta : Z) (event : MidiEvent_t) (d : MidiEventData) :
  with_data (transposed delta event) d = with_data event d.
Proof.
  unfold with_data, transposed. destruct (data event) as [[]|]; try reflexivity.
  destruct (is_note_event event); reflexivity.
Qed.

(** The events of a file after the two loops of [Midi_Transpose] and the
    update of the key signature at [ks_event]. *)
Lemma Midi_Transpose_slots (file file1 file2 : MidiFile_t) (delta : Z)
    (ks_event : MidiEvent_ptr) (d : MidiEventData) :
  Midi_Transpose_tracks (Z.to_nat (nTrks file)) 0 delta file = Ok file1 ->
  store_data file1 ks_event d = Ok file2 ->
  Format file2 = Format file /\ nTrks file2 = nTrks file
  /\ PulsesPerQuarterNote file2 = PulsesPerQuarterNote file
  /\ forall t track,
       (t < Z.to_nat (nTrks file))%nat -> track_of file t = Some track ->
       exists track2,
         track_of file2 t = Some track2 /\ NumEvents track2 = NumEvents track
         /\ forall e event,
              (e < Z.to_nat (NumEvents track))%nat ->
              Events track !! e = Some (Some event) ->
              Events track2 !! e
              = Some (Some (if (Z.of_nat t =? fst ks_event) && (Z.of_nat e =? snd ks_event)
                            then with_data event d
                            else transposed delta event)).
Proof.
  intros Hloop Hstore.
  apply Midi_Transpose_tracks_spec in Hloop as (HF & HN & HP & Hloop); [|lia].
  apply store_data_spec in Hstore
    as (Hkt & Hke & HF' & HN' & HP' & ktrack & kev & Hktrack & Hkev & Hktrack' & Hother).
  split; [congruence|]. split; [congruence|]. split; [congruence|].
  intros t track Ht Htrack. specialize (Hloop t).
  change (Z.to_nat 0) with 0%nat in Hloop. cbn [Nat.add Nat.leb andb] in Hloop.
  destruct (Nat.ltb_spec t (Z.to_nat (nTrks file))); [|lia].
  destruct Hloop as (track0 & track1 & Htrack0 & Htrack1 & Hrun).
  rewrite Htrack in Htrack0. injection Htrack0 as <-.
  apply Midi_Transpose_events_spec in Hrun as (Hnum & Hlook); [|lia].
  change (Z.to_nat 0) with 0%nat in Hlook. cbn [Nat.add Nat.leb andb] in Hlook.
  destruct (Nat.eq_dec t (Z.to_nat (fst ks_event))) as [Et|Et].
  - rewrite <- Et in *. rewrite Htrack1 in Hktrack. injection Hktrack as <-.
    eexists. split; [exact Hktrack'|]. cbn [NumEvents Events]. split; [exact Hnum|].
    intros e event He Hslot.
    destruct (Z.eqb_spec (Z.of_nat t) (fst ks_event)); [|lia]. cbn [andb].
    destruct (Nat.eq_dec e (Z.to_nat (snd ks_event))) as [Ee|Ee].
    + rewrite <- Ee in *. destruct (Z.eqb_spec (Z.of_nat e) (snd ks_event)); [|lia].
      rewrite list_lookup_insert_eq by (eapply lookup_lt_Some, Hkev).
      rewrite Hlook in Hkev. destruct (Nat.ltb_spec e (Z.to_nat (NumEvents track))); [|lia].
      rewrite Hslot in Hkev. cbn in Hkev. injection Hkev as <-.
      rewrite with_data_transposed. reflexivity.
    + destruct (Z.eqb_spec (Z.of_nat e) (snd ks_event)); [lia|].
      rewrite list_lookup_insert_ne by lia. rewrite Hlook.
      destruct (Nat.ltb_spec e (Z.to_nat (NumEvents track))); [|lia].
      rewrite Hslot. reflexivity.
  - exists track1. rewrite Hother by exact Et. split; [exact Htrack1|]. split; [exact Hnum|].
    intros e event He Hslot.
    destruct (Z.eqb_spec (Z.of_nat t) (fst ks_event)); [lia|]. cbn [andb].
    rewrite Hlook. destruct (Nat.ltb_spec e (Z.to_nat (NumEvents track))); [|lia].
    rewrite Hslot. reflexivity.
Qed.

(** [Midi_Transpose] when the file has a key signature of the table and
    of the mode of the new key. *)
Lemma Midi_Transpose_accepts (file : MidiFile_t) (newKey oldKey : MidiTranspositionData_t)
    (ks_event : MidiEvent_ptr) (ks_sf ks_mi : Z) :
  Midi_GetKeySignature file = Ok (Some ks_event) ->
  key_signature_at file (Some ks_event) = Ok (Some (ks_sf, ks_mi)) ->
  Midi_GetKeySignatureTranspositionInfo (Some (ks_sf, ks_mi)) = Some oldKey ->
  mi newKey = mi oldKey ->
  Midi_Transpose file (Some newKey)
  = (file1 ← Midi_Transpose_tracks (Z.to_nat (nTrks file)) 0
               (i8 (tranposeDelta newKey - tranposeDelta oldKey)) file;
     file2 ← store_data file1 ks_event (Data_KeySignature (sf newKey) (mi newKey));
     Ok (i8 (tranposeDelta newKey - tranposeDelta oldKey), file2)).
Proof.
  intros Hks Hat Hinfo Hmi. unfold Midi_Transpose.
  rewrite Hks, bind_Ok, Hat, bind_Ok, Hinfo, Hmi, Z.eqb_refl. reflexivity.
Qed.

Lemma first_key_signature_found (file : MidiFile_t) (kt ke : nat) (ks_event : MidiEvent_t)
    (ks_sf ks_mi : Z) :
  first_key_signature file kt ke ks_event ->
  data ks_event = Some (Data_KeySignature ks_sf ks_mi) ->
  Midi_GetKeySignature file = Ok (Some (Z.of_nat kt, Z.of_nat ke))
  /\ key_signature_at file (Some (Z.of_nat kt, Z.of_nat ke)) = Ok (Some (ks_sf, ks_mi)).
Proof.
  intros Hfirst Hdata. split.
  - rewrite (Midi_GetKeySignature_found file kt ke ks_event Hfirst), Hdata. reflexivity.
  - destruct Hfirst as (_ & _ & track & Htrack & _ & _ & Hslot & _).
    unfold key_signature_at.
    assert (Hd : deref file (Z.of_nat kt, Z.of_nat ke) = Ok ks_event)
      by (apply deref_slot; eauto).
    rewrite Hd, bind_Ok, Hdata. reflexivity.
Qed.

Lemma well_typed_tracks_defined (file : MidiFile_t) (delta : Z) :
  well_typed file ->
  exists file1, Midi_Transpose_tracks (Z.to_nat (nTrks file)) 0 delta file = Ok file1.
Proof.
  intros Hwt. apply Midi_Transpose_tracks_defined; [lia|].
  intros j Hj. apply Hwt. change (Z.to_nat 0) with 0%nat in Hj. lia.
Qed.

(** [Midi_Transpose] on a well-typed file whose first key signature is
    in the table, with the mode of the new key. *)
Lemma Midi_Transpose_run (file : MidiFile_t) (newKey oldKey : MidiTranspositionData_t)
    (kt ke : nat) (ks_event : MidiEvent_t) (ks_sf ks_mi : Z) :
  well_typed file ->
  first_key_signature file kt ke ks_event ->
  data ks_event = Some (Data_KeySignature ks_sf ks_mi) ->
  Midi_GetKeySignatureTranspositionInfo (Some (ks_sf, ks_mi)) = Some oldKey ->
  mi newKey = mi oldKey ->
  exists file',
    Midi_Transpose file (Some newKey)
    = Ok (i8 (tranposeDelta newKey - tranposeDelta oldKey), file')
    /\ transposition_of file file' kt ke (Data_KeySignature (sf newKey) (mi newKey))
         (i8 (tranposeDelta newKey - tranposeDelta oldKey)).
Proof.
  intros Hwt Hfirst Hdata Hinfo Hmi.
  destruct (first_key_signature_found _ _ _ _ _ _ Hfirst Hdata) as (Hks & Hat).
  rewrite (Midi_Transpose_accepts file newKey oldKey _ ks_sf ks_mi Hks Hat Hinfo Hmi).
  set (delta := i8 (tranposeDelta newKey - tranposeDelta oldKey)).
  set (d := Data_KeySignature (sf newKey) (mi newKey)).
  destruct (well_typed_tracks_defined file delta Hwt) as (file1 & Hloop).
  rewrite Hloop, bind_Ok.
  pose proof Hloop as Hspec.
  apply Midi_Transpose_tracks_spec in Hspec as (_ & _ & _ & Hspec); [|lia].
  destruct Hfirst as (Hkt & _ & ktrack & Hktrack & Hke & _ & Hkslot & _).
  assert (Hd1 : exists ev1, deref file1 (Z.of_nat kt, Z.of_nat ke) = Ok ev1).
  { specialize (Hspec kt). change (Z.to_nat 0) with 0%nat in Hspec.
    cbn [Nat.add Nat.leb andb] in Hspec.
    destruct (Nat.ltb_spec kt (Z.to_nat (nTrks file))); [|lia].
    destruct Hspec as (track0 & track1 & Htrack0 & Htrack1 & Hrun).
    rewrite Hktrack in Htrack0. injection Htrack0 as <-.
    apply Midi_Transpose_events_spec in Hrun as (_ & Hlook); [|lia].
    specialize (Hlook ke). change (Z.to_nat 0) with 0%nat in Hlook.
    cbn [Nat.add Nat.leb andb] in Hlook.
    destruct (Nat.ltb_spec ke (Z.to_nat (NumEvents ktrack))); [|lia].
    rewrite Hkslot in Hlook. cbn in Hlook.
    eexists. apply deref_slot. eauto. }
  destruct Hd1 as (ev1 & Hd1).
  destruct (store_data_defined file1 _ ev1 d Hd1) as (file2 & Hstore).
  rewrite Hstore, bind_Ok. exists file2. split; [reflexivity|].
  destruct (Midi_Transpose_slots file file1 file2 delta _ d Hloop Hstore)
    as (HF & HN & HP & Hslots).
  repeat split; try assumption.
  intros t track Ht Htrack. destruct (Hslots t track Ht Htrack) as (track2 & H2 & Hnum & Hev).
  exists track2. repeat split; try assumption.
  intros e event He Hslot. rewrite (Hev e event He Hslot). cbn [fst snd].
  assert (Et : (Z.of_nat t =? Z.of_nat kt) = (t =? kt)%nat)
    by (destruct (Z.eqb_spec (Z.of_nat t) (Z.of_nat kt)), (Nat.eqb_spec t kt);
        try reflexivity; lia).
  assert (Ee : (Z.of_nat e =? Z.of_nat ke) = (e =? ke)%nat)
    by (destruct (Z.eqb_spec (Z.of_nat e) (Z.of_nat ke)), (Nat.eqb_spec e ke);
        try reflexivity; lia).
  rewrite Et, Ee. reflexivity.
Qed.

Lemma transposed_type (delta : Z) (event : MidiEvent_t) :
  MidiEvent_GetType (transposed delta event) = MidiEvent_GetType event.
Proof.
  unfold transposed. destruct (data event) as [[]|]; try reflexivity.
  destruct (is_note_event event); reflexivity.
Qed.

(** A transposition keeps a file well typed and its first key signature
    where it is. *)
Lemma transposition_of_well_typed (file file' : MidiFile_t) (kt ke : nat)
    (ks_event : MidiEvent_t) (ks_sf ks_mi delta : Z) :
  well_typed file ->
  first_key_signature file kt ke ks_event ->
  transposition_of file file' kt ke (Data_KeySignature ks_sf ks_mi) delta ->
  well_typed file'
  /\ first_key_signature file' kt ke (with_data ks_event (Data_KeySignature ks_sf ks_mi)).
Proof.
  intros Hwt (Hkt & Hbefore & ktrack & Hktrack & Hke & Hfree & Hkslot & Hktype)
    (HF & HN & HP & Hslots).
  assert (Hone : forall t track e event,
    (t < Z.to_nat (nTrks file))%nat -> track_of file t = Some track ->
    (e < Z.to_nat (NumEvents track))%nat -> Events track !! e = Some (Some event) ->
    not_key_signature event -> (t =? kt)%nat && (e =? ke)%nat = false).
  { intros t track e event Ht Htrack He Hslot (type0 & Htype & Hne).
    destruct (Nat.eqb_spec t kt) as [->|]; [|reflexivity].
    destruct (Nat.eqb_spec e ke) as [->|]; [|reflexivity].
    rewrite Hktrack in Htrack. injection Htrack as <-.
    rewrite Hkslot in Hslot. injection Hslot as <-. congruence. }
  split.
  - intros t Ht. rewrite HN in Ht. destruct (Hwt t Ht) as (track & Htrack & Hevents).
    destruct (Hslots t track Ht Htrack) as (track' & Htrack' & Hnum & Hev).
    exists track'. split; [exact Htrack'|]. intros e He. rewrite Hnum in He.
    destruct (Hevents e He) as (event & Hslot & Htyped).
    rewrite (Hev e event He Hslot). eexists. split; [reflexivity|].
    destruct ((t =? kt)%nat && (e =? ke)%nat) eqn:Hk; [|apply transposed_well_typed, Htyped].
    apply andb_prop in Hk as (Et & Ee).
    apply Nat.eqb_eq in Et as ->. apply Nat.eqb_eq in Ee as ->.
    rewrite Hktrack in Htrack. injection Htrack as <-.
    rewrite Hkslot in Hslot. injection Hslot as <-.
    destruct Htyped as (i & Hi & _). exists i. unfold interface_of in *.
    cbn [with_data interface data]. split; [exact Hi|].
    assert (Hti : type i = Midi_Event_Type_KeySignature).
    { unfold MidiEvent_GetType, interface_of in Hktype.
      destruct (InterfaceTable !! interface ks_event); [|discriminate].
      injection Hi as ->. rewrite bind_Ok in Hktype. injection Hktype as ->. reflexivity. }
    split.
    + rewrite Hti. intros [?|?]; discriminate.
    + intros _. right. eauto.
  - split; [rewrite HN; exact Hkt|]. split.
    + intros j Hj. destruct (Hbefore j Hj) as (track & Htrack & Hf).
      destruct (Hslots j track ltac:(lia) Htrack) as (track' & Htrack' & Hnum & Hev).
      exists track'. split; [exact Htrack'|]. rewrite Hnum. intros e He.
      destruct (Hf e He) as (event & Hslot & Hnot).
      rewrite (Hev e event ltac:(lia) Hslot).
      rewrite (Hone j track e event) by (try assumption; lia).
      eexists. split; [reflexivity|]. unfold not_key_signature. rewrite transposed_type.
      exact Hnot.
    + destruct (Hslots kt ktrack Hkt Hktrack) as (track' & Htrack' & Hnum & Hev).
      exists track'. split; [exact Htrack'|]. split; [rewrite Hnum; exact Hke|]. split.
      * intros e He. destruct (Hfree e He) as (event & Hslot & Hnot).
        rewrite (Hev e event ltac:(lia) Hslot).
        rewrite (Hone kt ktrack e event) by (try assumption; lia).
        eexists. split; [reflexivity|]. unfold not_key_signature. rewrite transposed_type.
        exact Hnot.
      * rewrite (Hev ke ks_event Hke Hkslot), !Nat.eqb_refl. cbn [andb].
        split; [reflexivity|]. exact Hktype.
Qed.

Lemma key_file_well_typed : well_typed key_file.
Proof.
  intros t Ht. assert (t = 0%nat) as -> by (vm_compute in Ht; lia).
  eexists. split; [reflexivity|]. intros e He. cbn in He.
  assert (Hc : (e = 0 \/ e = 1 \/ e = 2 \/ e = 3)%nat) by lia.
  destruct Hc as [-> | [-> | [-> | ->]]]; (eexists; split; [reflexivity|]);
    (eexists; split; [reflexivity|]); cbn [type data]; split; intros H;
    try (destruct H as [H|H]); try discriminate H; eauto 6.
Qed.

Lemma key_file_first :
  first_key_signature key_file 0 0
    {| deltaTime := 0; interface := 15; data := Some (Data_KeySignature 2 0) |}.
Proof.
  split; [vm_compute; lia|]. split; [intros j Hj; lia|].
  eexists. split; [reflexivity|]. split; [vm_compute; lia|].
  split; [intros j Hj; lia|]. split; reflexivity.
Qed.

(** X9.  On a well-typed file whose first key signature is a row of the
    table, [Midi_Transpose] to a key of the same mode returns the
    difference of the two deltas and leaves the file with the same
    header, tracks and events, where the key of every NoteOn and NoteOff
    is raised by that difference in a [uint8_t], the first key signature
    holds the signature of the new key, and nothing else differs.  The
    file is still well typed. *)
Theorem Midi_Transpose_shifts_notes (file : MidiFile_t)
    (newKey oldKey : MidiTranspositionData_t)
    (kt ke : nat) (ks_event : MidiEvent_t) (ks_sf ks_mi : Z) :
  well_typed file ->
  first_key_signature file kt ke ks_event ->
  data ks_event = Some (Data_KeySignature ks_sf ks_mi) ->
  Midi_GetKeySignatureTranspositionInfo (Some (ks_sf, ks_mi)) = Some oldKey ->
  mi newKey = mi oldKey ->
  exists file',
    Midi_Transpose file (Some newKey)
    = Ok (i8 (tranposeDelta newKey - tranposeDelta oldKey), file')
    /\ transposition_of file file' kt ke (Data_KeySignature (sf newKey) (mi newKey))
         (i8 (tranposeDelta newKey - tranposeDelta oldKey))
    /\ well_typed file'.
Proof.
  intros Hwt Hfirst Hdata Hinfo Hmi.
  destruct (Midi_Transpose_run file newKey oldKey kt ke ks_event ks_sf ks_mi)
    as (file' & Hrun & Htr); try assumption.
  exists file'. split; [exact Hrun|]. split; [exact Htr|].
  eapply transposition_of_well_typed; eassumption.
Qed.

Lemma Midi_Transpose_shifts_notes_witness :
  exists file', Midi_Transpose key_file (Some F_major) = Ok (3, file').
Proof.
  destruct (Midi_Transpose_shifts_notes key_file F_major D_major 0 0
              {| deltaTime := 0; interface := 15; data := Some (Data_KeySignature 2 0) |} 2 0)
    as (file' & H & _).
  - exact key_file_well_typed.
  - exact key_file_first.
  - reflexivity.
  - vm_compute. reflexivity.
  - reflexivity.
  - exists file'. exact H.
Defined.

(** X10.  [Midi_Transpose] returns 0 and leaves the file as it is when
    the file has no key signature among the events of its tracks, when
    its first key signature has no data, when that signature is not in
    the table, when the new key is [NULL], and when the new key has the
    other mode. *)
Theorem Midi_Transpose_rejects (file : MidiFile_t) (newKey : option MidiTranspositionData_t) :
  (key_signature_free_tracks file 0 (Z.to_nat (nTrks file)) ->
     Midi_Transpose file newKey = Ok (0, file))
  /\ (forall kt ke ks_event,
        first_key_signature file kt ke ks_event -> data ks_event = None ->
        Midi_Transpose file newKey = Ok (0, file))
  /\ (forall kt ke ks_event ks_sf ks_mi,
        first_key_signature file kt ke ks_event ->
        data ks_event = Some (Data_KeySignature ks_sf ks_mi) ->
        newKey = None
        \/ Midi_GetKeySignatureTranspositionInfo (Some (ks_sf, ks_mi)) = None
        \/ (exists new old,
              newKey = Some new
              /\ Midi_GetKeySignatureTranspositionInfo (Some (ks_sf, ks_mi)) = Some old
              /\ mi new <> mi old) ->
        Midi_Transpose file newKey = Ok (0, file)).
Proof.
  split; [|split].
  - intros Hfree. unfold Midi_Transpose, Midi_GetKeySignature.
    rewrite Midi_GetKeySignature_tracks_free by (try lia; exact Hfree).
    rewrite bind_Ok. cbn [key_signature_at]. rewrite bind_Ok.
    cbn [Midi_GetKeySignatureTranspositionInfo]. destruct newKey; reflexivity.
  - intros kt ke ks_event Hfirst Hdata. unfold Midi_Transpose.
    rewrite (Midi_GetKeySignature_found file kt ke ks_event Hfirst), Hdata, bind_Ok.
    cbn [key_signature_at]. rewrite bind_Ok.
    cbn [Midi_GetKeySignatureTranspositionInfo]. destruct newKey; reflexivity.
  - intros kt ke ks_event ks_sf ks_mi Hfirst Hdata Hcase.
    destruct (first_key_signature_found _ _ _ _ _ _ Hfirst Hdata) as (Hks & Hat).
    unfold Midi_Transpose. rewrite Hks, bind_Ok, Hat, bind_Ok.
    destruct Hcase as [->|[Hnone|(new & old & -> & Hold & Hmi)]].
    + reflexivity.
    + rewrite Hnone. destruct newKey; reflexivity.
    + rewrite Hold. destruct (Z.eqb_spec (mi new) (mi old)); [contradiction|]. reflexivity.
Qed.

Lemma Midi_Transpose_rejects_witness :
  Midi_Transpose note_file (Some F_major) = Ok (0, note_file)
  /\ Midi_Transpose key_file (Some A_minor) = Ok (0, key_file).
Proof.
  split.
  - destruct (Midi_Transpose_rejects note_file (Some F_major)) as (H & _). apply H.
    intros j Hj. change (Z.to_nat 0) with 0%nat in Hj.
    assert (Hc : j = 0%nat \/ j = 1%nat) by (vm_compute in Hj; lia).
    destruct Hc as [-> | ->]; eexists; (split; [reflexivity|]); intros e He; cbn in He.
    + assert (Hc : (e = 0 \/ e = 1 \/ e = 2 \/ e = 3 \/ e = 4)%nat) by lia.
      destruct Hc as [-> | [-> | [-> | [-> | ->]]]]; eexists; (split; [reflexivity|]);
        eexists; (split; [vm_compute; reflexivity|]); vm_compute; discriminate.
    + assert (Hc : (e = 0 \/ e = 1 \/ e = 2)%nat) by lia.
      destruct Hc as [-> | [-> | ->]]; eexists; (split; [reflexivity|]);
        eexists; (split; [vm_compute; reflexivity|]); vm_compute; discriminate.
  - destruct (Midi_Transpose_rejects key_file (Some A_minor)) as (_ & _ & H).
    apply (H 0%nat 0%nat _ 2 0 key_file_first); [reflexivity|].
    right. right. exists A_minor, D_major. split; [reflexivity|].
    split; [vm_compute; reflexivity|]. vm_compute. discriminate.
Defined.

Lemma transposition_row (row : MidiTranspositionData_t) :
  In row Midi_Transposition_Table ->
  Midi_GetKeySignatureTranspositionInfo (Some (sf row, mi row)) = Some row
  /\ 0 <= tranposeDelta row <= 11.
Proof.
  unfold Midi_Transposition_Table. cbn [In]. intros H.
  repeat (destruct H as [<-|H]; [split; [vm_compute; reflexivity|vm_compute; split; discriminate]|]).
  contradiction.
Qed.

Lemma transposed_back (delta : Z) (event : MidiEvent_t) :
  (forall channel key velocity OnOff,
     data event = Some (Data_NoteEvent channel key velocity OnOff) -> is_byte key) ->
  transposed (- delta) (transposed delta event) = event.
Proof.
  intros Hkey. destruct event as [dt i d]. unfold transposed at 2. cbn [data] in *.
  destruct d as [[]|]; try reflexivity.
  destruct (is_note_event _) eqn:Hn; [|unfold transposed; cbn [data]; rewrite Hn; reflexivity].
  cbn [deltaTime interface]. unfold transposed. cbn [data deltaTime interface].
  change (is_note_event {| deltaTime := dt; interface := i;
                           data := Some (Data_NoteEvent channel (u8 (key + delta))
                                                        velocity OnOff) |})
    with (is_note_event {| deltaTime := dt; interface := i;
                           data := Some (Data_NoteEvent channel key velocity OnOff) |}).
  rewrite Hn. repeat f_equal.
  specialize (Hkey _ _ _ _ eq_refl). unfold is_byte in Hkey. unfold u8.
  rewrite Zplus_mod_idemp_l. replace (key + delta + - delta) with key by lia.
  apply Z.mod_small. lia.
Qed.

Lemma with_data_back (event : MidiEvent_t) (d d' : MidiEventData) :
  data event = Some d' -> with_data (with_data event d) d' = event.
Proof. destruct event. cbn. intros ->. reflexivity. Qed.

(** X11.  Transposing a well-typed file whose note keys are octets to a
    key of the table and then back to the key it had gives every event
    back: the second call returns the opposite of what the first
    returned, and the file has again the header and the events it had
    at first. *)
Theorem Midi_Transpose_there_and_back (file : MidiFile_t)
    (newKey oldKey : MidiTranspositionData_t)
    (kt ke : nat) (ks_event : MidiEvent_t) (ks_sf ks_mi : Z) :
  well_typed file -> keys_are_bytes file ->
  first_key_signature file kt ke ks_event ->
  data ks_event = Some (Data_KeySignature ks_sf ks_mi) ->
  Midi_GetKeySignatureTranspositionInfo (Some (ks_sf, ks_mi)) = Some oldKey ->
  In newKey Midi_Transposition_Table ->
  mi newKey = mi oldKey ->
  exists delta file1 file2,
    Midi_Transpose file (Some newKey) = Ok (delta, file1)
    /\ Midi_Transpose file1 (Some oldKey) = Ok (- delta, file2)
    /\ same_events file file2.
Proof.
  intros Hwt Hbytes Hfirst Hdata Hinfo Hnew Hmi.
  destruct (Midi_Transpose_run file newKey oldKey kt ke ks_event ks_sf ks_mi)
    as (file1 & Hrun1 & Htr1); try assumption.
  destruct (transposition_of_well_typed file file1 kt ke ks_event _ _ _ Hwt Hfirst Htr1)
    as (Hwt1 & Hfirst1).
  destruct (transposition_row newKey Hnew) as (Hinfo1 & Hdnew).
  pose proof Hinfo as Hold. unfold Midi_GetKeySignatureTranspositionInfo in Hold.
  apply transposition_search_Some in Hold as (Hin & Hsf & Hmi0).
  destruct (transposition_row oldKey Hin) as (_ & Hdold).
  destruct (Midi_Transpose_run file1 oldKey newKey kt ke
              (with_data ks_event (Data_KeySignature (sf newKey) (mi newKey)))
              (sf newKey) (mi newKey))
    as (file2 & Hrun2 & Htr2); try assumption; [reflexivity|congruence|].
  assert (E1 : i8 (tranposeDelta newKey - tranposeDelta oldKey)
               = tranposeDelta newKey - tranposeDelta oldKey)
    by (unfold i8; rewrite Z.mod_small by lia; lia).
  assert (E2 : i8 (tranposeDelta oldKey - tranposeDelta newKey)
               = - (tranposeDelta newKey - tranposeDelta oldKey))
    by (unfold i8; rewrite Z.mod_small by lia; lia).
  rewrite E1 in *. rewrite E2 in *.
  set (delta := tranposeDelta newKey - tranposeDelta oldKey) in *.
  exists delta, file1, file2. split; [exact Hrun1|]. split; [exact Hrun2|].
  destruct Htr1 as (HF1 & HN1 & HP1 & Hs1). destruct Htr2 as (HF2 & HN2 & HP2 & Hs2).
  split; [congruence|]. split; [congruence|]. split; [congruence|].
  intros t track Ht Htrack.
  destruct (Hs1 t track Ht Htrack) as (track1 & Htrack1 & Hnum1 & Hev1).
  destruct (Hs2 t track1 ltac:(rewrite HN1; exact Ht) Htrack1)
    as (track2 & Htrack2 & Hnum2 & Hev2).
  exists track2. split; [exact Htrack2|]. split; [congruence|].
  intros e event He Hslot.
  rewrite (Hev2 e _ ltac:(rewrite Hnum1; exact He) (Hev1 e event He Hslot)).
  destruct ((t =? kt)%nat && (e =? ke)%nat) eqn:Hk.
  - apply andb_prop in Hk as (Et & Ee).
    apply Nat.eqb_eq in Et as ->. apply Nat.eqb_eq in Ee as ->.
    destruct Hfirst as (_ & _ & ktrack & Hktrack & _ & _ & Hkslot & _).
    rewrite Hktrack in Htrack. injection Htrack as <-.
    rewrite Hkslot in Hslot. injection Hslot as <-.
    rewrite Hsf, Hmi0, with_data_back by exact Hdata. reflexivity.
  - rewrite transposed_back; [reflexivity|].
    intros channel key velocity OnOff Hd.
    apply (Hbytes (Z.of_nat t, Z.of_nat e) event channel key velocity OnOff); [|exact Hd].
    apply deref_slot. eauto.
Qed.

Lemma key_file_bytes : keys_are_bytes key_file.
Proof.
  intros [t e] ev channel key velocity OnOff Hd Hdata. unfold deref in Hd.
  cbn [Tracks key_file fst snd] in Hd. rewrite bind_Ok in Hd.
  destruct (track_at _ t) as [track| |] eqn:Htrack; [|discriminate Hd..].
  rewrite bind_Ok in Hd. apply track_at_lookup in Htrack as (Ht & Htrack).
  apply event_at_slot in Hd as (He & Hslot).
  destruct (Z.to_nat t) as [|t']; [|destruct t'; discriminate Htrack].
  injection Htrack as <-. cbn [Events] in Hslot. unfold is_byte.
  destruct (Z.to_nat e) as [|[|[|[|e']]]]; cbn in Hslot; try discriminate Hslot;
    injection Hslot as <-; cbn in Hdata; try discriminate Hdata;
    injection Hdata as <- <- <- <-; lia.
Qed.

Lemma Midi_Transpose_there_and_back_witness :
  exists file1 file2,
    Midi_Transpose key_file (Some F_major) = Ok (3, file1)
    /\ Midi_Transpose file1 (Some D_major) = Ok (-3, file2)
    /\ same_events key_file file2.
Proof.
  destruct (Midi_Transpose_there_and_back key_file F_major D_major 0 0
              {| deltaTime := 0; interface := 15; data := Some (Data_KeySignature 2 0) |} 2 0)
    as (delta & file1 & file2 & H1 & H2 & H3).
  - exact key_file_well_typed.
  - exact key_file_bytes.
  - exact key_file_first.
  - reflexivity.
  - vm_compute. reflexivity.
  - unfold Midi_Transposition_Table, F_major. cbn [In]. do 8 right. left. reflexivity.
  - reflexivity.
  - exists file1, file2.
    assert (delta = 3) as ->.
    { destruct (Midi_Transpose key_file (Some F_major)) as [[d f]| |] eqn:E;
        [|discriminate H1..].
      vm_compute in E. injection E as <- _. injection H1 as <- _. reflexivity. }
    auto.
Defined.

(** ** Further properties: writing and reading back *)

Lemma sprintf_precision_app (payload rest : list Z) :
  Forall (fun c => 0 < c < 256) payload ->
  sprintf_precision (length payload) (payload ++ rest) = Ok payload.
Proof.
  induction payload as [|c payload IH]; intros H; cbn [sprintf_precision length app].
  - reflexivity.
  - inversion H as [|? ? Hc Hp]; subst. destruct (Z.eqb_spec c 0); [lia|].
    rewrite IH by assumption. reflexivity.
Qed.

Lemma u8_byte (b : Z) : is_byte b -> u8 b = b.
Proof. unfold is_byte, u8. intros H. apply Z.mod_small. lia. Qed.

Lemma channel_status (type0 channel : Z) :
  In type0 [0x80; 0x90; 0xA0; 0xB0; 0xC0; 0xD0; 0xE0] -> is_channel channel ->
  u8 (Z.lor type0 channel) = type0 + channel
  /\ Z.land (type0 + channel) 0x0F = channel
  /\ Z.land (type0 + channel) 0xF0 = type0.
Proof.
  unfold is_channel. intros Ht Hc.
  assert (Hch : channel = 0 \/ channel = 1 \/ channel = 2 \/ channel = 3 \/ channel = 4
                \/ channel = 5 \/ channel = 6 \/ channel = 7 \/ channel = 8 \/ channel = 9
                \/ channel = 10 \/ channel = 11 \/ channel = 12 \/ channel = 13
                \/ channel = 14 \/ channel = 15) by lia.
  cbn [In] in Ht.
  repeat (destruct Ht as [<-|Ht];
          [repeat (destruct Hch as [->|Hch]; [vm_compute; auto|]); subst; vm_compute; auto|]).
  contradiction.
Qed.

(** What [read_data_Text] does with what [write_data_Text] stored. *)
Lemma read_data_Text_written (len : Z) (text rest : list Z) (status : Z) :
  text_as_read len text ->
  Z.of_nat (length text) >= len
  /\ u8 len = len
  /\ read_data_Text ((len :: take (Z.to_nat len) text) ++ rest) status
     = Ok (Z.of_nat (length (len :: take (Z.to_nat len) text)), Some (Data_Text len text)).
Proof.
  intros (payload & Hlen & H254 & Hpayload & ->).
  assert (Htake : take (Z.to_nat len) (payload ++ replicate (255 - length payload) 0) = payload).
  { rewrite <- Hlen, Nat2Z.id. rewrite take_app_length. reflexivity. }
  rewrite Htake. split; [rewrite length_app; lia|].
  split; [apply u8_byte; unfold is_byte; lia|].
  unfold read_data_Text, declare_len. cbn [app]. rewrite byte_at_head, bind_Ok.
  unfold MidiEventData_Text_Max_Length.
  destruct (Z.gtb_spec len (255 - 1)); [lia|].
  change (buffer_from (len :: payload ++ rest) 1) with (payload ++ rest).
  rewrite <- Hlen, Nat2Z.id, sprintf_precision_app, bind_Ok by assumption.
  cbn [length]. repeat f_equal; lia.
Qed.

Ltac table_cases k Hk tac :=
  first [ discriminate Hk
        | destruct k as [|k]; [injection Hk as <-; tac | table_cases k Hk tac] ].

Lemma text_written_and_read_back (i : MidiEventInterface_t) (len : Z) (text : list Z) :
  read_data i = read_data_Text \/ read_data i = read_data_SysEx ->
  write_data i = write_data_Text \/ write_data i = write_data_SysEx ->
  In (type i) text_types -> text_as_read len text ->
  written_and_read_back i (Some (Data_Text len text)).
Proof.
  intros Hr Hw Hin Htext.
  assert (Hr' : forall b s, read_data i b s = read_data_Text b s)
    by (destruct Hr as [-> | ->]; reflexivity).
  assert (Hw' : forall t d, write_data i t d = write_data_Text t d)
    by (destruct Hw as [-> | ->]; reflexivity).
  pose proof (fun rest status => read_data_Text_written len text rest status Htext) as H.
  destruct (H [] 0) as (Hlen & Hu & _).
  unfold written_and_read_back. rewrite Hw'. unfold write_data_Text.
  destruct (Z.ltb_spec (Z.of_nat (length text)) len); [lia|]. rewrite Hu.
  destruct (Z.eqb_spec (type i) Midi_Event_Type_SysEx2) as [E|E].
  - exists [0xF0], 0xF0, (len :: take (Z.to_nat len) text).
    split; [reflexivity|]. split; [right; rewrite E; repeat split; discriminate|].
    intros rest. eexists. rewrite Hr'. split; [apply H|reflexivity].
  - exists [0xFF; type i], (type i), (len :: take (Z.to_nat len) text).
    split.
    + unfold text_types in Hin. cbn [In] in Hin.
      repeat (destruct Hin as [<-|Hin]; [reflexivity || contradiction|]). contradiction.
    + split; [left; auto|]. intros rest. eexists. rewrite Hr'. split; [apply H|reflexivity].
Qed.

Lemma u16_bytes (n : Z) :
  0 <= n < 65536 -> u16 (u8 (n / 256) * 256 + u8 (n mod 256)) = n.
Proof.
  intros H. unfold u8, u16.
  assert (0 <= n / 256 < 256) by (split; [apply Z.div_pos; lia|apply Z.div_lt_upper_bound; lia]).
  pose proof (Z.mod_pos_bound n 256 ltac:(lia)).
  rewrite (Z.mod_small (n / 256)), (Z.mod_small (n mod 256)) by lia.
  pose proof (Z.div_mod n 256 ltac:(lia)). rewrite Z.mod_small by lia. lia.
Qed.

Lemma u24_bytes (t : Z) :
  0 <= t < 16777216 ->
  u32 ((Z.land (Z.shiftr t 16) 255 * 256 + Z.land (Z.shiftr t 8) 255) * 256 + Z.land t 255) = t.
Proof.
  intros H. rewrite !land_255, !Z.shiftr_div_pow2 by lia.
  change (2 ^ 16) with 65536. change (2 ^ 8) with 256.
  assert (0 <= t / 65536 < 256)
    by (split; [apply Z.div_pos; lia|apply Z.div_lt_upper_bound; lia]).
  rewrite (Z.mod_small (t / 65536)) by lia.
  replace (t / 65536) with (t / 256 / 256) by (rewrite Z.div_div by lia; reflexivity).
  pose proof (Z.div_mod (t / 256) 256 ltac:(lia)).
  pose proof (Z.div_mod t 256 ltac:(lia)).
  pose proof (Z.mod_pos_bound (t / 256) 256 ltac:(lia)).
  pose proof (Z.mod_pos_bound t 256 ltac:(lia)).
  unfold u32. rewrite Z.mod_small by lia. lia.
Qed.

Lemma wheel_bytes (w : Z) :
  0 <= w < 32768 -> u16 (u8 (w mod 128) + 128 * u8 (w / 128)) = w.
Proof.
  intros H. unfold u8, u16.
  assert (0 <= w / 128 < 256) by (split; [apply Z.div_pos; lia|apply Z.div_lt_upper_bound; lia]).
  pose proof (Z.mod_pos_bound w 128 ltac:(lia)).
  rewrite (Z.mod_small (w / 128)), (Z.mod_small (w mod 128)) by lia.
  pose proof (Z.div_mod w 128 ltac:(lia)). rewrite Z.mod_small by lia. lia.
Qed.

Ltac meta_kind T payload :=
  exists [0xFF; T], T, payload;
  split; [cbn [write_data type]; unfold write_data_SequenceNumber, write_data_ChannelPrefix,
            write_data_MidiPort, write_data_SetTempo, write_data_TimeSignature,
            write_data_KeySignature, write_data_EndOfTrack;
          repeat match goal with H : is_byte ?x |- _ => rewrite (u8_byte x H) end;
          reflexivity|];
  split; [left; split; reflexivity|];
  intros rest; eexists; split; [reflexivity|].

Ltac channel_kind T channel Hch payload stored :=
  let Hs := fresh "Hs" in
  let Hlo := fresh "Hlo" in
  let Hhi := fresh "Hhi" in
  destruct (channel_status T channel ltac:(cbn; auto 8) Hch) as (Hs & Hlo & Hhi);
  exists [T + channel], (T + channel), payload;
  split; [cbn [write_data type];
          unfold write_data_Note, write_data_PolyphonicKeyPressure, write_data_ControlChange,
            write_data_ProgramChange, write_data_ChannelPressure,
            write_data_PitchWheelChange;
          rewrite Hs;
          repeat match goal with H : is_byte ?x |- _ => rewrite (u8_byte x H) end;
          reflexivity|];
  split; [right; split; [reflexivity|]; split; [|exact Hhi];
          unfold is_channel, Midi_Event_Type_NoteOn, Midi_Event_Type_NoteOff,
            Midi_Event_Type_PolyphonicKeyPressure, Midi_Event_Type_ControlChange,
            Midi_Event_Type_ProgramChange, Midi_Event_Type_ChannelPressure,
            Midi_Event_Type_PitchWheelChange in *; lia|];
  intros rest; exists stored; split; [reflexivity|]; rewrite ?Hlo, ?Hhi.

Lemma canonical_written_and_read_back (k : nat) (i : MidiEventInterface_t)
    (d : option MidiEventData) :
  InterfaceTable !! k = Some i -> canonical_data (type i) d ->
  written_and_read_back i d.
Proof.
  intros Hk Hc. unfold InterfaceTable in Hk.
  table_cases k Hk ltac:(cbn [type] in Hc;
     destruct d as [[]|]; cbn [canonical_data] in Hc; try contradiction;
     try (destruct Hc as [Hc _]; discriminate Hc);
     try (destruct Hc as [[Hc|Hc] _]; discriminate Hc); try discriminate Hc;
     try (exfalso; destruct Hc as [Hin _]; unfold text_types in Hin; cbn [In] in Hin;
          intuition discriminate);
     try (destruct Hc as [Hin Htext]; apply text_written_and_read_back; cbn; auto; fail)).
  - destruct Hc as (_ & Hn). meta_kind Midi_Event_Type_SequenceNumber [2; u8 (number / 256); u8 (number mod 256)].
    change (Some (Data_SequenceNumber (u16 (u8 (number / 256) * 256 + u8 (number mod 256))))
            = Some (Data_SequenceNumber number)).
    rewrite u16_bytes by assumption. reflexivity.
  - destruct Hc as (_ & Hb). meta_kind Midi_Event_Type_ChannelPrefix [1; channel]. reflexivity.
  - destruct Hc as (_ & Hb). meta_kind Midi_Event_Type_MidiPort [1; port]. reflexivity.
  - meta_kind Midi_Event_Type_EndOfTrack [0]. reflexivity.
  - destruct Hc as (_ & Ht).
    meta_kind Midi_Event_Type_SetTempo
      [3; Z.land (Z.shiftr tempo 16) 255; Z.land (Z.shiftr tempo 8) 255; Z.land tempo 255].
    change (Some (Data_SetTempo (u32 ((Z.land (Z.shiftr tempo 16) 255 * 256
                                       + Z.land (Z.shiftr tempo 8) 255) * 256
                                      + Z.land tempo 255)))
            = Some (Data_SetTempo tempo)).
    rewrite u24_bytes by assumption. reflexivity.
  - destruct Hc as (_ & H1 & H2 & H3 & H4).
    meta_kind Midi_Event_Type_TimeSignature [4; nn; dd; cc; bb]. reflexivity.
  - destruct Hc as (_ & H1 & H2).
    match goal with
    | |- written_and_read_back _ (Some (Data_KeySignature ?a ?b)) =>
        meta_kind Midi_Event_Type_KeySignature [2; a; b]
    end.
    reflexivity.
  - destruct Hc as (_ & -> & Hch & Hk & Hv).
    channel_kind Midi_Event_Type_NoteOn channel Hch [key; velocity]
      (Some (Data_NoteEvent (Z.land (Midi_Event_Type_NoteOn + channel) 0x0F) key velocity
                            (Z.land (Midi_Event_Type_NoteOn + channel) 0xF0))).
    reflexivity.
  - destruct Hc as (_ & -> & Hch & Hk & Hv).
    channel_kind Midi_Event_Type_NoteOff channel Hch [key; velocity]
      (Some (Data_NoteEvent (Z.land (Midi_Event_Type_NoteOff + channel) 0x0F) key velocity
                            (Z.land (Midi_Event_Type_NoteOff + channel) 0xF0))).
    reflexivity.
  - destruct Hc as (_ & Hch & Hk & Hp).
    channel_kind Midi_Event_Type_PolyphonicKeyPressure channel Hch [key; pressure]
      (Some (Data_PolyphonicKeyPressure
               (Z.land (Midi_Event_Type_PolyphonicKeyPressure + channel) 0x0F) key pressure)).
    reflexivity.
  - destruct Hc as (_ & Hch & Hk & Hv).
    channel_kind Midi_Event_Type_ControlChange channel Hch [control; value]
      (Some (Data_ControlChange
               (Z.land (Midi_Event_Type_ControlChange + channel) 0x0F) control value)).
    reflexivity.
  - destruct Hc as (_ & Hch & Hp).
    channel_kind Midi_Event_Type_ProgramChange channel Hch [program]
      (Some (Data_ProgramChange
               (Z.land (Midi_Event_Type_ProgramChange + channel) 0x0F) program)).
    reflexivity.
  - destruct Hc as (_ & Hch & Hp).
    channel_kind Midi_Event_Type_ChannelPressure channel Hch [pressure]
      (Some (Data_ChannelPressure
               (Z.land (Midi_Event_Type_ChannelPressure + channel) 0x0F) pressure)).
    reflexivity.
  - destruct Hc as (_ & Hch & Hw).
    channel_kind Midi_Event_Type_PitchWheelChange channel Hch
      [u8 (wheel mod 128); u8 (wheel / 128)]
      (Some (Data_PitchWheelChange
               (Z.land (Midi_Event_Type_PitchWheelChange + channel) 0x0F)
               (u16 (u8 (wheel mod 128) + 128 * u8 (wheel / 128))))).
    rewrite wheel_bytes by assumption. reflexivity.
Qed.

Lemma find_interface_row (k : nat) (i : MidiEventInterface_t) :
  InterfaceTable !! k = Some i -> find_interface InterfaceTable (type i) 0 = Some k.
Proof.
  intros Hk. unfold InterfaceTable in Hk.
  table_cases k Hk ltac:(reflexivity).
Qed.

Lemma byte_at_app (pre post : list Z) (b : Z) :
  byte_at (pre ++ b :: post) (Z.of_nat (length pre)) = Ok b.
Proof.
  unfold byte_at. destruct (Z.ltb_spec (Z.of_nat (length pre)) 0); [lia|].
  rewrite Nat2Z.id, list_lookup_middle by reflexivity. reflexivity.
Qed.

Lemma buffer_from_app (pre post : list Z) :
  buffer_from (pre ++ post) (Z.of_nat (length pre)) = post.
Proof. unfold buffer_from. rewrite Nat2Z.id. apply drop_app_length. Qed.

Lemma u32_id (x : Z) : 0 <= x < 4294967296 -> u32 x = x.
Proof. intros H. apply Z.mod_small. exact H. Qed.

Lemma MidiTrack_Read_body_written (ev : MidiEvent_t) (bs done rest : list Z)
    (length0 rs : Z) (events : list (option MidiEvent_t)) :
  canonical_event ev -> event_bytes ev = Ok bs ->
  Z.of_nat (length (done ++ bs)) <= length0 < 4294967296 ->
  Z.of_nat (length events) + 1 < 4294967296 ->
  exists rs',
    MidiTrack_Read_body (done ++ bs ++ rest) length0
      {| read := Z.of_nat (length done); running_status := rs;
         track_read := {| NumEvents := Z.of_nat (length events); Events := events |} |}
    = Ok (true, {| read := Z.of_nat (length (done ++ bs)); running_status := rs';
                   track_read := {| NumEvents := Z.of_nat (length events) + 1;
                                    Events := events ++ [Some ev] |} |}).
Proof.
  intros (Hdt & i & Hi & Hc) Hbs Hlen Hnum.
  assert (Hk : InterfaceTable !! interface ev = Some i).
  { unfold interface_of in Hi. destruct (InterfaceTable !! interface ev); [|discriminate].
    injection Hi as ->. reflexivity. }
  destruct (canonical_written_and_read_back _ _ _ Hk Hc)
    as (hdr & status & payload & Hw & Hform & Hread).
  destruct (WriteVariableLength_size (deltaTime ev) Hdt) as (vlq & Hvlq & Hsize & Hwf & Hval).
  unfold event_bytes in Hbs. rewrite Hi, bind_Ok, Hw, bind_Ok, Hvlq in Hbs. cbn [snd] in Hbs.
  injection Hbs as <-.
  assert (Hs : 1 <= vlq_size (deltaTime ev) <= 5)
    by (unfold vlq_size; repeat (destruct (_ <? _)); lia).
  rewrite !length_app in Hlen.
  unfold MidiTrack_Read_body. cbn [read running_status track_read NumEvents Events].
  rewrite buffer_from_app.
  rewrite <- (app_assoc vlq), ReadVariableLength_wf;
    [|assumption|unfold u32; rewrite Z.mod_small by lia; lia].
  rewrite bind_Ok. cbv beta iota. rewrite Hval.
  destruct (Z.leb_spec (Z.of_nat (length vlq)) 0); [lia|].
  set (nd := Z.of_nat (length done)) in *. set (nv := Z.of_nat (length vlq)) in *.
  assert (Hnd : 0 <= nd) by (unfold nd; lia).
  destruct (Hread rest) as (stored & Hr & Hstored).
  assert (Hnew : match stored with
                 | Some d => {| deltaTime := deltaTime ev; interface := interface ev;
                                data := Some d |}
                 | None => {| deltaTime := deltaTime ev; interface := interface ev;
                              data := Some Data_Uninit |}
                 end = ev).
  { destruct ev as [dt k d]. cbn [data deltaTime interface] in *.
    destruct stored; rewrite <- Hstored; reflexivity. }
  assert (Hcreate : MidiEvent_Create (type i) (deltaTime ev) 1
                    = Some {| deltaTime := deltaTime ev; interface := interface ev;
                              data := Some Data_Uninit |}).
  { unfold MidiEvent_Create. rewrite (find_interface_row _ _ Hk). reflexivity. }
  assert (Hins : <[Z.to_nat (Z.of_nat (length events) + 1 - 1) := Some ev]> (events ++ [None])
                 = events ++ [Some ev]).
  { replace (Z.to_nat (Z.of_nat (length events) + 1 - 1)) with (length events + 0)%nat by lia.
    rewrite insert_app_r. reflexivity. }
  destruct Hform as [(-> & ->) | (-> & Hst & Hland)].
  - assert (B0 : byte_at (done ++ vlq ++ ([255; type i] ++ payload) ++ rest) (nd + nv) = Ok 255).
    { replace (nd + nv) with (Z.of_nat (length (done ++ vlq))) by (rewrite length_app; lia).
      rewrite (app_assoc done vlq). cbn [app]. apply byte_at_app. }
    assert (B1 : byte_at (done ++ vlq ++ ([255; type i] ++ payload) ++ rest) (nd + nv + 1)
                 = Ok (type i)).
    { replace (nd + nv + 1) with (Z.of_nat (length (done ++ vlq ++ [255])))
        by (rewrite !length_app; cbn [length]; lia).
      replace (done ++ vlq ++ ([255; type i] ++ payload) ++ rest)
        with ((done ++ vlq ++ [255]) ++ type i :: payload ++ rest)
        by (rewrite <- !app_assoc; reflexivity).
      apply byte_at_app. }
    assert (B2 : buffer_from (done ++ vlq ++ ([255; type i] ++ payload) ++ rest) (nd + nv + 1 + 1)
                 = payload ++ rest).
    { replace (nd + nv + 1 + 1) with (Z.of_nat (length (done ++ vlq ++ [255; type i])))
        by (rewrite !length_app; cbn [length]; lia).
      replace (done ++ vlq ++ ([255; type i] ++ payload) ++ rest)
        with ((done ++ vlq ++ [255; type i]) ++ payload ++ rest)
        by (rewrite <- !app_assoc; reflexivity).
      apply buffer_from_app. }
    cbn [length] in Hlen.
    repeat match goal with |- context [u32 ?x] => rewrite (u32_id x) by lia end.
    exists rs. rewrite B0, bind_Ok. change (255 =? 255) with true. cbv iota.
    rewrite B1, !bind_Ok. cbv beta iota. change (negb (1 =? 0)) with true. cbv iota.
    rewrite Hcreate. unfold interface_of at 1. cbn [interface]. rewrite Hk, bind_Ok.
    rewrite B2, Hr, bind_Ok. cbv beta iota. rewrite Hnew, Hins.
    repeat match goal with |- context [u32 ?x] => rewrite (u32_id x) by lia end.
    repeat f_equal. rewrite !length_app. cbn [length]. lia.
  - assert (B0 : byte_at (done ++ vlq ++ ([status] ++ payload) ++ rest) (nd + nv) = Ok status).
    { replace (nd + nv) with (Z.of_nat (length (done ++ vlq))) by (rewrite length_app; lia).
      rewrite (app_assoc done vlq). cbn [app]. apply byte_at_app. }
    assert (B2 : buffer_from (done ++ vlq ++ ([status] ++ payload) ++ rest) (nd + nv + 1)
                 = payload ++ rest).
    { replace (nd + nv + 1) with (Z.of_nat (length (done ++ vlq ++ [status])))
        by (rewrite !length_app; cbn [length]; lia).
      replace (done ++ vlq ++ ([status] ++ payload) ++ rest)
        with ((done ++ vlq ++ [status]) ++ payload ++ rest)
        by (rewrite <- !app_assoc; reflexivity).
      apply buffer_from_app. }
    cbn [length] in Hlen.
    repeat match goal with |- context [u32 ?x] => rewrite (u32_id x) by lia end.
    exists status. rewrite B0, bind_Ok.
    destruct (Z.eqb_spec status 255); [lia|]. destruct (Z.ltb_spec status 128); [lia|].
    rewrite bind_Ok. cbv beta iota. change (negb (0 =? 0)) with false. cbv iota.
    rewrite Hland, Hcreate. unfold interface_of at 1. cbn [interface]. rewrite Hk, bind_Ok.
    rewrite B2, Hr, bind_Ok. cbv beta iota. rewrite Hnew, Hins.
    repeat match goal with |- context [u32 ?x] => rewrite (u32_id x) by lia end.
    repeat f_equal. rewrite !length_app. cbn [length]. lia.
Qed.

Lemma event_bytes_nonempty (ev : MidiEvent_t) (bs : list Z) :
  canonical_event ev -> event_bytes ev = Ok bs -> (0 < length bs)%nat.
Proof.
  intros (Hdt & i & Hi & _) Hbs. unfold event_bytes in Hbs. rewrite Hi, bind_Ok in Hbs.
  destruct (write_data i (type i) (data ev)) as [bytes| |]; [|discriminate Hbs..].
  rewrite bind_Ok in Hbs. injection Hbs as <-.
  destruct (WriteVariableLength_size (deltaTime ev) Hdt) as (vlq & Hvlq & Hsize & _).
  rewrite Hvlq. cbn [snd]. rewrite length_app.
  assert (1 <= vlq_size (deltaTime ev)) by (unfold vlq_size; repeat (destruct (_ <? _)); lia).
  lia.
Qed.

Lemma MidiTrack_Read_loop_written (evs : list MidiEvent_t) :
  forall (bs done : list Z) (events : list (option MidiEvent_t)) (rs : Z) (fuel : nat),
  Forall canonical_event evs -> events_bytes evs = Ok bs -> evs <> [] ->
  Z.of_nat (length (done ++ bs)) < 4294967296 ->
  Z.of_nat (length events + length evs) < 4294967296 ->
  (length evs <= fuel)%nat ->
  MidiTrack_Read_loop fuel (done ++ bs) (Z.of_nat (length (done ++ bs)))
    {| read := Z.of_nat (length done); running_status := rs;
       track_read := {| NumEvents := Z.of_nat (length events); Events := events |} |}
  = Ok {| NumEvents := Z.of_nat (length events + length evs);
          Events := events ++ map Some evs |}.
Proof.
  induction evs as [|ev evs IH]; intros bs done events rs fuel Hall Hbs Hne Hlen Hnum Hfuel;
    [contradiction|].
  inversion Hall as [|? ? Hev Hall']; subst.
  cbn [events_bytes] in Hbs.
  destruct (event_bytes ev) as [b1| |] eqn:Hb1; [|discriminate Hbs..]. rewrite bind_Ok in Hbs.
  destruct (events_bytes evs) as [brest| |] eqn:Hbrest; [|discriminate Hbs..].
  rewrite bind_Ok in Hbs. injection Hbs as <-.
  cbn [length] in Hfuel, Hnum. destruct fuel as [|fuel]; [lia|].
  cbn [MidiTrack_Read_loop].
  rewrite !length_app in Hlen.
  destruct (MidiTrack_Read_body_written ev b1 done brest
              (Z.of_nat (length (done ++ b1 ++ brest))) rs events Hev Hb1) as (rs' & Hbody);
    [rewrite !length_app; lia|lia|].
  rewrite Hbody, bind_Ok. cbv beta iota. cbn [read track_read andb].
  destruct evs as [|ev' evs].
  - cbn in Hbrest. injection Hbrest as <-. rewrite !app_nil_r.
    destruct (Z.ltb_spec (Z.of_nat (length (done ++ b1))) (Z.of_nat (length (done ++ b1))));
      [lia|].
    cbn [length map].
    replace (Z.of_nat (length events + 1)) with (Z.of_nat (length events) + 1) by lia.
    reflexivity.
  - assert (Hpos : (0 < length brest)%nat).
    { cbn [events_bytes] in Hbrest.
      destruct (event_bytes ev') as [b2| |] eqn:Hb2; [|discriminate Hbrest..].
      rewrite bind_Ok in Hbrest.
      destruct (events_bytes evs) as [b3| |]; [|discriminate Hbrest..].
      rewrite bind_Ok in Hbrest. injection Hbrest as <-.
      inversion Hall' as [|? ? Hev' _]; subst.
      pose proof (event_bytes_nonempty ev' b2 Hev' Hb2). rewrite length_app. lia. }
    destruct (Z.ltb_spec (Z.of_nat (length (done ++ b1)))
                (Z.of_nat (length (done ++ b1 ++ brest)))); [|rewrite !length_app in *; lia].
    rewrite (app_assoc done b1 brest).
    replace (Z.of_nat (length events) + 1) with (Z.of_nat (length (events ++ [Some ev])))
      by (rewrite length_app; cbn [length]; lia).
    rewrite (IH brest (done ++ b1) (events ++ [Some ev]) rs' fuel).
    + rewrite length_app. cbn [length map]. rewrite <- app_assoc. cbn [app].
      replace (length events + 1 + S (length evs))%nat
        with (length events + S (S (length evs)))%nat by lia.
      reflexivity.
    + assumption.
    + reflexivity.
    + discriminate.
    + rewrite !length_app. lia.
    + rewrite length_app. cbn [length] in *. lia.
    + cbn [length] in *. lia.
Qed.

Lemma MidiTrack_Read_written (evs : list MidiEvent_t) (bs : list Z) (fuel : nat) :
  Forall canonical_event evs -> events_bytes evs = Ok bs ->
  Z.of_nat (length bs) < 4294967296 -> Z.of_nat (length evs) < 4294967296 ->
  (length evs < fuel)%nat ->
  MidiTrack_Read fuel bs (Z.of_nat (length bs)) {| NumEvents := 0; Events := [] |}
  = Ok (track_of_events evs).
Proof.
  intros Hall Hbs Hlen Hnum Hfuel. unfold MidiTrack_Read, track_of_events.
  destruct evs as [|ev evs].
  - cbn in Hbs. injection Hbs as <-. destruct fuel as [|fuel]; [lia|]. reflexivity.
  - apply (MidiTrack_Read_loop_written (ev :: evs) bs [] [] 0 fuel); try assumption.
    + discriminate.
    + lia.
Qed.

(** The bytes of a canonical, small event are at most 128. *)
Lemma write_data_small (k : nat) (i : MidiEventInterface_t) (d : option MidiEventData)
    (bytes : list Z) :
  InterfaceTable !! k = Some i -> canonical_data (type i) d ->
  match d with
  | Some (Data_Text len _) => len <= 120
  | _ => True
  end ->
  write_data i (type i) d = Ok bytes -> (length bytes <= 123)%nat.
Proof.
  intros Hk Hc Hsmall Hw. unfold InterfaceTable in Hk.
  table_cases k Hk ltac:(cbn [type write_data] in *;
     destruct d as [[]|]; cbn [canonical_data] in Hc; try contradiction;
     try (destruct Hc as [Hc _]; discriminate Hc);
     try (destruct Hc as [[Hc|Hc] _]; discriminate Hc); try discriminate Hc;
     try (exfalso; destruct Hc as [Hin _]; unfold text_types in Hin; cbn [In] in Hin;
          intuition discriminate);
     try (injection Hw as <-; simpl; lia);
     idtac).
  all: destruct Hc as (_ & payload & Hlen & _ & _ & ->);
    unfold write_data_SysEx, write_data_Text in Hw;
    destruct (_ <? _) in Hw; [discriminate Hw|];
    destruct (_ =? _) in Hw; injection Hw as <-; simpl; rewrite length_take; lia.
Qed.

Lemma event_bytes_small (ev : MidiEvent_t) (b : list Z) :
  canonical_event ev -> small_event ev -> event_bytes ev = Ok b -> (length b <= 128)%nat.
Proof.
  intros (Hdt & i & Hi & Hc) Hsmall Hb. unfold event_bytes in Hb. rewrite Hi, bind_Ok in Hb.
  destruct (write_data i (type i) (data ev)) as [bytes| |] eqn:Hw; [|discriminate Hb..].
  rewrite bind_Ok in Hb. injection Hb as <-.
  assert (Hk : InterfaceTable !! interface ev = Some i).
  { unfold interface_of in Hi. destruct (InterfaceTable !! interface ev); [|discriminate].
    injection Hi as ->. reflexivity. }
  pose proof (write_data_small _ _ _ _ Hk Hc Hsmall Hw).
  destruct (WriteVariableLength_size (deltaTime ev) Hdt) as (vlq & Hvlq & Hsize & _).
  rewrite Hvlq. cbn [snd]. rewrite length_app.
  assert (vlq_size (deltaTime ev) <= 5) by (unfold vlq_size; repeat (destruct (_ <? _)); lia).
  lia.
Qed.

Lemma event_bytes_defined (ev : MidiEvent_t) :
  canonical_event ev -> exists b, event_bytes ev = Ok b.
Proof.
  intros (Hdt & i & Hi & Hc).
  assert (Hk : InterfaceTable !! interface ev = Some i).
  { unfold interface_of in Hi. destruct (InterfaceTable !! interface ev); [|discriminate].
    injection Hi as ->. reflexivity. }
  destruct (canonical_written_and_read_back _ _ _ Hk Hc) as (hdr & status & payload & Hw & _).
  unfold event_bytes. rewrite Hi, bind_Ok, Hw, bind_Ok. eauto.
Qed.

Lemma events_bytes_defined (evs : list MidiEvent_t) :
  Forall canonical_event evs -> Forall small_event evs ->
  exists bs, events_bytes evs = Ok bs /\ (length bs <= 128 * length evs)%nat.
Proof.
  induction evs as [|ev evs IH]; intros Hall Hsmall.
  - exists []. split; [reflexivity|]. cbn. lia.
  - inversion Hall as [|? ? Hev Hall']; inversion Hsmall as [|? ? Hs Hsmall']; subst.
    destruct (event_bytes_defined ev Hev) as (b & Hb).
    destruct (IH Hall' Hsmall') as (bs & Hbs & Hlen).
    exists (b ++ bs). cbn [events_bytes]. rewrite Hb, bind_Ok, Hbs, bind_Ok.
    split; [reflexivity|].
    pose proof (event_bytes_small ev b Hev Hs Hb). rewrite length_app. cbn [length]. lia.
Qed.

Lemma MidiFile_Save_events_written (evs : list MidiEvent_t) :
  forall (pre : list MidiEvent_t) (allocSize : Z) (buffer bs : list Z) (N : Z),
  Forall canonical_event evs -> Forall small_event evs -> events_bytes evs = Ok bs ->
  Z.of_nat (length buffer) <= allocSize ->
  MidiFile_Save_events (length evs) (Z.of_nat (length pre))
    {| NumEvents := N; Events := map Some (pre ++ evs) |} allocSize buffer
  = Ok (buffer ++ bs).
Proof.
  induction evs as [|ev evs IH]; intros pre allocSize buffer bs N Hall Hsmall Hbs Hlen.
  - cbn in Hbs. injection Hbs as <-. rewrite !app_nil_r. reflexivity.
  - inversion Hall as [|? ? Hev Hall']; inversion Hsmall as [|? ? Hs Hsmall']; subst.
    cbn [events_bytes] in Hbs.
    destruct (event_bytes ev) as [b1| |] eqn:Hb1; [|discriminate Hbs..].
    rewrite bind_Ok in Hbs.
    destruct (events_bytes evs) as [brest| |] eqn:Hbrest; [|discriminate Hbs..].
    rewrite bind_Ok in Hbs. injection Hbs as <-.
    pose proof (event_bytes_small ev b1 Hev Hs Hb1) as H128.
    cbn [length MidiFile_Save_events]. cbv zeta.
    assert (Hat : event_at {| NumEvents := N; Events := map Some (pre ++ ev :: evs) |}
                    (Z.of_nat (length pre)) = Ok ev).
    { apply event_at_slot. split; [lia|]. cbn [Events].
      rewrite Nat2Z.id, list_lookup_fmap, list_lookup_middle by reflexivity. reflexivity. }
    rewrite Hat, bind_Ok.
    unfold event_bytes in Hb1.
    destruct (WriteVariableLength 5 (deltaTime ev)) as [j vlq]. cbn [snd] in Hb1.
    destruct (interface_of ev) as [i| |]; [|discriminate Hb1..].
    rewrite bind_Ok in Hb1. rewrite bind_Ok.
    destruct (write_data i (type i) (data ev)) as [bytes| |]; [|discriminate Hb1..].
    rewrite bind_Ok in Hb1. injection Hb1 as <-. rewrite bind_Ok.
    set (allocSize' := if allocSize - Z.of_nat (length buffer) <? 128
                       then allocSize + 1024 else allocSize).
    assert (Hroom : Z.of_nat (length buffer) + 128 <= allocSize').
    { unfold allocSize'. destruct (Z.ltb_spec (allocSize - Z.of_nat (length buffer)) 128); lia. }
    destruct (Z.gtb_spec (Z.of_nat (length (buffer ++ vlq ++ bytes))) allocSize') as [Hover|_].
    { rewrite !length_app in *. lia. }
    replace (Z.of_nat (length pre) + 1) with (Z.of_nat (length (pre ++ [ev])))
      by (rewrite length_app; cbn [length]; lia).
    replace (pre ++ ev :: evs) with ((pre ++ [ev]) ++ evs)
      by (rewrite <- app_assoc; reflexivity).
    rewrite (IH (pre ++ [ev]) allocSize' (buffer ++ vlq ++ bytes) brest N);
      try assumption; [|reflexivity|rewrite !length_app in *; lia].
    rewrite <- !app_assoc. reflexivity.
Qed.

Lemma canonical_tracks_events (tracks : list MidiTrack_t) :
  Forall canonical_track tracks ->
  exists evss, tracks = map track_of_events evss /\ Forall canonical_events evss.
Proof.
  induction tracks as [|track tracks IH]; intros H.
  - exists []. split; [reflexivity|constructor].
  - inversion H as [|? ? (evs & -> & Hn & Hc & Hs) Hrest]; subst.
    destruct (IH Hrest) as (evss & -> & Hall).
    exists (evs :: evss). split; [reflexivity|]. constructor; [|exact Hall].
    repeat split; assumption.
Qed.

Lemma chunks_bytes_defined (evss : list (list MidiEvent_t)) :
  Forall canonical_events evss -> exists bytes, chunks_bytes evss = Ok bytes.
Proof.
  induction evss as [|evs evss IH]; intros H; [eexists; reflexivity|].
  inversion H as [|? ? (Hn & Hc & Hs) Hrest]; subst.
  destruct (events_bytes_defined evs Hc Hs) as (bs & Hbs & _).
  destruct (IH Hrest) as (rest & Hr).
  cbn [chunks_bytes]. rewrite Hbs, bind_Ok, Hr, bind_Ok. eauto.
Qed.

Lemma MidiFile_Save_tracks_written (evss : list (list MidiEvent_t)) :
  forall (done : list MidiTrack_t) (save : MidiFile_t) (bytes : list Z),
  Tracks save = Some (done ++ map track_of_events evss) ->
  Forall canonical_events evss -> chunks_bytes evss = Ok bytes ->
  MidiFile_Save_tracks (length evss) (Z.of_nat (length done)) save = Ok bytes.
Proof.
  induction evss as [|evs evss IH]; intros done save bytes Htracks Hall Hbytes.
  - cbn in *. congruence.
  - inversion Hall as [|? ? (Hn & Hc & Hs) Hrest]; subst.
    cbn [chunks_bytes] in Hbytes.
    destruct (events_bytes evs) as [bs| |] eqn:Hbs; [|discriminate Hbytes..].
    rewrite bind_Ok in Hbytes.
    destruct (chunks_bytes evss) as [rest| |] eqn:Hr; [|discriminate Hbytes..].
    rewrite bind_Ok in Hbytes. injection Hbytes as <-.
    cbn [length MidiFile_Save_tracks]. rewrite Htracks, bind_Ok.
    assert (Hat : track_at (done ++ map track_of_events (evs :: evss)) (Z.of_nat (length done))
                  = Ok (track_of_events evs)).
    { apply track_at_lookup. split; [lia|]. rewrite Nat2Z.id. cbn [map].
      apply list_lookup_middle. reflexivity. }
    rewrite Hat, bind_Ok. unfold track_of_events at 1 2. cbn [NumEvents]. rewrite Nat2Z.id.
    pose proof (MidiFile_Save_events_written evs [] 1024 [] bs (Z.of_nat (length evs))
                  Hc Hs Hbs ltac:(cbn; lia)) as Hsave.
    cbn [length app] in Hsave. change (Z.of_nat 0) with 0 in Hsave.
    rewrite Hsave, bind_Ok. cbv zeta.
    destruct (events_bytes_defined evs Hc Hs) as (bs' & Hbs' & Hlen).
    rewrite Hbs in Hbs'. injection Hbs' as <-.
    rewrite (u32_id (Z.of_nat (length bs))) by lia.
    replace (Z.of_nat (length done) + 1) with (Z.of_nat (length (done ++ [track_of_events evs])))
      by (rewrite length_app; cbn [length]; lia).
    rewrite (IH (done ++ [track_of_events evs]) save rest).
    + rewrite bind_Ok. reflexivity.
    + rewrite Htracks, <- app_assoc. reflexivity.
    + assumption.
    + reflexivity.
Qed.

Lemma memcmp_eq_track_header : memcmp_eq MIDI_CHUNK_TRACK MIDI_CHUNK_HEADER = false.
Proof. vm_compute. reflexivity. Qed.

Lemma memcmp_eq_refl (a : list Z) : memcmp_eq a a = true.
Proof. unfold memcmp_eq. apply bool_decide_eq_true. reflexivity. Qed.

Lemma MidiFile_Open_loop_written (evss : list (list MidiEvent_t)) :
  forall (done : list MidiTrack_t) (F P : Z) (bytes : list Z) (fuel tf : nat),
  Forall canonical_events evss -> chunks_bytes evss = Ok bytes ->
  (length done + length evss <= 256)%nat ->
  (length evss < fuel)%nat -> Forall (fun evs => (length evs < tf)%nat) evss ->
  MidiFile_Open_loop tf fuel {| unread := bytes; eof_indicator := false |}
    {| Format := F; nTrks := Z.of_nat (length done + length evss);
       PulsesPerQuarterNote := P;
       Tracks := Some (done ++ replicate (length evss) empty_track_slot) |}
    (u8 (Z.of_nat (length done)))
  = Ok (Some {| Format := F; nTrks := Z.of_nat (length done + length evss);
                PulsesPerQuarterNote := P;
                Tracks := Some (done ++ map track_of_events evss) |}).
Proof.
  induction evss as [|evs evss IH]; intros done F P bytes fuel tf Hall Hbytes Hn Hfuel Htf;
    (destruct fuel as [|fuel]; [cbn in Hfuel; lia|]).
  - cbn in Hbytes. injection Hbytes as <-. reflexivity.
  - inversion Hall as [|? ? (Hnum & Hc & Hs) Hrest]; subst.
    inversion Htf as [|? ? Htf1 Htf']; subst.
    cbn [chunks_bytes] in Hbytes.
    destruct (events_bytes evs) as [bs| |] eqn:Hbs; [|discriminate Hbytes..].
    rewrite bind_Ok in Hbytes.
    destruct (chunks_bytes evss) as [rest| |] eqn:Hr; [|discriminate Hbytes..].
    rewrite bind_Ok in Hbytes.
    assert (E : bytes = MIDI_CHUNK_TRACK ++ u32toarray (Z.of_nat (length bs)) ++ bs ++ rest)
      by (injection Hbytes as <-; reflexivity).
    subst bytes. clear Hbytes.
    destruct (events_bytes_defined evs Hc Hs) as (bs' & Hbs' & Hlen).
    rewrite Hbs in Hbs'. injection Hbs' as <-.
    cbn [length] in Hn, Hfuel.
    cbn [MidiFile_Open_loop feof eof_indicator].
    change MIDI_CHUNK_SIZE with (Z.of_nat (length MIDI_CHUNK_TRACK)).
    rewrite fread_app. cbv beta iota. rewrite Z.eqb_refl. cbn [negb].
    change MIDI_CHUNK_LEN_BYTES with (Z.of_nat (length (u32toarray (Z.of_nat (length bs))))).
    rewrite fread_app. cbv beta iota zeta.
    rewrite memcmp_eq_track_header, memcmp_eq_refl.
    cbn [Tracks nTrks].
    rewrite (u8_byte (Z.of_nat (length done))) by (unfold is_byte; lia).
    destruct (Z.geb_spec (Z.of_nat (length done)) (Z.of_nat (length done + length (evs :: evss))));
      [cbn [length] in *; lia|].
    rewrite u32fromarray_u32toarray, bind_Ok by lia.
    rewrite fread_app. cbv beta iota. rewrite Z.eqb_refl. cbn [negb].
    assert (Hat : track_at (done ++ replicate (length (evs :: evss)) empty_track_slot)
                    (Z.of_nat (length done)) = Ok empty_track_slot).
    { apply track_at_lookup. split; [lia|]. rewrite Nat2Z.id. cbn [length replicate].
      apply list_lookup_middle. reflexivity. }
    rewrite Hat, bind_Ok.
    pose proof (MidiTrack_Read_written evs bs tf Hc Hbs ltac:(lia) ltac:(lia) Htf1) as Hread.
    change {| NumEvents := 0; Events := [] |} with empty_track_slot in Hread.
    rewrite Hread, bind_Ok. cbv zeta. cbn [Format nTrks PulsesPerQuarterNote].
    replace (<[Z.to_nat (Z.of_nat (length done)) := track_of_events evs]>
               (done ++ replicate (length (evs :: evss)) empty_track_slot))
      with ((done ++ [track_of_events evs]) ++ replicate (length evss) empty_track_slot).
    2: { rewrite Nat2Z.id, insert_app_r_alt, Nat.sub_diag by lia.
         cbn [length replicate]. rewrite <- app_assoc. reflexivity. }
    replace (Z.of_nat (length done + length (evs :: evss)))
      with (Z.of_nat (length (done ++ [track_of_events evs]) + length evss))
      by (rewrite length_app; cbn [length]; lia).
    replace (Z.of_nat (length done) + 1) with (Z.of_nat (length (done ++ [track_of_events evs])))
      by (rewrite length_app; cbn [length]; lia).
    rewrite (IH (done ++ [track_of_events evs]) F P rest fuel tf).
    + rewrite <- app_assoc. reflexivity.
    + assumption.
    + reflexivity.
    + rewrite length_app. cbn [length]. lia.
    + lia.
    + assumption.
Qed.

Lemma u16fromarray_prefix (v : Z) (rest : list Z) :
  0 <= v < 65536 -> u16fromarray (u16toarray v ++ rest) = Ok v.
Proof. intros H. rewrite <- (u16fromarray_u16toarray v H). reflexivity. Qed.

Lemma concat_length_bound (evss : list (list MidiEvent_t)) (tf : nat) :
  (length (concat evss) < tf)%nat -> Forall (fun evs => (length evs < tf)%nat) evss.
Proof.
  induction evss as [|evs evss IH]; intros H; [constructor|].
  cbn [concat] in H. rewrite length_app in H. constructor; [lia|apply IH; lia].
Qed.

Lemma MidiFile_Save_written (file : MidiFile_t) (evss : list (list MidiEvent_t))
    (chunks : list Z) :
  Tracks file = Some (map track_of_events evss) ->
  nTrks file = Z.of_nat (length evss) ->
  Forall canonical_events evss -> chunks_bytes evss = Ok chunks ->
  MidiFile_Save file
  = Ok (MIDI_CHUNK_HEADER ++ [0; 0; 0; 6]
        ++ (u16toarray (Format file) ++ u16toarray (nTrks file)
            ++ u16toarray (PulsesPerQuarterNote file)) ++ chunks).
Proof.
  intros Htracks HN Hall Hchunks. unfold MidiFile_Save. cbv zeta.
  pose proof (MidiFile_Save_tracks_written evss [] file chunks Htracks Hall Hchunks) as H.
  change (Z.of_nat (length [])) with 0 in H.
  rewrite <- (Nat2Z.id (length evss)), <- HN in H. rewrite H, bind_Ok.
  reflexivity.
Qed.

Lemma MidiFile_Open_written (F N P : Z) (evss : list (list MidiEvent_t)) (chunks : list Z)
    (fuel : nat) :
  0 <= F < 65536 -> 0 <= P < 65536 -> N = Z.of_nat (length evss) -> (length evss <= 256)%nat ->
  (F = MIDI_FORMAT_SINGLE_TRACK -> N = 1) ->
  Forall canonical_events evss -> chunks_bytes evss = Ok chunks ->
  (S (length evss + length (concat evss)) < fuel)%nat ->
  MidiFile_Open fuel (MIDI_CHUNK_HEADER ++ [0; 0; 0; 6]
                      ++ (u16toarray F ++ u16toarray N ++ u16toarray P) ++ chunks)
  = Ok (Some {| Format := F; nTrks := N; PulsesPerQuarterNote := P;
                Tracks := Some (map track_of_events evss) |}).
Proof.
  intros HF HP HN H256 Hfmt Hall Hchunks Hfuel.
  destruct fuel as [|fuel']; [lia|]. unfold MidiFile_Open.
  cbn [MidiFile_Open_loop feof eof_indicator].
  change MIDI_CHUNK_SIZE with (Z.of_nat (length MIDI_CHUNK_HEADER)).
  rewrite fread_app. cbv beta iota. rewrite Z.eqb_refl. cbn [negb].
  change MIDI_CHUNK_LEN_BYTES with (Z.of_nat (length [0; 0; 0; 6])).
  rewrite fread_app. cbv beta iota zeta. rewrite memcmp_eq_refl.
  change (u32fromarray [0; 0; 0; 6]) with (Ok 6 : result Z). rewrite bind_Ok.
  change (negb (6 =? MIDI_CHUNK_HEADER_LEN)) with false. cbv iota.
  change MIDI_CHUNK_HEADER_LEN
    with (Z.of_nat (length (u16toarray F ++ u16toarray N ++ u16toarray P))).
  rewrite fread_app. cbv beta iota. rewrite Z.eqb_refl. cbn [negb].
  change (buffer_from (u16toarray F ++ u16toarray N ++ u16toarray P) 0)
    with (u16toarray F ++ u16toarray N ++ u16toarray P).
  change (buffer_from (u16toarray F ++ u16toarray N ++ u16toarray P) 2)
    with (u16toarray N ++ u16toarray P).
  change (buffer_from (u16toarray F ++ u16toarray N ++ u16toarray P) 4)
    with (u16toarray P ++ []).
  rewrite !u16fromarray_prefix, !bind_Ok by lia.
  assert (Hcheck : (F =? MIDI_FORMAT_SINGLE_TRACK) && negb (N =? 1) = false).
  { destruct (Z.eqb_spec F MIDI_FORMAT_SINGLE_TRACK) as [E|E]; [|reflexivity].
    rewrite (Hfmt E). reflexivity. }
  rewrite Hcheck. subst N. rewrite Nat2Z.id.
  pose proof (MidiFile_Open_loop_written evss [] F P chunks fuel' (S fuel') Hall Hchunks
                ltac:(cbn [length]; lia) ltac:(lia)
                (concat_length_bound evss (S fuel') ltac:(lia))) as Hloop.
  cbn [length app Nat.add] in Hloop. exact Hloop.
Qed.

Lemma key_file_events_canonical :
  Forall canonical_event
    [ {| deltaTime := 0; interface := 15; data := Some (Data_KeySignature 2 0) |};
      {| deltaTime := 0; interface := 18; data := Some (Data_NoteEvent 0 60 64 0x90) |};
      {| deltaTime := 96; interface := 19; data := Some (Data_NoteEvent 0 60 0 0x80) |};
      {| deltaTime := 0; interface := 11; data := Some Data_Uninit |} ].
Proof.
  repeat (apply Forall_cons_2; [split; [cbn; lia|]; eexists; split; [reflexivity|];
                                cbn; unfold is_byte, is_channel; intuition lia|]).
  apply Forall_nil_2.
Qed.

Lemma key_file_canonical : canonical_file key_file.
Proof.
  split; [cbn; lia|]. split; [cbn; lia|]. split; [reflexivity|].
  eexists. split; [reflexivity|]. split; [reflexivity|]. split; [cbn; lia|].
  apply Forall_cons_2; [|apply Forall_nil_2].
  exists [ {| deltaTime := 0; interface := 15; data := Some (Data_KeySignature 2 0) |};
           {| deltaTime := 0; interface := 18; data := Some (Data_NoteEvent 0 60 64 0x90) |};
           {| deltaTime := 96; interface := 19; data := Some (Data_NoteEvent 0 60 0 0x80) |};
           {| deltaTime := 0; interface := 11; data := Some Data_Uninit |} ].
  split; [reflexivity|]. split; [cbn; lia|].
  split; [exact key_file_events_canonical|].
  repeat (apply Forall_cons_2; [exact I|]). apply Forall_nil_2.
Qed.

(** X12.  What [write_data] stores for the canonical data of an event
    is read back by the [read_data] of the same interface, for each of
    the 24 kinds of events that are written: the header is [0xFF] and
    the type for a meta event, else one status byte that holds the type
    and the channel, and the reader consumes exactly the rest and stores
    the same data, whatever bytes follow. *)
Theorem write_data_read_data_roundtrip (event : MidiEvent_t) :
  canonical_event event ->
  exists i, interface_of event = Ok i /\ written_and_read_back i (data event).
Proof.
  intros (_ & i & Hi & Hc). exists i. split; [exact Hi|].
  assert (Hk : InterfaceTable !! interface event = Some i).
  { unfold interface_of in Hi. destruct (InterfaceTable !! interface event); [|discriminate].
    injection Hi as ->. reflexivity. }
  exact (canonical_written_and_read_back _ _ _ Hk Hc).
Qed.

Lemma write_data_read_data_roundtrip_witness :
  exists i,
    interface_of {| deltaTime := 0; interface := 18;
                    data := Some (Data_NoteEvent 0 60 64 0x90) |} = Ok i
    /\ written_and_read_back i (Some (Data_NoteEvent 0 60 64 0x90)).
Proof.
  apply (write_data_read_data_roundtrip
           {| deltaTime := 0; interface := 18; data := Some (Data_NoteEvent 0 60 64 0x90) |}).
  split; [cbn; lia|]. eexists. split; [reflexivity|].
  cbn. unfold is_byte, is_channel. intuition lia.
Defined.

(** X13.  [MidiTrack_Read] decodes the bytes of canonical events, each
    a delta-time followed by what [write_data] stores, into a track of
    exactly these events in this order, with any text of up to 254
    characters; it needs one turn of its loop for each event and reads
    nothing of an empty chunk. *)
Theorem MidiTrack_Read_decodes_events (events : list MidiEvent_t) (bs : list Z) (fuel : nat) :
  Forall canonical_event events -> events_bytes events = Ok bs ->
  Z.of_nat (length bs) < 4294967296 -> Z.of_nat (length events) < 4294967296 ->
  (length events < fuel)%nat ->
  MidiTrack_Read fuel bs (Z.of_nat (length bs)) {| NumEvents := 0; Events := [] |}
  = Ok (track_of_events events).
Proof. apply MidiTrack_Read_written. Qed.

Lemma MidiTrack_Read_decodes_events_witness :
  MidiTrack_Read 5 [0; 0xFF; 0x59; 2; 2; 0; 0; 0x90; 60; 64; 96; 0x80; 60; 0; 0; 0xFF; 0x2F; 0] 18
    {| NumEvents := 0; Events := [] |}
  = Ok {| NumEvents := 4;
          Events := [
            Some {| deltaTime := 0; interface := 15; data := Some (Data_KeySignature 2 0) |};
            Some {| deltaTime := 0; interface := 18; data := Some (Data_NoteEvent 0 60 64 0x90) |};
            Some {| deltaTime := 96; interface := 19; data := Some (Data_NoteEvent 0 60 0 0x80) |};
            Some {| deltaTime := 0; interface := 11; data := Some Data_Uninit |} ] |}.
Proof.
  apply (MidiTrack_Read_decodes_events
           [ {| deltaTime := 0; interface := 15; data := Some (Data_KeySignature 2 0) |};
             {| deltaTime := 0; interface := 18; data := Some (Data_NoteEvent 0 60 64 0x90) |};
             {| deltaTime := 96; interface := 19; data := Some (Data_NoteEvent 0 60 0 0x80) |};
             {| deltaTime := 0; interface := 11; data := Some Data_Uninit |} ]).
  - exact key_file_events_canonical.
  - vm_compute. reflexivity.
  - cbn. lia.
  - cbn. lia.
  - cbn. lia.
Defined.

(** X14.  [MidiFile_Save] followed by [MidiFile_Open] gives the file
    back: for a canonical file (16-bit header fields, at most 256 tracks,
    one track for format 0, canonical events with texts of at most 120
    characters) [MidiFile_Save] stays within its buffer and writes bytes
    from which [MidiFile_Open] returns the same format, division, tracks
    and events. *)
Theorem MidiFile_Save_Open_roundtrip (file : MidiFile_t) :
  canonical_file file ->
  exists bytes,
    MidiFile_Save file = Ok bytes
    /\ exists fuel0, forall fuel, (fuel0 <= fuel)%nat ->
         MidiFile_Open fuel bytes = Ok (Some file).
Proof.
  intros (HF & HP & Hfmt & tracks & Htracks & HN & H256 & Hall).
  destruct (canonical_tracks_events tracks Hall) as (evss & -> & Hevss).
  rewrite length_map in HN, H256.
  destruct (chunks_bytes_defined evss Hevss) as (chunks & Hchunks).
  eexists. split; [apply (MidiFile_Save_written file evss chunks); assumption|].
  exists (S (S (length evss + length (concat evss)))). intros fuel Hfuel.
  rewrite (MidiFile_Open_written (Format file) (nTrks file) (PulsesPerQuarterNote file)
             evss chunks fuel); try assumption; try lia.
  destruct file as [F N P T]. cbn [Format nTrks PulsesPerQuarterNote Tracks] in *.
  subst T. reflexivity.
Qed.

Lemma MidiFile_Save_Open_roundtrip_witness :
  exists bytes fuel, MidiFile_Save key_file = Ok bytes
                     /\ MidiFile_Open fuel bytes = Ok (Some key_file).
Proof.
  destruct (MidiFile_Save_Open_roundtrip key_file key_file_canonical)
    as (bytes & Hsave & fuel0 & Hopen).
  exists bytes, fuel0. split; [exact Hsave|]. apply Hopen. lia.
Defined.

Lemma MidiFile_Save_events_overflow (pre : list MidiEvent_t) :
  forall (done post : list MidiEvent_t) (ev : MidiEvent_t) (buffer bs_pre b : list Z) (N : Z),
  Forall canonical_event pre -> events_bytes pre = Ok bs_pre ->
  canonical_event ev -> event_bytes ev = Ok b ->
  Z.of_nat (length buffer + length bs_pre) <= 896 ->
  1024 < Z.of_nat (length buffer + length bs_pre + length b) ->
  MidiFile_Save_events (length pre + S (length post)) (Z.of_nat (length done))
    {| NumEvents := N; Events := map Some (done ++ pre ++ ev :: post) |} 1024 buffer
  = Undefined.
Proof.
  induction pre as [|e1 pre IH];
    intros done post ev buffer bs_pre b N Hall Hpre Hev Hb Hroom Hover.
  - cbn in Hpre. injection Hpre as <-. cbn [length Nat.add app MidiFile_Save_events] in *.
    cbv zeta.
    assert (Hat : event_at {| NumEvents := N; Events := map Some (done ++ ev :: post) |}
                    (Z.of_nat (length done)) = Ok ev).
    { apply event_at_slot. split; [lia|]. cbn [Events].
      rewrite Nat2Z.id, list_lookup_fmap, list_lookup_middle by reflexivity. reflexivity. }
    rewrite Hat, bind_Ok. unfold event_bytes in Hb.
    destruct (WriteVariableLength 5 (deltaTime ev)) as [j vlq]. cbn [snd] in Hb.
    destruct (interface_of ev) as [i| |]; [|discriminate Hb..].
    rewrite bind_Ok in Hb. rewrite bind_Ok.
    destruct (write_data i (type i) (data ev)) as [bytes| |]; [|discriminate Hb..].
    rewrite bind_Ok in Hb. injection Hb as <-. rewrite bind_Ok.
    destruct (Z.ltb_spec (1024 - Z.of_nat (length buffer)) 128); [lia|].
    destruct (Z.gtb_spec (Z.of_nat (length (buffer ++ vlq ++ bytes))) 1024); [reflexivity|].
    rewrite !length_app in *. lia.
  - inversion Hall as [|? ? He1 Hall']; subst.
    cbn [events_bytes] in Hpre.
    destruct (event_bytes e1) as [b1| |] eqn:Hb1; [|discriminate Hpre..].
    rewrite bind_Ok in Hpre.
    destruct (events_bytes pre) as [brest| |] eqn:Hbrest; [|discriminate Hpre..].
    rewrite bind_Ok in Hpre. injection Hpre as <-. rewrite length_app in Hroom, Hover.
    cbn [length Nat.add MidiFile_Save_events]. cbv zeta.
    assert (Hat : event_at {| NumEvents := N;
                              Events := map Some (done ++ (e1 :: pre) ++ ev :: post) |}
                    (Z.of_nat (length done)) = Ok e1).
    { apply event_at_slot. split; [lia|]. cbn [Events app].
      rewrite Nat2Z.id, list_lookup_fmap, list_lookup_middle by reflexivity. reflexivity. }
    rewrite Hat, bind_Ok. unfold event_bytes in Hb1.
    destruct (WriteVariableLength 5 (deltaTime e1)) as [j vlq]. cbn [snd] in Hb1.
    destruct (interface_of e1) as [i| |]; [|discriminate Hb1..].
    rewrite bind_Ok in Hb1. rewrite bind_Ok.
    destruct (write_data i (type i) (data e1)) as [bytes| |]; [|discriminate Hb1..].
    rewrite bind_Ok in Hb1. injection Hb1 as <-. rewrite bind_Ok.
    destruct (Z.ltb_spec (1024 - Z.of_nat (length buffer)) 128); [lia|].
    destruct (Z.gtb_spec (Z.of_nat (length (buffer ++ vlq ++ bytes))) 1024) as [Hgt|_].
    { rewrite !length_app in *. lia. }
    replace (Z.of_nat (length done) + 1) with (Z.of_nat (length (done ++ [e1])))
      by (rewrite length_app; cbn [length]; lia).
    replace (done ++ (e1 :: pre) ++ ev :: post) with ((done ++ [e1]) ++ pre ++ ev :: post)
      by (rewrite <- app_assoc; reflexivity).
    apply (IH (done ++ [e1]) post ev (buffer ++ vlq ++ bytes) brest b N);
      try assumption; try reflexivity; rewrite !length_app in *; lia.
Qed.

(** X15.  [MidiFile_Save] gives a track a buffer of 1024 bytes and
    enlarges it only when fewer than 128 bytes are left, but an event
    can take more: when the events before take at most 896 bytes and the
    next event, a long text, ends beyond byte 1024, the bytes of this
    event are stored past the end of the buffer. *)
Theorem MidiFile_Save_overflows_on_long_text (pre post : list MidiEvent_t) (ev : MidiEvent_t)
    (bs_pre b : list Z) (F P : Z) :
  Forall canonical_event pre -> events_bytes pre = Ok bs_pre ->
  canonical_event ev -> event_bytes ev = Ok b ->
  Z.of_nat (length bs_pre) <= 896 ->
  1024 < Z.of_nat (length bs_pre + length b) ->
  MidiFile_Save {| Format := F; nTrks := 1; PulsesPerQuarterNote := P;
                   Tracks := Some [track_of_events (pre ++ ev :: post)] |}
  = Undefined.
Proof.
  intros Hall Hpre Hev Hb Hroom Hover.
  unfold MidiFile_Save. cbv zeta. cbn [nTrks].
  change (Z.to_nat 1) with 1%nat. cbn [MidiFile_Save_tracks Tracks]. rewrite bind_Ok.
  change (track_at [track_of_events (pre ++ ev :: post)] 0)
    with (Ok (track_of_events (pre ++ ev :: post)) : result MidiTrack_t).
  rewrite bind_Ok. unfold track_of_events. cbn [NumEvents].
  rewrite Nat2Z.id, length_app. cbn [length].
  rewrite (MidiFile_Save_events_overflow pre [] post ev [] bs_pre b);
    try assumption; try reflexivity; cbn [length]; lia.
Qed.

Lemma text_event_canonical (n : nat) :
  (n <= 254)%nat -> canonical_event (text_event n 65).
Proof.
  intros Hn. split; [cbn; lia|]. eexists. split; [reflexivity|].
  cbn [data text_event type canonical_data]. split; [cbn; auto|].
  exists (replicate n 65). rewrite length_replicate.
  split; [reflexivity|]. split; [lia|]. split; [|reflexivity].
  apply Forall_replicate. lia.
Qed.

Lemma MidiFile_Save_overflows_on_long_text_witness :
  MidiFile_Save {| Format := 0; nTrks := 1; PulsesPerQuarterNote := 480;
                   Tracks := Some [track_of_events (replicate 7 (text_event 124 65)
                                                    ++ [text_event 200 65]) ] |}
  = Undefined.
Proof.
  eapply (MidiFile_Save_overflows_on_long_text (replicate 7 (text_event 124 65)) []
            (text_event 200 65)).
  - apply Forall_replicate, text_event_canonical. lia.
  - vm_compute. reflexivity.
  - apply text_event_canonical. lia.
  - vm_compute. reflexivity.
  - vm_compute. discriminate.
  - vm_compute. reflexivity.
Defined.

(** ** Further properties: malformed tracks *)

Lemma ReadVariableLength_one (d : Z) (rest : list Z) (bufflen : Z) :
  0 <= d < 128 -> 1 <= bufflen -> ReadVariableLength (d :: rest) bufflen = Ok (1, d).
Proof.
  intros Hd Hb. unfold ReadVariableLength. cbn [ReadVariableLength_loop].
  destruct (Z.geb_spec 0 bufflen); [lia|]. destruct (Z.ltb_spec d 128); [|lia].
  rewrite (u32_id (0 + d)) by lia. reflexivity.
Qed.




(** X17.  [MidiTrack_Read] does not check that a status byte follows a
    delta-time: when the chunk ends with a delta-time, the status byte
    is read from beyond the [length] bytes of the chunk. *)
Theorem MidiTrack_Read_reads_past_chunk (fuel : nat) (bs : list Z) (track : MidiTrack_t) :
  vlq_wf bs -> Z.of_nat (length bs) < 4294967296 ->
  MidiTrack_Read (S fuel) bs (Z.of_nat (length bs)) track = Undefined.
Proof.
  intros Hwf Hlen. unfold MidiTrack_Read. cbn [MidiTrack_Read_loop].
  unfold MidiTrack_Read_body. cbn [read running_status track_read].
  change (buffer_from bs 0) with bs.
  rewrite Z.sub_0_r, (u32_id (Z.of_nat (length bs))) by lia.
  pose proof (ReadVariableLength_wf bs [] (Z.of_nat (length bs)) Hwf ltac:(lia)) as Hread.
  rewrite app_nil_r in Hread. rewrite Hread, bind_Ok. cbv beta iota.
  assert (Hpos : 0 < Z.of_nat (length bs)).
  { destruct Hwf as (pre & last & -> & _). rewrite length_app. cbn [length]. lia. }
  destruct (Z.leb_spec (Z.of_nat (length bs)) 0); [lia|].
  rewrite Z.add_0_l, (u32_id (Z.of_nat (length bs))) by lia.
  assert (B : byte_at bs (Z.of_nat (length bs)) = Undefined).
  { unfold byte_at. destruct (Z.ltb_spec (Z.of_nat (length bs)) 0); [lia|].
    rewrite Nat2Z.id, lookup_ge_None_2 by lia. reflexivity. }
  rewrite B. reflexivity.
Qed.

Lemma MidiTrack_Read_reads_past_chunk_witness :
  MidiTrack_Read 1 [0x81; 0x00] 2 {| NumEvents := 0; Events := [] |} = Undefined.
Proof.
  apply (MidiTrack_Read_reads_past_chunk 0 [0x81; 0x00]).
  - exists [0x81], 0x00. split; [reflexivity|]. split.
    + apply Forall_cons_2; [unfold continues; lia|apply Forall_nil_2].
    + unfold terminates. lia.
  - cbn. lia.
Defined.

(** X18.  A meta event of a type that is not in [MidiEventType_t] ends
    the reading of the track without an error for the caller: the rest
    of the chunk is not read, and the track is left with one event more
    than was decoded, the last one never initialised. *)
Theorem MidiTrack_Read_unknown_meta (fuel : nat) (d type0 : Z) (rest : list Z) (length0 : Z)
    (track : MidiTrack_t) :
  0 <= d < 128 -> ~ In type0 MidiEventType_values -> 3 <= length0 < 4294967296 ->
  MidiTrack_Read (S fuel) (d :: 0xFF :: type0 :: rest) length0 track
  = Ok {| NumEvents := u32 (NumEvents track + 1); Events := Events track ++ [None] |}.
Proof.
  intros Hd Htype Hlen. unfold MidiTrack_Read. cbn [MidiTrack_Read_loop].
  unfold MidiTrack_Read_body. cbn [read running_status track_read].
  change (buffer_from (d :: 255 :: type0 :: rest) 0) with (d :: 255 :: type0 :: rest).
  rewrite (u32_id (length0 - 0)) by lia.
  rewrite ReadVariableLength_one, bind_Ok by lia. cbv beta iota.
  change (1 <=? 0) with false. cbv iota.
  change (u32 (0 + 1)) with 1.
  change (byte_at (d :: 255 :: type0 :: rest) 1) with (Ok 255 : result Z). rewrite bind_Ok.
  change (255 =? 255) with true. cbv iota.
  change (u32 (1 + 1)) with 2.
  change (byte_at (d :: 255 :: type0 :: rest) 2) with (Ok type0 : result Z).
  rewrite !bind_Ok. cbv beta iota. change (negb (1 =? 0)) with true. cbv iota.
  rewrite (MidiEvent_Create_unknown type0 d 1 Htype).
  rewrite bind_Ok. cbv beta iota. reflexivity.
Qed.

Lemma MidiTrack_Read_unknown_meta_witness :
  MidiTrack_Read 1 [0; 0xFF; 0x0A; 0; 0; 0xFF; 0x2F; 0] 8 {| NumEvents := 0; Events := [] |}
  = Ok {| NumEvents := 1; Events := [None] |}.
Proof.
  apply (MidiTrack_Read_unknown_meta 0 0 0x0A [0; 0; 0xFF; 0x2F; 0] 8
           {| NumEvents := 0; Events := [] |}); try lia.
  unfold MidiEventType_values. cbn [In]. vm_compute.
  intros H. repeat (destruct H as [H|H]; [discriminate|]). exact H.
Defined.

(** ** Further properties: malformed and short files *)

Lemma memcmp_eq_false (a b : list Z) : a <> b -> memcmp_eq a b = false.
Proof. intros H. unfold memcmp_eq. apply bool_decide_eq_false. exact H. Qed.

(** X19.  [MidiFile_Open] gives up with [NULL], whatever it has loaded
    and whatever follows, when a header chunk has a length other than 6
    or fewer than 6 bytes, when the header says format 0 with a number
    of tracks other than 1, when a track chunk comes before any header
    or after the last track the header announced, and when a track chunk
    is shorter than its length says. *)
Theorem MidiFile_Open_rejects (track_fuel fuel : nat) (mf : MidiFile_t) (trackNumber : Z)
    (rest : list Z) :
  (forall len, 0 <= len < 4294967296 -> len <> 6 ->
     MidiFile_Open_loop track_fuel (S fuel)
       {| unread := MIDI_CHUNK_HEADER ++ u32toarray len ++ rest; eof_indicator := false |}
       mf trackNumber = Ok None)
  /\ ((length rest < 6)%nat ->
      MidiFile_Open_loop track_fuel (S fuel)
        {| unread := MIDI_CHUNK_HEADER ++ u32toarray 6 ++ rest; eof_indicator := false |}
        mf trackNumber = Ok None)
  /\ (forall ntrks ppq, 0 <= ntrks < 65536 -> ntrks <> 1 -> 0 <= ppq < 65536 ->
      MidiFile_Open_loop track_fuel (S fuel)
        {| unread := MIDI_CHUNK_HEADER ++ u32toarray 6
                     ++ (u16toarray 0 ++ u16toarray ntrks ++ u16toarray ppq) ++ rest;
           eof_indicator := false |}
        mf trackNumber = Ok None)
  /\ (forall len, Tracks mf = None \/ nTrks mf <= trackNumber ->
      MidiFile_Open_loop track_fuel (S fuel)
        {| unread := MIDI_CHUNK_TRACK ++ u32toarray len ++ rest; eof_indicator := false |}
        mf trackNumber = Ok None)
  /\ (forall len, Z.of_nat (length rest) < len < 4294967296 ->
      MidiFile_Open_loop track_fuel (S fuel)
        {| unread := MIDI_CHUNK_TRACK ++ u32toarray len ++ rest; eof_indicator := false |}
        mf trackNumber = Ok None).
Proof.
  repeat split.
  - intros len Hlen Hne. cbn [MidiFile_Open_loop feof eof_indicator].
    change MIDI_CHUNK_SIZE with (Z.of_nat (length MIDI_CHUNK_HEADER)).
    rewrite fread_app. cbv beta iota. rewrite Z.eqb_refl. cbn [negb].
    change MIDI_CHUNK_LEN_BYTES with (Z.of_nat (length (u32toarray len))).
    rewrite fread_app. cbv beta iota zeta. rewrite memcmp_eq_refl.
    rewrite u32fromarray_u32toarray, bind_Ok by lia.
    unfold MIDI_CHUNK_HEADER_LEN. destruct (Z.eqb_spec len 6); [contradiction|]. reflexivity.
  - intros Hshort. cbn [MidiFile_Open_loop feof eof_indicator].
    change MIDI_CHUNK_SIZE with (Z.of_nat (length MIDI_CHUNK_HEADER)).
    rewrite fread_app. cbv beta iota. rewrite Z.eqb_refl. cbn [negb].
    change MIDI_CHUNK_LEN_BYTES with (Z.of_nat (length (u32toarray 6))).
    rewrite fread_app. cbv beta iota zeta. rewrite memcmp_eq_refl.
    change (u32fromarray (u32toarray 6)) with (Ok 6 : result Z). rewrite bind_Ok.
    change (negb (6 =? MIDI_CHUNK_HEADER_LEN)) with false. cbv iota.
    unfold fread. cbn [unread eof_indicator]. unfold MIDI_CHUNK_HEADER_LEN.
    destruct (Z.leb_spec 6 (Z.of_nat (length rest))); [lia|]. cbv beta iota.
    destruct (Z.eqb_spec (Z.of_nat (length rest)) 6); [lia|]. reflexivity.
  - intros ntrks ppq Hn Hn1 Hp. cbn [MidiFile_Open_loop feof eof_indicator].
    change MIDI_CHUNK_SIZE with (Z.of_nat (length MIDI_CHUNK_HEADER)).
    rewrite fread_app. cbv beta iota. rewrite Z.eqb_refl. cbn [negb].
    change MIDI_CHUNK_LEN_BYTES with (Z.of_nat (length (u32toarray 6))).
    rewrite fread_app. cbv beta iota zeta. rewrite memcmp_eq_refl.
    change (u32fromarray (u32toarray 6)) with (Ok 6 : result Z). rewrite bind_Ok.
    change (negb (6 =? MIDI_CHUNK_HEADER_LEN)) with false. cbv iota.
    change MIDI_CHUNK_HEADER_LEN
      with (Z.of_nat (length (u16toarray 0 ++ u16toarray ntrks ++ u16toarray ppq))).
    rewrite fread_app. cbv beta iota. rewrite Z.eqb_refl. cbn [negb].
    change (buffer_from (u16toarray 0 ++ u16toarray ntrks ++ u16toarray ppq) 0)
      with (u16toarray 0 ++ u16toarray ntrks ++ u16toarray ppq).
    change (buffer_from (u16toarray 0 ++ u16toarray ntrks ++ u16toarray ppq) 2)
      with (u16toarray ntrks ++ u16toarray ppq).
    change (buffer_from (u16toarray 0 ++ u16toarray ntrks ++ u16toarray ppq) 4)
      with (u16toarray ppq ++ []).
    rewrite !u16fromarray_prefix, !bind_Ok by lia.
    change (0 =? MIDI_FORMAT_SINGLE_TRACK) with true.
    destruct (Z.eqb_spec ntrks 1); [contradiction|]. reflexivity.
  - intros len Hcase. cbn [MidiFile_Open_loop feof eof_indicator].
    change MIDI_CHUNK_SIZE with (Z.of_nat (length MIDI_CHUNK_TRACK)).
    rewrite fread_app. cbv beta iota. rewrite Z.eqb_refl. cbn [negb].
    change MIDI_CHUNK_LEN_BYTES with (Z.of_nat (length (u32toarray len))).
    rewrite fread_app. cbv beta iota zeta.
    rewrite memcmp_eq_track_header, memcmp_eq_refl.
    destruct (Tracks mf) as [tracks|]; [|reflexivity].
    destruct Hcase as [Hnone|Hmany]; [discriminate Hnone|].
    destruct (Z.geb_spec trackNumber (nTrks mf)); [reflexivity|lia].
  - intros len Hlen. cbn [MidiFile_Open_loop feof eof_indicator].
    change MIDI_CHUNK_SIZE with (Z.of_nat (length MIDI_CHUNK_TRACK)).
    rewrite fread_app. cbv beta iota. rewrite Z.eqb_refl. cbn [negb].
    change MIDI_CHUNK_LEN_BYTES with (Z.of_nat (length (u32toarray len))).
    rewrite fread_app. cbv beta iota zeta.
    rewrite memcmp_eq_track_header, memcmp_eq_refl.
    destruct (Tracks mf) as [tracks|]; [|reflexivity].
    destruct (trackNumber >=? nTrks mf); [reflexivity|].
    rewrite u32fromarray_u32toarray, bind_Ok by lia.
    unfold fread. cbn [unread eof_indicator].
    destruct (Z.leb_spec len (Z.of_nat (length rest))); [lia|]. cbv beta iota.
    destruct (Z.eqb_spec (Z.of_nat (length rest)) len); [lia|]. reflexivity.
Qed.

Lemma MidiFile_Open_rejects_witness :
  MidiFile_Open 2 (MIDI_CHUNK_HEADER ++ u32toarray 6
                   ++ (u16toarray 0 ++ u16toarray 2 ++ u16toarray 480) ++ []) = Ok None
  /\ MidiFile_Open 2 (MIDI_CHUNK_TRACK ++ u32toarray 4 ++ [0; 0xFF; 0x2F; 0]) = Ok None.
Proof.
  unfold MidiFile_Open. split.
  - destruct (MidiFile_Open_rejects 2 1
                {| Format := 0; nTrks := 0; PulsesPerQuarterNote := 0; Tracks := None |} 0 [])
      as (_ & _ & H & _).
    apply H; lia.
  - destruct (MidiFile_Open_rejects 2 1
                {| Format := 0; nTrks := 0; PulsesPerQuarterNote := 0; Tracks := None |} 0
                [0; 0xFF; 0x2F; 0])
      as (_ & _ & _ & H & _).
    apply H. left. reflexivity.
Defined.

(** X20.  At the end of the data [MidiFile_Open] returns what it has
    loaded, complete or not: fewer than four bytes after the last chunk
    are ignored, tracks the header announced but the file does not hold
    stay empty, and a file of no bytes at all gives a file without
    tracks and not [NULL]. *)
Theorem MidiFile_Open_end_of_data (track_fuel fuel : nat) (mf : MidiFile_t) (trackNumber : Z)
    (extra : list Z) (format ntrks ppq : Z) :
  (length extra < 4)%nat ->
  0 <= format < 65536 -> 0 <= ntrks < 65536 -> 0 <= ppq < 65536 ->
  (format = MIDI_FORMAT_SINGLE_TRACK -> ntrks = 1) ->
  MidiFile_Open_loop track_fuel (S fuel) {| unread := extra; eof_indicator := false |}
    mf trackNumber = Ok (Some mf)
  /\ MidiFile_Open (S (S fuel))
       (MIDI_CHUNK_HEADER ++ u32toarray 6
        ++ (u16toarray format ++ u16toarray ntrks ++ u16toarray ppq) ++ extra)
     = Ok (Some {| Format := format; nTrks := ntrks; PulsesPerQuarterNote := ppq;
                   Tracks := Some (replicate (Z.to_nat ntrks)
                                     {| NumEvents := 0; Events := [] |}) |})
  /\ MidiFile_Open (S fuel) []
     = Ok (Some {| Format := 0; nTrks := 0; PulsesPerQuarterNote := 0; Tracks := None |}).
Proof.
  intros Hextra HF HN HP Hfmt.
  assert (Hend : forall mf trackNumber,
    MidiFile_Open_loop track_fuel (S fuel) {| unread := extra; eof_indicator := false |}
      mf trackNumber = Ok (Some mf)).
  { intros mf0 tn. cbn [MidiFile_Open_loop feof eof_indicator].
    unfold fread. cbn [unread eof_indicator]. unfold MIDI_CHUNK_SIZE.
    destruct (Z.leb_spec 4 (Z.of_nat (length extra))); [lia|]. cbv beta iota.
    destruct (Z.eqb_spec (Z.of_nat (length extra)) 4); [lia|]. reflexivity. }
  split; [apply Hend|]. split; [|reflexivity].
  unfold MidiFile_Open. cbn [MidiFile_Open_loop feof eof_indicator].
  change MIDI_CHUNK_SIZE with (Z.of_nat (length MIDI_CHUNK_HEADER)).
  rewrite fread_app. cbv beta iota. rewrite Z.eqb_refl. cbn [negb].
  change MIDI_CHUNK_LEN_BYTES with (Z.of_nat (length (u32toarray 6))).
  rewrite fread_app. cbv beta iota zeta. rewrite memcmp_eq_refl.
  change (u32fromarray (u32toarray 6)) with (Ok 6 : result Z). rewrite bind_Ok.
  change (negb (6 =? MIDI_CHUNK_HEADER_LEN)) with false. cbv iota.
  change MIDI_CHUNK_HEADER_LEN
    with (Z.of_nat (length (u16toarray format ++ u16toarray ntrks ++ u16toarray ppq))).
  rewrite fread_app. cbv beta iota. rewrite Z.eqb_refl. cbn [negb].
  change (buffer_from (u16toarray format ++ u16toarray ntrks ++ u16toarray ppq) 0)
    with (u16toarray format ++ u16toarray ntrks ++ u16toarray ppq).
  change (buffer_from (u16toarray format ++ u16toarray ntrks ++ u16toarray ppq) 2)
    with (u16toarray ntrks ++ u16toarray ppq).
  change (buffer_from (u16toarray format ++ u16toarray ntrks ++ u16toarray ppq) 4)
    with (u16toarray ppq ++ []).
  rewrite !u16fromarray_prefix, !bind_Ok by lia.
  assert (Hcheck : (format =? MIDI_FORMAT_SINGLE_TRACK) && negb (ntrks =? 1) = false).
  { destruct (Z.eqb_spec format MIDI_FORMAT_SINGLE_TRACK) as [E|E]; [|reflexivity].
    rewrite (Hfmt E). reflexivity. }
  rewrite Hcheck.
  assert (Hend' : forall tf mf trackNumber,
    MidiFile_Open_loop tf (S fuel) {| unread := extra; eof_indicator := false |}
      mf trackNumber = Ok (Some mf)).
  { intros tf mf0 tn. cbn [MidiFile_Open_loop feof eof_indicator].
    unfold fread. cbn [unread eof_indicator]. unfold MIDI_CHUNK_SIZE.
    destruct (Z.leb_spec 4 (Z.of_nat (length extra))); [lia|]. cbv beta iota.
    destruct (Z.eqb_spec (Z.of_nat (length extra)) 4); [lia|]. reflexivity. }
  apply Hend'.
Qed.

Lemma MidiFile_Open_end_of_data_witness :
  MidiFile_Open 2 (MIDI_CHUNK_HEADER ++ u32toarray 6
                   ++ (u16toarray 1 ++ u16toarray 2 ++ u16toarray 480) ++ [0x4D; 0x54])
  = Ok (Some {| Format := 1; nTrks := 2; PulsesPerQuarterNote := 480;
                Tracks := Some [ {| NumEvents := 0; Events := [] |};
                                 {| NumEvents := 0; Events := [] |} ] |}).
Proof.
  destruct (MidiFile_Open_end_of_data 0 0
              {| Format := 0; nTrks := 0; PulsesPerQuarterNote := 0; Tracks := None |} 0
              [0x4D; 0x54] 1 2 480) as (_ & H & _);
    try lia; [cbn; lia|discriminate|exact H].
Defined.

(** ** Further properties: the time map *)

Lemma entry_paired_more (midi : MidiFile_t) (log : list PlayerCall) (call : PlayerCall)
    (m : MidiAbsoluteTimeMap_t) :
  entry_paired midi log m -> entry_paired midi (log ++ [call]) m.
Proof.
  intros (c & k & Hs & H). exists c, k. split; [exact Hs|].
  destruct (OffEvent m) as [off|].
  - destruct H as (He & l1 & l2 & l3 & t1 & t2 & ->). split; [exact He|].
    exists l1, l2, (l3 ++ [call]), t1, t2. rewrite <- !app_assoc. reflexivity.
  - destruct H as (He & t & Hin). split; [exact He|]. exists t.
    apply in_or_app. left. exact Hin.
Qed.

Lemma playerCb_paired (midi : MidiFile_t) (log : list PlayerCall)
    (entries entries' : list MidiAbsoluteTimeMap_t) (event : MidiEvent_ptr)
    (track0 timeTicks timeUs r : Z) :
  notes_consistent midi ->
  Forall (entry_paired midi log) entries ->
  playerCb midi entries event track0 timeTicks timeUs = Ok (entries', r) ->
  Forall (entry_paired midi (log ++ [(event, track0, timeTicks, timeUs)])) entries'.
Proof.
  intros Hcons Hall H.
  assert (Hmore : Forall (entry_paired midi (log ++ [(event, track0, timeTicks, timeUs)]))
                    entries).
  { eapply Forall_impl; [exact Hall|]. intros m. apply entry_paired_more. }
  apply (playerCb_cases midi Hcons) in H
    as [(c & k & Hsound & ->)|[(c & k & Hend & Hmatch)|(_ & _ & ->)]].
  - apply Forall_app. split; [exact Hmore|]. apply Forall_cons_2; [|apply Forall_nil_2].
    exists c, k. cbn [opened_by OnEvent OffEvent endTime track startTime].
    split; [exact Hsound|]. split; [reflexivity|]. exists timeTicks.
    apply in_or_app. right. left. reflexivity.
  - apply playerCb_match_result in Hmatch
      as [->|(i & m & ev & v & _ & Hm & Hoff & Ht & Hev & Hd & ->)]; [exact Hmore|].
    apply Forall_insert; [exact Hmore|].
    rewrite Forall_lookup in Hall. destruct (Hall i m Hm) as (c' & k' & Hs' & Hopen).
    rewrite Hoff in Hopen. destruct Hopen as (_ & t1 & Hin).
    assert (Hs : sounding_note midi (OnEvent m) c k).
    { destruct Hs' as (v' & Hv' & ev' & i' & Hev' & Hi' & Ht' & Hd').
      rewrite Hev in Hev'. injection Hev' as <-. rewrite Hd in Hd'.
      injection Hd' as -> -> ->. exists v'. split; [exact Hv'|].
      exists ev, i'. rewrite Hd. auto. }
    exists c, k. cbn [closed_by OnEvent OffEvent endTime track startTime].
    split; [exact Hs|]. split; [exact Hend|].
    apply in_split in Hin as (l1 & l2 & ->).
    exists l1, l2, [], t1, timeTicks. rewrite Ht, <- !app_assoc. reflexivity.
  - exact Hmore.
Qed.

(** X21.  Every entry of the list [Midi_MapAbsoluteTime] returns is a
    correct pair, for a file with notes as [MidiTrack_Read] stores them:
    its [OnEvent] is a NoteOn with a velocity other than 0 that the
    player reached on the track [track] at the time [startTime]; if it
    has an [OffEvent], that is a NoteOff or a NoteOn of velocity 0 of the
    same channel and key that the player reached later, on the same
    track, at the time [endTime]; if it has none, [endTime] is
    [UINT32_MAX]. *)
Theorem Midi_MapAbsoluteTime_entries_paired (midi : MidiFile_t) (fuel : nat) (numEvents : Z)
    (final : list MidiAbsoluteTimeMap_t) :
  notes_consistent midi ->
  Midi_MapAbsoluteTime midi fuel = Ok (numEvents, final) ->
  exists st,
    MidiFile_Play midi UINT32_MAX (playerCb midi) fuel [] = Ok st
    /\ Forall (entry_paired midi (callbacks st)) final.
Proof.
  intros Hcons H. apply Midi_MapAbsoluteTime_replay in H as (st & Hplay & <- & _ & _).
  exists st. split; [exact Hplay|].
  unfold MidiFile_Play in Hplay. apply play_loop_turns in Hplay.
  apply (play_turns_invariant midi UINT32_MAX (playerCb midi)
           (fun s log _ => Forall (entry_paired midi log) s)) in Hplay; [exact Hplay| | |].
  - intros s log dev event track0 timeTicks timeUs s' r Hs Hcb.
    split; [eapply playerCb_ignores; exact Hcb|].
    eapply playerCb_paired; eassumption.
  - intros s log dev us Hs. exact Hs.
  - apply Forall_nil_2.
Qed.

Lemma Midi_MapAbsoluteTime_entries_paired_witness :
  exists st,
    MidiFile_Play note_file UINT32_MAX (playerCb note_file) 6 [] = Ok st
    /\ Forall (entry_paired note_file (callbacks st))
         [ {| track := 0; OnEvent := (0, 0); OffEvent := Some (0, 1);
                   startTime := 0; endTime := 26020 |};
                {| track := 1; OnEvent := (1, 0); OffEvent := None;
                   startTime := 0; endTime := UINT32_MAX |};
                {| track := 0; OnEvent := (0, 2); OffEvent := Some (0, 3);
                   startTime := 26020; endTime := 52040 |} ].
Proof.
  destruct (Midi_MapAbsoluteTime_entries_paired note_file 6 3
              [ {| track := 0; OnEvent := (0, 0); OffEvent := Some (0, 1);
                   startTime := 0; endTime := 26020 |};
                {| track := 1; OnEvent := (1, 0); OffEvent := None;
                   startTime := 0; endTime := UINT32_MAX |};
                {| track := 0; OnEvent := (0, 2); OffEvent := Some (0, 3);
                   startTime := 26020; endTime := 52040 |} ]
              note_file_consistent) as (st & Hplay & Hall).
  - vm_compute. reflexivity.
  - exists st. split; assumption.
Defined.

Lemma playerCb_keys (midi : MidiFile_t) (entries entries' : list MidiAbsoluteTimeMap_t)
    (event : MidiEvent_ptr) (track0 timeTicks timeUs r : Z) :
  playerCb midi entries event track0 timeTicks timeUs = Ok (entries', r) ->
  map entry_key entries'
  = map entry_key entries
    ++ (if is_sounding midi event then [(event, track0, timeUs)] else []).
Proof.
  unfold playerCb, is_sounding. intros H.
  destruct (deref midi event) as [ev| |]; [|discriminate H..]. rewrite bind_Ok in H.
  destruct (MidiEvent_GetType ev) as [type0| |]; [|discriminate H..]. rewrite bind_Ok in H.
  destruct ((type0 =? Midi_Event_Type_NoteOff) || (type0 =? Midi_Event_Type_NoteOn)).
  - destruct (data ev) as [[]|]; try discriminate H;
      try (injection H as <- _; rewrite app_nil_r; reflexivity).
    cbn [andb]. destruct ((OnOff =? Midi_Event_Type_NoteOff) || (velocity =? 0)); cbn [negb].
    + destruct (playerCb_match _ _ _ _ _ _ _ _) as [l| |] eqn:Hmatch; [|discriminate H..].
      rewrite bind_Ok in H. injection H as <- _. rewrite app_nil_r.
      apply playerCb_match_result in Hmatch
        as [->|(i & m & ev' & v & _ & Hm & _ & _ & _ & _ & ->)]; [reflexivity|].
      rewrite list_fmap_insert. apply list_insert_id.
      rewrite list_lookup_fmap, Hm. reflexivity.
    + injection H as <- _. rewrite map_app. reflexivity.
  - injection H as <- _. destruct (data ev) as [[]|]; rewrite app_nil_r; reflexivity.
Qed.

(** X22.  The list [Midi_MapAbsoluteTime] returns has one entry for
    each call of the callback for a note that starts (an event of type
    NoteOn or NoteOff whose data are not a NoteOff and have a velocity
    other than 0), in the order of the calls, with the event, the track
    and the time in microseconds of the call; the number returned is the
    number of these calls in a [uint32_t].  Calls that end notes add no
    entry and move none. *)
Theorem Midi_MapAbsoluteTime_entries_in_call_order (midi : MidiFile_t) (fuel : nat)
    (numEvents : Z) (final : list MidiAbsoluteTimeMap_t) :
  Midi_MapAbsoluteTime midi fuel = Ok (numEvents, final) ->
  exists st,
    MidiFile_Play midi UINT32_MAX (playerCb midi) fuel [] = Ok st
    /\ map entry_key final
       = map call_key (filter (fun call : PlayerCall => is_sounding midi call.1.1.1 = true)
                              (callbacks st))
    /\ numEvents
       = u32 (Z.of_nat (length (filter (fun call : PlayerCall =>
                                          is_sounding midi call.1.1.1 = true)
                                       (callbacks st)))).
Proof.
  intros H. apply Midi_MapAbsoluteTime_replay in H as (st & Hplay & <- & -> & _).
  exists st. split; [exact Hplay|].
  assert (Hkeys : map entry_key (cb_state st)
                  = map call_key (filter (fun call : PlayerCall =>
                                            is_sounding midi call.1.1.1 = true)
                                         (callbacks st))).
  { unfold MidiFile_Play in Hplay. apply play_loop_turns in Hplay.
    apply (play_turns_invariant midi UINT32_MAX (playerCb midi)
             (fun s log _ =>
                map entry_key s
                = map call_key (filter (fun call : PlayerCall =>
                                          is_sounding midi call.1.1.1 = true) log)))
      in Hplay; [exact Hplay| | |].
    - intros s log dev event track0 timeTicks timeUs s' r Hs Hcb.
      split; [eapply playerCb_ignores; exact Hcb|].
      rewrite (playerCb_keys _ _ _ _ _ _ _ _ Hcb), Hs, filter_app, map_app. f_equal.
      rewrite filter_cons. cbn [fst snd].
      destruct (is_sounding midi event); [|reflexivity].
      rewrite decide_True by reflexivity. reflexivity.
    - intros s log dev us Hs. exact Hs.
    - reflexivity. }
  split; [exact Hkeys|].
  rewrite <- (length_map entry_key), Hkeys, length_map. reflexivity.
Qed.

Lemma Midi_MapAbsoluteTime_entries_in_call_order_witness :
  exists st,
    MidiFile_Play note_file UINT32_MAX (playerCb note_file) 6 [] = Ok st
    /\ [((0, 0), 0, 0); ((1, 0), 1, 0); ((0, 2), 0, 26020)]
       = map call_key (filter (fun call : PlayerCall =>
                                 is_sounding note_file call.1.1.1 = true) (callbacks st)).
Proof.
  destruct (Midi_MapAbsoluteTime_entries_in_call_order note_file 6 3
              [ {| track := 0; OnEvent := (0, 0); OffEvent := Some (0, 1);
                   startTime := 0; endTime := 26020 |};
                {| track := 1; OnEvent := (1, 0); OffEvent := None;
                   startTime := 0; endTime := UINT32_MAX |};
                {| track := 0; OnEvent := (0, 2); OffEvent := Some (0, 3);
                   startTime := 26020; endTime := 52040 |} ])
    as (st & Hplay & Hkeys & _).
  - vm_compute. reflexivity.
  - exists st. split; [exact Hplay|exact Hkeys].
Defined.

(** ** Further properties: the player *)

Section FirstTurn.

Context {St : Type}.
Variable midi : MidiFile_t.
Variable start_usec : Z.
Variable cbFunc : playerCallback St.

Lemma play_event_arrays (event : MidiEvent_t) (type0 cbResult : Z) (st st' : PlayState St) :
  play_event midi start_usec event type0 cbResult st = Ok st' ->
  waitTicks st' = waitTicks st /\ currentEvent st' = currentEvent st.
Proof.
  unfold play_event. intros H.
  repeat match type of H with
  | (if ?c then _ else _) = _ => destruct c
  | match ?d with _ => _ end = _ => destruct d
  end; try discriminate; injection H as <-; auto.
Qed.

Lemma next_event_arrays (trackIndex : Z) (st st' : PlayState St) :
  next_event midi trackIndex st = Ok st' ->
  forall j, Z.to_nat j <> Z.to_nat trackIndex ->
  array_at (waitTicks st') j = array_at (waitTicks st) j
  /\ array_at (currentEvent st') j = array_at (currentEvent st) j.
Proof.
  unfold next_event. intros H j Hj.
  destruct (Tracks midi) as [tracks|]; [|discriminate]. rewrite bind_Ok in H.
  destruct (track_at tracks trackIndex) as [track| |]; [|discriminate..]. rewrite bind_Ok in H.
  destruct (array_at (currentEvent st) trackIndex) as [current| |]; [|discriminate..].
  rewrite bind_Ok in H. cbv zeta in H.
  match type of H with (?m ≫= _) = _ => destruct m as [[wait finished]| |] end;
    [|discriminate..].
  rewrite bind_Ok in H. injection H as <-. unfold array_at. cbn [waitTicks currentEvent].
  rewrite !list_lookup_insert_ne by lia. auto.
Qed.

Lemma play_tracks_first (n : nat) :
  forall (t : Z) (st st' : PlayState St) (aborted : bool),
  0 <= t ->
  (forall j, t <= j < t + Z.of_nat n ->
     array_at (waitTicks st) j = Ok 0 /\ array_at (currentEvent st) j = Ok 0) ->
  currentTotalTime_Ticks st = 0 -> currentTotalTime_Usecs st = 0 ->
  play_tracks midi start_usec cbFunc n t 0 st = Ok (aborted, st') ->
  exists k,
    0 <= k <= Z.of_nat n
    /\ callbacks st' = callbacks st ++ map (fun j : Z => ((j, 0), j, 0, 0)) (seqZ t k)
    /\ (forall j, t <= j < t + k -> exists event, deref midi (j, 0) = Ok event)
    /\ (if aborted then 1 <= k else k = Z.of_nat n).
Proof.
  induction n as [|n IH]; intros t st st' aborted Ht Harr Hticks Husecs H;
    cbn [play_tracks] in H.
  - injection H as <- <-. exists 0. split; [lia|]. split; [rewrite app_nil_r; reflexivity|].
    split; [intros j Hj; lia|reflexivity].
  - destruct (play_track midi start_usec cbFunc t 0 st) as [[a st1]| |] eqn:Htrack;
      [|discriminate..].
    rewrite bind_Ok in H. cbv beta iota in H.
    unfold play_track in Htrack.
    destruct (Harr t ltac:(lia)) as (Hw & Hc). rewrite Hw, bind_Ok in Htrack.
    cbv zeta in Htrack. change (u32 (0 - 0)) with 0 in Htrack.
    change (negb (0 =? 0)) with false in Htrack. cbv iota in Htrack.
    cbn [currentEvent cb_state currentTotalTime_Ticks currentTotalTime_Usecs callbacks]
      in Htrack.
    rewrite Hc, bind_Ok in Htrack.
    destruct (deref midi (t, 0)) as [event| |] eqn:Hev; [|discriminate..].
    rewrite bind_Ok in Htrack.
    destruct (MidiEvent_GetType event) as [type0| |]; [|discriminate..].
    rewrite bind_Ok in Htrack. rewrite Hticks, Husecs in Htrack.
    destruct (cbFunc (cb_state st) (t, 0) t 0 0) as [[s r]| |]; [|discriminate..].
    rewrite bind_Ok in Htrack. cbv beta iota in Htrack.
    assert (Hseq : forall k, 0 < k ->
              map (fun j : Z => ((j, 0), j, 0, 0)) (seqZ t k)
              = ((t, 0), t, 0, 0) :: map (fun j : Z => ((j, 0), j, 0, 0))
                                         (seqZ (t + 1) (k - 1))).
    { intros k Hk. rewrite seqZ_cons by lia. reflexivity. }
    destruct (r =? Player_Callback_Abort).
    + injection Htrack as <- <-. injection H as <- <-. exists 1.
      split; [lia|]. split; [reflexivity|]. split; [|lia].
      intros j Hj. assert (j = t) as -> by lia. eauto.
    + match type of Htrack with
      | (play_event _ _ _ _ _ ?st0 ≫= _) = _ =>
          destruct (play_event midi start_usec event type0 r st0) as [st2| |] eqn:Hplay
      end; [|discriminate..].
      rewrite bind_Ok in Htrack.
      destruct (next_event midi t st2) as [st3| |] eqn:Hnext; [|discriminate..].
      rewrite bind_Ok in Htrack. injection Htrack as <- <-.
      pose proof (play_event_frame _ _ _ _ _ _ _ Hplay) as (_ & Hcb2 & _).
      pose proof (play_event_clock _ _ _ _ _ _ _ Hplay) as (Hti2 & Hus2).
      pose proof (play_event_arrays _ _ _ _ _ Hplay) as (Hwa2 & Hce2).
      pose proof (next_event_frame _ _ _ _ Hnext) as (_ & Hcb3 & _).
      pose proof (next_event_clock _ _ _ _ Hnext) as (Hti3 & Hus3).
      pose proof (next_event_arrays _ _ _ Hnext) as Harr3.
      cbn [callbacks currentTotalTime_Ticks currentTotalTime_Usecs waitTicks currentEvent]
        in Hcb2, Hti2, Hus2, Hwa2, Hce2.
      apply IH in H; [|lia| |congruence|congruence].
      * destruct H as (k & Hk & Hcalls & Hderef & Hab). exists (k + 1).
        split; [lia|]. split; [|split].
        -- rewrite Hcalls, Hcb3, Hcb2, Hseq by lia. rewrite <- app_assoc.
           replace (k + 1 - 1) with k by lia. reflexivity.
        -- intros j Hj. destruct (Z.eq_dec j t) as [->|Hne]; [eauto|].
           apply Hderef. lia.
        -- destruct aborted; lia.
      * intros j Hj. destruct (Harr3 j ltac:(lia)) as (E1 & E2).
        rewrite E1, E2, Hwa2, Hce2.
        unfold array_at. rewrite list_lookup_insert_ne by lia.
        apply Harr. lia.
Qed.

End FirstTurn.

(** X23.  In the first turn of its loop [MidiFile_Play] hands the first
    event of every track to the callback, in the order of the tracks, at
    tick 0 and time 0, until the callback aborts: the delta-time of the
    first event of a track is not waited for, and every track the turn
    reaches must have an event. *)
Theorem MidiFile_Play_first_turn {St : Type} (midi : MidiFile_t) (start_usec : Z)
    (cbFunc : playerCallback St) (s : St) (aborted : bool) (st : PlayState St) :
  0 <= nTrks midi ->
  play_turn midi start_usec cbFunc (play_start midi s) = Ok (aborted, st) ->
  exists k,
    callbacks st = map (fun j : Z => ((j, 0), j, 0, 0)) (seqZ 0 k)
    /\ (forall j, 0 <= j < k -> exists event, deref midi (j, 0) = Ok event)
    /\ (if aborted then 1 <= k <= nTrks midi else k = nTrks midi).
Proof.
  intros Hn H. unfold play_turn in H. cbv zeta in H.
  apply play_tracks_first in H.
  - destruct H as (k & Hk & Hcalls & Hderef & Hab). exists k.
    cbn [callbacks play_start app] in Hcalls.
    split; [exact Hcalls|]. split; [intros j Hj; apply Hderef; lia|].
    destruct aborted; lia.
  - lia.
  - intros j Hj. cbn [waitTicks currentEvent play_start]. unfold array_at.
    rewrite lookup_replicate_2 by lia. auto.
  - reflexivity.
  - reflexivity.
Qed.

Lemma MidiFile_Play_first_turn_witness :
  exists st,
    play_turn note_file 0 trivial_callback (play_start note_file tt) = Ok (false, st)
    /\ callbacks st = [((0, 0), 0, 0, 0); ((1, 0), 1, 0, 0)].
Proof.
  destruct (play_turn note_file 0 trivial_callback (play_start note_file tt))
    as [[a st]| |] eqn:E; [|vm_compute in E; discriminate E..].
  assert (a = false) as -> by (vm_compute in E; injection E as <- _; reflexivity).
  exists st. split; [reflexivity|].
  destruct (MidiFile_Play_first_turn note_file 0 trivial_callback tt false st
              ltac:(cbn; lia) E) as (k & Hcalls & _ & Hk).
  rewrite Hcalls, Hk. reflexivity.
Defined.

(** X24.  [MidiFile_Play] reads the first event of the first track
    before anything else: on a file that announces a track but has no
    track array, or whose first track has no event, it reads an event
    that does not exist, whatever the callback and the start time. *)
Theorem MidiFile_Play_empty_first_track {St : Type} (midi : MidiFile_t) (start_usec : Z)
    (cbFunc : playerCallback St) (fuel : nat) (s : St) :
  0 < nTrks midi -> deref midi (0, 0) = Undefined ->
  MidiFile_Play midi start_usec cbFunc (S fuel) s = Undefined.
Proof.
  intros Hn Hderef. unfold MidiFile_Play. cbn [play_loop].
  cbn [countFinishedTracks play_start]. destruct (Z.ltb_spec 0 (nTrks midi)); [|lia].
  unfold play_turn. cbv zeta.
  destruct (Z.to_nat (nTrks midi)) as [|n] eqn:En; [lia|].
  cbn [play_tracks]. unfold play_track.
  cbn [waitTicks currentEvent play_start]. rewrite En.
  change (array_at (replicate (S n) 0) 0) with (Ok 0 : result Z).
  rewrite bind_Ok. cbv zeta. change (u32 (0 - 0)) with 0.
  change (negb (0 =? 0)) with false. cbv iota.
  cbn [currentEvent]. change (array_at (replicate (S n) 0) 0) with (Ok 0 : result Z).
  rewrite bind_Ok, Hderef. reflexivity.
Qed.

Lemma MidiFile_Play_empty_first_track_witness :
  MidiFile_Play
    {| Format := 1; nTrks := 2; PulsesPerQuarterNote := 480;
       Tracks := Some [ {| NumEvents := 0; Events := [] |};
                        {| NumEvents := 0; Events := [] |} ] |}
    0 trivial_callback 1 tt
  = Undefined.
Proof. apply MidiFile_Play_empty_first_track; [cbn; lia|reflexivity]. Defined.

(** ** Further properties: what a loaded file looks like *)

Lemma u32_succ (n : nat) : u32 (u32 (Z.of_nat n) + 1) = u32 (Z.of_nat (n + 1)).
Proof.
  unfold u32. rewrite Zplus_mod_idemp_l. f_equal. lia.
Qed.

Lemma MidiTrack_Read_body_counts (buffer : list Z) (length0 : Z) (r r' : TrackReader)
    (more : bool) :
  counts_its_events (track_read r) ->
  MidiTrack_Read_body buffer length0 r = Ok (more, r') ->
  counts_its_events (track_read r').
Proof.
  unfold counts_its_events. intros Hall H. unfold MidiTrack_Read_body in H.
  destruct (ReadVariableLength _ _) as [[variablelen deltaTime0]| |]; [|discriminate..].
  rewrite bind_Ok in H.
  destruct (variablelen <=? 0); [injection H as _ <-; exact Hall|].
  destruct (byte_at buffer (u32 (read r + variablelen))) as [statusByte| |]; [|discriminate..].
  rewrite bind_Ok in H.
  assert (Hstep : forall type0 sb rd rs,
    match MidiEvent_Create type0 deltaTime0 1 with
    | None =>
        Ok (false, {| read := rd; running_status := rs;
                      track_read := {| NumEvents := u32 (NumEvents (track_read r) + 1);
                                       Events := Events (track_read r) ++ [None] |} |})
    | Some new_event =>
        i ← interface_of new_event;
        '(ret, stored) ← read_data i (buffer_from buffer rd) sb;
        Ok (true,
            {| read := u32 (rd + ret); running_status := rs;
               track_read :=
                 {| NumEvents := u32 (NumEvents (track_read r) + 1);
                    Events := <[Z.to_nat (u32 (NumEvents (track_read r) + 1) - 1) :=
                                  Some match stored with
                                       | Some d => {| deltaTime := deltaTime0;
                                                      interface := interface new_event;
                                                      data := Some d |}
                                       | None => new_event
                                       end]> (Events (track_read r) ++ [None]) |} |})
    end = Ok (more, r') ->
    NumEvents (track_read r') = u32 (Z.of_nat (length (Events (track_read r'))))).
  { intros type0 sb rd rs Hrun.
    destruct (MidiEvent_Create _ _ _) as [new_event|].
    - destruct (interface_of new_event) as [i| |]; [|discriminate..].
      rewrite bind_Ok in Hrun.
      destruct (read_data i _ _) as [[ret stored]| |]; [|discriminate..].
      rewrite bind_Ok in Hrun. injection Hrun as _ <-. cbn [track_read Events NumEvents].
      rewrite length_insert, length_app, Hall. cbn [length]. apply u32_succ.
    - injection Hrun as _ <-. cbn [track_read Events NumEvents].
      rewrite length_app, Hall. cbn [length]. apply u32_succ. }
  destruct (statusByte =? 255).
  - destruct (byte_at buffer (u32 (u32 (read r + variablelen) + 1))) as [sb| |];
      [|discriminate..].
    rewrite !bind_Ok in H. eapply Hstep, H.
  - destruct (statusByte <? 128); rewrite bind_Ok in H; eapply Hstep, H.
Qed.

Lemma MidiTrack_Read_loop_counts (buffer : list Z) (length0 : Z) (fuel : nat) :
  forall (r : TrackReader) (track : MidiTrack_t),
  counts_its_events (track_read r) ->
  MidiTrack_Read_loop fuel buffer length0 r = Ok track ->
  counts_its_events track.
Proof.
  induction fuel as [|fuel IH]; intros r track Hall H; cbn [MidiTrack_Read_loop] in H.
  - discriminate.
  - destruct (MidiTrack_Read_body buffer length0 r) as [[more r']| |] eqn:Hbody;
      [|discriminate..].
    rewrite bind_Ok in H. apply MidiTrack_Read_body_counts in Hbody; [|exact Hall].
    destruct (_ && _); [eapply IH; eassumption|injection H as <-; exact Hbody].
Qed.

Lemma u16fromarray_range (arr : list Z) (v : Z) : u16fromarray arr = Ok v -> 0 <= v < 65536.
Proof.
  unfold u16fromarray. intros H.
  destruct (byte_at arr 0) as [a0| |]; [|discriminate..]. rewrite bind_Ok in H.
  destruct (byte_at arr 1) as [a1| |]; [|discriminate..]. rewrite bind_Ok in H.
  injection H as <-. apply Z.mod_pos_bound. lia.
Qed.

Lemma MidiFile_Open_loop_shape (track_fuel fuel : nat) :
  forall (fp : FILE) (mf mf' : MidiFile_t) (trackNumber : Z),
  loaded_shape mf ->
  MidiFile_Open_loop track_fuel fuel fp mf trackNumber = Ok (Some mf') ->
  loaded_shape mf'.
Proof.
  induction fuel as [|fuel IH]; intros fp mf mf' trackNumber Hmf H;
    cbn [MidiFile_Open_loop] in H.
  - discriminate.
  - destruct (feof fp); [injection H as <-; exact Hmf|].
    destruct (fread MIDI_CHUNK_SIZE fp) as [chunktype fp1].
    destruct (negb _).
    { destruct (feof fp1); [injection H as <-; exact Hmf|discriminate]. }
    destruct (fread MIDI_CHUNK_LEN_BYTES fp1) as [lenbytes fp2].
    destruct (memcmp_eq chunktype MIDI_CHUNK_HEADER).
    + destruct (u32fromarray lenbytes) as [chunklength| |]; [|discriminate..].
      rewrite bind_Ok in H. destruct (negb _); [discriminate|].
      destruct (fread MIDI_CHUNK_HEADER_LEN fp2) as [header fp3].
      destruct (negb _); [discriminate|].
      destruct (u16fromarray (buffer_from header 0)) as [format| |] eqn:Hf; [|discriminate..].
      rewrite bind_Ok in H.
      destruct (u16fromarray (buffer_from header 2)) as [ntrks| |] eqn:Hn; [|discriminate..].
      rewrite bind_Ok in H.
      destruct (u16fromarray (buffer_from header 4)) as [ppq| |] eqn:Hp; [|discriminate..].
      rewrite bind_Ok in H.
      destruct ((format =? MIDI_FORMAT_SINGLE_TRACK) && negb (ntrks =? 1)) eqn:Hcheck;
        [discriminate|].
      eapply IH; [|exact H]. unfold loaded_shape.
      cbn [Tracks Format nTrks PulsesPerQuarterNote].
      apply u16fromarray_range in Hf, Hn, Hp.
      split; [exact Hf|]. split; [exact Hn|]. split; [exact Hp|]. split; [|split].
      * intros E. rewrite E in Hcheck. cbn [andb] in Hcheck.
        change (MIDI_FORMAT_SINGLE_TRACK =? MIDI_FORMAT_SINGLE_TRACK) with true in Hcheck.
        cbn [andb] in Hcheck. destruct (Z.eqb_spec ntrks 1); [assumption|discriminate].
      * apply length_replicate.
      * apply Forall_replicate. reflexivity.
    + destruct (memcmp_eq chunktype MIDI_CHUNK_TRACK); [|discriminate].
      unfold loaded_shape in Hmf.
      destruct (Tracks mf) as [tracks|] eqn:Htracks; [|discriminate].
      destruct (trackNumber >=? nTrks mf); [discriminate|].
      destruct (u32fromarray lenbytes) as [chunklength| |]; [|discriminate..].
      rewrite bind_Ok in H.
      destruct (fread chunklength fp2) as [track_buff fp3].
      destruct (negb _); [discriminate|].
      destruct (track_at tracks trackNumber) as [track| |] eqn:Htrack; [|discriminate..].
      rewrite bind_Ok in H.
      destruct (MidiTrack_Read track_fuel track_buff chunklength track) as [track'| |] eqn:Hread;
        [|discriminate..].
      rewrite bind_Ok in H. eapply IH; [|exact H]. unfold loaded_shape.
      cbn [Tracks Format nTrks PulsesPerQuarterNote].
      destruct Hmf as (HF & HN & HP & Hfmt & Hlen & Hall).
      repeat split; try assumption; try lia.
      * rewrite length_insert. exact Hlen.
      * apply Forall_insert; [exact Hall|].
        unfold MidiTrack_Read in Hread. eapply MidiTrack_Read_loop_counts; [|exact Hread].
        cbn [track_read]. apply track_at_lookup in Htrack as (_ & Hlookup).
        rewrite Forall_lookup in Hall. exact (Hall _ _ Hlookup).
Qed.

(** X25.  Every file [MidiFile_Open] returns is well shaped: without a
    header chunk it has no track array and zero header fields; with one,
    the header fields are 16-bit numbers, format 0 comes with one track,
    the track array has [nTrks] tracks and each track announces as many
    events as its array holds.  And each NoteOn and NoteOff holds a note
    whose [OnOff] is the type of the event. *)
Theorem MidiFile_Open_loads_well_shaped (fuel : nat) (file : list Z) (mf : MidiFile_t) :
  MidiFile_Open fuel file = Ok (Some mf) -> loaded_shape mf /\ notes_consistent mf.
Proof.
  intros H. split.
  - unfold MidiFile_Open in H. eapply MidiFile_Open_loop_shape; [|exact H].
    unfold loaded_shape. cbn. auto.
  - eapply MidiFile_Open_consistent, H.
Qed.

Lemma MidiFile_Open_loads_well_shaped_witness :
  loaded_shape note_file /\ notes_consistent note_file.
Proof.
  apply (MidiFile_Open_loads_well_shaped 5 note_file_bytes note_file).
  vm_compute. reflexivity.
Defined.

(** One turn of the loop of [MidiFile_Open] on a track chunk of
    canonical events: the events are added to those the track of the
    current number holds, and the number goes up by one in a
    [uint8_t]. *)
Lemma MidiFile_Open_loop_track_chunk (tf fuel : nat) (mf : MidiFile_t)
    (tracks : list MidiTrack_t) (trackNumber : Z) (pre evs : list MidiEvent_t)
    (bs rest : list Z) :
  Tracks mf = Some tracks -> 0 <= trackNumber < nTrks mf ->
  tracks !! Z.to_nat trackNumber = Some (track_of_events pre) ->
  Forall canonical_event evs -> events_bytes evs = Ok bs -> evs <> [] ->
  Z.of_nat (length bs) < 4294967296 ->
  Z.of_nat (length pre + length evs) < 4294967296 ->
  (length evs < tf)%nat ->
  MidiFile_Open_loop tf (S fuel) {| unread := track_chunk bs ++ rest; eof_indicator := false |}
    mf trackNumber
  = MidiFile_Open_loop tf fuel {| unread := rest; eof_indicator := false |}
      (with_track mf (Z.to_nat trackNumber) (track_of_events (pre ++ evs)))
      (u8 (trackNumber + 1)).
Proof.
  intros Htracks Htn Hlookup Hall Hbs Hne Hlen Hnum Hfuel.
  unfold track_chunk. rewrite <- !app_assoc.
  cbn [MidiFile_Open_loop feof eof_indicator].
  change MIDI_CHUNK_SIZE with (Z.of_nat (length MIDI_CHUNK_TRACK)).
  rewrite fread_app. cbv beta iota. rewrite Z.eqb_refl. cbn [negb].
  change MIDI_CHUNK_LEN_BYTES with (Z.of_nat (length (u32toarray (Z.of_nat (length bs))))).
  rewrite fread_app. cbv beta iota zeta.
  rewrite memcmp_eq_track_header, memcmp_eq_refl, Htracks.
  destruct (Z.geb_spec trackNumber (nTrks mf)); [lia|].
  rewrite u32fromarray_u32toarray, bind_Ok by lia.
  rewrite fread_app. cbv beta iota. rewrite Z.eqb_refl. cbn [negb].
  assert (Hat : track_at tracks trackNumber = Ok (track_of_events pre))
    by (apply track_at_lookup; split; [lia|exact Hlookup]).
  rewrite Hat, bind_Ok.
  assert (Hread : MidiTrack_Read tf bs (Z.of_nat (length bs)) (track_of_events pre)
                  = Ok (track_of_events (pre ++ evs))).
  { unfold MidiTrack_Read, track_of_events.
    rewrite length_app, map_app, <- (length_map Some pre).
    apply (MidiTrack_Read_loop_written evs bs [] (map Some pre) 0 tf Hall Hbs Hne).
    - exact Hlen.
    - rewrite length_map. exact Hnum.
    - lia. }
  rewrite Hread, bind_Ok. cbv zeta. unfold with_track. rewrite Htracks. reflexivity.
Qed.

(** X26.  [MidiFile_Open] counts the track chunks in a [uint8_t] while
    the header can announce up to 65535 tracks: in a file of more than
    256 tracks the chunk after the one of track 255 is not loaded as
    track 256 but added to track 0, after the events track 0 has. *)
Theorem MidiFile_Open_track_number_wraps (tf fuel : nat) (mf : MidiFile_t)
    (tracks : list MidiTrack_t) (evs0 evsA evsB : list MidiEvent_t) (bsA bsB : list Z) :
  Tracks mf = Some tracks -> 256 < nTrks mf ->
  tracks !! 0%nat = Some (track_of_events evs0) ->
  tracks !! 255%nat = Some (track_of_events []) ->
  Forall canonical_event evsA -> events_bytes evsA = Ok bsA -> evsA <> [] ->
  Forall canonical_event evsB -> events_bytes evsB = Ok bsB -> evsB <> [] ->
  Z.of_nat (length bsA) < 4294967296 -> Z.of_nat (length bsB) < 4294967296 ->
  Z.of_nat (length evsA) < 4294967296 ->
  Z.of_nat (length evs0 + length evsB) < 4294967296 ->
  (length evsA < tf)%nat -> (length evsB < tf)%nat ->
  MidiFile_Open_loop tf (S (S (S fuel)))
    {| unread := track_chunk bsA ++ track_chunk bsB; eof_indicator := false |} mf 255
  = Ok (Some (with_track (with_track mf 255 (track_of_events evsA))
                         0 (track_of_events (evs0 ++ evsB)))).
Proof.
  intros Htracks Hn H0 H255 HallA HbsA HneA HallB HbsB HneB HlenA HlenB HnumA Hnum HfA HfB.
  rewrite (MidiFile_Open_loop_track_chunk tf (S (S fuel)) mf tracks 255 [] evsA bsA
             (track_chunk bsB) Htracks ltac:(lia) H255 HallA HbsA HneA HlenA);
    [|cbn [length]; lia|exact HfA].
  change (u8 (255 + 1)) with 0. change (Z.to_nat 255) with 255%nat. cbn [app].
  rewrite <- (app_nil_r (track_chunk bsB)).
  rewrite (MidiFile_Open_loop_track_chunk tf (S fuel) _ (<[255%nat := track_of_events evsA]> tracks)
             0 evs0 evsB bsB [] );
    [| unfold with_track; rewrite Htracks; reflexivity
     | cbn [nTrks with_track]; lia
     | change (Z.to_nat 0) with 0%nat; rewrite list_lookup_insert_ne by lia; exact H0
     | exact HallB | exact HbsB | exact HneB | exact HlenB | exact Hnum | exact HfB ].
  reflexivity.
Qed.

Lemma MidiFile_Open_track_number_wraps_witness :
  let events :=
    [ {| deltaTime := 0; interface := 15; data := Some (Data_KeySignature 2 0) |};
      {| deltaTime := 0; interface := 18; data := Some (Data_NoteEvent 0 60 64 0x90) |};
      {| deltaTime := 96; interface := 19; data := Some (Data_NoteEvent 0 60 0 0x80) |};
      {| deltaTime := 0; interface := 11; data := Some Data_Uninit |} ] in
  let bytes := [0; 0xFF; 0x59; 2; 2; 0; 0; 0x90; 60; 64; 96; 0x80; 60; 0; 0; 0xFF; 0x2F; 0] in
  let mf := {| Format := 1; nTrks := 257; PulsesPerQuarterNote := 96;
               Tracks := Some (replicate 257 (track_of_events [])) |} in
  MidiFile_Open_loop 5 3
    {| unread := track_chunk bytes ++ track_chunk bytes; eof_indicator := false |} mf 255
  = Ok (Some (with_track (with_track mf 255 (track_of_events events))
                         0 (track_of_events ([] ++ events)))).
Proof.
  intros events bytes mf.
  apply (MidiFile_Open_track_number_wraps 5 0 mf (replicate 257 (track_of_events []))
           [] events events bytes bytes).
  - reflexivity.
  - cbn. lia.
  - reflexivity.
  - reflexivity.
  - exact key_file_events_canonical.
  - vm_compute. reflexivity.
  - discriminate.
  - exact key_file_events_canonical.
  - vm_compute. reflexivity.
  - discriminate.
  - cbn. lia.
  - cbn. lia.
  - cbn. lia.
  - cbn. lia.
  - cbn. lia.
  - cbn. lia.
Defined.

(** ** The run of the player over a whole file *)

Lemma ticks_app (l1 l2 : list MidiEvent_t) : ticks (l1 ++ l2) = ticks l1 + ticks l2.
Proof. induction l1 as [|ev l1 IH]; cbn [app ticks]; lia. Qed.

Lemma ticks_nonneg (events : list MidiEvent_t) :
  Forall playable_event events -> 0 <= ticks events.
Proof.
  induction 1 as [|ev events Hev _ IH]; cbn [ticks]; [lia|].
  destruct Hev as (Hd & _). lia.
Qed.

Lemma ticks_take (events : list MidiEvent_t) (n : nat) :
  Forall playable_event events -> 0 <= ticks (take n events) <= ticks events.
Proof.
  intros Hall. rewrite <- (take_drop n events) at 3. rewrite ticks_app.
  pose proof (ticks_nonneg (take n events) (Forall_take _ _ _ Hall)) as H1.
  pose proof (ticks_nonneg (drop n events) (Forall_drop _ _ _ Hall)) as H2.
  lia.
Qed.

Lemma Forall_tail {A : Type} (P : A -> Prop) (l : list A) : Forall P l -> Forall P (tail l).
Proof. destruct 1; [constructor|assumption]. Qed.

(** The event [c] of a track is due between tick 0 and the last tick of
    the track. *)
Lemma due_range (events : list MidiEvent_t) (c : Z) :
  Forall playable_event events -> 0 <= c < Z.of_nat (length events) ->
  0 <= due events c <= ticks (tail events).
Proof.
  intros Hall Hc. unfold due. destruct (Z.ltb_spec c (Z.of_nat (length events))); [|lia].
  apply ticks_take, Forall_tail, Hall.
Qed.

Lemma due_finished (events : list MidiEvent_t) :
  due events (Z.of_nat (length events)) = UINT32_MAX + ticks (tail events).
Proof.
  unfold due. destruct (Z.ltb_spec (Z.of_nat (length events)) (Z.of_nat (length events)));
    [lia|reflexivity].
Qed.

(** The last event of a track is due at the last tick of the track. *)
Lemma due_last (events : list MidiEvent_t) (c : Z) :
  0 <= c -> c + 1 = Z.of_nat (length events) -> due events c = ticks (tail events).
Proof.
  intros H0 Hc. unfold due. destruct (Z.ltb_spec c (Z.of_nat (length events))); [|lia].
  rewrite take_ge; [reflexivity|].
  destruct events as [|ev events]; cbn [tail length] in *; lia.
Qed.

(** An event is due its delta-time after the event before it. *)
Lemma due_next (events : list MidiEvent_t) (c : Z) (event : MidiEvent_t) :
  0 <= c -> c + 1 < Z.of_nat (length events) ->
  events !! Z.to_nat (c + 1) = Some event ->
  due events (c + 1) = due events c + deltaTime event.
Proof.
  intros H0 Hc Hev. unfold due.
  destruct (Z.ltb_spec (c + 1) (Z.of_nat (length events))); [|lia].
  destruct (Z.ltb_spec c (Z.of_nat (length events))); [|lia].
  replace (Z.to_nat (c + 1)) with (S (Z.to_nat c)) in * by lia.
  assert (Ht : tail events !! Z.to_nat c = Some event).
  { destruct events as [|ev events]; [discriminate Hev|exact Hev]. }
  rewrite (take_S_r _ _ _ Ht), ticks_app. cbn [ticks]. lia.
Qed.

Lemma events_left_insert (tracks : list (list MidiEvent_t)) :
  forall (current : list Z) (k : nat) (events : list MidiEvent_t) (c c' : Z),
  tracks !! k = Some events -> current !! k = Some c ->
  events_left tracks (<[k := c']> current) = events_left tracks current - (c' - c).
Proof.
  induction tracks as [|evs tracks IH]; intros current k events c c' Ht Hc; [discriminate Ht|].
  destruct current as [|c0 current]; [discriminate Hc|].
  destruct k as [|k]; cbn [events_left].
  - injection Hc as ->. cbn. lia.
  - cbn in Ht, Hc. change (<[S k := c']> (c0 :: current)) with (c0 :: <[k := c']> current).
    cbn [events_left]. rewrite (IH current k events c c' Ht Hc). lia.
Qed.

Lemma finished_tracks_insert (tracks : list (list MidiEvent_t)) :
  forall (current : list Z) (k : nat) (events : list MidiEvent_t) (c c' : Z),
  tracks !! k = Some events -> current !! k = Some c ->
  finished_tracks tracks (<[k := c']> current)
  = finished_tracks tracks current
    + (if c' <? Z.of_nat (length events) then 0 else 1)
    - (if c <? Z.of_nat (length events) then 0 else 1).
Proof.
  induction tracks as [|evs tracks IH]; intros current k events c c' Ht Hc; [discriminate Ht|].
  destruct current as [|c0 current]; [discriminate Hc|].
  destruct k as [|k]; cbn [finished_tracks].
  - injection Hc as ->. injection Ht as ->. cbn. lia.
  - cbn in Ht, Hc. change (<[S k := c']> (c0 :: current)) with (c0 :: <[k := c']> current).
    cbn [finished_tracks]. rewrite (IH current k events c c' Ht Hc). lia.
Qed.

Lemma finished_tracks_range (tracks : list (list MidiEvent_t)) :
  forall current : list Z, 0 <= finished_tracks tracks current <= Z.of_nat (length tracks).
Proof.
  induction tracks as [|evs tracks IH]; intros current; cbn [finished_tracks length]; [lia|].
  destruct current as [|c current]; [lia|].
  specialize (IH current). destruct (c <? Z.of_nat (length evs)); lia.
Qed.

(** While not every track is finished, one has an event left. *)
Lemma finished_tracks_unfinished (tracks : list (list MidiEvent_t)) :
  forall current : list Z,
  length current = length tracks ->
  finished_tracks tracks current < Z.of_nat (length tracks) ->
  exists k events c,
    tracks !! k = Some events /\ current !! k = Some c /\ c < Z.of_nat (length events).
Proof.
  induction tracks as [|evs tracks IH]; intros current Hlen Hfin; cbn [finished_tracks length] in *;
    [lia|].
  destruct current as [|c current]; [discriminate Hlen|]. cbn [length] in Hlen.
  destruct (Z.ltb_spec c (Z.of_nat (length evs))) as [Hc|Hc].
  - exists 0%nat, evs, c. auto.
  - destruct (IH current) as (k & events & c' & H1 & H2 & H3); [lia|lia|].
    exists (S k), events, c'. auto.
Qed.

(** When every track is counted as finished, each one is. *)
Lemma finished_tracks_all (tracks : list (list MidiEvent_t)) :
  forall current : list Z,
  Z.of_nat (length tracks) <= finished_tracks tracks current ->
  forall k events c, tracks !! k = Some events -> current !! k = Some c ->
  Z.of_nat (length events) <= c.
Proof.
  induction tracks as [|evs tracks IH]; intros current Hfin k events c Ht Hc; [discriminate Ht|].
  destruct current as [|c0 current]; [discriminate Hc|].
  cbn [finished_tracks length] in Hfin.
  pose proof (finished_tracks_range tracks current) as Hr.
  destruct (Z.ltb_spec c0 (Z.of_nat (length evs))) as [H0|H0]; [lia|].
  destruct k as [|k].
  - injection Ht as <-. injection Hc as <-. exact H0.
  - cbn in Ht, Hc. eapply (IH current); [lia|exact Ht|exact Hc].
Qed.

Lemma events_left_start (tracks : list (list MidiEvent_t)) :
  events_left tracks (replicate (length tracks) 0) = Z.of_nat (length (concat tracks)).
Proof.
  induction tracks as [|evs tracks IH]; cbn [events_left length replicate concat]; [reflexivity|].
  rewrite IH, length_app. lia.
Qed.

Lemma finished_tracks_start (tracks : list (list MidiEvent_t)) :
  Forall playable_track tracks ->
  finished_tracks tracks (replicate (length tracks) 0) = 0.
Proof.
  induction 1 as [|evs tracks Hev _ IH]; cbn [finished_tracks length replicate]; [reflexivity|].
  rewrite IH. destruct Hev as (Hne & _).
  destruct (Z.ltb_spec 0 (Z.of_nat (length evs))); [reflexivity|].
  destruct evs; [contradiction|cbn [length] in *; lia].
Qed.

Lemma calls_of_track_app (t : Z) (log1 log2 : list PlayerCall) :
  calls_of_track t (log1 ++ log2) = calls_of_track t log1 ++ calls_of_track t log2.
Proof. unfold calls_of_track. rewrite filter_app, map_app. reflexivity. Qed.

Lemma calls_of_track_one (t : Z) (event : MidiEvent_ptr) (track0 timeTicks timeUs : Z) :
  calls_of_track t [(event, track0, timeTicks, timeUs)]
  = if decide (track0 = t) then [event] else [].
Proof.
  unfold calls_of_track. rewrite filter_cons, filter_nil. cbn.
  destruct (decide (track0 = t)); reflexivity.
Qed.

Lemma events_of_track_next (t c : Z) :
  0 <= c -> events_of_track t (c + 1) = events_of_track t c ++ [(t, c)].
Proof.
  intros Hc. unfold events_of_track.
  rewrite seqZ_app by lia. rewrite map_app. reflexivity.
Qed.

Lemma u32_id_range (x : Z) : 0 <= x <= UINT32_MAX -> u32 x = x.
Proof. unfold u32, UINT32_MAX. intros H. apply Z.mod_small. lia. Qed.

Lemma min_spec (a b : Z) : min a b <= a /\ min a b <= b /\ (min a b = a \/ min a b = b).
Proof. unfold min. destruct (Z.ltb_spec a b); lia. Qed.

Section PlayRun.

Context {St : Type}.
Variable midi : MidiFile_t.
Variable start_usec : Z.
Variable cbFunc : playerCallback St.
Variable tracks : list (list MidiEvent_t).
Variable CbInv : St -> Prop.

Hypothesis Hplayable : playable midi tracks.

(** The callback accepts every event of the file and does not abort. *)
Hypothesis cb_ok : forall (s : St) (t e : nat) (events : list MidiEvent_t) (event : MidiEvent_t)
    (timeTicks timeUs : Z),
  CbInv s -> tracks !! t = Some events -> events !! e = Some event ->
  exists s' r,
    cbFunc s (Z.of_nat t, Z.of_nat e) (Z.of_nat t) timeTicks timeUs = Ok (s', r)
    /\ r <> Player_Callback_Abort /\ CbInv s'.

Lemma playable_track_at (k : nat) (events : list MidiEvent_t) :
  tracks !! k = Some events ->
  track_at (map track_of_events tracks) (Z.of_nat k) = Ok (track_of_events events).
Proof.
  intros Hk. apply track_at_lookup. split; [lia|].
  rewrite Nat2Z.id, list_lookup_fmap, Hk. reflexivity.
Qed.

Lemma playable_event_at (events : list MidiEvent_t) (c : Z) (event : MidiEvent_t) :
  0 <= c -> events !! Z.to_nat c = Some event ->
  event_at (track_of_events events) c = Ok event.
Proof.
  intros Hc He. apply event_at_slot. split; [exact Hc|].
  unfold track_of_events. cbn [Events]. rewrite list_lookup_fmap, He. reflexivity.
Qed.

Lemma playable_deref (k : nat) (events : list MidiEvent_t) (c : Z) (event : MidiEvent_t) :
  tracks !! k = Some events -> 0 <= c -> events !! Z.to_nat c = Some event ->
  deref midi (Z.of_nat k, c) = Ok event.
Proof.
  intros Hk Hc He. unfold deref. destruct Hplayable as (Ht & _). rewrite Ht, bind_Ok.
  cbn [fst snd]. rewrite (playable_track_at k events Hk), bind_Ok.
  apply playable_event_at; assumption.
Qed.

Lemma playable_lookup (k : nat) (events : list MidiEvent_t) :
  tracks !! k = Some events -> playable_track events.
Proof.
  intros Hk. destruct Hplayable as (_ & _ & _ & _ & Hall).
  exact (Forall_lookup_1 _ _ _ _ Hall Hk).
Qed.

Lemma playable_event_lookup (k : nat) (events : list MidiEvent_t) (e : nat)
    (event : MidiEvent_t) :
  tracks !! k = Some events -> events !! e = Some event -> playable_event event.
Proof.
  intros Hk He. destruct (playable_lookup k events Hk) as (_ & _ & Hall & _).
  exact (Forall_lookup_1 _ _ _ _ Hall He).
Qed.

(** What the player does with a playable event, whatever the callback
    returned, changes its tick duration and the device only. *)
Lemma play_event_defined (event : MidiEvent_t) (type0 r : Z) (st : PlayState St) :
  playable_event event -> MidiEvent_GetType event = Ok type0 ->
  exists st',
    play_event midi start_usec event type0 r st = Ok st'
    /\ waitTicks st' = waitTicks st /\ minimumWaitTicks st' = minimumWaitTicks st
    /\ countFinishedTracks st' = countFinishedTracks st
    /\ currentEvent st' = currentEvent st
    /\ currentTotalTime_Ticks st' = currentTotalTime_Ticks st
    /\ currentTotalTime_Usecs st' = currentTotalTime_Usecs st
    /\ cb_state st' = cb_state st /\ callbacks st' = callbacks st.
Proof.
  intros (_ & i & Hi & Htempo & Hnote & Hprogram) Htype.
  unfold MidiEvent_GetType in Htype. rewrite Hi, bind_Ok in Htype. injection Htype as <-.
  destruct Hplayable as (_ & _ & _ & Hppq & _).
  unfold play_event.
  destruct ((r =? Player_Callback_IgnoreEvent) && negb (type i =? Midi_Event_Type_SetTempo));
    [exists st; repeat split; reflexivity|].
  destruct (Z.eqb_spec (type i) Midi_Event_Type_NoteOn) as [Hon|Hon];
    destruct (Z.eqb_spec (type i) Midi_Event_Type_NoteOff) as [Hoff|Hoff]; cbn [orb andb];
    try (destruct (currentTotalTime_Usecs st >=? start_usec)).
  all: try (destruct Hnote as (channel & key & velocity & ->); [tauto|];
            eexists; split; [reflexivity|]; cbn; repeat split; reflexivity).
  all: destruct (Z.eqb_spec (type i) Midi_Event_Type_SetTempo) as [Hte|Hte].
  all: try (destruct (Htempo Hte) as (tempo & ->);
            destruct (Z.eqb_spec (PulsesPerQuarterNote midi) 0); [contradiction|];
            eexists; split; [reflexivity|]; cbn; repeat split; reflexivity).
  all: destruct (Z.eqb_spec (type i) Midi_Event_Type_ProgramChange) as [Hpc|Hpc].
  all: try (destruct (Hprogram Hpc) as (channel & program & ->);
            eexists; split; [reflexivity|]; cbn; repeat split; reflexivity).
  all: exists st; repeat split; reflexivity.
Qed.

(** A visit of the player to the track [i], in the course of a turn. *)
Lemma in_turn_step (now dec : Z) (i k0 : nat) (left0 : Z) (st : PlayState St) :
  0 <= now -> 0 <= dec -> now + dec < UINT32_MAX ->
  (i < length tracks)%nat ->
  in_turn tracks CbInv now dec i k0 left0 st ->
  exists st',
    play_track midi start_usec cbFunc (Z.of_nat i) dec st = Ok (false, st')
    /\ in_turn tracks CbInv now dec (S i) k0 left0 st'.
Proof.
  intros Hnow Hdec0 Hnew Hi
    (Hlw & Hlc & Hticks & Htracks & Hm1 & Hm2 & Hm3 & Hfin & Hleft & Hlog & Hcb).
  destruct (lookup_lt_is_Some_2 tracks i Hi) as [events Hev].
  destruct (Htracks i events Hev) as (w & c & Hw & Hc & Hts & Hdec & Hcalls).
  rewrite Nat.ltb_irrefl in Hts. destruct Hts as (Hc0 & Hwdue & Hwr & Hfin_i).
  specialize (Hdec (le_n _)).
  destruct (playable_lookup i events Hev) as (Hne & Hlen16 & Hevents & Htotal).
  pose proof (ticks_nonneg (tail events) (Forall_tail _ _ Hevents)) as Htotal0.
  unfold play_track, array_at. rewrite Nat2Z.id, Hw, bind_Ok. cbv zeta.
  rewrite (u32_id_range (w - dec)) by lia.
  cbn [waitTicks minimumWaitTicks countFinishedTracks currentEvent TickDurationUs
       currentTotalTime_Ticks currentTotalTime_Usecs cb_state callbacks device].
  destruct (Z.eqb_spec (w - dec) 0) as [Hz|Hnz]; cbn [negb].
  2: {
    (* the event of the track is not due yet *)
    eexists. split; [reflexivity|].
    unfold in_turn.
    cbn [waitTicks minimumWaitTicks countFinishedTracks currentEvent TickDurationUs
         currentTotalTime_Ticks currentTotalTime_Usecs cb_state callbacks device].
    rewrite length_insert.
    pose proof (min_spec (minimumWaitTicks st) (w - dec)) as (Hmin1 & Hmin2 & Hmin3).
    split; [exact Hlw|]. split; [exact Hlc|]. split; [exact Hticks|].
    split; [|split; [|split; [|split; [|split; [|split; [|split]]]]]].
    - intros k events' Hk. destruct (decide (k = i)) as [->|Hki].
      + rewrite Hev in Hk. injection Hk as <-.
        exists (w - dec), c. rewrite list_lookup_insert_eq by lia.
        split; [reflexivity|]. split; [exact Hc|].
        destruct (Nat.ltb_spec i (S i)); [|lia].
        split; [|split; [intros; lia|exact Hcalls]].
        split; [exact Hc0|]. split; [lia|]. split; [lia|]. intros E. specialize (Hfin_i E). lia.
      + destruct (Htracks k events' Hk) as (w' & c' & Hw' & Hc' & Hts' & Hdec' & Hcalls').
        exists w', c'. rewrite list_lookup_insert_ne by lia.
        split; [exact Hw'|]. split; [exact Hc'|].
        replace (k <? S i)%nat with (k <? i)%nat
          by (destruct (Nat.ltb_spec k i), (Nat.ltb_spec k (S i)); lia).
        split; [exact Hts'|]. split; [intros; apply Hdec'; lia|exact Hcalls'].
    - lia.
    - intros k wait Hk Hwait. destruct (decide (k = i)) as [->|Hki].
      + rewrite list_lookup_insert_eq in Hwait by lia. injection Hwait as <-. exact Hmin2.
      + rewrite list_lookup_insert_ne in Hwait by lia.
        specialize (Hm2 k wait ltac:(lia) Hwait). lia.
    - destruct Hmin3 as [E|E]; rewrite E.
      + destruct Hm3 as [Hm3|(k & Hk & Hm3)]; [left; exact Hm3|].
        right. exists k. split; [lia|]. rewrite list_lookup_insert_ne by lia. exact Hm3.
      + right. exists i. split; [lia|]. rewrite list_lookup_insert_eq by lia. reflexivity.
    - exact Hfin.
    - destruct (Nat.ltb_spec k0 i) as [Hk0|Hk0].
      + destruct (Nat.ltb_spec k0 (S i)); [exact Hleft|lia].
      + destruct Hleft as (Hleft & Hk0w).
        destruct (Nat.ltb_spec k0 (S i)) as [Hk0'|Hk0'].
        * assert (k0 = i) as -> by lia. rewrite Hw in Hk0w. injection Hk0w as ->. lia.
        * split; [exact Hleft|]. rewrite list_lookup_insert_ne by lia. exact Hk0w.
    - exact Hlog.
    - exact Hcb.
  }
  (* the event of the track is due *)
  rewrite Hc, bind_Ok.
  assert (Hcl : c < Z.of_nat (length events)).
  { destruct (Z.eq_dec c (Z.of_nat (length events))) as [E|E]; [|lia].
    rewrite E, due_finished in Hwdue. lia. }
  destruct (lookup_lt_is_Some_2 events (Z.to_nat c) ltac:(lia)) as [event Hevent].
  rewrite (playable_deref i events c event Hev ltac:(lia) Hevent), bind_Ok.
  pose proof (playable_event_lookup i events (Z.to_nat c) event Hev Hevent) as Hpe.
  assert (Htype : exists type0, MidiEvent_GetType event = Ok type0).
  { destruct Hpe as (_ & iface & Hiface & _). exists (type iface).
    unfold MidiEvent_GetType. rewrite Hiface, bind_Ok. reflexivity. }
  destruct Htype as (type0 & Htype). rewrite Htype, bind_Ok.
  destruct (cb_ok (cb_state st) i (Z.to_nat c) events event (currentTotalTime_Ticks st)
              (currentTotalTime_Usecs st) Hcb Hev Hevent) as (s' & r & Hcall & Hr & Hcb').
  rewrite Z2Nat.id in Hcall by lia. rewrite Hcall, bind_Ok. cbv beta iota.
  destruct (Z.eqb_spec r Player_Callback_Abort) as [|_]; [contradiction|].
  match goal with
  | |- context [play_event midi start_usec event type0 r ?st0] =>
      destruct (play_event_defined event type0 r st0 Hpe Htype)
        as (st1 & Hplay & E1 & E2 & E3 & E4 & E5 & E6 & E7 & E8)
  end.
  cbn [waitTicks minimumWaitTicks countFinishedTracks currentEvent TickDurationUs
       currentTotalTime_Ticks currentTotalTime_Usecs cb_state callbacks device]
    in E1, E2, E3, E4, E5, E6, E7, E8.
  rewrite Hplay, bind_Ok.
  unfold next_event. destruct Hplayable as (HTracks & HnTrks & Hn16 & _).
  rewrite HTracks, bind_Ok, (playable_track_at i events Hev), bind_Ok.
  unfold array_at. rewrite E4, Nat2Z.id, Hc, bind_Ok. cbv zeta.
  assert (Hu16 : u16 (c + 1) = c + 1) by (unfold u16; apply Z.mod_small; lia).
  rewrite Hu16.
  change (NumEvents (track_of_events events)) with (Z.of_nat (length events)).
  pose proof (finished_tracks_insert tracks (currentEvent st) i events c (c + 1) Hev Hc)
    as Hfin'.
  pose proof (finished_tracks_range tracks (<[i := c + 1]> (currentEvent st))) as Hfinr.
  destruct (Z.ltb_spec c (Z.of_nat (length events))) as [_|]; [|lia].
  assert (Hnext : exists wait' : Z,
            (if c + 1 >=? Z.of_nat (length events)
             then Ok (UINT32_MAX, u16 (countFinishedTracks st1 + 1))
             else event_at (track_of_events events) (c + 1)
                  ≫= (fun event0 : MidiEvent_t =>
                        Ok (deltaTime event0, countFinishedTracks st1)))
            = Ok (wait', finished_tracks tracks (<[i := c + 1]> (currentEvent st)))
            /\ track_state events (now + dec) wait' (c + 1)).
  { destruct (Z.geb_spec (c + 1) (Z.of_nat (length events))) as [Hge|Hlt].
    - exists UINT32_MAX. split.
      + rewrite E3, Hfin.
        destruct (Z.ltb_spec (c + 1) (Z.of_nat (length events))) as [|_]; [lia|].
        rewrite Hfin'.
        replace (finished_tracks tracks (currentEvent st) + 1 - 0)
          with (finished_tracks tracks (currentEvent st) + 1) by lia.
        f_equal. f_equal. unfold u16. apply Z.mod_small. rewrite Hfin' in Hfinr. lia.
      + assert (c + 1 = Z.of_nat (length events)) as Hend by lia.
        pose proof (due_last events c ltac:(lia) Hend) as Hlast.
        split; [lia|]. split; [rewrite Hend, due_finished; lia|].
        split; [unfold UINT32_MAX; lia|]. intros _. lia.
    - destruct (lookup_lt_is_Some_2 events (Z.to_nat (c + 1)) ltac:(lia)) as [event' Hevent'].
      exists (deltaTime event'). split.
      + rewrite (playable_event_at events (c + 1) event' ltac:(lia) Hevent'), bind_Ok.
        rewrite E3, Hfin.
        destruct (Z.ltb_spec (c + 1) (Z.of_nat (length events))) as [_|]; [|lia].
        rewrite Hfin'. f_equal. f_equal. lia.
      + pose proof (playable_event_lookup i events _ event' Hev Hevent') as (Hd & _).
        pose proof (due_next events c event' ltac:(lia) Hlt Hevent') as Hdn.
        split; [lia|]. split; [lia|]. split; [unfold UINT32_MAX; lia|]. lia. }
  destruct Hnext as (wait' & Hnext & Hts'). rewrite Hnext, bind_Ok. cbv beta iota.
  rewrite bind_Ok.
  eexists. split; [reflexivity|].
  unfold in_turn.
  cbn [waitTicks minimumWaitTicks countFinishedTracks currentEvent TickDurationUs
       currentTotalTime_Ticks currentTotalTime_Usecs cb_state callbacks device].
  rewrite E1, E2, E5, E7, E8, !length_insert.
  pose proof (min_spec (minimumWaitTicks st) wait') as (Hmin1 & Hmin2 & Hmin3).
  destruct Hts' as (Hc1 & Hw1 & Hw1r & Hfin1).
  split; [exact Hlw|]. split; [exact Hlc|]. split; [exact Hticks|].
  split; [|split; [|split; [|split; [|split; [|split; [|split]]]]]].
  - intros k events' Hk. destruct (decide (k = i)) as [->|Hki].
    + rewrite Hev in Hk. injection Hk as <-.
      exists wait', (c + 1). rewrite !list_lookup_insert_eq by (rewrite ?length_insert; lia).
      split; [reflexivity|]. split; [reflexivity|].
      destruct (Nat.ltb_spec i (S i)); [|lia].
      split; [repeat split; assumption || lia|]. split; [intros; lia|].
      rewrite calls_of_track_app, calls_of_track_one, Hcalls.
      destruct (decide (Z.of_nat i = Z.of_nat i)); [|contradiction].
      rewrite events_of_track_next by lia. reflexivity.
    + destruct (Htracks k events' Hk) as (w' & c' & Hw' & Hc' & Htsk & Hdec' & Hcalls').
      exists w', c'. rewrite !list_lookup_insert_ne by lia.
      split; [exact Hw'|]. split; [exact Hc'|].
      replace (k <? S i)%nat with (k <? i)%nat
        by (destruct (Nat.ltb_spec k i), (Nat.ltb_spec k (S i)); lia).
      split; [exact Htsk|]. split; [intros; apply Hdec'; lia|].
      rewrite calls_of_track_app, calls_of_track_one, Hcalls'.
      destruct (decide (Z.of_nat i = Z.of_nat k)); [lia|]. apply app_nil_r.
  - lia.
  - intros k wait Hk Hwait. destruct (decide (k = i)) as [->|Hki].
    + rewrite list_lookup_insert_eq in Hwait by (rewrite ?length_insert; lia).
      injection Hwait as <-. exact Hmin2.
    + rewrite !list_lookup_insert_ne in Hwait by lia.
      specialize (Hm2 k wait ltac:(lia) Hwait). lia.
  - destruct Hmin3 as [E|E]; rewrite E.
    + destruct Hm3 as [Hm3|(k & Hk & Hm3)]; [left; exact Hm3|].
      right. exists k. split; [lia|]. rewrite !list_lookup_insert_ne by lia. exact Hm3.
    + right. exists i. split; [lia|].
      rewrite list_lookup_insert_eq by (rewrite ?length_insert; lia). reflexivity.
  - reflexivity.
  - rewrite (events_left_insert tracks (currentEvent st) i events c (c + 1) Hev Hc).
    destruct (Nat.ltb_spec k0 i) as [Hk0|Hk0].
    + destruct (Nat.ltb_spec k0 (S i)); [lia|lia].
    + destruct Hleft as (Hleft & Hk0w).
      destruct (Nat.ltb_spec k0 (S i)) as [Hk0'|Hk0']; [lia|].
      split; [lia|]. rewrite !list_lookup_insert_ne by lia. exact Hk0w.
  - apply Forall_app. split; [exact Hlog|]. apply Forall_cons_2; [|apply Forall_nil_2].
    exists i, (Z.to_nat c), events. cbn.
    split; [exact Hev|]. split; [lia|]. rewrite Z2Nat.id by lia.
    split; [reflexivity|]. split; [reflexivity|]. lia.
  - exact Hcb'.
Qed.

(** The visits to the tracks [i] and after, to the end of the turn. *)
Lemma in_turn_tracks (now dec : Z) (k0 : nat) (left0 : Z) (n : nat) :
  forall (i : nat) (st : PlayState St),
  0 <= now -> 0 <= dec -> now + dec < UINT32_MAX ->
  (i + n = length tracks)%nat ->
  in_turn tracks CbInv now dec i k0 left0 st ->
  exists st',
    play_tracks midi start_usec cbFunc n (Z.of_nat i) dec st = Ok (false, st')
    /\ in_turn tracks CbInv now dec (length tracks) k0 left0 st'.
Proof.
  induction n as [|n IH]; intros i st Hnow Hdec Hnew Hin Hinv; cbn [play_tracks].
  - exists st. split; [reflexivity|]. replace (length tracks) with i by lia. exact Hinv.
  - destruct (in_turn_step now dec i k0 left0 st Hnow Hdec Hnew ltac:(lia) Hinv)
      as (st1 & Hstep & Hinv1).
    rewrite Hstep, bind_Ok. cbv beta iota.
    replace (Z.of_nat i + 1) with (Z.of_nat (S i)) by lia.
    apply IH; [assumption..|lia|exact Hinv1].
Qed.

Lemma events_left_nonneg (ts : list (list MidiEvent_t)) :
  forall current : list Z,
  (forall k events c, ts !! k = Some events -> current !! k = Some c ->
     c <= Z.of_nat (length events)) ->
  0 <= events_left ts current.
Proof.
  induction ts as [|evs ts IH]; intros current H; cbn [events_left]; [lia|].
  destruct current as [|c current]; [lia|].
  pose proof (H 0%nat evs c eq_refl eq_refl).
  specialize (IH current (fun k events c' Ht Hc => H (S k) events c' Ht Hc)). lia.
Qed.

(** A turn of the loop of the player: the clock goes to the tick of the
    next event, and the turn reaches at least one event. *)
Lemma between_turns_turn (now : Z) (st : PlayState St) :
  between_turns tracks CbInv now st ->
  countFinishedTracks st < nTrks midi ->
  exists st' now',
    play_turn midi start_usec cbFunc st = Ok (false, st')
    /\ between_turns tracks CbInv now' st'
    /\ events_left tracks (currentEvent st') < events_left tracks (currentEvent st).
Proof.
  intros (Hnow & Hlw & Hlc & Hticks & Htracks & Hmin & Hmin' & Hfin & Hlog & Hcb) Hrun.
  pose proof Hplayable as (HTracks & HnTrks & Hn16 & Hppq & Hall).
  rewrite Hfin, HnTrks in Hrun.
  destruct (finished_tracks_unfinished tracks (currentEvent st) Hlc Hrun)
    as (k1 & events1 & c1 & Hk1 & Hc1 & Hc1').
  destruct (Htracks k1 events1 Hk1) as (w1 & c1' & Hw1 & Hc1'' & (Hc1r & Hw1d & Hw1r & _) & _).
  rewrite Hc1 in Hc1''. injection Hc1'' as <-.
  destruct (playable_lookup k1 events1 Hk1) as (_ & _ & Hevents1 & Htotal1).
  pose proof (due_range events1 c1 Hevents1 ltac:(lia)) as Hdue1.
  assert (Hne : tracks <> []) by (intros E; rewrite E in Hk1; discriminate Hk1).
  destruct (Hmin' Hne) as (k0 & Hk0).
  assert (Hk0l : (k0 < length tracks)%nat)
    by (rewrite <- Hlw; eapply lookup_lt_Some; exact Hk0).
  destruct (lookup_lt_is_Some_2 tracks k0 Hk0l) as [events0 Hev0].
  destruct (Htracks k0 events0 Hev0) as (w0 & c0 & Hw0 & _ & (_ & _ & Hw0r & _) & _).
  rewrite Hk0 in Hw0. injection Hw0 as <-.
  pose proof (Hmin k1 w1 Hw1) as Hm1.
  set (dec := minimumWaitTicks st) in *.
  assert (Hnew : now + dec < UINT32_MAX) by lia.
  unfold play_turn. cbv zeta. fold dec. rewrite Hticks.
  rewrite (u32_id_range (now + dec)) by lia.
  rewrite HnTrks, Nat2Z.id.
  match goal with
  | |- context [play_tracks midi start_usec cbFunc (length tracks) 0 dec ?st0] =>
      destruct (in_turn_tracks now dec k0 (events_left tracks (currentEvent st))
                  (length tracks) 0%nat st0 ltac:(lia) ltac:(lia) Hnew ltac:(lia))
        as (st' & Hrun' & Hinv')
  end.
  { unfold in_turn.
    cbn [waitTicks minimumWaitTicks countFinishedTracks currentEvent TickDurationUs
         currentTotalTime_Ticks currentTotalTime_Usecs cb_state callbacks device].
    split; [exact Hlw|]. split; [exact Hlc|]. split; [reflexivity|].
    split; [|split; [|split; [|split; [|split; [|split; [|split]]]]]].
    - intros k events Hk.
      destruct (Htracks k events Hk) as (w & c & Hw & Hc & Hts & Hcalls).
      exists w, c. split; [exact Hw|]. split; [exact Hc|].
      split; [exact Hts|]. split; [intros _; apply (Hmin k w Hw)|exact Hcalls].
    - lia.
    - intros k wait Hk. lia.
    - left. reflexivity.
    - exact Hfin.
    - cbn. split; [lia|exact Hk0].
    - exact Hlog.
    - exact Hcb. }
  change (Z.of_nat 0) with 0 in Hrun'. rewrite Hrun'.
  exists st', (now + dec). split; [reflexivity|].
  destruct Hinv' as (Hlw' & Hlc' & Hticks' & Htracks' & Hm1' & Hm2' & Hm3' & Hfin' & Hleft'
                     & Hlog' & Hcb').
  destruct (Nat.ltb_spec k0 (length tracks)) as [_|]; [|lia].
  split; [|exact Hleft'].
  split; [lia|]. split; [exact Hlw'|]. split; [exact Hlc'|]. split; [exact Hticks'|].
  split; [|split; [|split; [|split; [|split]]]].
  - intros k events Hk.
    destruct (Htracks' k events Hk) as (w & c & Hw & Hc & Hts & _ & Hcalls).
    pose proof (lookup_lt_Some _ _ _ Hk) as Hkl.
    destruct (Nat.ltb_spec k (length tracks)) as [_|]; [|lia].
    exists w, c. auto.
  - intros k wait Hwait. apply (Hm2' k wait); [|exact Hwait].
    rewrite <- Hlw'. eapply lookup_lt_Some; exact Hwait.
  - intros _. destruct Hm3' as [Hmax|(k & _ & Hk)]; [|exists k; exact Hk].
    exists k0. destruct (Htracks' k0 events0 Hev0) as (w & c & Hw & _ & (_ & _ & Hwr & _) & _).
    pose proof (Hm2' k0 w Hk0l Hw). rewrite Hw. f_equal. lia.
  - exact Hfin'.
  - exact Hlog'.
  - exact Hcb'.
Qed.

(** The loop of the player ends, with every track finished, within one
    turn for each event that is left and one more. *)
Lemma between_turns_loop (fuel : nat) : forall (now : Z) (st : PlayState St),
  between_turns tracks CbInv now st ->
  events_left tracks (currentEvent st) < Z.of_nat fuel ->
  exists st' now',
    play_loop midi start_usec cbFunc fuel st = Ok st'
    /\ between_turns tracks CbInv now' st'
    /\ nTrks midi <= countFinishedTracks st'.
Proof.
  induction fuel as [|fuel IH]; intros now st Hinv Hleft.
  - exfalso. destruct Hinv as (_ & _ & _ & _ & Htracks & _).
    pose proof (events_left_nonneg tracks (currentEvent st)) as Hnn.
    assert (0 <= events_left tracks (currentEvent st)); [|lia].
    apply Hnn. intros k events c Hk Hc.
    destruct (Htracks k events Hk) as (w & c' & _ & Hc' & (Hr & _) & _).
    rewrite Hc in Hc'. injection Hc' as <-. lia.
  - cbn [play_loop]. destruct (Z.ltb_spec (countFinishedTracks st) (nTrks midi)) as [Hrun|Hend].
    + destruct (between_turns_turn now st Hinv Hrun) as (st1 & now1 & Hturn & Hinv1 & Hless).
      rewrite Hturn, bind_Ok. cbv beta iota.
      apply (IH now1 st1 Hinv1). lia.
    + exists st, now. auto.
Qed.

Lemma between_turns_start (s : St) :
  CbInv s -> between_turns tracks CbInv 0 (play_start midi s).
Proof.
  intros Hs. pose proof Hplayable as (HTracks & HnTrks & Hn16 & Hppq & Hall).
  unfold between_turns, play_start.
  cbn [waitTicks minimumWaitTicks countFinishedTracks currentEvent TickDurationUs
       currentTotalTime_Ticks currentTotalTime_Usecs cb_state callbacks device].
  rewrite HnTrks, Nat2Z.id, !length_replicate.
  split; [unfold UINT32_MAX; lia|]. split; [reflexivity|]. split; [reflexivity|].
  split; [reflexivity|].
  split; [|split; [|split; [|split; [|split]]]].
  - intros k events Hk. pose proof (lookup_lt_Some _ _ _ Hk) as Hkl.
    exists 0, 0. rewrite !lookup_replicate_2 by exact Hkl.
    split; [reflexivity|]. split; [reflexivity|].
    destruct (playable_lookup k events Hk) as (Hne & _).
    assert (0 < Z.of_nat (length events))
      by (destruct events; [contradiction|cbn [length]; lia]).
    split; [|reflexivity].
    split; [lia|]. split.
    + unfold due. destruct (Z.ltb_spec 0 (Z.of_nat (length events))); [|lia]. reflexivity.
    + split; [unfold UINT32_MAX; lia|]. lia.
  - intros k wait Hwait. apply lookup_replicate in Hwait as (-> & _). lia.
  - intros Hne. exists 0%nat. apply lookup_replicate_2.
    destruct tracks; [contradiction|cbn [length]; lia].
  - symmetry. apply finished_tracks_start. exact Hall.
  - constructor.
  - exact Hs.
Qed.

(** The run of [MidiFile_Play] over a playable file, with a callback
    that does not abort. *)
Lemma MidiFile_Play_run (fuel : nat) (s : St) :
  CbInv s -> (length (concat tracks) < fuel)%nat ->
  exists st,
    MidiFile_Play midi start_usec cbFunc fuel s = Ok st
    /\ CbInv (cb_state st)
    /\ (forall k events, tracks !! k = Some events ->
          calls_of_track (Z.of_nat k) (callbacks st)
          = events_of_track (Z.of_nat k) (Z.of_nat (length events)))
    /\ Forall (call_on_time tracks) (callbacks st).
Proof.
  intros Hs Hfuel. unfold MidiFile_Play.
  destruct (between_turns_loop fuel 0 (play_start midi s) (between_turns_start s Hs))
    as (st & now & Hloop & Hinv & Hend).
  { unfold play_start. cbn [currentEvent].
    destruct Hplayable as (_ & HnTrks & _). rewrite HnTrks, Nat2Z.id, events_left_start. lia. }
  exists st. split; [exact Hloop|].
  destruct Hinv as (_ & _ & _ & _ & Htracks & _ & _ & Hfin & Hlog & Hcb).
  split; [exact Hcb|]. split; [|exact Hlog].
  intros k events Hk.
  destruct (Htracks k events Hk) as (w & c & _ & Hc & (Hcr & _) & Hcalls).
  destruct Hplayable as (_ & HnTrks & _). rewrite Hfin, HnTrks in Hend.
  pose proof (finished_tracks_all tracks (currentEvent st) Hend k events c Hk Hc).
  replace (Z.of_nat (length events)) with c by lia. exact Hcalls.
Qed.

End PlayRun.

(** *** The time map of a playable file *)










Lemma note_file_playable : playable note_file note_file_tracks.
Proof.
  split; [reflexivity|]. split; [reflexivity|]. split; [cbn; lia|].
  split; [cbn; lia|].
  repeat (apply Forall_cons_2; [|]); try apply Forall_nil_2.
  all: split; [discriminate|]; split; [cbn; lia|]; split; [|cbn; unfold UINT32_MAX; lia].
  all: repeat (apply Forall_cons_2; [|]); try apply Forall_nil_2.
  all: split; [cbn; lia|]; eexists; split; [reflexivity|]; cbn.
  all: repeat split; try (intros H; discriminate H); try (intros [H|H]; discriminate H); eauto.
Qed.



(** X27.  [MidiFile_Play] reaches every event of a playable file: with
    a callback that takes every call and never aborts it returns,
    within one turn of its loop for each event and one more, and it has
    called the callback for the events of each track, all of them, in
    their order, each with the number of its track and at the tick that
    is the sum of the delta-times of the events of the track up to it,
    the delta-time of the first event left out.  Every call it made is
    one of these. *)
Theorem MidiFile_Play_reaches_every_event {St : Type} (midi : MidiFile_t) (start_usec : Z)
    (cbFunc : playerCallback St) (tracks : list (list MidiEvent_t)) (fuel : nat) (s : St) :
  playable midi tracks ->
  (forall s event track0 timeTicks timeUs,
     exists s' r, cbFunc s event track0 timeTicks timeUs = Ok (s', r)
                  /\ r <> Player_Callback_Abort) ->
  (length (concat tracks) < fuel)%nat ->
  exists st,
    MidiFile_Play midi start_usec cbFunc fuel s = Ok st
    /\ (forall k events, tracks !! k = Some events ->
          calls_of_track (Z.of_nat k) (callbacks st)
          = events_of_track (Z.of_nat k) (Z.of_nat (length events)))
    /\ Forall (call_on_time tracks) (callbacks st).
Proof.
  intros Hp Hcb Hfuel.
  destruct (MidiFile_Play_run midi start_usec cbFunc tracks (fun _ => True) Hp)
    with (fuel := fuel) (s := s) as (st & Hplay & _ & Hcalls & Hlog).
  - intros s0 t e events event timeTicks timeUs _ _ _.
    destruct (Hcb s0 (Z.of_nat t, Z.of_nat e) (Z.of_nat t) timeTicks timeUs)
      as (s' & r & H1 & H2).
    exists s', r. auto.
  - exact I.
  - exact Hfuel.
  - exists st. auto.
Qed.

Lemma MidiFile_Play_reaches_every_event_witness :
  exists st,
    MidiFile_Play note_file 0 trivial_callback 9 tt = Ok st
    /\ calls_of_track 0 (callbacks st) = [(0, 0); (0, 1); (0, 2); (0, 3); (0, 4)]
    /\ calls_of_track 1 (callbacks st) = [(1, 0); (1, 1); (1, 2)].
Proof.
  destruct (MidiFile_Play_reaches_every_event note_file 0 trivial_callback note_file_tracks
              9 tt note_file_playable) as (st & Hplay & Hcalls & _).
  - intros s event track0 timeTicks timeUs. exists s, Player_Callback_PlayEvent.
    split; [reflexivity|discriminate].
  - cbn. lia.
  - exists st. split; [exact Hplay|].
    split; [exact (Hcalls 0%nat _ eq_refl)|exact (Hcalls 1%nat _ eq_refl)].
Defined.
